(** * KenPom table parsers: a shallow embedding and its properties

    The development follows [src/parsers.ts] (the endpoint parsers and the
    two compound-field parsers) and the table helpers of the utilities
    module ([parseTable], [parseTableElement]).

    - [Js]      the JavaScript string and number primitives the parsers use;
    - [Regex]   a backtracking matcher for the regular expressions of the
                source, with the priorities of the JavaScript engine;
    - [Dom]     the part of cheerio the parsers use ([find], [text], [eq]);
    - [Parsers] the functions of [src/parsers.ts];
    - [Utils]   the functions of the utilities module;
    - [Shape]   the vocabulary the properties are stated in.

    Strings are lists of code units below 256 (the Latin-1 part of a
    JavaScript string).  Numbers are only ever produced from digit strings
    and subtracted, so the integral doubles, the negative zero, the
    infinities and NaN are modelled: an integer is rounded to the nearest
    double, which is the integer itself as long as it stays within 2^53. *)

From Stdlib Require Import ZArith Ascii String List Lia Bool DecimalString.
From Stdlib Require DecimalNat DecimalPos.
From stdpp Require Import gmap strings list.

Abbreviation str := (list ascii).

(** String literals denote lists of characters. *)
Definition literal : Type := list ascii.
Declare Scope str_scope.
Set Warnings "-via-type-mismatch,-via-type-remapping".
String Notation literal string_of_list_byte list_byte_of_string
  (via string mapping [[nil] => EmptyString, [cons] => String]) : str_scope.
Set Warnings "via-type-mismatch,via-type-remapping".
Local Open Scope str_scope.

(** ** JavaScript primitives *)

Module Js.

Definition code (c : ascii) : nat := nat_of_ascii c.

(** [\d] *)
Definition is_digit (c : ascii) : bool :=
  (48 <=? code c) && (code c <=? 57).

(** [\s], which is also what [trim] removes: tab, line feed, vertical tab,
    form feed, carriage return, space and the no-break space. *)
Definition is_space (c : ascii) : bool :=
  ((9 <=? code c) && (code c <=? 13)) || (code c =? 32) || (code c =? 160).

(** Line terminators, which [.] does not match. *)
Definition is_line_terminator (c : ascii) : bool :=
  (code c =? 10) || (code c =? 13).

Fixpoint drop_while (f : ascii -> bool) (s : str) : str :=
  match s with
  | [] => []
  | a :: s' => if f a then drop_while f s' else s
  end.

Fixpoint take_while (f : ascii -> bool) (s : str) : str :=
  match s with
  | [] => []
  | a :: s' => if f a then a :: take_while f s' else []
  end.

(** [s.trim()] *)
Definition trim (s : str) : str :=
  rev (drop_while is_space (rev (drop_while is_space s))).

(** A string is falsy exactly when it is empty. *)
Definition truthy (s : str) : bool :=
  match s with [] => false | _ => true end.

Fixpoint starts_with (p s : str) : bool :=
  match p, s with
  | [], _ => true
  | a :: p', b :: s' => Ascii.eqb a b && starts_with p' s'
  | _ :: _, [] => false
  end.

(** [s.includes(p)] *)
Fixpoint includes (p s : str) : bool :=
  starts_with p s ||
  match s with
  | [] => false
  | _ :: s' => includes p s'
  end.

(** [s.split(sep)] for a literal, non-empty separator: [cur] is the part
    being read, [skip] the number of characters of a separator still to
    pass over. *)
Fixpoint split_go (sep : str) (skip : nat) (cur : str) (s : str) : list str :=
  match s with
  | [] => [cur]
  | a :: s' =>
      match skip with
      | S n => split_go sep n cur s'
      | O =>
          if starts_with sep s
          then cur :: split_go sep (length sep - 1) [] s'
          else split_go sep 0 (cur ++ [a]) s'
      end
  end.

Definition split (sep : str) (s : str) : list str := split_go sep 0 [] s.

(** [s.split(/\s+/)]: the string is cut at every maximal run of white
    space; a run at either end leaves an empty part there. *)
Fixpoint split_ws_go (cur : str) (in_sep : bool) (s : str) : list str :=
  match s with
  | [] => [cur]
  | a :: s' =>
      if is_space a
      then if in_sep then split_ws_go cur true s'
           else cur :: split_ws_go [] true s'
      else split_ws_go (cur ++ [a]) false s'
  end.

Definition split_ws (s : str) : list str := split_ws_go [] false s.

(** [parts.join(sep)] *)
Fixpoint join (sep : str) (parts : list str) : str :=
  match parts with
  | [] => []
  | [p] => p
  | p :: ps => p ++ sep ++ join sep ps
  end.

(** [a.slice(1)] and [a.slice(1, -1)] *)
Definition slice1 {A} (l : list A) : list A := drop 1 l.
Definition slice1m1 {A} (l : list A) : list A := removelast (drop 1 l).

(** [a[a.length - 1]] *)
Definition last_elem {A} (l : list A) : option A := last l.

(** Numbers: [Num z] for an integer [z] that is a double, the negative
    zero, the infinities and NaN. *)
Inductive number := Num (z : Z) | NegZero | Infinity (negative : bool) | NaN.

Definition isNaN (n : number) : bool :=
  match n with NaN => true | _ => false end.

(** The number value of an integer: the nearest double, the one with the
    even significand of 53 bits when two are as near, and an infinity
    from [2^1024 - 2^970] on. *)
Definition to_double (z : Z) : number :=
  let m := Z.abs z in
  if (m <? 2 ^ 53)%Z then Num z
  else
    let e := (Z.log2 m - 52)%Z in
    let q := Z.shiftr m e in
    let r := Z.land m (Z.ones e) in
    let half := (2 ^ (e - 1))%Z in
    let q' := if (half <? r)%Z || ((r =? half)%Z && Z.odd q)
              then (q + 1)%Z else q in
    let v := Z.shiftl q' e in
    if (2 ^ 1024 <=? v)%Z then Infinity (z <? 0)%Z else Num (Z.sgn z * v).

(** [a - b] *)
Definition sub (a b : number) : number :=
  match a, b with
  | NaN, _ | _, NaN => NaN
  | Infinity s, Infinity t => if Bool.eqb s t then NaN else Infinity s
  | Infinity s, _ => Infinity s
  | _, Infinity t => Infinity (negb t)
  | NegZero, NegZero => Num 0
  | NegZero, Num y => if (y =? 0)%Z then NegZero else to_double (- y)
  | Num x, NegZero => Num x
  | Num x, Num y => to_double (x - y)
  end.

Definition digit_val (c : ascii) : Z := Z.of_nat (code c - 48).

(** The value of a string of decimal digits, most significant first. *)
Definition dec (s : str) : Z :=
  fold_left (fun acc c => 10 * acc + digit_val c)%Z s 0%Z.

Definition hex_val (c : ascii) : option Z :=
  let n := code c in
  if is_digit c then Some (Z.of_nat (n - 48))
  else if (97 <=? n) && (n <=? 102) then Some (Z.of_nat (n - 87))
  else if (65 <=? n) && (n <=? 70) then Some (Z.of_nat (n - 55))
  else None.

Definition is_hex (c : ascii) : bool :=
  match hex_val c with Some _ => true | None => false end.

Definition hex (s : str) : Z :=
  fold_left (fun acc c => 16 * acc + default 0 (hex_val c))%Z s 0%Z.

(** [parseInt(s)] without a radix: leading white space is skipped, a sign
    is read, a [0x] prefix selects base 16, and the longest prefix of
    digits is the value; NaN when there is no digit. *)
Definition parseInt (s : str) : number :=
  let s1 := drop_while is_space s in
  let '(neg, s2) :=
    match s1 with
    | a :: r =>
        if Ascii.eqb a "-" then (true, r)
        else if Ascii.eqb a "+" then (false, r)
        else (false, s1)
    | [] => (false, s1)
    end in
  let mag :=
    if starts_with "0x" s2 || starts_with "0X" s2 then
      match take_while is_hex (drop 2 s2) with
      | [] => None
      | ds => Some (hex ds)
      end
    else
      match take_while is_digit s2 with
      | [] => None
      | ds => Some (dec ds)
      end in
  match mag with
  | None => NaN
  | Some m =>
      if neg then (if (m =? 0)%Z then NegZero else to_double (- m))
      else to_double m
  end.

(** [Number(s)] and [parseFloat(s)].  The parsers apply them to text that a
    regular expression has matched against [\d+], so only unsigned decimal
    integers are modelled: [Number] of any other non-empty string is NaN
    here and [parseFloat] reads the leading digits only, although
    JavaScript also reads signs, fractions, exponents and radix prefixes. *)
Definition Number (s : str) : number :=
  match trim s with
  | [] => Num 0
  | t => if forallb is_digit t then to_double (dec t) else NaN
  end.

Definition parseFloat (s : str) : number :=
  match take_while is_digit (drop_while is_space s) with
  | [] => NaN
  | ds => to_double (dec ds)
  end.

(** [String(n)] for a length or an index: its decimal digits. *)
Definition show_nat (n : nat) : str :=
  list_ascii_of_string (NilZero.string_of_uint (Nat.to_uint n)).

(** All the decimal digits of an integer. *)
Definition decimal (z : Z) : str :=
  list_ascii_of_string (NilZero.string_of_int (Z.to_int z)).

(** The integer [String(x)] spells out for a double [x] of [n] digits:
    the one with the fewest digits before its final zeros that still
    reads back as [x], and the nearest to [x] among those; [k] counts the
    digits tried, [fuel] the tries left. *)
Fixpoint shortest (fuel : nat) (k n x : Z) : Z :=
  match fuel with
  | O => x
  | S fuel' =>
      let p := (10 ^ (n - k))%Z in
      let lo := (x / p * p)%Z in
      let hi := (lo + p)%Z in
      let reads w := match to_double w with
                     | Num y => (y =? x)%Z
                     | _ => false
                     end in
      match reads lo, reads hi with
      | true, true =>
          if (x - lo <? hi - x)%Z then lo
          else if (hi - x <? x - lo)%Z then hi
          else if Z.even (lo / p) then lo else hi
      | true, false => lo
      | false, true => hi
      | false, false => shortest fuel' (k + 1)%Z n x
      end
  end.

(** [String(x)] for an integer [x] that is a double, as a template
    literal inserts it: all the digits up to [2^53]; beyond, the digits
    of [shortest] followed by zeros when there are at most 21 of them in
    all, and the exponent notation otherwise. *)
Definition show_Z (z : Z) : str :=
  let x := Z.abs z in
  let sign : str := if (z <? 0)%Z then "-" else "" in
  if (x <? 2 ^ 53)%Z then decimal z
  else
    let n := Z.of_nat (length (decimal x)) in
    let w := decimal (shortest 17 1 n x) in
    if (Z.of_nat (length w) <=? 21)%Z then sign ++ w
    else
      let s := rev (drop_while (Ascii.eqb "0") (rev w)) in
      sign ++ take 1 s
           ++ (if (1 <? length s)%nat then "." ++ drop 1 s else "")
           ++ "e+" ++ decimal (Z.of_nat (length w) - 1).

(** [A-Za-z] *)
Definition is_alpha (c : ascii) : bool :=
  ((65 <=? code c) && (code c <=? 90)) || ((97 <=? code c) && (code c <=? 122)).

(** A value that may be undefined is truthy when it is a non-empty string. *)
Definition truthy_opt (v : option str) : bool :=
  match v with Some s => truthy s | None => false end.

End Js.

(** ** Regular expressions *)

Module Regex.
Import Js.

(** Character classes: [\d], [\s], [.] and a literal character. *)
Inductive cclass := Digit | Space | AnyChar | Lit (c : ascii).

Definition cmatch (cl : cclass) (a : ascii) : bool :=
  match cl with
  | Digit => is_digit a
  | Space => is_space a
  | AnyChar => negb (is_line_terminator a)
  | Lit c => Ascii.eqb c a
  end.

(** A pattern is a sequence of items.  Every quantifier of the source
    applies to a single character class: [Rep greedy lo hi c] is [c{lo,hi}]
    ([hi = None] for no upper bound), lazy when [greedy] is false.
    [Open n] and [Close n] are the parentheses of capture group [n];
    [Bos] is [^] and [Eos] is [$] (no [m] flag is used). *)
Inductive item :=
| One (c : cclass)
| Rep (greedy : bool) (lo : nat) (hi : option nat) (c : cclass)
| Open (n : nat)
| Close (n : nat)
| Bos
| Eos.

Definition star c := Rep true 0 None c.
Definition plus c := Rep true 1 None c.
Definition lazy_plus c := Rep false 1 None c.
Definition opt c := Rep true 0 (Some 1) c.

(** Capture state: where the open groups started and the extent of the
    closed ones, as offsets into the subject. *)
Record captures := Captures {
  starts : gmap nat nat;
  groups : gmap nat (nat * nat)
}.

Definition no_captures : captures := Captures ∅ ∅.

Definition open_group (n pos : nat) (st : captures) : captures :=
  Captures (<[n := pos]> (starts st)) (groups st).

Definition close_group (n pos : nat) (st : captures) : captures :=
  match starts st !! n with
  | Some b => Captures (starts st) (<[n := (b, pos)]> (groups st))
  | None => st
  end.

Definition may_repeat (hi : option nat) : bool :=
  match hi with Some O => false | _ => true end.

(** The quantifier: a greedy one first tries one more character and falls
    back to the continuation [k]; a lazy one tries [k] first. *)
Fixpoint rep {R} (c : cclass) (greedy : bool) (k : nat -> str -> option R)
    (lo : nat) (hi : option nat) (pos : nat) (s : str) : option R :=
  if greedy then
    match
      match s with
      | a :: s' =>
          if cmatch c a && may_repeat hi
          then rep c greedy k (pred lo) (pred <$> hi) (S pos) s'
          else None
      | [] => None
      end
    with
    | Some r => Some r
    | None => match lo with O => k pos s | S _ => None end
    end
  else
    match match lo with O => k pos s | S _ => None end with
    | Some r => Some r
    | None =>
        match s with
        | a :: s' =>
            if cmatch c a && may_repeat hi
            then rep c greedy k (pred lo) (pred <$> hi) (S pos) s'
            else None
        | [] => None
        end
    end.

(** [run p pos s st]: match the pattern [p] against [s], the part of the
    subject from offset [pos] on; the result is the offset after the match
    and the captures. *)
Fixpoint run (p : list item) (pos : nat) (s : str) (st : captures)
    : option (nat * captures) :=
  match p with
  | [] => Some (pos, st)
  | One c :: p' =>
      match s with
      | a :: s' => if cmatch c a then run p' (S pos) s' st else None
      | [] => None
      end
  | Rep g lo hi c :: p' =>
      rep c g (fun pos' s' => run p' pos' s' st) lo hi pos s
  | Open n :: p' => run p' pos s (open_group n pos st)
  | Close n :: p' => run p' pos s (close_group n pos st)
  | Bos :: p' => if pos =? 0 then run p' pos s st else None
  | Eos :: p' => match s with [] => run p' pos s st | _ :: _ => None end
  end.

(** The leftmost match at or after offset [pos]: start, end, captures. *)
Fixpoint search (p : list item) (pos : nat) (s : str)
    : option (nat * nat * captures) :=
  match run p pos s no_captures with
  | Some (e, st) => Some (pos, e, st)
  | None =>
      match s with
      | [] => None
      | _ :: s' => search p (S pos) s'
      end
  end.

(** The result of [s.match(re)] for a regular expression without the [g]
    flag: [group m 0] is the whole match and [group m n] capture [n]. *)
Record match_result := Match {
  subject : str;
  index : nat;
  last_index : nat;
  caps : captures
}.

Definition exec (p : list item) (s : str) : option match_result :=
  match search p 0 s with
  | Some (b, e, st) => Some (Match s b e st)
  | None => None
  end.

Definition substring (s : str) (b e : nat) : str := take (e - b) (drop b s).

Definition group (m : match_result) (n : nat) : option str :=
  match n with
  | O => Some (substring (subject m) (index m) (last_index m))
  | _ => (fun be => substring (subject m) (fst be) (snd be)) <$> groups (caps m) !! n
  end.

(** [s.replace(re, repl)] without the [g] flag ([repl] has no [$]). *)
Definition replace (p : list item) (repl : str) (s : str) : str :=
  match search p 0 s with
  | Some (b, e, _) => take b s ++ repl ++ drop e s
  | None => s
  end.

(** [s.replace(re, repl)] with the [g] flag: [s] is the part of the subject
    from offset [pos] on; after an empty match one character is copied. *)
Fixpoint replace_all_go (fuel : nat) (p : list item) (repl : str)
    (pos : nat) (s : str) : str :=
  match fuel with
  | O => s
  | S fuel' =>
      match search p pos s with
      | None => s
      | Some (b, e, _) =>
          take (b - pos) s ++ repl ++
          (if e =? b then
             match drop (b - pos) s with
             | [] => []
             | a :: s' => a :: replace_all_go fuel' p repl (S b) s'
             end
           else replace_all_go fuel' p repl e (drop (e - pos) s))
      end
  end.

Definition replace_all (p : list item) (repl : str) (s : str) : str :=
  replace_all_go (S (length s)) p repl 0 s.

(** A literal string as a pattern. *)
Definition lits (s : str) : list item := (fun c => One (Lit c)) <$> s.

(** The leftmost match of [(?:p)?q]: at every offset the pattern with the
    optional part is tried before the pattern without it. *)
Fixpoint search_opt (p q : list item) (pos : nat) (s : str)
    : option (nat * nat * captures) :=
  match run (p ++ q) pos s no_captures with
  | Some (e, st) => Some (pos, e, st)
  | None =>
      match run q pos s no_captures with
      | Some (e, st) => Some (pos, e, st)
      | None =>
          match s with
          | [] => None
          | _ :: s' => search_opt p q (S pos) s'
          end
      end
  end.

(** [s.replace(/[...]/g, repl)] for a pattern that is one bracketed
    character class: every character of the class is replaced. *)
Definition replace_chars (cl : ascii -> bool) (repl : str) (s : str) : str :=
  flat_map (fun a => if cl a then repl else [a]) s.

(** [s.match(/^([...]+)/)] for one bracketed character class: group 1 is
    the longest prefix within the class; no match when it is empty. *)
Definition match_prefix (cl : ascii -> bool) (s : str) : option str :=
  match take_while cl s with
  | [] => None
  | t => Some t
  end.

End Regex.

(** ** The document tree and the cheerio operations the parsers use *)

Module Dom.
Import Js.

(** An element carries its identity [uid] (distinct elements of one
    document have distinct identities), its lower-case tag name and its
    children in document order. *)
#[warning="-register-all"]
Inductive node :=
| Elem (uid : nat) (tag : str) (children : list node)
| Text (data : str).

(** The descendants of a node, in document order. *)
Fixpoint descendants (n : node) : list node :=
  match n with
  | Text _ => []
  | Elem _ _ kids => flat_map (fun k => k :: descendants k) kids
  end.

Definition has_tag (tags : list str) (n : node) : bool :=
  match n with
  | Elem _ t _ => bool_decide (t ∈ tags)
  | Text _ => false
  end.

(** A selection holds every element once. *)
Fixpoint uniq (seen : list nat) (l : list node) : list node :=
  match l with
  | [] => []
  | Elem u t kids :: l' =>
      if bool_decide (u ∈ seen) then uniq seen l'
      else Elem u t kids :: uniq (u :: seen) l'
  | Text d :: l' => Text d :: uniq seen l'
  end.

(** [sel.find('t1, t2, ...')]: the descendants of the selected nodes that
    carry one of the tags, each once, in document order. *)
Definition find (tags : list str) (sel : list node) : list node :=
  uniq [] (flat_map (fun r => filter (fun n => has_tag tags n) (descendants r)) sel).

(** [$(el).text()]: the text of all descendants, concatenated. *)
Fixpoint text (n : node) : str :=
  match n with
  | Text d => d
  | Elem _ _ kids => flat_map text kids
  end.

(** [sel.eq(i)]: a negative index counts from the end; out of range the
    selection is empty. *)
Definition eq (sel : list node) (i : Z) : list node :=
  let j := if (i <? 0)%Z then (Z.of_nat (length sel) + i)%Z else i in
  if (j <? 0)%Z then []
  else match sel !! Z.to_nat j with
       | Some n => [n]
       | None => []
       end.

Definition first (sel : list node) : list node :=
  match sel with [] => [] | n :: _ => [n] end.

Definition last (sel : list node) : list node :=
  match List.last (Some <$> sel) None with Some n => [n] | None => [] end.

(** [sel.each((i, el) => ...)] over a state the callback updates. *)
Fixpoint each {A B : Type} (f : nat -> A -> B -> B) (i : nat) (l : list A) (acc : B) : B :=
  match l with
  | [] => acc
  | x :: l' => each f (S i) l' (f i x acc)
  end.

End Dom.

(** A thrown [Error] carries its message. *)
Inductive result (A : Type) :=
| Ok (a : A)
| Throw (message : str).
Arguments Ok {A} a.
Arguments Throw {A} message.

#[global] Instance result_eq_dec {A} `{EqDecision A} : EqDecision (result A).
Proof. solve_decision. Defined.

(** A [TableRow]: an object from column name to cell text. *)
Abbreviation TableRow := (gmap str str).

(** [row[key] = value] on an object literal.  The key [__proto__] is the
    accessor of [Object.prototype]: its setter ignores a string, and no own
    key is created. *)
Definition put (key value : str) (row : TableRow) : TableRow :=
  if bool_decide (key = "__proto__") then row else <[key := value]> row.

(** ** [src/parsers.ts] *)

Module Parsers.
Import Js Regex Dom.

(** *** Helper functions *)

(** [/\d+/g] and [/(\d+)/] *)
Definition digitsRe : list item := [plus Digit].
Definition seedRe : list item := [Open 1; plus Digit; Close 1].

Definition stripSeed (team : option str) : str :=
  match team with
  | None => ""
  | Some team =>
      if negb (truthy team) then ""
      else trim (replace_all digitsRe "" team)
  end.

Definition extractSeed (team : option str) : option str :=
  match team with
  | None => None
  | Some team =>
      if negb (truthy team) then None
      else exec seedRe team ≫= fun m => group m 1
  end.

(** [getTable]: [doc] is the document [cheerio.load(html)] returns. *)
Definition getTable (doc : node) (tableIndex : Z) : result (list node) :=
  let tables := find ["table"] [doc] in
  if length tables =? 0 then
    Throw "No tables found"
  else if (tableIndex >=? Z.of_nat (length tables))%Z then
    Throw ("Table index " ++ show_Z tableIndex ++ " out of bounds. Found "
           ++ show_nat (length tables) ++ " tables.")
  else Ok (eq tables tableIndex).

(** The body rows of a table, as every parser selects them. *)
Definition bodyRows (table : list node) : list node :=
  let tbody := find ["tbody"] table in
  if 0 <? length tbody then find ["tr"] tbody
  else drop 1 (find ["tr"] table).

Definition extractRows (table : list node) (columns : list str) : list TableRow :=
  let rows : list TableRow := [] in
  each (fun _i row (rows : list TableRow) =>
    let cells := find ["td"] [row] in
    if length cells =? 0 then rows
    else
      let rowData : TableRow := ∅ in
      let rowData :=
        each (fun j cell (rowData : TableRow) =>
          match columns !! j with
          | Some col => put col (trim (text cell)) rowData
          | None => rowData
          end) 0 cells rowData in
      if 0 <? size rowData then rows ++ [rowData] else rows)
    0 (bodyRows table) rows.

(** *** Pomeroy ratings *)

Definition pomeroyColumns : list str :=
  ["Rk"; "Team"; "Conf"; "W-L"; "AdjEM";
   "AdjO"; "AdjO.Rank"; "AdjD"; "AdjD.Rank";
   "AdjT"; "AdjT.Rank"; "Luck"; "Luck.Rank";
   "SOS-AdjEM"; "SOS-AdjEM.Rank"; "SOS-OppO"; "SOS-OppO.Rank";
   "SOS-OppD"; "SOS-OppD.Rank"; "NCSOS-AdjEM"; "NCSOS-AdjEM.Rank"].

(** The row a ratings row is mapped to: [{...row, Team, Seed}]. *)
Definition pomeroyRow (row : TableRow) : TableRow :=
  let seed := extractSeed (row !! "Team") in
  <["Seed" := default "" seed]> (<["Team" := stripSeed (row !! "Team")]> row).

Definition parsePomeroyRatings (doc : node) : result (list TableRow) :=
  match getTable doc 0 with
  | Throw e => Throw e
  | Ok table =>
      let rows := extractRows table pomeroyColumns in
      Ok (pomeroyRow
          <$> filter (fun row : TableRow =>
                        row !! "Rk" ≠ Some "Rk" ∧ row !! "Rk" ≠ Some "") rows)
  end.

(** *** Year-dependent column lists *)

(** [season && season < year]: null and 0 are falsy. *)
Definition before (season : option Z) (year : Z) : bool :=
  match season with
  | Some y => negb (y =? 0)%Z && (y <? year)%Z
  | None => false
  end.

Definition efficiencyColumns (season : option Z) : list str :=
  if before season 2010 then
    ["Team"; "Conference";
     "Tempo-Adj"; "Tempo-Adj.Rank"; "Tempo-Raw"; "Tempo-Raw.Rank";
     "Off.Efficiency-Adj"; "Off.Efficiency-Adj.Rank"; "Off.Efficiency-Raw"; "Off.Efficiency-Raw.Rank";
     "Def.Efficiency-Adj"; "Def.Efficiency-Adj.Rank"; "Def.Efficiency-Raw"; "Def.Efficiency-Raw.Rank"]
  else
    ["Team"; "Conference";
     "Tempo-Adj"; "Tempo-Adj.Rank"; "Tempo-Raw"; "Tempo-Raw.Rank";
     "Avg.Poss.Length-Off"; "Avg.Poss.Length-Off.Rank"; "Avg.Poss.Length-Def"; "Avg.Poss.Length-Def.Rank";
     "Off.Efficiency-Adj"; "Off.Efficiency-Adj.Rank"; "Off.Efficiency-Raw"; "Off.Efficiency-Raw.Rank";
     "Def.Efficiency-Adj"; "Def.Efficiency-Adj.Rank"; "Def.Efficiency-Raw"; "Def.Efficiency-Raw.Rank"].

Definition heightColumns (season : option Z) : list str :=
  if before season 2008 then
    ["Team"; "Conference";
     "AvgHgt"; "AvgHgt.Rank"; "EffHgt"; "EffHgt.Rank";
     "C-Hgt"; "C-Hgt.Rank"; "PF-Hgt"; "PF-Hgt.Rank";
     "SF-Hgt"; "SF-Hgt.Rank"; "SG-Hgt"; "SG-Hgt.Rank";
     "PG-Hgt"; "PG-Hgt.Rank";
     "Experience"; "Experience.Rank"; "Bench"; "Bench.Rank"]
  else
    ["Team"; "Conference";
     "AvgHgt"; "AvgHgt.Rank"; "EffHgt"; "EffHgt.Rank";
     "C-Hgt"; "C-Hgt.Rank"; "PF-Hgt"; "PF-Hgt.Rank";
     "SF-Hgt"; "SF-Hgt.Rank"; "SG-Hgt"; "SG-Hgt.Rank";
     "PG-Hgt"; "PG-Hgt.Rank";
     "Experience"; "Experience.Rank"; "Bench"; "Bench.Rank";
     "Continuity"; "Continuity.Rank"].

(** The [columns] of [parseSchedule]. *)
Definition scheduleColumns (season : option Z) : list str :=
  if before season 2010 then
    ["Date"; "Opponent Rank"; "Opponent Name"; "Result";
     "Possession Number"; "A"; "Location"; "Record"; "Conference"; "B"]
  else
    ["Date"; "Team Rank"; "Opponent Rank"; "Opponent Name"; "Result";
     "Possession Number"; "A"; "Location"; "Record"; "Conference"; "B"].

(** The filter and the map shared by the team tables: header rows repeated
    in the body and rows without a team are dropped, the seed is stripped. *)
Definition teamRows (rows : list TableRow) : list TableRow :=
  (fun row : TableRow => <["Team" := stripSeed (row !! "Team")]> row)
  <$> filter (fun row : TableRow =>
                row !! "Team" ≠ Some "Team" ∧ row !! "Team" ≠ Some "") rows.

Definition parseEfficiency (doc : node) (season : option Z) : result (list TableRow) :=
  match getTable doc 0 with
  | Throw e => Throw e
  | Ok table => Ok (teamRows (extractRows table (efficiencyColumns season)))
  end.

Definition parseHeight (doc : node) (season : option Z) : result (list TableRow) :=
  match getTable doc 0 with
  | Throw e => Throw e
  | Ok table => Ok (teamRows (extractRows table (heightColumns season)))
  end.

(** *** Header derivation *)

(** [text || `Column${i}`] *)
Definition orColumn (text : str) (i : nat) : str :=
  if truthy text then text else "Column" ++ show_nat i.

(** The header loop of [parseTrends]. *)
Definition trendsHeaders (cells : list node) : list str :=
  each (fun i el (headers : list str) =>
    headers ++ [orColumn (trim (text el)) i]) 0 cells [].

Definition parseTrends (doc : node) : result (list TableRow) :=
  match getTable doc 0 with
  | Throw e => Throw e
  | Ok table =>
      let headers := trendsHeaders (find ["th"; "td"] (find ["tr"] (find ["thead"] table))) in
      let rows := extractRows table headers in
      Ok (take (length rows - 5) rows)
  end.

(** The header loop of [parseConferenceStandings]. *)
Definition conferenceHeaders (cells : list node) : list str :=
  each (fun i el (headers : list str) =>
    let text := orColumn (trim (text el)) i in
    let text := if bool_decide (text ∈ headers) then text ++ ".Rank" else text in
    headers ++ [text]) 0 cells [].

(** *** FanMatch: the header names, the prediction and the game string *)

(** The header loop of [parseFanMatch], over the cells of the first row
    of the table: the trimmed texts as they are. *)
Definition fanMatchHeaders (cells : list node) : list str :=
  each (fun _i cell (headers : list str) => headers ++ [trim (text cell)])
    0 cells [].

(** The cell loop of a game row of [parseFanMatch]: a cell under an empty
    header name, or beyond the headers, is left out. *)
Definition fanMatchRow (headers : list str) (cells : list node) : TableRow :=
  each (fun j cell (rowData : TableRow) =>
    let cellText := trim (text cell) in
    match headers !! j with
    | Some header => if truthy header then put header cellText rowData else rowData
    | None => rowData
    end) 0 cells ∅.


(** The five fields the prediction block of [parseFanMatch] sets. *)
Record Prediction := {
  PredictedWinner : option str;
  PredictedScore : option str;
  WinProbability : option str;
  PredictedPossessions : option number;
  PredictedMOV : option number
}.

(** [/^(.+?)\s+(\d+-\d+)\s*\((\d+%)\)\s*\[(\d+)\]/] *)
Definition predRegex : list item :=
  [Bos; Open 1; lazy_plus AnyChar; Close 1; plus Space;
   Open 2; plus Digit; One (Lit "-"); plus Digit; Close 2;
   star Space; One (Lit "("); Open 3; plus Digit; One (Lit "%"); Close 3;
   One (Lit ")"); star Space; One (Lit "["); Open 4; plus Digit; Close 4;
   One (Lit "]")].

(** [/^(.+?)\s+(\d+-\d+)\s*\((\d+%)\)/] *)
Definition simplePredRegex : list item :=
  [Bos; Open 1; lazy_plus AnyChar; Close 1; plus Space;
   Open 2; plus Digit; One (Lit "-"); plus Digit; Close 2;
   star Space; One (Lit "("); Open 3; plus Digit; One (Lit "%"); Close 3;
   One (Lit ")")].

(** [(m[2] ?? '').split('-').map(Number)] and the margin computed from it. *)
Definition scoreMOV (m2 : option str) : option number :=
  let scores := Number <$> split "-" (default "" m2) in
  match scores with
  | [s0; s1] => Some (sub s0 s1)
  | _ => None
  end.

(** The block "Parse prediction" of [parseFanMatch], on one row. *)
Definition parsePrediction (rowData : TableRow) : Prediction :=
  let pred := default "" (rowData !! "Prediction") in
  match exec predRegex pred with
  | Some predMatch =>
      {| PredictedWinner := trim <$> group predMatch 1;
         PredictedScore := group predMatch 2;
         WinProbability := group predMatch 3;
         PredictedPossessions :=
           match group predMatch 4 with
           | Some g => if truthy g then Some (parseFloat g) else None
           | None => None
           end;
         PredictedMOV := scoreMOV (group predMatch 2) |}
  | None =>
      match exec simplePredRegex pred with
      | Some simplePredMatch =>
          {| PredictedWinner := trim <$> group simplePredMatch 1;
             PredictedScore := group simplePredMatch 2;
             WinProbability := group simplePredMatch 3;
             PredictedPossessions := None;
             PredictedMOV := scoreMOV (group simplePredMatch 2) |}
      | None =>
          {| PredictedWinner := None;
             PredictedScore := None;
             WinProbability := None;
             PredictedPossessions := None;
             PredictedMOV := None |}
      end
  end.

Record GameResult := {
  Winner : option str;
  WinnerRank : option str;
  WinnerScore : option str;
  Loser : option str;
  LoserRank : option str;
  LoserScore : option str;
  OT : option str;
  ActualMOV : option number;
  isCompleted : bool;
  isNeutral : bool;
  isAway : bool
}.

(** Assignments to the fields of [result]. *)
Definition set_Winner (rank name : option str) (r : GameResult) : GameResult :=
  {| Winner := name; WinnerRank := rank; WinnerScore := WinnerScore r;
     Loser := Loser r; LoserRank := LoserRank r; LoserScore := LoserScore r;
     OT := OT r; ActualMOV := ActualMOV r;
     isCompleted := isCompleted r; isNeutral := isNeutral r; isAway := isAway r |}.

Definition set_WinnerScore (score : option str) (r : GameResult) : GameResult :=
  {| Winner := Winner r; WinnerRank := WinnerRank r; WinnerScore := score;
     Loser := Loser r; LoserRank := LoserRank r; LoserScore := LoserScore r;
     OT := OT r; ActualMOV := ActualMOV r;
     isCompleted := isCompleted r; isNeutral := isNeutral r; isAway := isAway r |}.

Definition set_Loser (rank name : option str) (r : GameResult) : GameResult :=
  {| Winner := Winner r; WinnerRank := WinnerRank r; WinnerScore := WinnerScore r;
     Loser := name; LoserRank := rank; LoserScore := LoserScore r;
     OT := OT r; ActualMOV := ActualMOV r;
     isCompleted := isCompleted r; isNeutral := isNeutral r; isAway := isAway r |}.

Definition set_LoserScore (score : option str) (r : GameResult) : GameResult :=
  {| Winner := Winner r; WinnerRank := WinnerRank r; WinnerScore := WinnerScore r;
     Loser := Loser r; LoserRank := LoserRank r; LoserScore := score;
     OT := OT r; ActualMOV := ActualMOV r;
     isCompleted := isCompleted r; isNeutral := isNeutral r; isAway := isAway r |}.

Definition set_OT (ot : option str) (r : GameResult) : GameResult :=
  {| Winner := Winner r; WinnerRank := WinnerRank r; WinnerScore := WinnerScore r;
     Loser := Loser r; LoserRank := LoserRank r; LoserScore := LoserScore r;
     OT := ot; ActualMOV := ActualMOV r;
     isCompleted := isCompleted r; isNeutral := isNeutral r; isAway := isAway r |}.

Definition set_ActualMOV (mov : option number) (r : GameResult) : GameResult :=
  {| Winner := Winner r; WinnerRank := WinnerRank r; WinnerScore := WinnerScore r;
     Loser := Loser r; LoserRank := LoserRank r; LoserScore := LoserScore r;
     OT := OT r; ActualMOV := mov;
     isCompleted := isCompleted r; isNeutral := isNeutral r; isAway := isAway r |}.

Definition set_isCompleted (b : bool) (r : GameResult) : GameResult :=
  {| Winner := Winner r; WinnerRank := WinnerRank r; WinnerScore := WinnerScore r;
     Loser := Loser r; LoserRank := LoserRank r; LoserScore := LoserScore r;
     OT := OT r; ActualMOV := ActualMOV r;
     isCompleted := b; isNeutral := isNeutral r; isAway := isAway r |}.

Definition set_isNeutral (b : bool) (r : GameResult) : GameResult :=
  {| Winner := Winner r; WinnerRank := WinnerRank r; WinnerScore := WinnerScore r;
     Loser := Loser r; LoserRank := LoserRank r; LoserScore := LoserScore r;
     OT := OT r; ActualMOV := ActualMOV r;
     isCompleted := isCompleted r; isNeutral := b; isAway := isAway r |}.

Definition set_isAway (b : bool) (r : GameResult) : GameResult :=
  {| Winner := Winner r; WinnerRank := WinnerRank r; WinnerScore := WinnerScore r;
     Loser := Loser r; LoserRank := LoserRank r; LoserScore := LoserScore r;
     OT := OT r; ActualMOV := ActualMOV r;
     isCompleted := isCompleted r; isNeutral := isNeutral r; isAway := b |}.

(** The initial [result] of [parseGameResult]. *)
Definition nullResult : GameResult :=
  {| Winner := None; WinnerRank := None; WinnerScore := None;
     Loser := None; LoserRank := None; LoserScore := None;
     OT := None; ActualMOV := None;
     isCompleted := false; isNeutral := false; isAway := false |}.

(** [/\((\d?OT)\)$/] and [/\s*\(\d?OT\)\s*$/] *)
Definition otRe : list item :=
  [One (Lit "("); Open 1; opt Digit; One (Lit "O"); One (Lit "T"); Close 1;
   One (Lit ")"); Eos].

Definition otStripRe : list item :=
  [star Space; One (Lit "("); opt Digit; One (Lit "O"); One (Lit "T");
   One (Lit ")"); star Space; Eos].

(** The overtime step: the marker found, if any, and [processedStr]. *)
Definition overtime (gameStr : str) : option str * str :=
  match exec otRe gameStr ≫= fun otMatch => group otMatch 1 with
  | Some ot =>
      if truthy ot
      then (Some ot, trim (replace otStripRe "" gameStr))
      else (None, gameStr)
  | None => (None, gameStr)
  end.

(** The tokens of one side: [(teams[i] ?? '').trim().split(/\s+/)]. *)
Definition parts (teams : list str) (i : nat) : list str :=
  split_ws (trim (default "" (teams !! i))).

(** The margin of a completed game. *)
Definition margin (r : GameResult) : GameResult :=
  match WinnerScore r, LoserScore r with
  | Some ws, Some ls =>
      if truthy ws && truthy ls then
        let winScore := parseInt ws in
        let loseScore := parseInt ls in
        if negb (isNaN winScore) && negb (isNaN loseScore)
        then set_ActualMOV (Some (sub winScore loseScore)) r
        else r
      else r
  | _, _ => r
  end.

(** An upcoming game: no scores, the name is everything after the rank. *)
Definition upcoming (teams : list str) (r : GameResult) : GameResult :=
  let team1Parts := parts teams 0 in
  let team2Parts := parts teams 1 in
  let r :=
    if 2 <=? length team1Parts
    then set_Winner (team1Parts !! 0) (Some (join " " (slice1 team1Parts))) r
    else r in
  if 2 <=? length team2Parts
  then set_Loser (team2Parts !! 0) (Some (join " " (slice1 team2Parts))) r
  else r.

Definition parseGameResult (gameStr : option str) : GameResult :=
  let result := nullResult in
  match gameStr with
  | None => result
  | Some gameStr =>
      if negb (truthy gameStr) then result
      else
        let '(ot, processedStr) := overtime gameStr in
        let result := match ot with Some _ => set_OT ot result | None => result end in
        let teams := split ", " processedStr in
        if length teams =? 2 then
          let result := set_isCompleted true result in
          let winnerParts := parts teams 0 in
          let loserParts := parts teams 1 in
          let result :=
            if 3 <=? length winnerParts
            then set_Winner (winnerParts !! 0) (Some (join " " (slice1m1 winnerParts)))
                   (set_WinnerScore (last_elem winnerParts) result)
            else result in
          let result :=
            if 3 <=? length loserParts
            then set_Loser (loserParts !! 0) (Some (join " " (slice1m1 loserParts)))
                   (set_LoserScore (last_elem loserParts) result)
            else result in
          margin result
        else
          let teams := split " at " processedStr in
          if length teams =? 2 then
            upcoming teams (set_isAway true result)
          else
            let teams := split " vs. " processedStr in
            if length teams =? 2 then
              upcoming teams (set_isNeutral true result)
            else result
  end.

(** *** Team tables with a fixed column list *)

Definition fourFactorsColumns : list str :=
  ["Team"; "Conference"; "AdjTempo"; "AdjTempo.Rank";
   "AdjOE"; "AdjOE.Rank";
   "Off-eFG%"; "Off-eFG%.Rank"; "Off-TO%"; "Off-TO%.Rank";
   "Off-OR%"; "Off-OR%.Rank"; "Off-FTRate"; "Off-FTRate.Rank";
   "AdjDE"; "AdjDE.Rank";
   "Def-eFG%"; "Def-eFG%.Rank"; "Def-TO%"; "Def-TO%.Rank";
   "Def-OR%"; "Def-OR%.Rank"; "Def-FTRate"; "Def-FTRate.Rank"].

Definition parseFourFactors (doc : node) : result (list TableRow) :=
  match getTable doc 0 with
  | Throw e => Throw e
  | Ok table => Ok (teamRows (extractRows table fourFactorsColumns))
  end.

Definition teamStatsColumns (defense : bool) : list str :=
  let lastCol : str := if defense then "AdjDE" else "AdjOE" in
  ["Team"; "Conference";
   "3P%"; "3P%.Rank"; "2P%"; "2P%.Rank"; "FT%"; "FT%.Rank";
   "Blk%"; "Blk%.Rank"; "Stl%"; "Stl%.Rank";
   "NST%"; "NST%.Rank"; "A%"; "A%.Rank"; "3PA%"; "3PA%.Rank";
   lastCol; lastCol ++ ".Rank"].

Definition parseTeamStats (doc : node) (defense : bool) : result (list TableRow) :=
  match getTable doc 0 with
  | Throw e => Throw e
  | Ok table => Ok (teamRows (extractRows table (teamStatsColumns defense)))
  end.

Definition pointDistColumns : list str :=
  ["Team"; "Conference";
   "Off-FT"; "Off-FT.Rank"; "Off-2P"; "Off-2P.Rank"; "Off-3P"; "Off-3P.Rank";
   "Def-FT"; "Def-FT.Rank"; "Def-2P"; "Def-2P.Rank"; "Def-3P"; "Def-3P.Rank"].

Definition parsePointDist (doc : node) : result (list TableRow) :=
  match getTable doc 0 with
  | Throw e => Throw e
  | Ok table => Ok (teamRows (extractRows table pointDistColumns))
  end.

(** *** Player statistics *)

Definition playerColumns (metric : str) : list str :=
  let columns : list str := ["Rank"; "Player"; "Team"] in
  let fgMetrics : list str := ["2P"; "3P"; "FT"] in
  let columns :=
    if bool_decide (metric ∈ fgMetrics)
    then columns ++ [metric ++ "M"; metric ++ "A"; metric ++ "%"]
    else columns ++ [metric] in
  columns ++ ["Ht"; "Wt"; "Yr"].

Definition is_paren (c : ascii) : bool := Ascii.eqb c "(" || Ascii.eqb c ")".

(** The offensive rating cell holds the rating and the share of
    possessions: [{...row, ORtg: parts[0] ?? '', 'Poss%': ...}]. *)
Definition ortgRow (row : TableRow) : TableRow :=
  let ortgValue := default "" (row !! "ORtg") in
  let parts := split " " ortgValue in
  <["Poss%" := match parts !! 1 with
               | Some p => if truthy p then replace_chars is_paren "" p else ""
               | None => ""
               end]>
    (<["ORtg" := default "" (parts !! 0)]> row).

Definition parsePlayerStats (doc : node) (metric : str) : result (list TableRow) :=
  match getTable doc 0 with
  | Throw e => Throw e
  | Ok table =>
      let rows := extractRows table (playerColumns metric) in
      let filtered :=
        filter (fun row : TableRow =>
                  row !! "Rank" ≠ Some "Rank" ∧ row !! "Rank" ≠ Some ""
                  ∧ row !! "Player" ≠ Some "") rows in
      Ok (if bool_decide (metric = "ORtg") then ortgRow <$> filtered else filtered)
  end.

Definition ortgColumns : list str :=
  ["Rank"; "Player"; "Team"; "ORtg"; "Ht"; "Wt"; "Yr"].

Definition parseAllPlayerStatsTables (doc : node) : list (list TableRow) :=
  let tables := find ["table"] [doc] in
  let columns := ortgColumns in
  each (fun _i tableEl (results : list (list TableRow)) =>
    let table := [tableEl] in
    let rows :=
      each (fun _j row (rows : list TableRow) =>
        let cells := find ["td"] [row] in
        if length cells =? 0 then rows
        else
          let rowData : TableRow :=
            each (fun k cell (rowData : TableRow) =>
              match columns !! k with
              | Some col => put col (trim (text cell)) rowData
              | None => rowData
              end) 0 cells ∅ in
          if truthy_opt (rowData !! "Rank")
             && negb (bool_decide (rowData !! "Rank" = Some "Rank"))
          then rows ++ [ortgRow rowData]
          else rows)
        0 (bodyRows table) [] in
    if 0 <? length rows then results ++ [rows] else results)
    0 tables [].

(** *** Player of the year *)

Record KpoyResult := {
  kpoy : list TableRow;
  mvp : option (list TableRow)
}.

(** [season && season >= year] *)
Definition since (season : option Z) (year : Z) : bool :=
  match season with
  | Some y => negb (y =? 0)%Z && (y >=? year)%Z
  | None => false
  end.

(** The separator of the player cell: a middle dot between two spaces. *)
Definition middot : str := [" "; "183"; " "]%char.

(** The class [[A-Za-z.\s&']] of [/^([A-Za-z.\s&']+)/], and [/(\d+-\d+)/]. *)
Definition is_team_char (c : ascii) : bool :=
  is_alpha c || Ascii.eqb c "." || is_space c || Ascii.eqb c "&" || Ascii.eqb c "'".

Definition heightRe : list item :=
  [Open 1; plus Digit; One (Lit "-"); plus Digit; Close 1].

(** [$(cells[k]).text().trim()] *)
Definition cellText (cells : list node) (k : nat) : str :=
  trim (default "" (text <$> cells !! k)).

(** The fields read from the player cell, of the form
    [Name, Team Height], a middle dot, [Weight, Year, Hometown]. *)
Definition kpoyPlayer (rank playerInfo rating : str) : TableRow :=
  let parts := split middot playerInfo in
  let nameTeam := default "" (parts !! 0) in
  let details := default "" (parts !! 1) in
  let nameParts := split ", " nameTeam in
  let player := default "" (nameParts !! 0) in
  let teamInfo := default "" (nameParts !! 1) in
  let team :=
    match match_prefix is_team_char teamInfo with
    | Some g => if truthy g then trim g else teamInfo
    | None => teamInfo
    end in
  let height := default "" (exec heightRe teamInfo ≫= fun m => group m 1) in
  let detailParts := split ", " details in
  let weight := default "" (detailParts !! 0) in
  let year := default "" (detailParts !! 1) in
  let hometown := join ", " (drop 2 detailParts) in
  <["KPOY Rating" := rating]>
  (<["Hometown" := hometown]>
  (<["Year" := year]>
  (<["Weight" := weight]>
  (<["Height" := height]>
  (<["Team" := team]>
  (<["Player" := player]>
  (<["Rank" := rank]> ∅))))))).

Definition parseKpoyTable (table : list node) : list TableRow :=
  each (fun _i row (rows : list TableRow) =>
    let cells := find ["td"] [row] in
    if length cells <? 3 then rows
    else
      let rank := cellText cells 0 in
      let playerInfo := cellText cells 1 in
      let rating := cellText cells 2 in
      if bool_decide (rank = "Rank") || bool_decide (rank = "") then rows
      else rows ++ [kpoyPlayer rank playerInfo rating])
    0 (bodyRows table) [].

Definition parseKpoy (doc : node) (season : option Z) : KpoyResult :=
  let tables := find ["table"] [doc] in
  let result :=
    {| kpoy := if 0 <? length tables then parseKpoyTable (eq tables 0) else [];
       mvp := None |} in
  if since season 2013 && (1 <? length tables)
  then {| kpoy := kpoy result;
          mvp := Some (parseKpoyTable (eq tables (Z.of_nat (length tables) - 1))) |}
  else result.

(** *** Referees, home court advantage, arenas, game attributes, programs *)

Definition refsColumns : list str :=
  ["Rank"; "Name"; "Rating"; "Games"; "Last Game"; "Game Score"; "Box"].

Definition refRow (row : TableRow) : TableRow :=
  <["Game Score" := default "" (row !! "Game Score")]>
  (<["Last Game" := default "" (row !! "Last Game")]>
  (<["Games" := default "" (row !! "Games")]>
  (<["Rating" := default "" (row !! "Rating")]>
  (<["Name" := default "" (row !! "Name")]>
  (<["Rank" := default "" (row !! "Rank")]> ∅))))).

Definition parseRefs (doc : node) : result (list TableRow) :=
  match getTable doc 0 with
  | Throw e => Throw e
  | Ok table =>
      let rows := extractRows table refsColumns in
      Ok (refRow
          <$> filter (fun row : TableRow =>
                        row !! "Rating" ≠ Some "Rating" ∧ row !! "Rank" ≠ Some "") rows)
  end.

Definition hcaColumns : list str :=
  ["Team"; "Conference";
   "HCA"; "HCA.Rank";
   "PF"; "PF.Rank";
   "Pts"; "Pts.Rank";
   "NST"; "NST.Rank";
   "Blk"; "Blk.Rank";
   "Elev"; "Elev.Rank"].

Definition parseHca (doc : node) : result (list TableRow) :=
  match getTable doc 0 with
  | Throw e => Throw e
  | Ok table =>
      let rows := extractRows table hcaColumns in
      Ok (filter (fun row : TableRow =>
                    row !! "Team" ≠ Some "Team" ∧ row !! "Team" ≠ Some "") rows)
  end.

Definition arenasColumns : list str :=
  ["Rank"; "Team"; "Conference"; "Arena"; "Alternate"].

(** [/^(.+?)\s*\((\d+)\)$/] *)
Definition arenaRe : list item :=
  [Bos; Open 1; lazy_plus AnyChar; Close 1; star Space; One (Lit "(");
   Open 2; plus Digit; Close 2; One (Lit ")"); Eos].

(** [m?.[1] ? m[1].trim() : fallback] *)
Definition nameOr (m : option match_result) (fallback : str) : str :=
  match m ≫= fun m => group m 1 with
  | Some g => if truthy g then trim g else fallback
  | None => fallback
  end.

Definition arenaRow (row : TableRow) : TableRow :=
  let arenaMatch := exec arenaRe (default "" (row !! "Arena")) in
  let altMatch := exec arenaRe (default "" (row !! "Alternate")) in
  <["Alternate.Capacity" := default "" (altMatch ≫= fun m => group m 2)]>
  (<["Alternate" := nameOr altMatch (default "" (row !! "Alternate"))]>
  (<["Arena.Capacity" := default "" (arenaMatch ≫= fun m => group m 2)]>
  (<["Arena" := nameOr arenaMatch (default "" (row !! "Arena"))]>
  (<["Conference" := default "" (row !! "Conference")]>
  (<["Team" := default "" (row !! "Team")]>
  (<["Rank" := default "" (row !! "Rank")]> ∅)))))).

Definition parseArenas (doc : node) : result (list TableRow) :=
  match getTable doc 0 with
  | Throw e => Throw e
  | Ok table =>
      let rows := extractRows table arenasColumns in
      Ok (arenaRow
          <$> filter (fun row : TableRow =>
                        row !! "Team" ≠ Some "Team" ∧ row !! "Rank" ≠ Some "") rows)
  end.

Definition gameAttribsColumns : list str :=
  ["Rank"; "Date"; "Game"; "Box"; "Location"; "Conf.Matchup"; "Value"].

(** [/^(.+?)\s*\((.+)\)$/] and [/\)$/] *)
Definition locRe : list item :=
  [Bos; Open 1; lazy_plus AnyChar; Close 1; star Space; One (Lit "(");
   Open 2; plus AnyChar; Close 2; One (Lit ")"); Eos].

Definition closeParenRe : list item := [One (Lit ")"); Eos].

Definition gameAttribRow (row : TableRow) : TableRow :=
  let locMatch := exec locRe (default "" (row !! "Location")) in
  <["Value" := default "" (row !! "Value")]>
  (<["Conf.Matchup" := default "" (row !! "Conf.Matchup")]>
  (<["Arena" := match locMatch ≫= fun m => group m 2 with
                | Some g => if truthy g then replace closeParenRe "" g else ""
                | None => ""
                end]>
  (<["Location" := nameOr locMatch (default "" (row !! "Location"))]>
  (<["Game" := default "" (row !! "Game")]>
  (<["Date" := default "" (row !! "Date")]>
  (<["Rank" := default "" (row !! "Rank")]> ∅)))))).

Definition parseGameAttribs (doc : node) : result (list TableRow) :=
  match getTable doc 0 with
  | Throw e => Throw e
  | Ok table =>
      let rows := extractRows table gameAttribsColumns in
      Ok (gameAttribRow
          <$> filter (fun row : TableRow =>
                        row !! "Rank" ≠ Some "Rank" ∧ row !! "Rank" ≠ Some "") rows)
  end.

Definition programRatingsColumns : list str :=
  ["Rank"; "Team"; "Conference"; "Rating";
   "kenpom.Best.Rank"; "kenpom.Best.Season";
   "kenpom.Worst.Rank"; "kenpom.Worst.Season";
   "kenpom.Median.Rank";
   "kenpom.Top10.Finishes"; "kenpom.Top25.Finishes"; "kenpom.Top50.Finishes";
   "NCAA.Champs"; "NCAA.F4"; "NCAA.S16"; "NCAA.R1";
   "Change"].

Definition parseProgramRatings (doc : node) : result (list TableRow) :=
  match getTable doc 0 with
  | Throw e => Throw e
  | Ok table =>
      let rows := extractRows table programRatingsColumns in
      Ok (filter (fun row : TableRow =>
                    row !! "Team" ≠ Some "Team" ∧ row !! "Rank" ≠ Some "") rows)
  end.

(** *** Schedule *)

(** [/(?:\sConference)?\sTournament.*?$/]: the optional part and the rest. *)
Definition conferencePart : list item := One Space :: lits "Conference".

Definition tournamentPart : list item :=
  One Space :: lits "Tournament" ++ [Rep false 0 None AnyChar; Eos].

(** The tournament a header row announces. *)
Definition tournamentLabel (text : str) : str :=
  match search_opt conferencePart tournamentPart 0 text with
  | Some (b, e, _) => trim (substring text b e)
  | None => text
  end.

(** One body row of the schedule: the rows collected so far and the
    tournament the following games belong to. *)
Definition scheduleRow (season : option Z) (columns : list str) (row : node)
    (state : list TableRow * str) : list TableRow * str :=
  let '(rows, currentTournament) := state in
  let cells := find ["td"] [row] in
  let text := trim (text row) in
  if includes "Tournament" text || includes "Postseason" text then
    (rows, tournamentLabel text)
  else if length cells =? 0 then (rows, currentTournament)
  else
    let rowData : TableRow :=
      each (fun j cell (rowData : TableRow) =>
        match columns !! j with
        | Some col => put col (trim (Dom.text cell)) rowData
        | None => rowData
        end) 0 cells ∅ in
    if bool_decide (rowData !! "Date" = Some "Date")
       || bool_decide (rowData !! "Date" = rowData !! "Result")
    then (rows, currentTournament)
    else
      let rowData := <["Tournament" := currentTournament]> rowData in
      let rowData := delete "A" rowData in
      let rowData := delete "B" rowData in
      let rowData :=
        if before season 2010 && negb (truthy_opt (rowData !! "Team Rank"))
        then <["Team Rank" := ""]> rowData
        else rowData in
      if 0 <? size rowData then (rows ++ [rowData], currentTournament)
      else (rows, currentTournament).

Definition parseSchedule (doc : node) (season : option Z) : result (list TableRow) :=
  let tables := find ["table"] [doc] in
  if length tables <? 2 then
    Throw "Schedule table not found (need at least 2 tables)"
  else
    let table := eq tables 1 in
    let columns := scheduleColumns season in
    Ok (each (fun _i row state => scheduleRow season columns row state)
          0 (bodyRows table) ([], "")).1.

(** *** The predicted loser of a FanMatch game *)

Definition parsePredictedLoser (gameStr : str) (predictedWinner : option str)
    : option str :=
  let parsed := parseGameResult (Some gameStr) in
  if negb (truthy_opt predictedWinner) then None
  else if isCompleted parsed then
    if bool_decide (Winner parsed ≠ predictedWinner) then Winner parsed
    else Loser parsed
  else if truthy_opt (Winner parsed) && truthy_opt (Loser parsed) then
    if bool_decide (Winner parsed ≠ predictedWinner) then Winner parsed
    else Loser parsed
  else None.

(** *** Conferences *)

(** The seed step of [parseConferenceStandings]. *)
Definition seedRow (rowData : TableRow) : TableRow :=
  if truthy_opt (rowData !! "Team") then
    let seed := extractSeed (rowData !! "Team") in
    let rowData := <["Seed" := default "" seed]> rowData in
    <["Team" := stripSeed (rowData !! "Team")]> rowData
  else rowData.

Definition parseConferenceStandings (doc : node) : result (list TableRow) :=
  match getTable doc 0 with
  | Throw e => Throw e
  | Ok table =>
      let headers :=
        conferenceHeaders (find ["th"; "td"] (find ["tr"] (find ["thead"] table))) in
      Ok (each (fun _i row (rows : list TableRow) =>
            let cells := find ["td"] [row] in
            if length cells =? 0 then rows
            else
              let rowData : TableRow :=
                each (fun j cell (rowData : TableRow) =>
                  match headers !! j with
                  | Some header => put header (trim (text cell)) rowData
                  | None => rowData
                  end) 0 cells ∅ in
              let rowData := seedRow rowData in
              if 0 <? size rowData then rows ++ [rowData] else rows)
            0 (bodyRows table) [])
  end.

Definition parseConferenceTable (table : list node) : list TableRow :=
  let headers :=
    conferenceHeaders (find ["th"; "td"] (find ["tr"] (find ["thead"] table))) in
  each (fun _i row (rows : list TableRow) =>
    let cells := find ["td"] [row] in
    if length cells =? 0 then rows
    else
      let rowData : TableRow :=
        each (fun j cell (rowData : TableRow) =>
          match headers !! j with
          | Some header => put header (trim (text cell)) rowData
          | None => rowData
          end) 0 cells ∅ in
      if 0 <? size rowData then rows ++ [rowData] else rows)
    0 (bodyRows table) [].

Definition parseConferenceOffense (doc : node) : result (list TableRow) :=
  match getTable doc 1 with
  | Throw e => Throw e
  | Ok table => Ok (parseConferenceTable table)
  end.

Definition parseConferenceDefense (doc : node) : result (list TableRow) :=
  match getTable doc 2 with
  | Throw e => Throw e
  | Ok table => Ok (parseConferenceTable table)
  end.

Definition parseConferenceStatsTable (table : list node) : list TableRow :=
  each (fun _i row (rows : list TableRow) =>
    let cells := find ["td"] [row] in
    if length cells <? 3 then rows
    else
      let stat := cellText cells 0 in
      let value := cellText cells 1 in
      let rank := cellText cells 2 in
      if truthy stat
      then rows ++ [<["Rank" := rank]> (<["Value" := value]> (<["Stat" := stat]> ∅))]
      else rows)
    0 (bodyRows table) [].

(** [{Stat: row['Stat'] ? row['Stat'].split(' (')[0] ?? '' : '', ...}] *)
Definition aggregateRow (row : TableRow) : TableRow :=
  <["Rank" := default "" (row !! "Rank")]>
  (<["Value" := default "" (row !! "Value")]>
  (<["Stat" := match row !! "Stat" with
               | Some stat =>
                   if truthy stat then default "" (split " (" stat !! 0) else ""
               | None => ""
               end]> ∅)).

Definition parseConferenceAggregateStats (doc : node) (singleConf : bool)
    : list TableRow :=
  let tables := find ["table"] [doc] in
  if singleConf then
    let mainTable := eq tables (Z.of_nat (length tables) - 3) in
    let pctTable := eq tables (Z.of_nat (length tables) - 2) in
    let mainRows := parseConferenceStatsTable mainTable in
    let pctRows := parseConferenceStatsTable pctTable in
    aggregateRow <$> (mainRows ++ pctRows)
  else
    let table := eq tables 0 in
    parseConferenceTable table.

(** *** Valid teams *)

Section Links.

(** [$(selector)]: the CSS engine, as a function from a selector and a
    document to the matching elements. *)
Variable select : str -> node -> list node.

(** The selector [a[href*=...]] of the links to [team.php]. *)
Definition teamLinks : str :=
  "a[href*=" ++ ["034"%char] ++ "team.php" ++ ["034"%char] ++ "]".

Definition parseValidTeams (doc : node) : list str :=
  each (fun _i el (teams : list str) =>
    let team := trim (text el) in
    let team := stripSeed (Some team) in
    if truthy team && negb (bool_decide (team = "Team"))
       && negb (bool_decide (team ∈ teams))
    then teams ++ [team]
    else teams)
    0 (select teamLinks doc) [].

End Links.

End Parsers.

(** ** The table helpers of the utilities module *)

Module Utils.
Import Js Dom.

(** The header row of [parseTableElement]. *)
Definition headerRow (table : list node) : list node :=
  let thead := find ["thead"] table in
  if 0 <? length thead then last (find ["tr"] thead)
  else first (find ["tr"] table).

(** The header loop of [parseTableElement]. *)
Definition tableHeaders (cells : list node) : list str :=
  each (fun i el (headers : list str) =>
    let text := trim (text el) in
    let text := if negb (truthy text) then "Column" ++ show_nat i else text in
    let text := if bool_decide (text ∈ headers) then text ++ "_" ++ show_nat i else text in
    headers ++ [text]) 0 cells [].

Definition parseTableElement (table : list node) : list TableRow :=
  let headers := tableHeaders (find ["th"; "td"] (headerRow table)) in
  let tbody := find ["tbody"] table in
  let bodyRows := if 0 <? length tbody then find ["tr"] tbody
                  else drop 1 (find ["tr"] table) in
  each (fun _i row (rows : list TableRow) =>
    let rowData : TableRow :=
      each (fun j cell (rowData : TableRow) =>
        if j <? length headers then
          match headers !! j with
          | Some header => put header (trim (text cell)) rowData
          | None => rowData
          end
        else rowData) 0 (find ["td"] [row]) ∅ in
    if 0 <? size rowData then rows ++ [rowData] else rows)
    0 bodyRows [].

Section Selectors.

(** [$(selector)]: the CSS engine, which maps a selector and a document
    to the matching elements and throws on a selector it cannot
    parse. *)
Variable select : str -> node -> result (list node).

(** [parseTable] up to the call of [parseTableElement]. *)
Definition locateTable (doc : node) (selector : str) (tableIndex : Z)
    : result (list node) :=
  match select selector doc with
  | Throw e => Throw e
  | Ok tables =>
      if length tables =? 0 then
        Throw ("No tables found matching selector: " ++ selector)
      else if (tableIndex >=? Z.of_nat (length tables))%Z then
        Throw ("Table index " ++ show_Z tableIndex ++ " out of bounds. Found "
               ++ show_nat (length tables) ++ " tables.")
      else Ok (eq tables tableIndex)
  end.

Definition parseTable (doc : node) (selector : str) (tableIndex : Z)
    : result (list TableRow) :=
  match locateTable doc selector tableIndex with
  | Throw e => Throw e
  | Ok table => Ok (parseTableElement table)
  end.

End Selectors.

Import Regex.

(** [/(\d{4})/] *)
Definition yearRe : list item := [Open 1; Rep true 4 (Some 4) Digit; Close 1].

(** [sel.text()]: the texts of the selected elements, concatenated. *)
Definition selectionText (sel : list node) : str := flat_map text sel.

(** The year a text carries: [text.match(/(\d{4})/)], read by [parseInt]
    when group 1 is not empty. *)
Definition seasonIn (text : str) : option Js.number :=
  match exec yearRe text ≫= fun m => group m 1 with
  | Some g => if truthy g then Some (parseInt g) else None
  | None => None
  end.

(** [year++] on an integer that is a double. *)
Definition incr (year : Z) : Z :=
  match to_double (year + 1) with
  | Num next => next
  | _ => year
  end.

(** The loop of [generateYearRange].  It need not end: [fuel] bounds the
    iterations, and [None] is a loop that is still running when the fuel
    is spent. *)
Fixpoint yearLoop (fuel : nat) (endYear year : Z) (years : list Z)
    : option (list Z) :=
  match fuel with
  | O => None
  | S fuel' =>
      if (year <=? endYear)%Z
      then yearLoop fuel' endYear (incr year) (years ++ [year])
      else Some years
  end.

Definition generateYearRange (fuel : nat) (startYear endYear : Z)
    : option (list Z) :=
  yearLoop fuel endYear startYear [].

Section Pages.

Variable select : str -> node -> list node.

Definition extractSeason (doc : node) : option Js.number :=
  let title := selectionText (find ["title"] [doc]) in
  match seasonIn title with
  | Some year => Some year
  | None =>
      let header := selectionText (select "#content-header h2" doc) in
      match seasonIn header with
      | Some year => Some year
      | None => None
      end
  end.

Definition extractTeamNames (doc : node) : list str :=
  each (fun _i el (teams : list str) =>
    let team := trim (text el) in
    if truthy team && negb (bool_decide (team ∈ teams))
    then teams ++ [team]
    else teams)
    0 (select Parsers.teamLinks doc) [].

End Pages.

End Utils.

(** ** Vocabulary of the properties *)

Module Shape.
Import Js Parsers.

(** A token: non-empty and free of white space. *)
Definition token (t : str) : bool :=
  truthy t && forallb (fun c => negb (is_space c)) t.

(** A character other than a digit. *)
Definition not_digit (c : ascii) : bool := negb (is_digit c).

(** A non-empty string of decimal digits. *)
Definition digits (t : str) : bool :=
  truthy t && forallb is_digit t.

(** One side of a completed game: rank, name tokens, score. *)
Definition side (rank : str) (name : list str) (score : str) : str :=
  join " " (rank :: name ++ [score]).

(** A string without any of the three delimiters of the game format. *)
Definition unrecognized (s : str) : bool :=
  negb (includes ", " s) && negb (includes " at " s) && negb (includes " vs. " s).

(** The trimmed texts of the cells of a row. *)
Definition cellTexts (row : Dom.node) : list str :=
  (fun cell => trim (Dom.text cell)) <$> Dom.find ["td"] [row].

(** The row the specification describes: [row[schema[j]] = text j] for
    every position [j] below both the number of cells and the length of
    the schema, in order. *)
Definition assign (schema : list str) (texts : list str) : TableRow :=
  fold_left (fun (row : TableRow) cv => put cv.1 cv.2 row) (zip schema texts) ∅.

(** The name of a header cell before duplicates are handled. *)
Definition baseName (i : nat) (cell : Dom.node) : str :=
  orColumn (trim (Dom.text cell)) i.

(** A header loop: one name per cell, which may depend on the position,
    the cell and the names derived so far. *)
Definition derive (name : nat -> Dom.node -> list str -> str)
    (cells : list Dom.node) : list str :=
  Dom.each (fun i el (headers : list str) => headers ++ [name i el headers]) 0 cells [].

(** The three header loops of the source, by the names they append. *)
Definition trendsName (i : nat) (el : Dom.node) (headers : list str) : str :=
  baseName i el.

Definition tableName (i : nat) (el : Dom.node) (headers : list str) : str :=
  if bool_decide (baseName i el ∈ headers)
  then baseName i el ++ "_" ++ show_nat i else baseName i el.

Definition conferenceName (i : nat) (el : Dom.node) (headers : list str) : str :=
  if bool_decide (baseName i el ∈ headers)
  then baseName i el ++ ".Rank" else baseName i el.

(** The number of classification flags a result has set. *)
Definition flags (r : GameResult) : nat :=
  Nat.b2n (isCompleted r) + Nat.b2n (isAway r) + Nat.b2n (isNeutral r).

(** The two messages of the table locator. *)
Definition notFound : str := "No tables found".

Definition outOfBounds (index found : str) : str :=
  "Table index " ++ index ++ " out of bounds. Found " ++ found ++ " tables.".

(** A message reports a count: it holds a string of digits whose value is
    the count. *)
Definition reports (count : nat) (message : str) : Prop :=
  exists before ds after,
    message = before ++ ds ++ after /\ digits ds = true /\ dec ds = Z.of_nat count.

(** A cleaned team name: no digit and no white space at either end. *)
Definition clean (t : str) : Prop :=
  forallb not_digit t = true /\ trim t = t.

(** The keys of a row are among the given names. *)
Definition keys_within (names : list str) (row : TableRow) : Prop :=
  forall k, is_Some (row !! k) -> k ∈ names.

(** The keys of a row are exactly the given names. *)
Definition has_keys (names : list str) (row : TableRow) : Prop :=
  forall k, is_Some (row !! k) <-> k ∈ names.

(** The text starts with four decimal digits. *)
Definition year_at (s : str) : bool :=
  (length (take 4 s) =? 4) && forallb is_digit (take 4 s).

(** The rows of one table of offensive ratings: the rows read with the
    seven rating columns that have a rank other than the header text, with
    the rating cell split into the rating and the share of possessions. *)
Definition ratedRows (table : list Dom.node) : list TableRow :=
  ortgRow
  <$> filter (fun rd : TableRow =>
                truthy_opt (rd !! "Rank") = true /\ rd !! "Rank" <> Some "Rank")
        ((fun row => assign ortgColumns (cellTexts row)) <$> bodyRows table).

End Shape.

(** * Properties *)

Import Js Regex Parsers Shape.

(** ** Schema selection *)

Section Schema.

Local Open Scope Z_scope.

Lemma before_spec (y year : Z) :
  before (Some y) year = true <-> y <> 0 /\ y < year.
Proof.
  unfold before. rewrite andb_true_iff, negb_true_iff, Z.eqb_neq, Z.ltb_lt.
  reflexivity.
Qed.

Lemma efficiencyColumns_length (season : option Z) :
  length (efficiencyColumns season) = if before season 2010 then 14%nat else 18%nat.
Proof. unfold efficiencyColumns. destruct (before season 2010); reflexivity. Qed.

Lemma heightColumns_length (season : option Z) :
  length (heightColumns season) = if before season 2008 then 20%nat else 22%nat.
Proof. unfold heightColumns. destruct (before season 2008); reflexivity. Qed.

Lemma scheduleColumns_length (season : option Z) :
  length (scheduleColumns season) = if before season 2010 then 10%nat else 11%nat.
Proof. unfold scheduleColumns. destruct (before season 2010); reflexivity. Qed.

Lemma before_true (y year : Z) : y <> 0 -> y < year -> before (Some y) year = true.
Proof. intros. apply before_spec. auto. Qed.

Lemma before_false (y year : Z) : year <= y -> before (Some y) year = false.
Proof.
  intros H. destruct (before (Some y) year) eqn:E; [|reflexivity].
  apply before_spec in E. lia.
Qed.

End Schema.

(** C7.  For season years, which are never 0: a year at or above the
    threshold of an endpoint never selects a shorter column list than a
    year below it, crossing the threshold adds 4 (efficiency, 2010), 2
    (height, 2008) and 1 (schedule, 2010) columns, and two years on the same
    side of a threshold select lists of equal length.  The null season
    selects the list of the latest era. *)
Theorem schema_length_monotonic (y1 y2 : Z) :
  y1 <> 0%Z -> y2 <> 0%Z ->
  ((y1 < 2010 <= y2)%Z ->
     length (efficiencyColumns (Some y1)) <= length (efficiencyColumns (Some y2))
     /\ length (efficiencyColumns (Some y2)) = length (efficiencyColumns (Some y1)) + 4
     /\ length (scheduleColumns (Some y1)) <= length (scheduleColumns (Some y2))
     /\ length (scheduleColumns (Some y2)) = length (scheduleColumns (Some y1)) + 1)
  /\ ((y1 < 2008 <= y2)%Z ->
      length (heightColumns (Some y1)) <= length (heightColumns (Some y2))
      /\ length (heightColumns (Some y2)) = length (heightColumns (Some y1)) + 2)
  /\ (((y1 < 2010)%Z <-> (y2 < 2010)%Z) ->
      length (efficiencyColumns (Some y1)) = length (efficiencyColumns (Some y2))
      /\ length (scheduleColumns (Some y1)) = length (scheduleColumns (Some y2)))
  /\ (((y1 < 2008)%Z <-> (y2 < 2008)%Z) ->
      length (heightColumns (Some y1)) = length (heightColumns (Some y2)))
  /\ efficiencyColumns None = efficiencyColumns (Some 2010%Z)
  /\ heightColumns None = heightColumns (Some 2008%Z)
  /\ scheduleColumns None = scheduleColumns (Some 2010%Z).
Proof.
  intros H1 H2.
  rewrite !efficiencyColumns_length, !heightColumns_length, !scheduleColumns_length.
  repeat match goal with
  | |- context [before (Some ?y) ?yr] =>
      let E := fresh "E" in
      destruct (before (Some y) yr) eqn:E;
      [apply before_spec in E
      |apply not_true_iff_false in E; rewrite before_spec in E]
  end; repeat split; intros; try reflexivity; lia.
Qed.

Lemma schema_length_monotonic_witness :
  length (efficiencyColumns (Some 2009%Z)) <= length (efficiencyColumns (Some 2010%Z))
  /\ length (efficiencyColumns (Some 2010%Z)) = length (efficiencyColumns (Some 2009%Z)) + 4
  /\ length (heightColumns (Some 2008%Z)) = length (heightColumns (Some 2007%Z)) + 2
  /\ length (scheduleColumns (Some 2009%Z)) = length (scheduleColumns (Some 1999%Z)).
Proof.
  split; [apply (schema_length_monotonic 2009 2010); lia|].
  split; [apply (schema_length_monotonic 2009 2010); lia|].
  split; [apply (schema_length_monotonic 2007 2008); lia|].
  apply (schema_length_monotonic 2009 1999); lia.
Defined.

(** ** The matcher *)

Arguments substring : simpl never.

Section Matcher.

Lemma rep_inv {R} c g (k : nat -> str -> option R) s :
  forall lo hi pos r,
    rep c g k lo hi pos s = Some r ->
    exists t s',
      s = t ++ s' /\ forallb (cmatch c) t = true /\ lo <= length t
      /\ (forall h, hi = Some h -> length t <= h)
      /\ k (pos + length t) s' = Some r.
Proof.
  induction s as [|a s IH]; intros lo hi pos r H.
  - exists [], []. simpl in *.
    assert (Hk : match lo with 0 => k pos [] | S _ => None end = Some r)
      by (destruct g; destruct (match lo with 0 => _ | S _ => _ end); congruence).
    destruct lo; [|discriminate]. rewrite Nat.add_0_r.
    repeat split; auto; intros; lia.
  - assert (Hcase :
      (match lo with 0 => k pos (a :: s) | S _ => None end = Some r)
      \/ (cmatch c a && may_repeat hi = true
          /\ rep c g k (pred lo) (pred <$> hi) (S pos) s = Some r)).
    { simpl in H. destruct g.
      - destruct (cmatch c a && may_repeat hi).
        + destruct (rep c true k (pred lo) (pred <$> hi) (S pos) s) eqn:E.
          * right. split; congruence.
          * left. exact H.
        + left. exact H.
      - destruct (match lo with 0 => k pos (a :: s) | S _ => None end) eqn:E.
        + left. congruence.
        + right. destruct (cmatch c a && may_repeat hi); [split; congruence|discriminate]. }
    destruct Hcase as [Hk|[Hc Hr]].
    + destruct lo; [|discriminate]. exists [], (a :: s).
      rewrite Nat.add_0_r. repeat split; auto; simpl; intros; lia.
    + apply andb_true_iff in Hc as [Hc Hm].
      apply IH in Hr as (t & s' & -> & Hall & Hlo & Hhi & Hk).
      exists (a :: t), s'. simpl. rewrite Hc, Hall.
      replace (pos + S (length t)) with (S pos + length t) by lia.
      repeat split; auto; try lia.
      intros h ->. destruct h; [discriminate|].
      specialize (Hhi h eq_refl). lia.
Qed.

(** A greedy quantifier without upper bound takes the whole run of
    matching characters when the continuation accepts what follows. *)
Lemma rep_greedy_run {R} c (k : nat -> str -> option R) t :
  forall lo pos s' r,
    forallb (cmatch c) t = true ->
    match s' with [] => True | a :: _ => cmatch c a = false end ->
    lo <= length t ->
    k (pos + length t) s' = Some r ->
    rep c true k lo None pos (t ++ s') = Some r.
Proof.
  induction t as [|a t IH]; intros lo pos s' r Hall Hs' Hlo Hk.
  - simpl in *. rewrite Nat.add_0_r in Hk.
    assert (lo = 0) as -> by lia.
    destruct s' as [|b s']; simpl; [exact Hk|].
    rewrite Hs'. exact Hk.
  - simpl in Hall. apply andb_true_iff in Hall as [Ha Hall].
    cbn [rep app]. rewrite Ha. simpl.
    rewrite (IH (pred lo) (S pos) s' r); auto.
    + simpl in Hlo. lia.
    + rewrite <- Hk. f_equal. simpl. lia.
Qed.

(** A quantifier that needs a character fails where none matches. *)
Lemma rep_none {R} c g (k : nat -> str -> option R) lo hi pos s :
  0 < lo ->
  match s with [] => True | a :: _ => cmatch c a = false end ->
  rep c g k lo hi pos s = None.
Proof.
  intros Hlo Hs. destruct lo; [lia|].
  destruct s as [|a s]; destruct g; simpl; try reflexivity; rewrite Hs; reflexivity.
Qed.

Lemma search_inv p s :
  forall pos b e st,
    search p pos s = Some (b, e, st) ->
    exists pre s',
      s = pre ++ s' /\ b = pos + length pre
      /\ run p b s' no_captures = Some (e, st).
Proof.
  induction s as [|a s IH]; intros pos b e st H; simpl in H.
  - destruct (run p pos [] no_captures) as [[e' st']|] eqn:E; [|discriminate].
    inversion H; subst. exists [], []. simpl. rewrite Nat.add_0_r. auto.
  - destruct (run p pos (a :: s) no_captures) as [[e' st']|] eqn:E.
    + inversion H; subst. exists [], (a :: s). simpl. rewrite Nat.add_0_r. auto.
    + apply IH in H as (pre & s' & -> & -> & H).
      exists (a :: pre), s'. simpl. split; [reflexivity|]. split; [lia|exact H].
Qed.

Lemma search_here p pos s e st :
  run p pos s no_captures = Some (e, st) -> search p pos s = Some (pos, e, st).
Proof. intros H. destruct s; simpl; rewrite H; reflexivity. Qed.

(** The search skips a prefix at no offset of which the pattern matches. *)
Lemma search_skip p pre :
  forall pos s,
    (forall i, i < length pre -> run p (pos + i) (drop i pre ++ s) no_captures = None) ->
    search p pos (pre ++ s) = search p (pos + length pre) s.
Proof.
  induction pre as [|a pre IH]; intros pos s H; simpl.
  - rewrite Nat.add_0_r. reflexivity.
  - specialize (H 0 ltac:(simpl; lia)) as H0. rewrite Nat.add_0_r in H0.
    simpl in H0. rewrite H0.
    rewrite IH.
    + f_equal. lia.
    + intros i Hi. specialize (H (S i) ltac:(simpl; lia)).
      simpl in H. rewrite <- H. f_equal. lia.
Qed.

Lemma search_found p pre :
  forall pos s,
    is_Some (run p (pos + length pre) s no_captures) ->
    is_Some (search p pos (pre ++ s)).
Proof.
  induction pre as [|a pre IH]; intros pos s [r H]; simpl.
  - rewrite Nat.add_0_r in H. destruct s; simpl; rewrite H; destruct r; eauto.
  - destruct (run p pos (a :: pre ++ s) no_captures) as [[e st]|]; [eauto|].
    apply IH. exists r. rewrite <- H. f_equal. simpl. lia.
Qed.

(** A match ends within the subject, and at its end when the pattern ends
    with [$]. *)
Lemma run_end p :
  forall pos s st e st',
    run p pos s st = Some (e, st') ->
    pos <= e <= pos + length s
    /\ (List.last p Bos = Eos -> e = pos + length s).
Proof.
  induction p as [|it p IH]; intros pos s st e st' H.
  - simpl in H. inversion H; subst. split; [lia|discriminate].
  - assert (Hstep : exists t s', s = t ++ s' /\
               run p (pos + length t) s' (match it with
                                          | Open n => open_group n pos st
                                          | Close n => close_group n pos st
                                          | _ => st end) = Some (e, st')
               /\ (it = Eos -> s = [])).
    { destruct it as [c|g lo hi c|n|n| |]; simpl in H.
      - destruct s as [|a s]; [discriminate|].
        destruct (cmatch c a); [|discriminate].
        exists [a], s. simpl. rewrite Nat.add_1_r. split; [auto|]. split; [auto|discriminate].
      - apply rep_inv in H as (t & s' & -> & _ & _ & _ & H).
        exists t, s'. split; [auto|]. split; [auto|discriminate].
      - exists [], s. simpl. rewrite Nat.add_0_r. split; [auto|]. split; [auto|discriminate].
      - exists [], s. simpl. rewrite Nat.add_0_r. split; [auto|]. split; [auto|discriminate].
      - destruct (pos =? 0); [|discriminate].
        exists [], s. simpl. rewrite Nat.add_0_r. split; [auto|]. split; [auto|discriminate].
      - destruct s; [|discriminate].
        exists [], []. simpl. rewrite Nat.add_0_r. auto. }
    destruct Hstep as (t & s' & -> & Hrun & Heos).
    apply IH in Hrun as [Hle Hlast]. rewrite length_app. split; [lia|].
    intros HL. destruct p as [|it' p].
    + simpl in HL. subst it. specialize (Heos eq_refl).
      apply app_eq_nil in Heos as [-> ->]. simpl in *. lia.
    + rewrite Hlast; [lia|]. exact HL.
Qed.

(** A group that is opened and closed records its extent. *)
Lemma close_open n b e st :
  close_group n e (open_group n b st)
  = Captures (<[n := b]> (starts st)) (<[n := (b, e)]> (groups st)).
Proof.
  unfold close_group, open_group. cbn [starts groups].
  rewrite lookup_insert_eq. reflexivity.
Qed.

Lemma substring_mid s a m b i j :
  s = a ++ m ++ b -> i = length a -> j = i + length m ->
  substring s i j = m.
Proof.
  intros -> -> ->. unfold substring.
  rewrite drop_app_length.
  replace (length a + length m - length a) with (length m) by lia.
  apply take_app_length.
Qed.

(** One step of a successful run, item by item. *)
Lemma run_One c p pos s st r :
  run (One c :: p) pos s st = Some r ->
  exists a s', s = a :: s' /\ cmatch c a = true /\ run p (S pos) s' st = Some r.
Proof.
  simpl. destruct s as [|a s]; [discriminate|].
  destruct (cmatch c a) eqn:E; [|discriminate]. eauto.
Qed.

Lemma run_Rep g lo hi c p pos s st r :
  run (Rep g lo hi c :: p) pos s st = Some r ->
  exists t s',
    s = t ++ s' /\ forallb (cmatch c) t = true /\ lo <= length t
    /\ (forall h, hi = Some h -> length t <= h)
    /\ run p (pos + length t) s' st = Some r.
Proof. simpl. intros H. apply rep_inv in H. exact H. Qed.

Lemma run_Bos p pos s st r :
  run (Bos :: p) pos s st = Some r -> pos = 0 /\ run p 0 s st = Some r.
Proof. simpl. destruct (Nat.eqb_spec pos 0); [subst; auto|discriminate]. Qed.

Lemma run_Eos p pos s st r :
  run (Eos :: p) pos s st = Some r -> s = [] /\ run p pos [] st = Some r.
Proof. simpl. destruct s; [auto|discriminate]. Qed.

Lemma run_nil pos s st r : run [] pos s st = Some r -> r = (pos, st).
Proof. simpl. congruence. Qed.

Lemma cmatch_Lit c a : cmatch (Lit c) a = true -> a = c.
Proof. simpl. intros H. apply Ascii.eqb_eq in H. auto. Qed.

End Matcher.

(** Inversion of a successful run of a concrete pattern. *)
Ltac run_inv H :=
  unfold star, plus, lazy_plus, opt in H;
  repeat match type of H with
  | run (One (Lit _) :: _) _ _ _ = Some _ =>
      let E := fresh "E" in
      apply run_One in H as (? & ? & -> & E & H); apply cmatch_Lit in E; subst
  | run (One _ :: _) _ _ _ = Some _ =>
      let E := fresh "E" in
      apply run_One in H as (? & ? & -> & E & H)
  | run (Rep _ _ _ _ :: _) _ _ _ = Some _ =>
      let t := fresh "t" in
      let Hall := fresh "Hall" in
      let Hlo := fresh "Hlo" in
      let Hhi := fresh "Hhi" in
      apply run_Rep in H as (t & ? & -> & Hall & Hlo & Hhi & H)
  | run (Open _ :: _) _ _ _ = Some _ => change (run (Open ?n :: ?p) ?pos ?s ?st) with (run p pos s (open_group n pos st)) in H
  | run (Close _ :: _) _ _ _ = Some _ => change (run (Close ?n :: ?p) ?pos ?s ?st) with (run p pos s (close_group n pos st)) in H
  | run (Bos :: _) _ _ _ = Some _ => apply run_Bos in H as [? H]
  | run (Eos :: _) _ _ _ = Some _ => apply run_Eos in H as [? H]; subst
  | run [] _ _ _ = Some _ => apply run_nil in H
  end.

(** ** Strings *)

Section Strings.

Lemma starts_with_spec p s :
  starts_with p s = true <-> exists r, s = p ++ r.
Proof.
  revert s. induction p as [|a p IH]; intros s; simpl.
  - split; [intros _; exists s; reflexivity|reflexivity].
  - destruct s as [|b s].
    + split; [discriminate|intros [r H]; discriminate].
    + rewrite andb_true_iff, IH, Ascii.eqb_eq. split.
      * intros [-> [r ->]]. exists r. reflexivity.
      * intros [r H]. inversion H; subst. eauto.
Qed.

Lemma includes_spec p s :
  includes p s = true <-> exists a b, s = a ++ p ++ b.
Proof.
  induction s as [|c s IH]; simpl; rewrite orb_true_iff, starts_with_spec.
  - split.
    + intros [[r H]|H]; [|discriminate]. exists [], r. exact H.
    + intros (a & b & H). left. destruct a; [eauto|discriminate].
  - rewrite IH. split.
    + intros [[r H]|(a & b & H)].
      * exists [], r. exact H.
      * exists (c :: a), b. rewrite H. reflexivity.
    + intros (a & b & H). destruct a as [|c' a].
      * left. exists b. exact H.
      * right. inversion H; subst. eauto.
Qed.

Lemma includes_infix p a s b :
  includes p (a ++ s ++ b) = false -> includes p s = false.
Proof.
  intros H. apply not_true_is_false. intros Hs.
  apply includes_spec in Hs as (x & y & ->).
  apply not_true_iff_false in H. apply H. apply includes_spec.
  exists (a ++ x), (y ++ b). rewrite <- !app_assoc. reflexivity.
Qed.

Lemma includes_nil_pattern s : includes [] s = true.
Proof. destruct s; reflexivity. Qed.

Lemma includes_cons p a s : includes p (a :: s) = false -> includes p s = false.
Proof. simpl. intros H. apply orb_false_iff in H. tauto. Qed.

Lemma includes_head p s : includes p s = false -> starts_with p s = false.
Proof. destruct s; simpl; intros H; apply orb_false_iff in H; tauto. Qed.

(** Splitting a string that does not contain the separator. *)
Lemma split_go_absent sep s :
  forall cur, includes sep s = false -> split_go sep 0 cur s = [cur ++ s].
Proof.
  induction s as [|a s IH]; intros cur H; simpl.
  - rewrite app_nil_r. reflexivity.
  - rewrite (includes_head _ _ H), IH by (eapply includes_cons; eauto).
    rewrite <- app_assoc. reflexivity.
Qed.

Lemma split_absent sep s : includes sep s = false -> split sep s = [s].
Proof. intros H. unfold split. rewrite split_go_absent by exact H. reflexivity. Qed.

Lemma split_go_skip sep t :
  forall cur s, split_go sep (length t) cur (t ++ s) = split_go sep 0 cur s.
Proof.
  induction t as [|a t IH]; intros cur s; simpl; [reflexivity|apply IH].
Qed.

(** Splitting at the first occurrence of the separator. *)
Lemma split_go_first sep a :
  forall cur b,
    sep <> [] ->
    includes sep (a ++ removelast sep) = false ->
    split_go sep 0 cur (a ++ sep ++ b) = (cur ++ a) :: split_go sep 0 [] b.
Proof.
  induction a as [|c a IH]; intros cur b Hsep H.
  - destruct sep as [|c sep]; [congruence|]. cbn [app split_go].
    assert (Hs : starts_with (c :: sep) (c :: sep ++ b) = true)
      by (apply starts_with_spec; exists b; reflexivity).
    rewrite Hs, app_nil_r. f_equal.
    cbn [length]. rewrite Nat.sub_succ, Nat.sub_0_r. apply split_go_skip.
  - cbn [app split_go].
    assert (Hs : starts_with sep (c :: a ++ sep ++ b) = false).
    { apply not_true_is_false. intros Hs. apply starts_with_spec in Hs as [r Hr].
      apply not_true_iff_false in H. apply H. apply includes_spec.
      destruct (exists_last Hsep) as (sep' & z & ->).
      rewrite removelast_last.
      assert (Hlen : length (sep' ++ [z]) <= length ((c :: a) ++ sep')).
      { rewrite !length_app. simpl. lia. }
      exists [], (take (length ((c :: a) ++ sep') - length (sep' ++ [z])) r).
      apply (f_equal (take (length ((c :: a) ++ sep')))) in Hr.
      rewrite (take_app_ge (sep' ++ [z])) in Hr by exact Hlen.
      rewrite <- Hr.
      replace (c :: a ++ (sep' ++ [z]) ++ b) with (((c :: a) ++ sep') ++ [z] ++ b)
        by (simpl; rewrite <- !app_assoc; reflexivity).
      rewrite take_app_length. reflexivity. }
    rewrite Hs. rewrite IH; auto.
    + rewrite <- app_assoc. reflexivity.
    + eapply includes_cons. exact H.
Qed.

Lemma split_two sep a b :
  sep <> [] ->
  includes sep (a ++ removelast sep) = false ->
  includes sep b = false ->
  split sep (a ++ sep ++ b) = [a; b].
Proof.
  intros Hsep Ha Hb. unfold split.
  rewrite split_go_first by assumption.
  rewrite split_go_absent by assumption. reflexivity.
Qed.

Lemma drop_while_suffix f s : exists a, s = a ++ drop_while f s.
Proof.
  induction s as [|c s [a IH]]; simpl.
  - exists []. reflexivity.
  - destruct (f c).
    + exists (c :: a). simpl. f_equal. exact IH.
    + exists []. reflexivity.
Qed.

(** The trimmed string is a part of the string. *)
Lemma trim_infix s : exists a b, s = a ++ trim s ++ b.
Proof.
  unfold trim. destruct (drop_while_suffix is_space s) as [a Ha].
  destruct (drop_while_suffix is_space (rev (drop_while is_space s))) as [b Hb].
  exists a, (rev b). rewrite Ha at 1. f_equal.
  rewrite <- rev_app_distr, <- Hb, rev_involutive. reflexivity.
Qed.

Lemma drop_while_head f a s : f a = false -> drop_while f (a :: s) = a :: s.
Proof. intros H. simpl. rewrite H. reflexivity. Qed.

(** A string that starts and ends with other characters than white space
    is its own trimmed form. *)
Lemma trim_id a s z :
  is_space a = false -> is_space z = false ->
  (trim (a :: s ++ [z]) = a :: s ++ [z]) /\ trim [a] = [a].
Proof.
  intros Ha Hz. unfold trim. split.
  - rewrite drop_while_head by exact Ha.
    replace (rev (a :: s ++ [z])) with (z :: rev (a :: s))
      by (rewrite (app_comm_cons s [z] a), rev_app_distr; reflexivity).
    rewrite drop_while_head by exact Hz.
    change (z :: rev (a :: s)) with ([z] ++ rev (a :: s)).
    rewrite rev_app_distr, rev_involutive. reflexivity.
  - simpl. rewrite Ha. simpl. rewrite Ha. reflexivity.
Qed.

Lemma token_spec t :
  token t = true <-> t <> [] /\ forallb (fun c => negb (is_space c)) t = true.
Proof.
  unfold token. rewrite andb_true_iff. destruct t; simpl; intuition congruence.
Qed.

Lemma digit_not_space c : is_digit c = true -> is_space c = false.
Proof.
  unfold is_digit, is_space. intros H.
  apply andb_true_iff in H as [H1 H2].
  apply Nat.leb_le in H1. apply Nat.leb_le in H2.
  repeat (apply orb_false_iff; split).
  - apply andb_false_iff. right. apply Nat.leb_gt. lia.
  - apply Nat.eqb_neq. lia.
  - apply Nat.eqb_neq. lia.
Qed.

Lemma digits_spec t :
  digits t = true <-> t <> [] /\ forallb is_digit t = true.
Proof.
  unfold digits. rewrite andb_true_iff. destruct t; simpl; intuition congruence.
Qed.

Lemma digits_token t : digits t = true -> token t = true.
Proof.
  rewrite digits_spec, token_spec. intros [Hne H]. split; [exact Hne|].
  rewrite forallb_forall in *. intros c Hc.
  rewrite (digit_not_space c); auto.
Qed.

(** Cutting at white space recovers the tokens that single spaces join. *)
Lemma split_ws_go_token t :
  forall cur b s,
    token t = true ->
    split_ws_go cur b (t ++ s) = split_ws_go (cur ++ t) false s.
Proof.
  induction t as [|a t IH]; intros cur b s H; [cbv in H; discriminate|].
  apply token_spec in H as [_ H]. simpl in H.
  apply andb_true_iff in H as [Ha Ht]. apply negb_true_iff in Ha.
  cbn [app split_ws_go]. rewrite Ha.
  destruct t as [|a' t].
  - simpl. reflexivity.
  - rewrite IH by (apply token_spec; split; [discriminate|exact Ht]).
    rewrite <- app_assoc. reflexivity.
Qed.

Lemma split_ws_join toks :
  toks <> [] -> Forall (fun t => token t = true) toks ->
  forall b, split_ws_go [] b (join " " toks) = toks.
Proof.
  induction toks as [|t toks IH]; intros Hne Hall b; [congruence|].
  inversion Hall as [|? ? Ht Htoks]; subst.
  destruct toks as [|t' toks].
  - simpl. rewrite <- (app_nil_r t) at 1.
    rewrite split_ws_go_token by exact Ht. reflexivity.
  - change (join " " (t :: t' :: toks)) with (t ++ " " ++ join " " (t' :: toks)).
    rewrite split_ws_go_token by exact Ht.
    cbn [app split_ws_go]. change (is_space " ") with true. cbn iota.
    simpl app. f_equal. apply IH; [discriminate|exact Htoks].
Qed.

Lemma join_cons sep t toks :
  toks <> [] -> join sep (t :: toks) = t ++ sep ++ join sep toks.
Proof. destruct toks; [congruence|reflexivity]. Qed.

Lemma join_snoc sep toks t :
  toks <> [] -> join sep (toks ++ [t]) = join sep toks ++ sep ++ t.
Proof.
  induction toks as [|t' toks IH]; intros Hne; [congruence|].
  destruct toks as [|t'' toks].
  - reflexivity.
  - change ((t' :: t'' :: toks) ++ [t]) with (t' :: ((t'' :: toks) ++ [t])).
    rewrite join_cons by (simpl; discriminate).
    rewrite IH by discriminate.
    rewrite (join_cons sep t' (t'' :: toks)) by discriminate.
    rewrite <- !app_assoc. reflexivity.
Qed.

End Strings.

(** ** The game string *)

Section GameString.

(** A match of the overtime pattern ends with ["OT)"]. *)
Lemma otRe_shape s m :
  exec otRe s = Some m ->
  exists pre t, s = pre ++ "(" ++ t ++ "OT)"
                /\ length t <= 1 /\ forallb is_digit t = true
                /\ group m 1 = Some (t ++ "OT").
Proof.
  unfold exec. intros H.
  destruct (search otRe 0 s) as [[[b e] st]|] eqn:E; [|discriminate].
  inversion H; subst; clear H.
  apply search_inv in E as (pre & s' & -> & -> & H).
  unfold otRe in H. run_inv H.
  inversion H; subst; clear H.
  exists pre, t. split; [reflexivity|].
  split; [apply Hhi; reflexivity|]. split; [exact Hall|].
  unfold group. cbn [caps subject]. rewrite close_open. cbn [groups].
  rewrite lookup_insert_eq. cbn [fmap option_fmap option_map fst snd].
  f_equal. apply (substring_mid _ (pre ++ "(") _ ")").
  - rewrite <- !app_assoc. reflexivity.
  - rewrite length_app. simpl. lia.
  - rewrite !length_app. simpl. lia.
Qed.

Lemma overtime_absent s z :
  z <> ")"%char -> overtime (s ++ [z]) = (None, s ++ [z]).
Proof.
  intros Hz. unfold overtime.
  destruct (exec otRe (s ++ [z])) as [m|] eqn:E; [|reflexivity].
  apply otRe_shape in E as (pre & t & Heq & _).
  replace (pre ++ "(" ++ t ++ "OT)") with ((pre ++ "(" ++ t ++ "OT") ++ ")") in Heq
    by (rewrite <- !app_assoc; reflexivity).
  apply app_inj_tail in Heq as [_ ->]. congruence.
Qed.

Lemma replace_otStrip_prefix s : exists b, replace otStripRe "" s = take b s.
Proof.
  unfold replace.
  destruct (search otStripRe 0 s) as [[[b e] st]|] eqn:E.
  - apply search_inv in E as (pre & s' & -> & -> & H).
    apply run_end in H as [_ He]. specialize (He eq_refl). subst e.
    exists (0 + length pre). simpl.
    rewrite <- length_app, drop_all, app_nil_r. reflexivity.
  - exists (length s). rewrite firstn_all. reflexivity.
Qed.

(** The processed string is a part of the game string. *)
Lemma overtime_infix s : exists a b, s = a ++ snd (overtime s) ++ b.
Proof.
  unfold overtime.
  destruct (exec otRe s ≫= _) as [ot|]; [destruct (truthy ot)|];
    try (exists [], []; simpl; rewrite app_nil_r; reflexivity).
  simpl. destruct (replace_otStrip_prefix s) as [b ->].
  destruct (trim_infix (take b s)) as (x & y & H).
  exists x, (y ++ drop b s).
  rewrite <- (take_drop b s) at 1. rewrite H at 1.
  rewrite <- !app_assoc. reflexivity.
Qed.

Lemma unrecognized_spec s :
  unrecognized s = true <->
  includes ", " s = false /\ includes " at " s = false /\ includes " vs. " s = false.
Proof.
  unfold unrecognized. rewrite !andb_true_iff, !negb_true_iff. tauto.
Qed.

Lemma unrecognized_no_split s sep :
  includes sep s = false -> (length (split sep (snd (overtime s))) =? 2) = false.
Proof.
  intros H. destruct (overtime_infix s) as (a & b & Heq).
  rewrite Heq in H. apply includes_infix in H.
  rewrite split_absent by exact H. reflexivity.
Qed.

(** Without a delimiter only the overtime marker is recorded. *)
Lemma parseGameResult_unrecognized s :
  unrecognized s = true ->
  parseGameResult (Some s) = set_OT (fst (overtime s)) nullResult.
Proof.
  intros H. apply unrecognized_spec in H as (H1 & H2 & H3).
  unfold parseGameResult. destruct s as [|c s]; [reflexivity|].
  cbn [truthy negb].
  pose proof (unrecognized_no_split _ _ H1) as S1.
  pose proof (unrecognized_no_split _ _ H2) as S2.
  pose proof (unrecognized_no_split _ _ H3) as S3.
  destruct (overtime (c :: s)) as [ot p]. simpl in S1, S2, S3.
  rewrite S1, S2, S3. destruct ot; reflexivity.
Qed.

Lemma margin_flags r :
  isCompleted (margin r) = isCompleted r
  /\ isAway (margin r) = isAway r /\ isNeutral (margin r) = isNeutral r.
Proof.
  unfold margin.
  destruct (WinnerScore r) as [ws|], (LoserScore r) as [ls|]; auto.
  destruct (truthy ws && truthy ls); auto.
  destruct (negb (isNaN (parseInt ws)) && negb (isNaN (parseInt ls))); auto.
Qed.

Lemma upcoming_flags teams r :
  isCompleted (upcoming teams r) = isCompleted r
  /\ isAway (upcoming teams r) = isAway r /\ isNeutral (upcoming teams r) = isNeutral r.
Proof.
  unfold upcoming.
  destruct (2 <=? length (parts teams 0)), (2 <=? length (parts teams 1)); auto.
Qed.

(** The flags follow the first split that gives two parts. *)
Lemma parseGameResult_flags s :
  s <> [] ->
  let p := snd (overtime s) in
  let r := parseGameResult (Some s) in
  let comma := length (split ", " p) =? 2 in
  let at_ := length (split " at " p) =? 2 in
  let vs := length (split " vs. " p) =? 2 in
  isCompleted r = comma
  /\ isAway r = negb comma && at_
  /\ isNeutral r = negb comma && negb at_ && vs.
Proof.
  intros Hs. destruct s as [|c s]; [congruence|].
  cbv zeta. unfold parseGameResult. cbn [truthy negb].
  destruct (overtime (c :: s)) as [ot p]. cbn [snd].
  destruct (length (split ", " p) =? 2).
  - match goal with |- context [margin ?r] =>
      destruct (margin_flags r) as (-> & -> & ->) end.
    destruct (3 <=? length (parts (split ", " p) 0)),
             (3 <=? length (parts (split ", " p) 1)), ot; auto.
  - destruct (length (split " at " p) =? 2).
    + match goal with |- context [upcoming ?t ?r] =>
        destruct (upcoming_flags t r) as (-> & -> & ->) end.
      destruct ot; auto.
    + destruct (length (split " vs. " p) =? 2).
      * match goal with |- context [upcoming ?t ?r] =>
          destruct (upcoming_flags t r) as (-> & -> & ->) end.
        destruct ot; auto.
      * destruct ot; auto.
Qed.

Lemma head_join sep t toks a :
  head t = Some a -> head (join sep (t :: toks)) = Some a.
Proof.
  destruct t as [|b t]; [discriminate|]. intros H.
  destruct toks; simpl in *; exact H.
Qed.

Lemma last_join sep toks t z :
  last t = Some z -> last (join sep (toks ++ [t])) = Some z.
Proof.
  intros H. destruct toks as [|t' toks].
  - exact H.
  - rewrite join_snoc by discriminate.
    rewrite !app_assoc. destruct (exists_last (l := t)) as (t0 & z' & ->).
    + intros ->. discriminate.
    + rewrite last_snoc in H. inversion H; subst.
      rewrite app_assoc. apply last_snoc.
Qed.

Lemma trim_fixed s a z :
  head s = Some a -> last s = Some z ->
  is_space a = false -> is_space z = false -> trim s = s.
Proof.
  intros Hh Hl Ha Hz. destruct s as [|a' s]; [discriminate|].
  inversion Hh; subst a'.
  destruct (decide (s = [])) as [->|Hs].
  - apply (trim_id a [] z); auto.
  - destruct (exists_last Hs) as (s' & z' & ->).
    rewrite (app_comm_cons s' [z'] a), last_snoc in Hl. inversion Hl; subst z'.
    apply (trim_id a s' z); auto.
Qed.

Lemma token_ends t :
  token t = true ->
  exists a z, head t = Some a /\ last t = Some z
              /\ is_space a = false /\ is_space z = false.
Proof.
  intros H. apply token_spec in H as [Hne H].
  rewrite forallb_forall in H.
  destruct t as [|a t]; [congruence|].
  destruct (exists_last Hne) as (t' & z & Heq).
  exists a, z. rewrite Heq at 2. rewrite last_snoc.
  repeat split.
  - apply negb_true_iff, H. left. reflexivity.
  - apply negb_true_iff, H. rewrite Heq. apply in_or_app. right. left. reflexivity.
Qed.

(** The tokens of one side of a well-formed game string. *)
Lemma split_ws_side rank name score :
  token rank = true -> Forall (fun t => token t = true) name -> token score = true ->
  split_ws (trim (side rank name score)) = rank :: name ++ [score].
Proof.
  intros Hr Hn Hs. unfold side.
  destruct (token_ends _ Hr) as (a & _ & Ha & _ & Hsa & _).
  destruct (token_ends _ Hs) as (_ & z & _ & Hz & _ & Hsz).
  rewrite (trim_fixed _ a z); auto.
  - apply split_ws_join; [discriminate|].
    constructor; [exact Hr|]. apply Forall_app. split; [exact Hn|].
    constructor; [exact Hs|constructor].
  - apply head_join. exact Ha.
  - rewrite app_comm_cons. apply last_join. exact Hz.
Qed.

Lemma take_while_all f s : forallb f s = true -> take_while f s = s.
Proof.
  induction s as [|a s IH]; simpl; [reflexivity|].
  intros H. apply andb_true_iff in H as [-> H]. rewrite IH by exact H. reflexivity.
Qed.

Lemma digit_differs a c : is_digit a = true -> is_digit c = false -> Ascii.eqb c a = false.
Proof.
  intros Ha Hc. destruct (Ascii.eqb_spec c a); [subst; congruence|reflexivity].
Qed.

Lemma digit_differs_sym a c : is_digit a = true -> is_digit c = false -> Ascii.eqb a c = false.
Proof.
  intros Ha Hc. destruct (Ascii.eqb_spec a c); [subst; congruence|reflexivity].
Qed.

(** An integer below [2^53] in magnitude is a double. *)
Lemma to_double_safe z : (Z.abs z < 2 ^ 53)%Z -> to_double z = Num z.
Proof.
  intros H. unfold to_double. cbv zeta.
  destruct (Z.ltb_spec (Z.abs z) (2 ^ 53)); [reflexivity|lia].
Qed.

Lemma to_double_not_NaN z : isNaN (to_double z) = false.
Proof.
  unfold to_double. cbv zeta.
  destruct (Z.abs z <? 2 ^ 53)%Z; [reflexivity|].
  match goal with |- context [if ?c then Infinity _ else _] => destruct c end;
    reflexivity.
Qed.

(** [parseInt] reads a string of digits as its decimal value, rounded to
    a double. *)
Lemma parseInt_digits s : digits s = true -> parseInt s = to_double (dec s).
Proof.
  intros H. apply digits_spec in H as [Hne H].
  destruct s as [|a s]; [congruence|].
  pose proof H as Hall. simpl in H. apply andb_true_iff in H as [Ha Hs].
  unfold parseInt. rewrite drop_while_head by (apply digit_not_space; exact Ha).
  rewrite (digit_differs_sym a "-"), (digit_differs_sym a "+") by (exact Ha || reflexivity).
  assert (Hx : starts_with "0x" (a :: s) || starts_with "0X" (a :: s) = false).
  { destruct s as [|c s]; cbn [starts_with].
    - rewrite !andb_false_r. reflexivity.
    - simpl in Hs. apply andb_true_iff in Hs as [Hc _].
      rewrite (digit_differs c "x"), (digit_differs c "X") by (exact Hc || reflexivity).
      cbn [andb]. rewrite !andb_false_r. reflexivity. }
  rewrite Hx, take_while_all by exact Hall. reflexivity.
Qed.

Lemma includes_comma_snoc s :
  includes ", " s = false -> includes ", " (s ++ ",") = false.
Proof.
  intros H. apply not_true_is_false. intros Hc.
  apply includes_spec in Hc as (a & b & Heq).
  apply not_true_iff_false in H. apply H. apply includes_spec.
  destruct (decide (b = [])) as [->|Hb].
  - rewrite app_nil_r in Heq.
    change (a ++ ", ") with (a ++ "," ++ " ") in Heq.
    rewrite app_assoc in Heq. apply app_inj_tail in Heq as [_ Heq]. discriminate.
  - destruct (exists_last Hb) as (b' & z & ->).
    rewrite !app_assoc in Heq. apply app_inj_tail in Heq as [Heq _].
    exists a, b'. rewrite Heq, <- app_assoc. reflexivity.
Qed.

End GameString.

Section GameClaims.

Lemma side_nonempty rank name score :
  token rank = true -> exists a rest, side rank name score = a :: rest.
Proof.
  intros H. destruct rank as [|a rank]; [cbv in H; discriminate|].
  unfold side. destruct (name ++ [score]) eqn:E.
  - destruct name; discriminate.
  - rewrite join_cons by discriminate. eauto.
Qed.

Lemma side_ends_with_score rank name score z score' :
  score = score' ++ [z] ->
  exists x, side rank name score = x ++ [z].
Proof.
  intros ->. unfold side. rewrite app_comm_cons, join_snoc by discriminate.
  exists (join " " (rank :: name) ++ " " ++ score').
  rewrite <- !app_assoc. reflexivity.
Qed.

Lemma digits_last s :
  digits s = true -> exists s' z, s = s' ++ [z] /\ is_digit z = true.
Proof.
  intros H. apply digits_spec in H as [Hne H].
  destruct (exists_last Hne) as (s' & z & ->). exists s', z. split; [reflexivity|].
  rewrite forallb_app in H. apply andb_true_iff in H as [_ H].
  simpl in H. rewrite andb_true_r in H. exact H.
Qed.

Lemma side_parts (rank : str) (name : list str) (score : str) :
  name <> [] ->
  (3 <=? length (rank :: name ++ [score])) = true
  /\ (rank :: name ++ [score]) !! 0 = Some rank
  /\ last_elem (rank :: name ++ [score]) = Some score
  /\ slice1m1 (rank :: name ++ [score]) = name.
Proof.
  intros Hne. repeat split.
  - apply Nat.leb_le. simpl. rewrite length_app. simpl.
    destruct name; [congruence|simpl; lia].
  - unfold last_elem. rewrite app_comm_cons. apply last_snoc.
  - unfold slice1m1. simpl. rewrite drop_0. apply removelast_last.
Qed.

Lemma digits_margin ws ls r :
  digits ws = true -> digits ls = true ->
  WinnerScore r = Some ws -> LoserScore r = Some ls ->
  margin r = set_ActualMOV (Some (sub (parseInt ws) (parseInt ls))) r.
Proof.
  intros Hw Hl Ew El. unfold margin. rewrite Ew, El. cbv zeta.
  rewrite (parseInt_digits ws), (parseInt_digits ls), !to_double_not_NaN by assumption.
  apply digits_spec in Hw as [Hw _]. apply digits_spec in Hl as [Hl _].
  destruct ws; [congruence|]. destruct ls; [congruence|]. reflexivity.
Qed.

Lemma dec_acc_nonneg s :
  forall acc, (0 <= acc)%Z ->
    (0 <= fold_left (fun acc c => 10 * acc + digit_val c) s acc)%Z.
Proof.
  induction s as [|c s IH]; intros acc Hacc; simpl; [exact Hacc|].
  apply IH. unfold digit_val. lia.
Qed.

Lemma dec_nonneg s : (0 <= dec s)%Z.
Proof. apply dec_acc_nonneg. lia. Qed.

(** Below [2^53] the difference of two scores is the exact integer. *)
Lemma score_difference s1 s2 :
  digits s1 = true -> digits s2 = true ->
  (dec s1 < 2 ^ 53)%Z -> (dec s2 < 2 ^ 53)%Z ->
  sub (parseInt s1) (parseInt s2) = Num (dec s1 - dec s2).
Proof.
  intros H1 H2 B1 B2. pose proof (dec_nonneg s1). pose proof (dec_nonneg s2).
  rewrite (parseInt_digits s1), (parseInt_digits s2) by assumption.
  rewrite !to_double_safe by lia. cbn [sub]. apply to_double_safe. lia.
Qed.

(** A completed game, from the result of the overtime step. *)
Lemma completed_game_core (s : str) (ot : option str)
    (rank1 : str) (name1 : list str) (score1 : str)
    (rank2 : str) (name2 : list str) (score2 : str) :
  truthy s = true ->
  overtime s = (ot, side rank1 name1 score1 ++ ", " ++ side rank2 name2 score2) ->
  token rank1 = true -> Forall (fun t => token t = true) name1 -> name1 <> [] ->
  digits score1 = true ->
  token rank2 = true -> Forall (fun t => token t = true) name2 -> name2 <> [] ->
  digits score2 = true ->
  includes ", " (side rank1 name1 score1) = false ->
  includes ", " (side rank2 name2 score2) = false ->
  parseGameResult (Some s) =
  {| Winner := Some (join " " name1);
     WinnerRank := Some rank1;
     WinnerScore := Some score1;
     Loser := Some (join " " name2);
     LoserRank := Some rank2;
     LoserScore := Some score2;
     OT := ot;
     ActualMOV := Some (sub (parseInt score1) (parseInt score2));
     isCompleted := true;
     isNeutral := false;
     isAway := false |}.
Proof.
  intros Htruthy Hot Hr1 Hn1 Hne1 Hs1 Hr2 Hn2 Hne2 Hs2 Hc1 Hc2.
  unfold parseGameResult. rewrite Htruthy. cbn [negb]. rewrite Hot.
  rewrite split_two; [|discriminate|apply includes_comma_snoc; exact Hc1|exact Hc2].
  change (length [side rank1 name1 score1; side rank2 name2 score2] =? 2) with true.
  cbv iota. unfold parts. cbn [lookup list_lookup default from_option id].
  rewrite !split_ws_side by (assumption || apply digits_token; assumption).
  destruct (side_parts rank1 name1 score1 Hne1) as (L1 & H1 & E1 & M1).
  destruct (side_parts rank2 name2 score2 Hne2) as (L2 & H2 & E2 & M2).
  rewrite L1, L2, H1, H2, E1, E2, M1, M2.
  erewrite digits_margin; [|exact Hs1|exact Hs2|destruct ot; reflexivity..].
  destruct ot; reflexivity.
Qed.

End GameClaims.

(** C1.  A completed game ["<rank> <name> <score>, <rank> <name> <score>"]:
    on each side the rank is a token, the name is one or more tokens, the
    score is a string of digits, and the tokens are joined by single spaces
    (neither side contains the delimiter [", "] itself).  The first side is
    the winner and the second the loser: ranks and scores are the first and
    last tokens, names are the tokens between them joined by single spaces,
    the game is completed and neither away nor neutral.  The margin is the
    winner's score minus the loser's, as JavaScript reads and subtracts
    them: the exact integer difference for scores below [2^53]. *)
Theorem completed_game_parsed
    (rank1 : str) (name1 : list str) (score1 : str)
    (rank2 : str) (name2 : list str) (score2 : str) :
  token rank1 = true -> Forall (fun t => token t = true) name1 -> name1 <> [] ->
  digits score1 = true ->
  token rank2 = true -> Forall (fun t => token t = true) name2 -> name2 <> [] ->
  digits score2 = true ->
  includes ", " (side rank1 name1 score1) = false ->
  includes ", " (side rank2 name2 score2) = false ->
  parseGameResult (Some (side rank1 name1 score1 ++ ", " ++ side rank2 name2 score2)) =
  {| Winner := Some (join " " name1);
     WinnerRank := Some rank1;
     WinnerScore := Some score1;
     Loser := Some (join " " name2);
     LoserRank := Some rank2;
     LoserScore := Some score2;
     OT := None;
     ActualMOV := Some (sub (parseInt score1) (parseInt score2));
     isCompleted := true;
     isNeutral := false;
     isAway := false |}
  /\ ((dec score1 < 2 ^ 53)%Z -> (dec score2 < 2 ^ 53)%Z ->
      sub (parseInt score1) (parseInt score2) = Num (dec score1 - dec score2)).
Proof.
  intros Hr1 Hn1 Hne1 Hs1 Hr2 Hn2 Hne2 Hs2 Hc1 Hc2.
  split; [|apply score_difference; assumption].
  apply completed_game_core; try assumption.
  - destruct (side_nonempty rank1 name1 score1 Hr1) as (a & rest & ->). reflexivity.
  - destruct (digits_last _ Hs2) as (s2' & z & Es2 & Hz).
    destruct (side_ends_with_score rank2 name2 score2 z s2' Es2) as [x ->].
    rewrite !app_assoc. apply overtime_absent. intros ->. discriminate.
Qed.

(** The scenario of the specification and of the test suite. *)
Lemma completed_game_parsed_witness :
  parseGameResult (Some "233 Rice 77, 273 FIU 70") =
  {| Winner := Some "Rice"; WinnerRank := Some "233"; WinnerScore := Some "77";
     Loser := Some "FIU"; LoserRank := Some "273"; LoserScore := Some "70";
     OT := None; ActualMOV := Some (Num 7);
     isCompleted := true; isNeutral := false; isAway := false |}.
Proof.
  destruct (completed_game_parsed "233" ["Rice"] "77" "273" ["FIU"] "70")
    as [Hgame Hmargin];
    [reflexivity|repeat constructor|discriminate|reflexivity
    |reflexivity|repeat constructor|discriminate|reflexivity
    |reflexivity|reflexivity|].
  rewrite Hmargin in Hgame by reflexivity. exact Hgame.
Defined.

Section Overtime.

Lemma otRe_found pre d :
  length d <= 1 -> forallb is_digit d = true ->
  is_Some (exec otRe (pre ++ "(" ++ d ++ "OT)")).
Proof.
  intros Hlen Hd. unfold exec.
  destruct (search_found otRe pre 0 ("(" ++ d ++ "OT)")) as [[[b e] st] ->]; [|eauto].
  destruct d as [|c [|c' d]]; [| |simpl in Hlen; lia].
  - cbn. eauto.
  - simpl in Hd. rewrite andb_true_r in Hd.
    cbn -[is_digit]. rewrite Hd. cbn. eauto.
Qed.

(** The overtime marker is found exactly when the game string ends with
    ["(OT)"] or ["(dOT)"] for a digit [d]. *)
Lemma overtime_marker s ot :
  fst (overtime s) = Some ot <->
  exists pre d, s = pre ++ "(" ++ d ++ "OT)" /\ ot = d ++ "OT"
                /\ length d <= 1 /\ forallb is_digit d = true.
Proof.
  unfold overtime. split.
  - destruct (exec otRe s) as [m|] eqn:E; [|discriminate].
    apply otRe_shape in E as (pre & t & -> & Hlen & Hd & Hg).
    cbn [mbind option_bind]. rewrite Hg.
    destruct (truthy (t ++ "OT")); cbn [fst]; [|discriminate].
    intros [= <-]. eauto 6.
  - intros (pre & d & -> & -> & Hlen & Hd).
    destruct (otRe_found pre d Hlen Hd) as [m E]. rewrite E.
    apply otRe_shape in E as (pre' & t & Heq & Hlen' & Hd' & Hg).
    cbn [mbind option_bind]. rewrite Hg.
    assert (t = d) as ->.
    { destruct d as [|c [|]], t as [|c' [|]]; simpl in Hlen, Hlen'; try lia.
      - reflexivity.
      - change (pre' ++ "(" ++ [c'] ++ "OT)") with (pre' ++ "(" ++ c' :: "OT)") in Heq.
        rewrite (app_assoc pre') in Heq.
        apply app_inj_2 in Heq as [_ Heq]; [|reflexivity].
        inversion Heq; subst. discriminate.
      - change (pre ++ "(" ++ [c] ++ "OT)") with (pre ++ "(" ++ c :: "OT)") in Heq.
        rewrite (app_assoc pre) in Heq.
        apply app_inj_2 in Heq as [_ Heq]; [|reflexivity].
        inversion Heq; subst. discriminate.
      - apply app_inj_2 in Heq as [_ Heq]; [|reflexivity].
        inversion Heq; subst. reflexivity. }
    destruct d; reflexivity.
Qed.

Lemma margin_fields r :
  Winner (margin r) = Winner r /\ WinnerRank (margin r) = WinnerRank r
  /\ WinnerScore (margin r) = WinnerScore r
  /\ Loser (margin r) = Loser r /\ LoserRank (margin r) = LoserRank r
  /\ LoserScore (margin r) = LoserScore r /\ OT (margin r) = OT r.
Proof.
  unfold margin.
  destruct (WinnerScore r) as [ws|] eqn:Ew, (LoserScore r) as [ls|] eqn:El;
    rewrite ?Ew, ?El; auto 10.
  destruct (truthy ws && truthy ls); rewrite ?Ew, ?El; auto 10.
  destruct (negb (isNaN (parseInt ws)) && negb (isNaN (parseInt ls)));
    cbn; rewrite ?Ew, ?El; auto 10.
Qed.

End Overtime.

(** C2, as the code has it.  Whenever the game string (after the overtime
    step) splits on [", "] into exactly two parts, the game is classified as
    completed and the later delimiters are not tried, whatever the number of
    tokens on either side; the number of tokens only decides, side by side,
    whether rank, name and score are filled in (three tokens or more) or
    stay null.  The delimiters [" at "] and [" vs. "] are tried, in this
    order, only when the split on [", "] does not give two parts. *)
Theorem comma_split_is_completed (s : str) :
  s <> [] ->
  let p := snd (overtime s) in
  let r := parseGameResult (Some s) in
  let teams := split ", " p in
  (length teams = 2 ->
     isCompleted r = true /\ isAway r = false /\ isNeutral r = false
     /\ (if 3 <=? length (parts teams 0)
         then WinnerRank r = parts teams 0 !! 0
              /\ WinnerScore r = last_elem (parts teams 0)
              /\ Winner r = Some (join " " (slice1m1 (parts teams 0)))
         else WinnerRank r = None /\ WinnerScore r = None /\ Winner r = None)
     /\ (if 3 <=? length (parts teams 1)
         then LoserRank r = parts teams 1 !! 0
              /\ LoserScore r = last_elem (parts teams 1)
              /\ Loser r = Some (join " " (slice1m1 (parts teams 1)))
         else LoserRank r = None /\ LoserScore r = None /\ Loser r = None))
  /\ (length teams <> 2 ->
      isCompleted r = false
      /\ (isAway r = true <-> length (split " at " p) = 2)
      /\ (isNeutral r = true <->
          length (split " at " p) <> 2 /\ length (split " vs. " p) = 2)).
Proof.
  intros Hs. cbv zeta.
  destruct (parseGameResult_flags s Hs) as (Hc & Ha & Hn). cbv zeta in Hc, Ha, Hn.
  rewrite Hc, Ha, Hn. clear Hc Ha Hn. split.
  - intros H2. apply Nat.eqb_eq in H2. rewrite H2.
    repeat (split; [reflexivity|]).
    destruct s as [|c s]; [congruence|].
    unfold parseGameResult. cbn [truthy negb].
    destruct (overtime (c :: s)) as [ot p]. cbn [snd] in *. rewrite H2.
    match goal with |- context [margin ?r] =>
      destruct (margin_fields r) as (-> & -> & -> & -> & -> & -> & _) end.
    destruct (3 <=? length (parts (split ", " p) 0)),
             (3 <=? length (parts (split ", " p) 1)), ot; cbn; auto.
  - intros H2. apply Nat.eqb_neq in H2. rewrite H2. cbn [negb andb].
    split; [reflexivity|].
    rewrite andb_true_iff, negb_true_iff, <- not_true_iff_false, !Nat.eqb_eq.
    tauto.
Qed.

Lemma comma_split_is_completed_witness :
  isCompleted (parseGameResult (Some "Duke, UNC")) = true
  /\ isAway (parseGameResult (Some "Duke, UNC")) = false
  /\ Winner (parseGameResult (Some "Duke, UNC")) = None.
Proof.
  destruct (comma_split_is_completed "Duke, UNC") as [H _]; [discriminate|].
  cbv zeta in H. destruct H as (Hc & Ha & _ & Hw & _); [reflexivity|].
  split; [exact Hc|]. split; [exact Ha|].
  set (b := 3 <=? _) in Hw. vm_compute in b. subst b. apply Hw.
Defined.

(** The split on [", "] gives two parts, the second with a single token;
    the game is completed all the same and [" at "] is not tried. *)
Lemma comma_split_counterexample :
  length (split ", " "10 Duke at 15 UNC, TBD") = 2
  /\ length (split_ws (trim "TBD")) < 3
  /\ length (split " at " "10 Duke at 15 UNC, TBD") = 2
  /\ isCompleted (parseGameResult (Some "10 Duke at 15 UNC, TBD")) = true
  /\ isAway (parseGameResult (Some "10 Duke at 15 UNC, TBD")) = false.
Proof. vm_compute. repeat split; lia. Qed.

(** C3, as the code has it.  For the null and the empty input every field is
    null and every flag false.  For a string without any of the delimiters
    [", "], [" at "] and [" vs. "] every field but [OT] is null and every
    flag is false; [OT] holds the overtime marker exactly when the string
    ends with ["(OT)"] or ["(dOT)"], [d] a digit, and is null otherwise.
    The function is total: it never throws. *)
Theorem unrecognized_game_null (gameStr : option str) :
  (gameStr = None \/ gameStr = Some [] -> parseGameResult gameStr = nullResult)
  /\ (forall s, gameStr = Some s -> unrecognized s = true ->
        parseGameResult gameStr = set_OT (fst (overtime s)) nullResult
        /\ (forall ot, OT (parseGameResult gameStr) = Some ot <->
              exists pre d, s = pre ++ "(" ++ d ++ "OT)" /\ ot = d ++ "OT"
                            /\ length d <= 1 /\ forallb is_digit d = true)).
Proof.
  split.
  - intros [->| ->]; reflexivity.
  - intros s -> Hu. rewrite (parseGameResult_unrecognized s Hu).
    split; [reflexivity|]. intros ot. cbn [OT set_OT]. apply overtime_marker.
Qed.

Lemma unrecognized_game_null_witness :
  parseGameResult (Some "some random text") = nullResult
  /\ parseGameResult (Some "") = nullResult
  /\ OT (parseGameResult (Some "Duke (2OT)")) = Some "2OT".
Proof.
  split; [|split].
  - destruct (unrecognized_game_null (Some "some random text")) as [_ H].
    destruct (H "some random text" eq_refl) as [-> _]; reflexivity.
  - apply (unrecognized_game_null (Some "")). right. reflexivity.
  - destruct (unrecognized_game_null (Some "Duke (2OT)")) as [_ H].
    destruct (H "Duke (2OT)" eq_refl) as [_ Hot]; [reflexivity|].
    apply Hot. exists "Duke ", "2". repeat split; reflexivity || (simpl; lia).
Defined.

(** A string without any delimiter whose [OT] field is not null. *)
Lemma unrecognized_game_counterexample :
  unrecognized "Duke (OT)" = true
  /\ parseGameResult (Some "Duke (OT)") <> nullResult
  /\ OT (parseGameResult (Some "Duke (OT)")) = Some "OT".
Proof. vm_compute. repeat split. discriminate. Qed.

(** C10.  At most one of [isCompleted], [isAway] and [isNeutral] is set, and
    none of them for the null input, the empty string and a string without
    any delimiter. *)
Theorem game_flags_exclusive (gameStr : option str) :
  flags (parseGameResult gameStr) <= 1
  /\ (gameStr = None \/ gameStr = Some []
      \/ (exists s, gameStr = Some s /\ unrecognized s = true) ->
      isCompleted (parseGameResult gameStr) = false
      /\ isAway (parseGameResult gameStr) = false
      /\ isNeutral (parseGameResult gameStr) = false).
Proof.
  split.
  - destruct gameStr as [[|c s]|]; [cbv; lia| |cbv; lia].
    destruct (parseGameResult_flags (c :: s) ltac:(discriminate)) as (Hc & Ha & Hn).
    cbv zeta in Hc, Ha, Hn. unfold flags. rewrite Hc, Ha, Hn.
    destruct (length (split ", " (snd (overtime (c :: s)))) =? 2),
             (length (split " at " (snd (overtime (c :: s)))) =? 2),
             (length (split " vs. " (snd (overtime (c :: s)))) =? 2); simpl; lia.
  - intros [->|[->|(s & -> & Hu)]]; [cbv; auto|cbv; auto|].
    rewrite (parseGameResult_unrecognized s Hu). cbn. auto.
Qed.

Lemma game_flags_exclusive_witness :
  flags (parseGameResult (Some "10 Duke at 15 UNC, TBD vs. 3 Maine")) <= 1
  /\ isCompleted (parseGameResult (Some "TBD")) = false.
Proof.
  split.
  - apply (game_flags_exclusive (Some "10 Duke at 15 UNC, TBD vs. 3 Maine")).
  - apply (game_flags_exclusive (Some "TBD")). right. right.
    exists "TBD". split; reflexivity.
Defined.

(** ** Overtime games and upcoming games *)

Section MoreGames.

Lemma space_not_paren c : is_space c = true -> c <> ")"%char /\ c <> "("%char.
Proof. intros H. split; intros ->; discriminate. Qed.

(** The strip pattern does not match from inside the text before the
    marker. *)
Lemma otStripRe_fails body z ws d i pos :
  is_space z = false -> forallb is_space ws = true ->
  length d <= 1 -> forallb is_digit d = true ->
  i <= length body ->
  run otStripRe pos (drop i (body ++ [z]) ++ ws ++ "(" ++ d ++ "OT)") no_captures = None.
Proof.
  intros Hz Hws Hlen Hd Hi.
  destruct (run otStripRe pos _ no_captures) as [r|] eqn:H; [exfalso|reflexivity].
  rewrite drop_app_le in H by exact Hi.
  set (y := drop i body) in H. clearbody y.
  remember ((y ++ [z]) ++ ws ++ "(" ++ d ++ "OT)") as s eqn:Heq.
  unfold otStripRe in H. run_inv H. clear H.
  symmetry in Heq. rewrite app_nil_r in Heq.
  assert (Ht1 : t1 = []).
  { destruct t1 as [|c t1 _] using rev_ind; [reflexivity|exfalso].
    rewrite forallb_app in Hall1. apply andb_true_iff in Hall1 as [_ Hc].
    simpl in Hc. rewrite andb_true_r in Hc.
    apply space_not_paren in Hc as [Hc _]. apply Hc.
    assert (E : ((y ++ [z]) ++ ws ++ "(" ++ d ++ "OT") ++ ")"
                = (t ++ "(" ++ t0 ++ "OT)" ++ t1) ++ [c]).
    { rewrite <- ?app_assoc. cbn [app]. rewrite <- ?app_assoc in Heq.
      cbn [app] in Heq. exact Heq. }
    apply app_inj_tail in E as [_ E]. congruence. }
  subst t1.
  assert (Hin : z ∈ t -> False).
  { intros Hin. rewrite forallb_forall in Hall. apply list_elem_of_In in Hin.
    specialize (Hall z Hin). simpl in Hall. congruence. }
  specialize (Hhi0 1 eq_refl).
  destruct d as [|c [|]], t0 as [|c' [|]]; simpl in Hlen, Hhi0; try lia.
  - assert (E : ((y ++ [z]) ++ ws) ++ "(OT)" = t ++ "(OT)")
      by (rewrite <- ?app_assoc; cbn [app]; rewrite <- ?app_assoc in Heq; exact Heq).
    apply app_inj_2 in E as [E _]; [|reflexivity].
    apply Hin. rewrite <- E. set_solver.
  - assert (E : ((y ++ [z]) ++ ws) ++ "(OT)" = (t ++ "(") ++ c' :: "OT)")
      by (rewrite <- ?app_assoc; cbn [app]; rewrite <- ?app_assoc in Heq; exact Heq).
    apply app_inj_2 in E as [_ E]; [|reflexivity].
    inversion E; subst. discriminate.
  - assert (E : ((y ++ [z]) ++ ws ++ "(") ++ c :: "OT)" = t ++ "(OT)")
      by (rewrite <- ?app_assoc; cbn [app]; rewrite <- ?app_assoc in Heq; exact Heq).
    apply app_inj_2 in E as [_ E]; [|reflexivity].
    inversion E; subst. discriminate.
  - assert (E : ((y ++ [z]) ++ ws) ++ "(" ++ [c] ++ "OT)" = t ++ "(" ++ [c'] ++ "OT)")
      by (rewrite <- ?app_assoc; cbn [app]; rewrite <- ?app_assoc in Heq; exact Heq).
    apply app_inj_2 in E as [E _]; [|reflexivity].
    apply Hin. rewrite <- E. set_solver.
Qed.

Lemma otStripRe_here ws d pos :
  forallb is_space ws = true -> length d <= 1 -> forallb is_digit d = true ->
  run otStripRe pos (ws ++ "(" ++ d ++ "OT)") no_captures
  = Some (pos + length (ws ++ "(" ++ d ++ "OT)"), no_captures).
Proof.
  intros Hws Hlen Hd. unfold otStripRe, star at 1. cbn [run].
  erewrite (rep_greedy_run Space _ ws 0 pos ("(" ++ d ++ "OT)")); [reflexivity|exact Hws|reflexivity|lia|].
  destruct d as [|c [|]]; [| |simpl in Hlen; lia].
  - cbn. repeat f_equal. rewrite length_app. simpl. lia.
  - simpl in Hd. rewrite andb_true_r in Hd.
    cbn -[is_digit]. rewrite Hd. cbn. repeat f_equal. rewrite length_app. simpl. lia.
Qed.

(** The overtime step on a string that ends with a marker: the marker is
    recorded and removed together with the white space before it. *)
Lemma overtime_marked body z ws d :
  is_space z = false -> forallb is_space ws = true ->
  length d <= 1 -> forallb is_digit d = true ->
  overtime ((body ++ [z]) ++ ws ++ "(" ++ d ++ "OT)")
  = (Some (d ++ "OT"), trim (body ++ [z])).
Proof.
  intros Hz Hws Hlen Hd.
  assert (Hfst : fst (overtime ((body ++ [z]) ++ ws ++ "(" ++ d ++ "OT)"))
                 = Some (d ++ "OT")).
  { apply overtime_marker. exists ((body ++ [z]) ++ ws), d.
    rewrite <- !app_assoc. auto. }
  assert (Hsnd : replace otStripRe "" ((body ++ [z]) ++ ws ++ "(" ++ d ++ "OT)")
                 = body ++ [z]).
  { unfold replace. rewrite search_skip.
    - rewrite (search_here _ _ _ _ _ (otStripRe_here ws d _ Hws Hlen Hd)).
      rewrite !Nat.add_0_l, take_app_length. cbn [app].
      rewrite <- length_app, drop_all, app_nil_r. reflexivity.
    - intros i Hi. apply otStripRe_fails; try assumption.
      rewrite length_app in Hi. simpl in Hi. lia. }
  unfold overtime in *.
  destruct (exec otRe _ ≫= _) as [ot|]; [|discriminate].
  destruct (truthy ot); cbn [fst] in Hfst; [|discriminate].
  rewrite Hsnd. congruence.
Qed.

(** The tokens of a team of an upcoming game: rank and name. *)
Lemma split_ws_team (rank : str) (name : list str) :
  token rank = true -> Forall (fun t => token t = true) name ->
  split_ws (trim (join " " (rank :: name))) = rank :: name.
Proof.
  intros Hr Hn.
  assert (Hall : Forall (fun t => token t = true) (rank :: name))
    by (constructor; assumption).
  destruct (token_ends _ Hr) as (a & _ & Ha & _ & Hsa & _).
  destruct (exists_last (l := rank :: name)) as (toks & t & Heq); [discriminate|].
  assert (Ht : token t = true).
  { rewrite Heq in Hall. apply Forall_app in Hall as [_ Hall].
    inversion Hall; assumption. }
  destruct (token_ends _ Ht) as (_ & z & _ & Hz & _ & Hsz).
  rewrite (trim_fixed _ a z); auto.
  - apply split_ws_join; [discriminate|exact Hall].
  - apply head_join. exact Ha.
  - rewrite Heq. apply last_join. exact Hz.
Qed.

(** An upcoming game, from the result of the overtime step and the
    delimiter, [" at "] or [" vs. "], that splits it. *)
Lemma upcoming_game_core (s : str) (ot : option str) (sep : str)
    (rank1 : str) (name1 : list str) (rank2 : str) (name2 : list str) :
  let team1 := join " " (rank1 :: name1) in
  let team2 := join " " (rank2 :: name2) in
  truthy s = true ->
  overtime s = (ot, team1 ++ sep ++ team2) ->
  token rank1 = true -> Forall (fun t => token t = true) name1 -> name1 <> [] ->
  token rank2 = true -> Forall (fun t => token t = true) name2 -> name2 <> [] ->
  includes ", " (team1 ++ sep ++ team2) = false ->
  sep = " at " \/ (sep = " vs. " /\ includes " at " (team1 ++ sep ++ team2) = false) ->
  includes sep (team1 ++ removelast sep) = false ->
  includes sep team2 = false ->
  parseGameResult (Some s) =
  {| Winner := Some (join " " name1);
     WinnerRank := Some rank1;
     WinnerScore := None;
     Loser := Some (join " " name2);
     LoserRank := Some rank2;
     LoserScore := None;
     OT := ot;
     ActualMOV := None;
     isCompleted := false;
     isNeutral := negb (bool_decide (sep = " at "));
     isAway := bool_decide (sep = " at ") |}.
Proof.
  cbv zeta. intros Htruthy Hot Hr1 Hn1 Hne1 Hr2 Hn2 Hne2 Hcomma Hsep H1 H2.
  unfold parseGameResult. rewrite Htruthy. cbn [negb]. rewrite Hot.
  rewrite (split_absent ", ") by exact Hcomma.
  change (length [_] =? 2) with false. cbv iota.
  assert (Hup : forall r,
    upcoming [join " " (rank1 :: name1); join " " (rank2 :: name2)] r
    = set_Loser (Some rank2) (Some (join " " name2))
        (set_Winner (Some rank1) (Some (join " " name1)) r)).
  { intros r. unfold upcoming, parts.
    cbn [lookup list_lookup default from_option id].
    rewrite !split_ws_team by assumption.
    destruct name1; [congruence|]. destruct name2; [congruence|]. reflexivity. }
  destruct Hsep as [->|[-> Hat]].
  - rewrite split_two by (assumption || discriminate).
    change (length [_; _] =? 2) with true. cbv iota.
    rewrite Hup. destruct ot; reflexivity.
  - rewrite (split_absent " at ") by exact Hat.
    change (length [_] =? 2) with false. cbv iota.
    rewrite split_two by (assumption || discriminate).
    change (length [_; _] =? 2) with true. cbv iota.
    rewrite Hup. destruct ot; reflexivity.
Qed.

Lemma join_tokens_ends (toks : list str) :
  toks <> [] -> Forall (fun t => token t = true) toks ->
  exists a body z, join " " toks = body ++ [z] /\ join " " toks = a :: drop 1 (join " " toks)
                   /\ is_space z = false
                   /\ (includes ")" (join " " toks) = false -> z <> ")"%char).
Proof.
  intros Hne Hall.
  destruct (exists_last Hne) as (toks' & t & ->).
  assert (Ht : token t = true)
    by (apply Forall_app in Hall as [_ Hall]; inversion Hall; assumption).
  destruct (token_ends _ Ht) as (_ & z & _ & Hz & _ & Hsz).
  pose proof (last_join " " toks' t z Hz) as Hl.
  destruct (join " " (toks' ++ [t])) as [|a j] eqn:Ej; [discriminate|].
  destruct (exists_last (l := a :: j)) as (body & z' & Eb); [discriminate|].
  rewrite Eb in Hl. rewrite last_snoc in Hl. inversion Hl; subst z'.
  exists a, body, z. repeat split; auto.
  intros Hp ->. rewrite Eb in Hp.
  apply not_true_iff_false in Hp. apply Hp. apply includes_spec.
  exists body, []. reflexivity.
Qed.

End MoreGames.

(** A completed game followed by an overtime marker ["(OT)"] or ["(dOT)"],
    with or without white space before it: the marker is recorded in [OT]
    and the rest is read as without it.  The margin is the winner's score
    minus the loser's as JavaScript reads and subtracts them: the exact
    integer difference for scores below [2^53]. *)
Theorem overtime_game_parsed
    (rank1 : str) (name1 : list str) (score1 : str)
    (rank2 : str) (name2 : list str) (score2 : str) (ws d : str) :
  token rank1 = true -> Forall (fun t => token t = true) name1 -> name1 <> [] ->
  digits score1 = true ->
  token rank2 = true -> Forall (fun t => token t = true) name2 -> name2 <> [] ->
  digits score2 = true ->
  includes ", " (side rank1 name1 score1) = false ->
  includes ", " (side rank2 name2 score2) = false ->
  forallb is_space ws = true -> length d <= 1 -> forallb is_digit d = true ->
  parseGameResult
    (Some ((side rank1 name1 score1 ++ ", " ++ side rank2 name2 score2)
           ++ ws ++ "(" ++ d ++ "OT)")) =
  {| Winner := Some (join " " name1);
     WinnerRank := Some rank1;
     WinnerScore := Some score1;
     Loser := Some (join " " name2);
     LoserRank := Some rank2;
     LoserScore := Some score2;
     OT := Some (d ++ "OT");
     ActualMOV := Some (sub (parseInt score1) (parseInt score2));
     isCompleted := true;
     isNeutral := false;
     isAway := false |}
  /\ ((dec score1 < 2 ^ 53)%Z -> (dec score2 < 2 ^ 53)%Z ->
      sub (parseInt score1) (parseInt score2) = Num (dec score1 - dec score2)).
Proof.
  intros Hr1 Hn1 Hne1 Hs1 Hr2 Hn2 Hne2 Hs2 Hc1 Hc2 Hws Hlen Hd.
  split; [|apply score_difference; assumption].
  destruct (side_nonempty rank1 name1 score1 Hr1) as (a & rest & Ea).
  destruct (token_ends _ Hr1) as (a' & _ & Ha' & _ & Hsa & _).
  destruct (digits_last _ Hs2) as (s2' & z & Es2 & Hz).
  destruct (side_ends_with_score rank2 name2 score2 z s2' Es2) as [x Ex].
  assert (Hbody : side rank1 name1 score1 ++ ", " ++ side rank2 name2 score2
                  = (side rank1 name1 score1 ++ ", " ++ x) ++ [z])
    by (rewrite Ex, <- !app_assoc; reflexivity).
  apply completed_game_core; try assumption.
  - rewrite Ea. reflexivity.
  - rewrite Hbody at 1.
    rewrite overtime_marked by (assumption || apply digit_not_space; assumption).
    rewrite <- Hbody. f_equal.
    apply (trim_fixed _ a' z).
    + unfold side. rewrite join_cons by (destruct name1; discriminate).
      destruct rank1; [discriminate|]. exact Ha'.
    + rewrite Hbody. apply last_snoc.
    + exact Hsa.
    + apply digit_not_space. exact Hz.
Qed.

Lemma overtime_game_parsed_witness :
  OT (parseGameResult (Some "1 Duke 80, 5 UNC 78 (OT)")) = Some "OT"
  /\ ActualMOV (parseGameResult (Some "1 Duke 80, 5 UNC 78 (OT)")) = Some (Num 2)
  /\ OT (parseGameResult (Some "1 Duke 90, 5 UNC 85 (2OT)")) = Some "2OT".
Proof.
  destruct (overtime_game_parsed "1" ["Duke"] "80" "5" ["UNC"] "78" " " "")
    as [H1 Hm1];
    [reflexivity|repeat constructor|discriminate|reflexivity
    |reflexivity|repeat constructor|discriminate|reflexivity
    |reflexivity|reflexivity|reflexivity|repeat constructor|reflexivity|].
  destruct (overtime_game_parsed "1" ["Duke"] "90" "5" ["UNC"] "85" " " "2")
    as [H2 _];
    [reflexivity|repeat constructor|discriminate|reflexivity
    |reflexivity|repeat constructor|discriminate|reflexivity
    |reflexivity|reflexivity|reflexivity|repeat constructor|reflexivity|].
  rewrite Hm1 in H1 by reflexivity.
  split; [exact (f_equal OT H1)|].
  split; [exact (f_equal ActualMOV H1)|exact (f_equal OT H2)].
Defined.

(** An away game ["<rank> <name> at <rank> <name>"]: rank and name of the
    two teams fill the winner and the loser slots, both scores and the
    margin are null, and only [isAway] is set. *)
Theorem away_game_parsed
    (rank1 : str) (name1 : list str) (rank2 : str) (name2 : list str) :
  token rank1 = true -> Forall (fun t => token t = true) name1 -> name1 <> [] ->
  token rank2 = true -> Forall (fun t => token t = true) name2 -> name2 <> [] ->
  includes ", " (join " " (rank1 :: name1) ++ " at " ++ join " " (rank2 :: name2)) = false ->
  includes " at " (join " " (rank1 :: name1) ++ " at") = false ->
  includes " at " (join " " (rank2 :: name2)) = false ->
  includes ")" (join " " (rank2 :: name2)) = false ->
  parseGameResult
    (Some (join " " (rank1 :: name1) ++ " at " ++ join " " (rank2 :: name2))) =
  {| Winner := Some (join " " name1);
     WinnerRank := Some rank1;
     WinnerScore := None;
     Loser := Some (join " " name2);
     LoserRank := Some rank2;
     LoserScore := None;
     OT := None;
     ActualMOV := None;
     isCompleted := false;
     isNeutral := false;
     isAway := true |}.
Proof.
  intros Hr1 Hn1 Hne1 Hr2 Hn2 Hne2 Hcomma H1 H2 Hparen.
  destruct (join_tokens_ends (rank1 :: name1)) as (a & _ & _ & _ & Ea & _);
    [discriminate|constructor; assumption|].
  destruct (join_tokens_ends (rank2 :: name2)) as (_ & body & z & Eb & _ & _ & Hz);
    [discriminate|constructor; assumption|].
  apply (upcoming_game_core _ None " at "); try assumption.
  - rewrite Ea. reflexivity.
  - rewrite Eb, !app_assoc. apply overtime_absent. apply Hz. exact Hparen.
  - left. reflexivity.
Qed.

Lemma away_game_parsed_witness :
  parseGameResult (Some "10 Duke at 15 UNC") =
  {| Winner := Some "Duke"; WinnerRank := Some "10"; WinnerScore := None;
     Loser := Some "UNC"; LoserRank := Some "15"; LoserScore := None;
     OT := None; ActualMOV := None;
     isCompleted := false; isNeutral := false; isAway := true |}.
Proof.
  apply (away_game_parsed "10" ["Duke"] "15" ["UNC"]);
    first [reflexivity | discriminate | repeat constructor].
Defined.

(** A neutral-site game ["<rank> <name> vs. <rank> <name>"]: as an away
    game, with [isNeutral] instead of [isAway]. *)
Theorem neutral_game_parsed
    (rank1 : str) (name1 : list str) (rank2 : str) (name2 : list str) :
  token rank1 = true -> Forall (fun t => token t = true) name1 -> name1 <> [] ->
  token rank2 = true -> Forall (fun t => token t = true) name2 -> name2 <> [] ->
  includes ", " (join " " (rank1 :: name1) ++ " vs. " ++ join " " (rank2 :: name2)) = false ->
  includes " at " (join " " (rank1 :: name1) ++ " vs. " ++ join " " (rank2 :: name2)) = false ->
  includes " vs. " (join " " (rank1 :: name1) ++ " vs.") = false ->
  includes " vs. " (join " " (rank2 :: name2)) = false ->
  includes ")" (join " " (rank2 :: name2)) = false ->
  parseGameResult
    (Some (join " " (rank1 :: name1) ++ " vs. " ++ join " " (rank2 :: name2))) =
  {| Winner := Some (join " " name1);
     WinnerRank := Some rank1;
     WinnerScore := None;
     Loser := Some (join " " name2);
     LoserRank := Some rank2;
     LoserScore := None;
     OT := None;
     ActualMOV := None;
     isCompleted := false;
     isNeutral := true;
     isAway := false |}.
Proof.
  intros Hr1 Hn1 Hne1 Hr2 Hn2 Hne2 Hcomma Hat H1 H2 Hparen.
  destruct (join_tokens_ends (rank1 :: name1)) as (a & _ & _ & _ & Ea & _);
    [discriminate|constructor; assumption|].
  destruct (join_tokens_ends (rank2 :: name2)) as (_ & body & z & Eb & _ & _ & Hz);
    [discriminate|constructor; assumption|].
  apply (upcoming_game_core _ None " vs. "); try assumption.
  - rewrite Ea. reflexivity.
  - rewrite Eb, !app_assoc. apply overtime_absent. apply Hz. exact Hparen.
  - right. split; [reflexivity|exact Hat].
Qed.

Lemma neutral_game_parsed_witness :
  isNeutral (parseGameResult (Some "10 Duke vs. 15 UNC")) = true
  /\ Winner (parseGameResult (Some "10 Duke vs. 15 UNC")) = Some "Duke"
  /\ Loser (parseGameResult (Some "10 Duke vs. 15 UNC")) = Some "UNC".
Proof.
  assert (H : parseGameResult (Some "10 Duke vs. 15 UNC") = _)
    by (apply (neutral_game_parsed "10" ["Duke"] "15" ["UNC"]);
        first [reflexivity | discriminate | repeat constructor]).
  rewrite H. repeat split.
Defined.

(** ** Seeds *)

Section Seeds.

Lemma drop_while_app f s t :
  drop_while f (s ++ t) =
  if forallb f s then drop_while f t else drop_while f s ++ t.
Proof.
  induction s as [|a s IH]; simpl; [reflexivity|].
  destruct (f a); simpl; [exact IH|reflexivity].
Qed.

Lemma drop_while_all f s : forallb f s = true -> drop_while f s = [].
Proof.
  induction s as [|a s IH]; simpl; [reflexivity|].
  intros H. apply andb_true_iff in H as [-> H]. auto.
Qed.

Lemma trim_snoc_space s : trim (s ++ " ") = trim s.
Proof.
  unfold trim. rewrite drop_while_app.
  destruct (forallb is_space s) eqn:E.
  - rewrite (drop_while_all _ s E). reflexivity.
  - rewrite rev_app_distr. reflexivity.
Qed.

(** The first run of digits after a prefix without digits. *)
Lemma head_not_digit (pre ds : str) i :
  forallb (fun c => negb (is_digit c)) pre = true -> i < length pre ->
  match drop i pre ++ ds with [] => True | a :: _ => cmatch Digit a = false end.
Proof.
  intros Hpre Hi.
  destruct (drop i pre) as [|a r] eqn:E.
  - apply (f_equal length) in E. rewrite length_drop in E. simpl in E. lia.
  - simpl. rewrite forallb_forall in Hpre. apply negb_true_iff, Hpre.
    rewrite <- (take_drop i pre), E. apply in_or_app. right. left. reflexivity.
Qed.

Lemma search_seedRe pre ds :
  forallb (fun c => negb (is_digit c)) pre = true -> digits ds = true ->
  exists st,
    search seedRe 0 (pre ++ ds) = Some (length pre, length pre + length ds, st)
    /\ groups st !! 1 = Some (length pre, length pre + length ds).
Proof.
  intros Hpre Hds. apply digits_spec in Hds as [Hne Hds].
  rewrite search_skip.
  - eexists. split.
    + apply search_here. unfold seedRe, plus. cbn [run].
      rewrite <- (app_nil_r ds) at 1.
      apply rep_greedy_run; [exact Hds|exact I| |reflexivity].
      destruct ds; [congruence|simpl; lia].
    + rewrite close_open. apply lookup_insert_eq.
  - intros i Hi. unfold seedRe, plus. cbn [run].
    apply rep_none; [lia|]. apply head_not_digit; assumption.
Qed.

Lemma search_digitsRe pre ds :
  forallb (fun c => negb (is_digit c)) pre = true -> digits ds = true ->
  search digitsRe 0 (pre ++ ds)
  = Some (length pre, length pre + length ds, no_captures).
Proof.
  intros Hpre Hds. apply digits_spec in Hds as [Hne Hds].
  rewrite search_skip.
  - apply search_here. unfold digitsRe, plus. cbn [run].
    rewrite <- (app_nil_r ds) at 1.
    apply rep_greedy_run; [exact Hds|exact I| |reflexivity].
    destruct ds; [congruence|simpl; lia].
  - intros i Hi. unfold digitsRe, plus. cbn [run].
    apply rep_none; [lia|]. apply head_not_digit; assumption.
Qed.

Lemma extractSeed_suffix pre ds :
  forallb (fun c => negb (is_digit c)) pre = true -> digits ds = true ->
  extractSeed (Some (pre ++ ds)) = Some ds.
Proof.
  intros Hpre Hds. unfold extractSeed.
  assert (Ht : truthy (pre ++ ds) = true).
  { apply digits_spec in Hds as [Hne _]. destruct pre, ds; try reflexivity. congruence. }
  rewrite Ht. cbn [negb]. unfold exec.
  destruct (search_seedRe pre ds Hpre Hds) as (st & -> & Hg).
  cbn [mbind option_bind]. unfold group. cbn [caps subject]. rewrite Hg.
  cbn [fmap option_fmap option_map fst snd]. f_equal.
  apply (substring_mid _ pre ds []); [rewrite app_nil_r|..]; reflexivity.
Qed.

Lemma stripSeed_suffix pre ds :
  forallb (fun c => negb (is_digit c)) pre = true -> digits ds = true ->
  stripSeed (Some (pre ++ ds)) = trim pre.
Proof.
  intros Hpre Hds. unfold stripSeed.
  assert (Hne : ds <> []) by (apply digits_spec in Hds; tauto).
  assert (Ht : truthy (pre ++ ds) = true).
  { destruct pre, ds; try reflexivity. congruence. }
  rewrite Ht. cbn [negb]. f_equal.
  unfold replace_all. cbn [replace_all_go].
  rewrite (search_digitsRe pre ds Hpre Hds).
  assert (He : (length pre + length ds =? length pre) = false).
  { apply Nat.eqb_neq. destruct ds; [congruence|simpl; lia]. }
  rewrite He, !Nat.sub_0_r, take_app_length.
  rewrite <- length_app, drop_all. cbn [app].
  destruct (length (pre ++ ds)) eqn:El.
  - rewrite app_nil_r. reflexivity.
  - cbn. rewrite app_nil_r. reflexivity.
Qed.

End Seeds.

(** C9.  For a team cell ["<name> <seed>"] whose name has no digit and whose
    seed is a non-empty string of digits, [extractSeed] returns the seed
    and [stripSeed] the name without the white space around it, so the
    clean name itself; the normalizer of the ratings table stores exactly
    these two in [Seed] and [Team]. *)
Theorem seed_roundtrip (name seed : str) :
  forallb (fun c => negb (is_digit c)) name = true ->
  digits seed = true ->
  extractSeed (Some (name ++ " " ++ seed)) = Some seed
  /\ stripSeed (Some (name ++ " " ++ seed)) = trim name
  /\ (trim name = name -> stripSeed (Some (name ++ " " ++ seed)) = name)
  /\ (forall row : TableRow,
        row !! "Team" = Some (name ++ " " ++ seed) ->
        pomeroyRow row !! "Seed" = Some seed
        /\ pomeroyRow row !! "Team" = Some (trim name)).
Proof.
  intros Hname Hseed.
  assert (Hpre : forallb (fun c => negb (is_digit c)) (name ++ " ") = true)
    by (rewrite forallb_app, Hname; reflexivity).
  assert (He : extractSeed (Some (name ++ " " ++ seed)) = Some seed)
    by (rewrite app_assoc; apply extractSeed_suffix; assumption).
  assert (Hs : stripSeed (Some (name ++ " " ++ seed)) = trim name)
    by (rewrite app_assoc, stripSeed_suffix by assumption; apply trim_snoc_space).
  repeat split; try assumption.
  - intros Heq. rewrite Hs. exact Heq.
  - unfold pomeroyRow. rewrite H, He. apply lookup_insert_eq.
  - unfold pomeroyRow. rewrite H, Hs.
    rewrite lookup_insert_ne by discriminate. apply lookup_insert_eq.
Qed.

Lemma seed_roundtrip_witness :
  extractSeed (Some "Duke 1") = Some "1" /\ stripSeed (Some "Duke 1") = "Duke".
Proof.
  destruct (seed_roundtrip "Duke" "1") as (He & _ & Hs & _);
    [reflexivity|reflexivity|].
  split; [exact He|apply Hs; reflexivity].
Defined.

(** ** Stripping seeds *)

Section StripSeed.

Lemma take_drop_while f s : take_while f s ++ drop_while f s = s.
Proof.
  induction s as [|a s IH]; simpl; [reflexivity|].
  destruct (f a); simpl; [rewrite IH|]; reflexivity.
Qed.

Lemma forallb_take_while f s : forallb f (take_while f s) = true.
Proof.
  induction s as [|a s IH]; simpl; [reflexivity|].
  destruct (f a) eqn:E; simpl; [rewrite E, IH|]; reflexivity.
Qed.

Lemma drop_while_stops f s :
  match drop_while f s with [] => True | a :: _ => f a = false end.
Proof.
  induction s as [|a s IH]; simpl; [exact I|].
  destruct (f a) eqn:E; [exact IH|exact E].
Qed.

Lemma filter_all (f : ascii -> bool) s : forallb f s = true -> List.filter f s = s.
Proof.
  induction s as [|a s IH]; simpl; [reflexivity|].
  intros H. apply andb_true_iff in H as [-> H]. rewrite IH by exact H. reflexivity.
Qed.

Lemma filter_none (f : ascii -> bool) s :
  forallb (fun c => negb (f c)) s = true -> List.filter f s = [].
Proof.
  induction s as [|a s IH]; simpl; [reflexivity|].
  intros H. apply andb_true_iff in H as [Ha H]. apply negb_true_iff in Ha.
  rewrite Ha. auto.
Qed.

Lemma search_digitsRe_none pos s :
  forallb not_digit s = true -> search digitsRe pos s = None.
Proof.
  intros H. rewrite <- (app_nil_r s), search_skip.
  - reflexivity.
  - intros i Hi. unfold digitsRe, plus. cbn [run].
    apply rep_none; [lia|]. apply (head_not_digit s [] i H Hi).
Qed.

Lemma search_digitsRe_run pos nd ds rest :
  forallb not_digit nd = true -> ds <> [] -> forallb is_digit ds = true ->
  match rest with [] => True | a :: _ => is_digit a = false end ->
  search digitsRe pos (nd ++ ds ++ rest)
  = Some (pos + length nd, pos + length nd + length ds, no_captures).
Proof.
  intros Hnd Hne Hds Hrest. rewrite search_skip.
  - apply search_here. unfold digitsRe, plus. cbn [run].
    apply rep_greedy_run; [exact Hds|exact Hrest| |reflexivity].
    destruct ds; [congruence|simpl; lia].
  - intros i Hi. unfold digitsRe, plus. cbn [run].
    apply rep_none; [lia|]. apply (head_not_digit nd (ds ++ rest) i Hnd Hi).
Qed.

(** Removing every run of digits removes every digit. *)
Lemma replace_all_go_digits n :
  forall s fuel pos,
    length s <= n -> length s < fuel ->
    replace_all_go fuel digitsRe "" pos s = List.filter not_digit s.
Proof.
  induction n as [|n IH]; intros s fuel pos Hn Hf.
  - destruct s; [|simpl in Hn; lia]. destruct fuel; reflexivity.
  - destruct fuel as [|fuel]; [lia|]. cbn [replace_all_go].
    pose proof (take_drop_while not_digit s) as E1.
    pose proof (take_drop_while is_digit (drop_while not_digit s)) as E2.
    set (nd := take_while not_digit s) in *.
    set (ds := take_while is_digit (drop_while not_digit s)) in *.
    set (rest := drop_while is_digit (drop_while not_digit s)) in *.
    assert (Hnd : forallb not_digit nd = true) by apply forallb_take_while.
    assert (Hds : forallb is_digit ds = true) by apply forallb_take_while.
    assert (Hrest : match rest with [] => True | a :: _ => is_digit a = false end)
      by apply drop_while_stops.
    assert (Es : s = nd ++ ds ++ rest) by (rewrite E2, E1; reflexivity).
    pose proof (drop_while_stops not_digit s) as Hstop. rewrite <- E2 in Hstop.
    clearbody nd ds rest. clear E1 E2. subst s.
    destruct ds as [|d ds'].
    + assert (Er : rest = []).
      { destruct rest as [|a rest']; [reflexivity|]. simpl in Hstop.
        unfold not_digit in Hstop. rewrite Hrest in Hstop. discriminate. }
      subst rest. cbn [app]. rewrite app_nil_r.
      rewrite search_digitsRe_none by exact Hnd.
      rewrite filter_all by exact Hnd. reflexivity.
    + rewrite search_digitsRe_run; try assumption; [|discriminate].
      assert (Hb : (pos + length nd + length (d :: ds') =? pos + length nd) = false)
        by (apply Nat.eqb_neq; simpl; lia).
      rewrite Hb.
      replace (pos + length nd - pos) with (length nd) by lia.
      replace (pos + length nd + length (d :: ds') - pos)
        with (length (nd ++ d :: ds')) by (rewrite length_app; lia).
      rewrite take_app_length.
      rewrite (app_assoc nd (d :: ds') rest), drop_app_length.
      rewrite !length_app in Hn, Hf. simpl in Hn, Hf.
      rewrite IH by lia.
      rewrite !List.filter_app, (filter_all _ nd Hnd).
      rewrite (filter_none not_digit (d :: ds')); [rewrite app_nil_r; reflexivity|].
      unfold not_digit. rewrite forallb_forall in Hds |- *.
      intros c Hc. rewrite (Hds c Hc). reflexivity.
Qed.

Lemma stripSeed_filter s : stripSeed (Some s) = trim (List.filter not_digit s).
Proof.
  unfold stripSeed. destruct s as [|a s]; [reflexivity|].
  cbn [truthy negb]. unfold replace_all.
  rewrite (replace_all_go_digits (length (a :: s))) by lia. reflexivity.
Qed.

Lemma forallb_infix (f : ascii -> bool) a s b :
  forallb f (a ++ s ++ b) = true -> forallb f s = true.
Proof.
  rewrite !forallb_app. intros H.
  apply andb_true_iff in H as [_ H]. apply andb_true_iff in H as [H _]. exact H.
Qed.

Lemma forallb_filter (f : ascii -> bool) s : forallb f (List.filter f s) = true.
Proof.
  induction s as [|a s IH]; simpl; [reflexivity|].
  destruct (f a) eqn:E; simpl; [rewrite E|]; exact IH.
Qed.

Lemma trim_idempotent s : trim (trim s) = trim s.
Proof.
  destruct (trim s) as [|a t] eqn:E; [reflexivity|].
  assert (Ha : is_space a = false /\ exists z, last (a :: t) = Some z /\ is_space z = false).
  { unfold trim in E.
    pose proof (drop_while_stops is_space s) as H1.
    pose proof (drop_while_stops is_space (rev (drop_while is_space s))) as H2.
    destruct (drop_while_suffix is_space (rev (drop_while is_space s))) as [pre Hpre].
    set (y := drop_while is_space s) in *.
    set (w := drop_while is_space (rev y)) in *.
    assert (Ey : y = rev w ++ rev pre)
      by (rewrite <- rev_app_distr, <- Hpre, rev_involutive; reflexivity).
    rewrite E in Ey. rewrite Ey in H1. simpl in H1. split; [exact H1|].
    destruct w as [|z w']; [discriminate|].
    exists z. split; [|exact H2].
    rewrite <- E. simpl. apply last_snoc. }
  destruct Ha as (Ha & z & Hz & Hsz).
  apply (trim_fixed _ a z); auto.
Qed.

End StripSeed.

(** Stripping the seed removes every digit and the white space around what
    is left.  It leaves a name without digits and without white space
    around it as it is, and stripping twice is stripping once. *)
Theorem stripSeed_idempotent (team : str) :
  stripSeed (Some team) = trim (List.filter not_digit team)
  /\ (forallb not_digit team = true -> trim team = team ->
      stripSeed (Some team) = team)
  /\ stripSeed (Some (stripSeed (Some team))) = stripSeed (Some team).
Proof.
  split; [apply stripSeed_filter|]. split.
  - intros Hd Ht. rewrite stripSeed_filter, filter_all by exact Hd. exact Ht.
  - rewrite !stripSeed_filter.
    destruct (trim_infix (List.filter not_digit team)) as (a & b & Heq).
    rewrite filter_all; [apply trim_idempotent|].
    apply (forallb_infix _ a _ b). rewrite <- Heq. apply forallb_filter.
Qed.

Lemma stripSeed_idempotent_witness :
  stripSeed (Some "North Carolina") = "North Carolina"
  /\ stripSeed (Some (stripSeed (Some "Duke 16"))) = stripSeed (Some "Duke 16").
Proof.
  split.
  - apply (stripSeed_idempotent "North Carolina"); reflexivity.
  - apply (stripSeed_idempotent "Duke 16").
Defined.

(** ** The prediction string *)

Ltac group_eq a m :=
  unfold group; cbn [caps subject groups];
  rewrite ?lookup_insert_ne by discriminate;
  rewrite lookup_insert_eq; cbn [fmap option_fmap option_map fst snd];
  f_equal; eapply (substring_mid _ a m);
  [rewrite <- ?app_assoc; reflexivity
  |rewrite ?length_app; simpl; lia
  |rewrite ?length_app; simpl; lia].

Section Prediction.

Lemma digits_of t : forallb (cmatch Digit) t = true -> 1 <= length t -> digits t = true.
Proof.
  intros H Hl. apply digits_spec. split; [|exact H].
  destruct t; [simpl in Hl; lia|discriminate].
Qed.

(** What a match of the simple pattern looks like. *)
Lemma simplePredRegex_shape s m :
  exec simplePredRegex s = Some m ->
  exists w d1 d2 p,
    digits d1 = true /\ digits d2 = true /\ digits p = true
    /\ group m 1 = Some w /\ group m 2 = Some (d1 ++ "-" ++ d2)
    /\ group m 3 = Some (p ++ "%").
Proof.
  unfold exec. intros H.
  destruct (search simplePredRegex 0 s) as [[[b e] st]|] eqn:E; [|discriminate].
  inversion H; subst; clear H.
  apply search_inv in E as (pre & s' & -> & -> & H).
  unfold simplePredRegex in H. run_inv H.
  inversion H; subst; clear H. rewrite !close_open.
  destruct pre; [|discriminate].
  exists t, t1, t2, t4.
  split; [apply digits_of; assumption|].
  split; [apply digits_of; assumption|].
  split; [apply digits_of; assumption|].
  split; [|split].
  - group_eq (@nil ascii) t.
  - group_eq (t ++ t0) (t1 ++ "-" ++ t2).
  - group_eq (t ++ t0 ++ t1 ++ "-" ++ t2 ++ t3 ++ "(") (t4 ++ "%").
Qed.

(** What a match of the full pattern looks like. *)
Lemma predRegex_shape s m :
  exec predRegex s = Some m ->
  exists w d1 d2 p q,
    digits d1 = true /\ digits d2 = true /\ digits p = true /\ digits q = true
    /\ group m 1 = Some w /\ group m 2 = Some (d1 ++ "-" ++ d2)
    /\ group m 3 = Some (p ++ "%") /\ group m 4 = Some q.
Proof.
  unfold exec. intros H.
  destruct (search predRegex 0 s) as [[[b e] st]|] eqn:E; [|discriminate].
  inversion H; subst; clear H.
  apply search_inv in E as (pre & s' & -> & -> & H).
  unfold predRegex in H. run_inv H.
  inversion H; subst; clear H. rewrite !close_open.
  destruct pre; [|discriminate].
  exists t, t1, t2, t4, t6.
  split; [apply digits_of; assumption|].
  split; [apply digits_of; assumption|].
  split; [apply digits_of; assumption|].
  split; [apply digits_of; assumption|].
  split; [|split; [|split]].
  - group_eq (@nil ascii) t.
  - group_eq (t ++ t0) (t1 ++ "-" ++ t2).
  - group_eq (t ++ t0 ++ t1 ++ "-" ++ t2 ++ t3 ++ "(") (t4 ++ "%").
  - group_eq (t ++ t0 ++ t1 ++ "-" ++ t2 ++ t3 ++ "(" ++ t4 ++ "%)" ++ t5 ++ "[") t6.
Qed.

Lemma digits_no_dash d : digits d = true -> includes "-" d = false.
Proof.
  intros H. apply digits_spec in H as [_ H].
  apply not_true_is_false. intros Hi.
  apply includes_spec in Hi as (a & b & ->).
  rewrite !forallb_app in H. apply andb_true_iff in H as [_ H].
  apply andb_true_iff in H as [H _]. discriminate.
Qed.

Lemma trim_digits d : digits d = true -> trim d = d.
Proof.
  intros H. destruct (token_ends d (digits_token d H)) as (a & z & Ha & Hz & Sa & Sz).
  eapply trim_fixed; eauto.
Qed.

Lemma Number_digits d : digits d = true -> Number d = to_double (dec d).
Proof.
  intros H. unfold Number. rewrite (trim_digits d H).
  apply digits_spec in H as [Hne H].
  destruct d; [congruence|]. rewrite H. reflexivity.
Qed.

Lemma parseFloat_digits d : digits d = true -> parseFloat d = to_double (dec d).
Proof.
  intros H. unfold parseFloat.
  apply digits_spec in H as [Hne H].
  destruct d as [|a d]; [congruence|].
  pose proof H as Hall. simpl in H. apply andb_true_iff in H as [Ha _].
  rewrite drop_while_head by (apply digit_not_space; exact Ha).
  rewrite take_while_all by exact Hall. reflexivity.
Qed.

(** The margin is the difference of the two numbers of the score. *)
Lemma scoreMOV_digits d1 d2 :
  digits d1 = true -> digits d2 = true ->
  scoreMOV (Some (d1 ++ "-" ++ d2)) = Some (sub (Number d1) (Number d2)).
Proof.
  intros H1 H2. unfold scoreMOV. cbn [default from_option id].
  rewrite split_two.
  - reflexivity.
  - discriminate.
  - cbn [removelast]. rewrite app_nil_r. apply digits_no_dash. exact H1.
  - apply digits_no_dash. exact H2.
Qed.

End Prediction.

(** ** Numbers as text *)

Section Printing.

Local Open Scope Z_scope.

Lemma chars_digits (d : Decimal.uint) :
  forallb is_digit (list_ascii_of_string (NilEmpty.string_of_uint d)) = true.
Proof. induction d; simpl; auto. Qed.

Lemma chars_nat (d : Decimal.uint) :
  forall acc : nat,
    fold_left (fun acc c => 10 * acc + digit_val c)
      (list_ascii_of_string (NilEmpty.string_of_uint d)) (Z.of_nat acc)
    = Z.of_nat (Nat.of_uint_acc d acc).
Proof.
  induction d; intros acc;
    cbn [NilEmpty.string_of_uint list_ascii_of_string fold_left Nat.of_uint_acc];
    [reflexivity|..];
    rewrite <- IHd; f_equal; rewrite Nat.tail_mul_spec;
    match goal with
    | |- context [digit_val ?c] =>
        let v := eval vm_compute in (digit_val c) in change (digit_val c) with v
    end; lia.
Qed.

Lemma chars_pos (d : Decimal.uint) :
  forall acc : positive,
    fold_left (fun acc c => 10 * acc + digit_val c)
      (list_ascii_of_string (NilEmpty.string_of_uint d)) (Zpos acc)
    = Zpos (Pos.of_uint_acc d acc).
Proof.
  induction d; intros acc;
    cbn [NilEmpty.string_of_uint list_ascii_of_string fold_left Pos.of_uint_acc];
    [reflexivity|..];
    rewrite <- IHd; f_equal;
    match goal with
    | |- context [digit_val ?c] =>
        let v := eval vm_compute in (digit_val c) in change (digit_val c) with v
    end; lia.
Qed.

Lemma chars_N (d : Decimal.uint) :
  fold_left (fun acc c => 10 * acc + digit_val c)
    (list_ascii_of_string (NilEmpty.string_of_uint d)) 0
  = Z.of_N (Pos.of_uint d).
Proof.
  induction d;
    cbn [NilEmpty.string_of_uint list_ascii_of_string fold_left Pos.of_uint];
    [reflexivity|exact IHd|..];
    (etransitivity; [|apply chars_pos]); f_equal.
Qed.

Lemma show_nat_chars (n : nat) :
  show_nat n = list_ascii_of_string (NilEmpty.string_of_uint (Nat.to_uint n))
  \/ (show_nat n = "0" /\ n = 0%nat).
Proof.
  unfold show_nat, NilZero.string_of_uint.
  destruct (Nat.to_uint n) eqn:E; auto.
  right. split; [reflexivity|].
  rewrite <- (DecimalNat.Unsigned.of_to n), E. reflexivity.
Qed.

(** The printed length reads back as the length. *)
Lemma show_nat_digits (n : nat) :
  digits (show_nat n) = true /\ dec (show_nat n) = Z.of_nat n.
Proof.
  destruct (show_nat_chars n) as [E|[E ->]]; rewrite E; [|split; reflexivity].
  split.
  - apply digits_spec. split; [|apply chars_digits].
    rewrite <- E. unfold show_nat, NilZero.string_of_uint.
    destruct (Nat.to_uint n); discriminate.
  - unfold dec. change 0 with (Z.of_nat 0).
    rewrite chars_nat. f_equal. apply DecimalNat.Unsigned.of_to.
Qed.

(** An index from 0 to [2^53] is printed with all its digits. *)
Lemma show_Z_digits (z : Z) :
  0 <= z < 2 ^ 53 -> digits (show_Z z) = true /\ dec (show_Z z) = z.
Proof.
  intros Hz. unfold show_Z. cbv zeta.
  destruct (Z.ltb_spec (Z.abs z) (2 ^ 53)) as [_|]; [|lia].
  unfold decimal. destruct z as [|p|p]; [split; reflexivity| |lia].
  cbn [Z.to_int NilZero.string_of_int].
  assert (Hne : Pos.to_uint p <> Decimal.Nil)
    by apply DecimalPos.Unsigned.to_uint_nonnil.
  unfold NilZero.string_of_uint.
  destruct (Pos.to_uint p) as [|d|d|d|d|d|d|d|d|d|d] eqn:E; [congruence|..];
    rewrite <- E;
    (split;
     [apply digits_spec; split; [rewrite E; discriminate|apply chars_digits]
     |unfold dec; rewrite chars_N, DecimalPos.Unsigned.of_to; reflexivity]).
Qed.

End Printing.

(** ** The table locator *)

Section Locator.

Lemma reports_found (index : str) (found : nat) :
  reports found (outOfBounds index (show_nat found)).
Proof.
  exists ("Table index " ++ index ++ " out of bounds. Found "), (show_nat found),
    " tables.".
  split; [unfold outOfBounds; rewrite <- !app_assoc; reflexivity|].
  apply show_nat_digits.
Qed.

(** A message without a digit reports no count. *)
Lemma silent (message : str) (n : nat) :
  forallb not_digit message = true -> ~ reports n message.
Proof.
  intros Hall (before & ds & after & -> & Hds & _).
  apply digits_spec in Hds as [Hne Hds].
  destruct ds as [|c ds]; [congruence|].
  rewrite !forallb_app in Hall. cbn [forallb] in Hall, Hds.
  apply andb_true_iff in Hall as [_ Hall].
  apply andb_true_iff in Hall as [Hall _].
  apply andb_true_iff in Hall as [Hc _].
  apply andb_true_iff in Hds as [Hd _].
  unfold not_digit in Hc. rewrite Hd in Hc. discriminate.
Qed.

(** The outcome of a locator, from the number of matching tables. *)
Lemma locate_cases {A} (n : nat) (i : Z) (none : str) (table : A) :
  let outcome :=
    if n =? 0 then Throw none
    else if (i >=? Z.of_nat n)%Z then
      Throw ("Table index " ++ show_Z i ++ " out of bounds. Found "
             ++ show_nat n ++ " tables.")
    else Ok table in
  match outcome with
  | Ok t => n <> 0 /\ (i < Z.of_nat n)%Z /\ t = table
  | Throw message =>
      (n = 0 /\ message = none)
      \/ (n <> 0 /\ (Z.of_nat n <= i)%Z
          /\ message = outOfBounds (show_Z i) (show_nat n)
          /\ reports n message)
  end.
Proof.
  cbv zeta. destruct (Nat.eqb_spec n 0) as [->|Hn].
  - left. auto.
  - destruct (Z.geb_spec i (Z.of_nat n)).
    + right. split; [exact Hn|]. split; [lia|]. split; [reflexivity|].
      apply reports_found.
    + repeat split; [exact Hn|lia].
Qed.

End Locator.

(** C4, as the code has it.  [getTable] fails in two ways only: with the
    message "No tables found" exactly when no table matches, and with
    "Table index <i> out of bounds. Found <n> tables." exactly when some
    table matches and the index is not below the number [n] of matches;
    otherwise it returns the table at the index.  [parseTable] passes on
    the error of the selector engine when that rejects the selector, and
    otherwise fails in the same two ways, its first message naming the
    selector, or returns the rows of the table at the index.  The second
    message reports the number of matches, in digits that read back as the
    number, and the index, likewise from 0 to [2^53]; the first message of
    [getTable] holds no number at all. *)
Theorem table_locator_failures
    (select : str -> Dom.node -> result (list Dom.node))
    (doc : Dom.node) (selector : str) (tableIndex : Z) :
  let found := length (Dom.find ["table"] [doc]) in
  match getTable doc tableIndex with
  | Ok table =>
      found <> 0 /\ (tableIndex < Z.of_nat found)%Z
      /\ table = Dom.eq (Dom.find ["table"] [doc]) tableIndex
  | Throw message =>
      (found = 0 /\ message = notFound)
      \/ (found <> 0 /\ (Z.of_nat found <= tableIndex)%Z
          /\ message = outOfBounds (show_Z tableIndex) (show_nat found)
          /\ reports found message)
  end
  /\ match select selector doc with
     | Throw e => Utils.parseTable select doc selector tableIndex = Throw e
     | Ok tables =>
         match Utils.parseTable select doc selector tableIndex with
         | Ok rows =>
             length tables <> 0 /\ (tableIndex < Z.of_nat (length tables))%Z
             /\ rows = Utils.parseTableElement (Dom.eq tables tableIndex)
         | Throw message =>
             (length tables = 0
              /\ message = notFound ++ " matching selector: " ++ selector)
             \/ (length tables <> 0 /\ (Z.of_nat (length tables) <= tableIndex)%Z
                 /\ message
                    = outOfBounds (show_Z tableIndex) (show_nat (length tables))
                 /\ reports (length tables) message)
         end
     end
  /\ (forall n, ~ reports n notFound)
  /\ (forall n : nat, digits (show_nat n) = true /\ dec (show_nat n) = Z.of_nat n)
  /\ ((0 <= tableIndex < 2 ^ 53)%Z ->
      digits (show_Z tableIndex) = true /\ dec (show_Z tableIndex) = tableIndex).
Proof.
  cbv zeta. split; [|split; [|split; [|split]]].
  - exact (locate_cases (length (Dom.find ["table"] [doc])) tableIndex
             "No tables found" (Dom.eq (Dom.find ["table"] [doc]) tableIndex)).
  - unfold Utils.parseTable, Utils.locateTable.
    destruct (select selector doc) as [tables|e]; [|reflexivity].
    pose proof (locate_cases (length tables) tableIndex
                  ("No tables found matching selector: " ++ selector)
                  (Dom.eq tables tableIndex)) as H.
    cbv zeta in H.
    destruct (if length tables =? 0 then _ else _) as [t|message].
    + destruct H as (H1 & H2 & ->). auto.
    + exact H.
  - intros n. apply silent. reflexivity.
  - apply show_nat_digits.
  - apply show_Z_digits.
Qed.

Lemma table_locator_failures_witness :
  getTable
    (Dom.Elem 0 "body" [Dom.Elem 1 "table" []; Dom.Elem 2 "table" [];
                        Dom.Elem 3 "table" []]) 5
  = Throw "Table index 5 out of bounds. Found 3 tables."
  /\ Utils.parseTable (fun _ doc => Ok (Dom.find ["table"] [doc]))
       (Dom.Elem 0 "body" []) "table.ratings" 0
     = Throw "No tables found matching selector: table.ratings".
Proof.
  pose proof (table_locator_failures (fun _ doc => Ok (Dom.find ["table"] [doc]))
                (Dom.Elem 0 "body" [Dom.Elem 1 "table" []; Dom.Elem 2 "table" [];
                                    Dom.Elem 3 "table" []]) "table" 5) as H1.
  pose proof (table_locator_failures (fun _ doc => Ok (Dom.find ["table"] [doc]))
                (Dom.Elem 0 "body" []) "table.ratings" 0) as H2.
  cbv zeta in H1, H2. destruct H1 as [H1 _]. destruct H2 as (_ & H2 & _).
  split.
  - destruct (getTable _ 5) as [table|message].
    + destruct H1 as (_ & H1 & _). vm_compute in H1. discriminate.
    + destruct H1 as [[H1 _]|(_ & _ & -> & _)]; [discriminate|reflexivity].
  - cbn [Dom.find] in H2.
    destruct (Utils.parseTable _ _ "table.ratings" 0) as [rows|message].
    + destruct H2 as (H2 & _). exfalso. apply H2. reflexivity.
    + destruct H2 as [[_ ->]|(H2 & _)]; [reflexivity|].
      exfalso. apply H2. reflexivity.
Defined.

(** The claim as stated: both failures report the number of matching
    tables.  The error of [getTable] on a page without a table does not. *)
Lemma table_locator_counterexample :
  getTable (Dom.Elem 0 "body" []) 0 = Throw "No tables found"
  /\ ~ reports 0 "No tables found".
Proof.
  split; [reflexivity|]. apply silent. reflexivity.
Qed.

(** ** Rows *)

Section Rows.

Lemma each_app {A B} (f : nat -> A -> B -> B) l1 :
  forall i l2 acc,
    Dom.each f i (l1 ++ l2) acc = Dom.each f (i + length l1) l2 (Dom.each f i l1 acc).
Proof.
  induction l1 as [|x l1 IH]; intros i l2 acc; simpl.
  - rewrite Nat.add_0_r. reflexivity.
  - rewrite IH. f_equal. lia.
Qed.

Lemma each_ext {A B} (f g : nat -> A -> B -> B) l :
  (forall i x acc, f i x acc = g i x acc) ->
  forall i acc, Dom.each f i l acc = Dom.each g i l acc.
Proof.
  intros H. induction l as [|x l IH]; intros i acc; simpl; [reflexivity|].
  rewrite H. apply IH.
Qed.

Lemma each_snoc {A B} (f : nat -> A -> B -> B) l x i acc :
  Dom.each f i (l ++ [x]) acc = f (i + length l) x (Dom.each f i l acc).
Proof. rewrite each_app. reflexivity. Qed.

(** An invariant of the callback is an invariant of the loop. *)
Lemma each_inv {A B} (I : B -> Prop) (f : nat -> A -> B -> B) l :
  (forall i x acc, I acc -> I (f i x acc)) ->
  forall i acc, I acc -> I (Dom.each f i l acc).
Proof.
  intros Hf. induction l as [|x l IH]; intros i acc Hacc; simpl; [exact Hacc|].
  apply IH, Hf, Hacc.
Qed.

(** Assignment to a key of a row. *)
Lemma put_insert (k v : str) (row : TableRow) :
  k <> "__proto__" -> put k v row = <[k := v]> row.
Proof. intros H. unfold put. rewrite bool_decide_eq_false_2 by exact H. reflexivity. Qed.

Lemma put_proto (v : str) (row : TableRow) : put "__proto__" v row = row.
Proof. reflexivity. Qed.

Lemma put_lookup_eq (k v : str) (row : TableRow) :
  k <> "__proto__" -> put k v row !! k = Some v.
Proof. intros H. rewrite put_insert by exact H. apply lookup_insert_eq. Qed.

Lemma put_lookup_ne (k k' v : str) (row : TableRow) :
  k <> k' -> put k v row !! k' = row !! k'.
Proof.
  intros H. unfold put. destruct (bool_decide (k = "__proto__")); [reflexivity|].
  apply lookup_insert_ne. exact H.
Qed.

Lemma put_lookup_proto (k v : str) (row : TableRow) :
  put k v row !! "__proto__" = row !! "__proto__".
Proof.
  unfold put. destruct (bool_decide (k = "__proto__")) eqn:E; [reflexivity|].
  apply bool_decide_eq_false in E. apply lookup_insert_ne. exact E.
Qed.

Lemma put_is_Some (k v : str) (row : TableRow) k' :
  is_Some (put k v row !! k') <-> (k = k' /\ k <> "__proto__") \/ is_Some (row !! k').
Proof.
  destruct (decide (k = "__proto__")) as [->|Hk].
  - rewrite put_proto. split; [auto|]. intros [[_ H]|H]; [congruence|exact H].
  - rewrite put_insert by exact Hk. rewrite lookup_insert_is_Some'. tauto.
Qed.

(** The cell loop of [extractRows] assigns the cells to the columns from
    position [i] on. *)
Lemma cell_loop (columns : list str) (cells : list Dom.node) :
  forall i (acc : TableRow),
    Dom.each (fun j cell (rowData : TableRow) =>
                match columns !! j with
                | Some col => put col (trim (Dom.text cell)) rowData
                | None => rowData
                end) i cells acc
    = fold_left (fun (row : TableRow) cv => put cv.1 cv.2 row)
        (zip (drop i columns) ((fun cell => trim (Dom.text cell)) <$> cells)) acc.
Proof.
  induction cells as [|c cells IH]; intros i acc; simpl.
  - destruct (drop i columns); reflexivity.
  - rewrite IH. destruct (columns !! i) as [col|] eqn:E.
    + rewrite (drop_S _ _ _ E). reflexivity.
    + rewrite (drop_ge columns i) by (apply lookup_ge_None; exact E).
      rewrite (drop_ge columns (S i)) by (apply lookup_ge_None in E; lia).
      reflexivity.
Qed.

Lemma assign_snoc (schema texts : list str) k v :
  length schema = length texts ->
  assign (schema ++ [k]) (texts ++ [v]) = put k v (assign schema texts).
Proof.
  intros H. unfold assign. rewrite zip_with_app by exact H.
  rewrite fold_left_app. reflexivity.
Qed.

Lemma assign_take (schema texts : list str) :
  assign schema texts
  = assign (take (length texts) schema) (take (length schema) texts).
Proof.
  unfold assign. f_equal. revert texts.
  induction schema as [|k schema IH]; intros [|v texts]; simpl; try reflexivity.
  f_equal. apply IH.
Qed.

(** The value a key ends up with is the text at the last position that
    carries the key. *)
Lemma assign_lookup (schema texts : list str) :
  length schema = length texts ->
  forall k v,
    k <> "__proto__" ->
    assign schema texts !! k = Some v <->
    exists j, schema !! j = Some k /\ texts !! j = Some v
              /\ forall j', j < j' -> schema !! j' <> Some k.
Proof.
  revert texts.
  induction schema as [|k0 schema IH] using rev_ind; intros texts Hlen k v Hproto.
  - destruct texts; [|discriminate]. unfold assign. simpl. rewrite lookup_empty.
    split; [discriminate|]. intros (j & H & _). rewrite lookup_nil in H. discriminate.
  - destruct texts as [|v0 texts _] using rev_ind;
      [rewrite length_app in Hlen; simpl in Hlen; lia|].
    rewrite !length_app in Hlen. simpl in Hlen.
    assert (Hl : length schema = length texts) by lia.
    rewrite assign_snoc by exact Hl.
    destruct (decide (k0 = k)) as [->|Hne].
    + rewrite put_lookup_eq by exact Hproto. split.
      * intros [= ->]. exists (length schema).
        rewrite (list_lookup_middle schema [] k) by reflexivity.
        rewrite (list_lookup_middle texts [] v) by lia.
        repeat split. intros j' Hj' Hs.
        apply lookup_lt_Some in Hs. rewrite length_app in Hs. simpl in Hs. lia.
      * intros (j & Hk & Hv & Hlast).
        destruct (decide (j = length schema)) as [->|Hj].
        -- rewrite (list_lookup_middle texts [] v0) in Hv by lia. exact Hv.
        -- exfalso. apply (Hlast (length schema)).
           ++ apply lookup_lt_Some in Hk. rewrite length_app in Hk. simpl in Hk. lia.
           ++ apply list_lookup_middle. reflexivity.
    + rewrite put_lookup_ne by exact Hne. rewrite (IH texts Hl _ _ Hproto). split.
      * intros (j & Hk & Hv & Hlast). exists j.
        pose proof (lookup_lt_Some _ _ _ Hk) as Hj.
        rewrite !lookup_app_l by lia. repeat split; auto.
        intros j' Hj' Hs.
        destruct (decide (j' < length schema)) as [Hlt|Hge].
        -- rewrite lookup_app_l in Hs by lia. exact (Hlast j' Hj' Hs).
        -- pose proof (lookup_lt_Some _ _ _ Hs) as Hb.
           rewrite length_app in Hb. simpl in Hb.
           assert (j' = length schema) as -> by lia.
           rewrite (list_lookup_middle schema [] k0) in Hs by reflexivity. congruence.
      * intros (j & Hk & Hv & Hlast).
        assert (Hj : j < length schema).
        { pose proof (lookup_lt_Some _ _ _ Hk) as Hb.
          rewrite length_app in Hb. simpl in Hb.
          destruct (decide (j = length schema)) as [->|]; [|lia].
          rewrite (list_lookup_middle schema [] k0) in Hk by reflexivity. congruence. }
        exists j. rewrite lookup_app_l in Hk by lia.
        rewrite lookup_app_l in Hv by lia. repeat split; auto.
        intros j' Hj' Hs. apply (Hlast j' Hj').
        rewrite lookup_app_l; [exact Hs|]. apply lookup_lt_Some in Hs. exact Hs.
Qed.

Lemma assign_nil (schema : list str) : assign schema [] = ∅.
Proof. unfold assign. destruct schema; reflexivity. Qed.

(** No row has the key [__proto__], and the keys of an assigned row are
    the other column names that have a cell. *)
Lemma assign_proto (schema texts : list str) :
  assign schema texts !! "__proto__" = None.
Proof.
  unfold assign.
  assert (H : forall l (acc : TableRow),
             acc !! "__proto__" = None ->
             fold_left (fun (row : TableRow) cv => put cv.1 cv.2 row) l acc
               !! "__proto__" = None).
  { induction l as [|[k v] l IH]; intros acc Hacc; simpl; [exact Hacc|].
    apply IH. rewrite put_lookup_proto. exact Hacc. }
  apply H, lookup_empty.
Qed.

Lemma fst_zip_take (schema texts : list str) :
  (zip schema texts).*1 = take (length texts) schema.
Proof.
  revert texts. induction schema as [|k schema IH]; intros [|v texts]; simpl;
    try reflexivity.
  f_equal. apply IH.
Qed.

Lemma fold_put_is_Some (l : list (str * str)) :
  forall (acc : TableRow) k,
    is_Some (fold_left (fun (row : TableRow) cv => put cv.1 cv.2 row) l acc !! k)
    <-> (k ∈ l.*1 /\ k <> "__proto__") \/ is_Some (acc !! k).
Proof.
  induction l as [|[k0 v0] l IH]; intros acc k; simpl.
  - rewrite elem_of_nil. tauto.
  - rewrite IH, elem_of_cons, put_is_Some. simpl.
    split; [|intros [[[->|H] Hp]|H]; auto].
    intros [[H Hp]|[[-> Hp]|H]]; auto.
Qed.

Lemma assign_is_Some (schema texts : list str) k :
  is_Some (assign schema texts !! k)
  <-> k ∈ take (length texts) schema /\ k <> "__proto__".
Proof.
  unfold assign. rewrite fold_put_is_Some, fst_zip_take, lookup_empty.
  split; [intros [H|[x Hx]]; [exact H|discriminate]|auto].
Qed.

(** A row is empty when no cell falls under a column name other than
    [__proto__]. *)
Lemma assign_empty (schema texts : list str) :
  assign schema texts = ∅
  <-> forall k, k ∈ take (length texts) schema -> k = "__proto__".
Proof.
  split.
  - intros H k Hk. destruct (decide (k = "__proto__")) as [E|E]; [exact E|].
    exfalso. assert (Hs : is_Some (assign schema texts !! k))
      by (apply assign_is_Some; auto).
    rewrite H, lookup_empty in Hs. destruct Hs as [x Hx]. discriminate.
  - intros H. apply map_eq. intros k. rewrite lookup_empty.
    apply eq_None_not_Some. intros Hs. apply assign_is_Some in Hs as [Hk Hp].
    apply Hp, H, Hk.
Qed.

Lemma assign_empty_plain (schema texts : list str) :
  "__proto__" ∉ schema ->
  assign schema texts = ∅ <-> schema = [] \/ texts = [].
Proof.
  intros Hp. rewrite assign_empty. split.
  - intros H. destruct schema as [|k schema]; [auto|].
    destruct texts as [|v texts]; [auto|]. exfalso. apply Hp.
    rewrite <- (H k); [left|]. simpl. left.
  - intros [->| ->] k Hk; [rewrite take_nil in Hk|rewrite take_0 in Hk];
      apply elem_of_nil in Hk; contradiction.
Qed.

(** The row loop of [extractRows] keeps the rows with at least one key. *)
Lemma row_loop (columns : list str) (rows : list Dom.node) :
  forall i (acc : list TableRow),
    Dom.each (fun _i row (rows : list TableRow) =>
      let cells := Dom.find ["td"] [row] in
      if length cells =? 0 then rows
      else
        let rowData : TableRow := ∅ in
        let rowData :=
          Dom.each (fun j cell (rowData : TableRow) =>
            match columns !! j with
            | Some col => put col (trim (Dom.text cell)) rowData
            | None => rowData
            end) 0 cells rowData in
        if 0 <? size rowData then rows ++ [rowData] else rows) i rows acc
    = acc ++ filter (fun r : TableRow => r <> ∅)
               ((fun row => assign columns (cellTexts row)) <$> rows).
Proof.
  induction rows as [|row rows IH]; intros i acc; simpl.
  - rewrite app_nil_r. reflexivity.
  - rewrite IH. clear IH. cbv zeta. rewrite cell_loop, drop_0.
    fold (cellTexts row). fold (assign columns (cellTexts row)).
    destruct (Nat.eqb_spec (length (Dom.find ["td"] [row])) 0) as [E|E].
    + assert (Hempty : assign columns (cellTexts row) = ∅).
      { unfold cellTexts. apply length_zero_iff_nil in E. rewrite E.
        apply assign_nil. }
      rewrite Hempty. rewrite filter_cons_False by tauto. reflexivity.
    + destruct (Nat.ltb_spec 0 (size (assign columns (cellTexts row)))) as [Hs|Hs].
      * rewrite filter_cons_True, <- app_assoc; [reflexivity|].
        intros Heq. rewrite Heq, map_size_empty in Hs. lia.
      * rewrite filter_cons_False; [reflexivity|].
        intros Hne. apply Hne. apply map_size_empty_iff. lia.
Qed.

End Rows.

Section RowsGeneral.

(** The same for a schema and a row of any lengths. *)
Lemma assign_lookup_general (schema texts : list str) k v :
  k <> "__proto__" ->
  assign schema texts !! k = Some v <->
  exists j, schema !! j = Some k /\ texts !! j = Some v
            /\ forall j', j < j' -> j' < length texts -> schema !! j' <> Some k.
Proof.
  intros Hproto.
  rewrite assign_take, assign_lookup
    by (exact Hproto || rewrite !length_take; lia).
  split; intros (j & Hk & Hv & Hlast).
  - apply lookup_take_Some in Hk as [Hk Hj]. apply lookup_take_Some in Hv as [Hv Hj'].
    exists j. repeat split; auto. intros j' Hlt Hb Hs.
    apply (Hlast j' Hlt). apply lookup_take_Some. split; [exact Hs|exact Hb].
  - pose proof (lookup_lt_Some _ _ _ Hk). pose proof (lookup_lt_Some _ _ _ Hv).
    exists j. repeat split.
    + apply lookup_take_Some. auto.
    + apply lookup_take_Some. auto.
    + intros j' Hlt Hs. apply lookup_take_Some in Hs as [Hs Hb].
      exact (Hlast j' Hlt Hb Hs).
Qed.

(** Cells at or beyond the length of the schema are dropped. *)
Lemma assign_extra_cells (schema texts : list str) :
  assign schema texts = assign schema (take (length schema) texts).
Proof.
  unfold assign. f_equal. revert texts.
  induction schema as [|k schema IH]; intros [|v texts]; simpl; try reflexivity.
  f_equal. apply IH.
Qed.

End RowsGeneral.

(** C5.  The body rows are the rows of the <tbody> elements when there is
    one and all rows but the first otherwise.  The rows returned are, in
    order, the rows [assign columns texts] of the body rows that have at
    least one key, where [texts] are the trimmed texts of the cells.  A
    key of such a row is a column name at a position below both the number
    of cells and the number of columns, its value is the text of the cell
    at the last such position that carries the name (the position itself
    when column names do not repeat), and cells at or beyond the number of
    columns do not change the row.  The one name that never becomes a key
    is [__proto__], to which JavaScript assigns nothing: a row is left out
    exactly when no cell falls under another column name. *)
Theorem row_extractor (table : list Dom.node) (columns : list str) :
  bodyRows table =
    (if decide (Dom.find ["tbody"] table = [])
     then drop 1 (Dom.find ["tr"] table)
     else Dom.find ["tr"] (Dom.find ["tbody"] table))
  /\ extractRows table columns =
       filter (fun r : TableRow => r <> ∅)
         ((fun row => assign columns (cellTexts row)) <$> bodyRows table)
  /\ (forall r, r ∈ extractRows table columns -> r <> ∅)
  /\ (forall (texts : list str),
        (forall k v,
           k <> "__proto__" ->
           assign columns texts !! k = Some v <->
           exists j, columns !! j = Some k /\ texts !! j = Some v
                     /\ forall j', j < j' -> j' < length texts -> columns !! j' <> Some k)
        /\ assign columns texts !! "__proto__" = None
        /\ (NoDup columns ->
            forall j k v, columns !! j = Some k -> texts !! j = Some v ->
                          k <> "__proto__" ->
                          assign columns texts !! k = Some v)
        /\ assign columns texts = assign columns (take (length columns) texts)
        /\ (assign columns texts = ∅
            <-> forall k, k ∈ take (length texts) columns -> k = "__proto__")
        /\ ("__proto__" ∉ columns ->
            assign columns texts = ∅ <-> columns = [] \/ texts = [])).
Proof.
  assert (Hrows : extractRows table columns =
       filter (fun r : TableRow => r <> ∅)
         ((fun row => assign columns (cellTexts row)) <$> bodyRows table)).
  { unfold extractRows. rewrite row_loop. reflexivity. }
  split; [|split; [exact Hrows|split]].
  - unfold bodyRows. destruct (Dom.find ["tbody"] table); reflexivity.
  - intros r Hr. rewrite Hrows in Hr. apply list_elem_of_filter in Hr. tauto.
  - intros texts. split; [|split; [|split; [|split; [|split]]]].
    + intros k v Hp. apply assign_lookup_general. exact Hp.
    + apply assign_proto.
    + intros Hnd j k v Hk Hv Hp. apply assign_lookup_general; [exact Hp|].
      exists j. repeat split; auto. intros j' Hlt _ Hs.
      pose proof (NoDup_lookup _ _ _ _ Hnd Hk Hs). lia.
    + apply assign_extra_cells.
    + apply assign_empty.
    + apply assign_empty_plain.
Qed.

(** A table with a header row, a body row with one cell more than there are
    columns, an empty row, and a row whose only cell falls under
    [__proto__]. *)
Lemma row_extractor_witness :
  extractRows
    [Dom.Elem 0 "table"
       [Dom.Elem 1 "thead"
          [Dom.Elem 2 "tr" [Dom.Elem 3 "th" [Dom.Text "Team"];
                            Dom.Elem 4 "th" [Dom.Text "Conf"]]];
        Dom.Elem 5 "tbody"
          [Dom.Elem 6 "tr" [Dom.Elem 7 "td" [Dom.Text " Duke 1 "];
                            Dom.Elem 8 "td" [Dom.Text "ACC"];
                            Dom.Elem 9 "td" [Dom.Text "extra"]];
           Dom.Elem 10 "tr" []]]]
    ["Team"; "Conference"]
  = [<["Conference" := "ACC"]> (<["Team" := "Duke 1"]> ∅)]
  /\ assign ["Team"; "Conference"] ["Duke 1"; "ACC"; "extra"] !! "Conference" = Some "ACC"
  /\ extractRows
       [Dom.Elem 0 "table"
          [Dom.Elem 1 "tbody"
             [Dom.Elem 2 "tr" [Dom.Elem 3 "td" [Dom.Text "Duke"]]]]]
       ["__proto__"; "Team"]
     = [].
Proof.
  split; [|split].
  - match goal with |- extractRows ?t ?c = _ =>
      destruct (row_extractor t c) as (_ & -> & _) end.
    vm_compute. reflexivity.
  - destruct (row_extractor [] ["Team"; "Conference"]) as (_ & _ & _ & H).
    destruct (H ["Duke 1"; "ACC"; "extra"]) as (_ & _ & Hnd & _).
    apply (Hnd ltac:(apply (bool_decide_unpack _); vm_compute; exact I) 1);
      [reflexivity|reflexivity|discriminate].
  - match goal with |- extractRows ?t ?c = _ =>
      destruct (row_extractor t c) as (_ & -> & _) end.
    vm_compute. reflexivity.
Defined.

(** ** Header derivation *)

Section Headers.

Variable name : nat -> Dom.node -> list str -> str.

Lemma derive_snoc cells c :
  derive name (cells ++ [c])
  = derive name cells ++ [name (length cells) c (derive name cells)].
Proof. unfold derive. rewrite each_snoc. reflexivity. Qed.

Lemma derive_length cells : length (derive name cells) = length cells.
Proof.
  induction cells as [|c cells IH] using rev_ind; [reflexivity|].
  rewrite derive_snoc, !length_app, IH. reflexivity.
Qed.

Lemma derive_take cells i : take i (derive name cells) = derive name (take i cells).
Proof.
  induction cells as [|c cells IH] using rev_ind; [destruct i; reflexivity|].
  rewrite derive_snoc.
  destruct (decide (i <= length cells)) as [Hi|Hi].
  - rewrite !take_app_le by (rewrite ?derive_length; lia). exact IH.
  - rewrite !take_ge by (rewrite ?length_app, ?derive_length; simpl; lia).
    rewrite derive_snoc. reflexivity.
Qed.

(** The name at a position is computed from the names before it. *)
Lemma derive_lookup cells i c :
  cells !! i = Some c ->
  derive name cells !! i = Some (name i c (take i (derive name cells))).
Proof.
  intros Hc. rewrite derive_take.
  pose proof (take_S_r _ _ _ Hc) as Hs.
  pose proof (derive_take cells (S i)) as Ht. rewrite Hs, derive_snoc in Ht.
  pose proof (lookup_lt_Some _ _ _ Hc) as Hlt.
  assert (Hl : length (take i cells) = i) by (rewrite length_take; lia).
  rewrite Hl in Ht.
  rewrite <- (lookup_take_lt (derive name cells) (S i) i) by lia. rewrite Ht.
  apply list_lookup_middle. rewrite derive_length. auto.
Qed.

(** When the name of a cell is its base name unless that is among the
    names before it, distinct base names are kept as they are. *)
Lemma derive_distinct cells :
  (forall i c hs, baseName i c ∉ hs -> name i c hs = baseName i c) ->
  NoDup (imap baseName cells) -> derive name cells = imap baseName cells.
Proof.
  intros Hname. induction cells as [|c cells IH] using rev_ind; intros Hnd;
    [reflexivity|].
  rewrite imap_app in Hnd. simpl in Hnd. rewrite Nat.add_0_r in Hnd.
  apply NoDup_app in Hnd as (Hnd & Hfresh & _).
  rewrite derive_snoc, imap_app, IH by exact Hnd. simpl.
  rewrite Nat.add_0_r. f_equal. f_equal. apply Hname.
  intros Hin. apply (Hfresh _ Hin). left.
Qed.

End Headers.

Section HeaderSites.

Lemma orColumn_spec (text : str) i :
  (text = [] -> orColumn text i = "Column" ++ show_nat i)
  /\ (text <> [] -> orColumn text i = text).
Proof. unfold orColumn. destruct text; split; intros; congruence || reflexivity. Qed.

(** The loops of the source are these three. *)
Lemma trendsHeaders_derive cells : trendsHeaders cells = derive trendsName cells.
Proof. reflexivity. Qed.

Lemma conferenceHeaders_derive cells :
  conferenceHeaders cells = derive conferenceName cells.
Proof. reflexivity. Qed.

Lemma tableHeaders_derive cells : Utils.tableHeaders cells = derive tableName cells.
Proof.
  unfold Utils.tableHeaders, derive. apply each_ext. intros i el headers.
  unfold tableName, baseName, orColumn.
  destruct (truthy (trim (Dom.text el))); reflexivity.
Qed.

Lemma fanMatchHeaders_derive cells :
  fanMatchHeaders cells = derive (fun _ el _ => trim (Dom.text el)) cells.
Proof. reflexivity. Qed.

Lemma fanMatchHeaders_map cells :
  fanMatchHeaders cells = (fun el => trim (Dom.text el)) <$> cells.
Proof.
  rewrite fanMatchHeaders_derive.
  induction cells as [|c cells IH] using rev_ind; [reflexivity|].
  rewrite derive_snoc, IH, fmap_app. reflexivity.
Qed.

(** A game row of [parseFanMatch] has no key but its non-empty header
    names. *)
Lemma fanMatchRow_keys (headers : list str) (cells : list Dom.node) k :
  is_Some (fanMatchRow headers cells !! k) -> k <> "" /\ k ∈ headers.
Proof.
  unfold fanMatchRow. revert k.
  apply (each_inv (fun row : TableRow =>
                     forall k, is_Some (row !! k) -> k <> "" /\ k ∈ headers)).
  - intros j cell acc Hacc k. cbv zeta.
    destruct (headers !! j) as [header|] eqn:E; [|apply Hacc].
    destruct header as [|a header]; [apply Hacc|]. cbn [truthy].
    rewrite put_is_Some. intros [[<- _]|H]; [|apply Hacc, H].
    split; [discriminate|]. eapply list_elem_of_lookup_2. exact E.
  - intros k. rewrite lookup_empty. intros [x Hx]. discriminate.
Qed.

End HeaderSites.

(** C6, as the code has it.  In [parseTrends], [parseTableElement],
    [parseConferenceStandings] and [parseConferenceTable] a header cell
    whose trimmed text is empty at position [i] gets the base name
    [Column<i>], any other its trimmed text.  [parseTrends] keeps the base
    names as they are, repeated or not.  [parseTableElement] appends [_<i>]
    and the two conference parsers append [.Rank] to a base name that is
    among the names derived before it.  [parseFanMatch] has neither a
    placeholder nor a suffix: its names are the trimmed texts, and a game
    row gets no key from a cell under an empty name.  Each site derives one
    name per cell, and when the base names are pairwise distinct the
    derived names of the first four sites are the base names. *)
Theorem header_derivation (cells : list Dom.node) :
  (length (trendsHeaders cells) = length cells
   /\ length (Utils.tableHeaders cells) = length cells
   /\ length (conferenceHeaders cells) = length cells
   /\ length (fanMatchHeaders cells) = length cells)
  /\ (forall i cell,
        cells !! i = Some cell ->
        (trim (Dom.text cell) = [] -> baseName i cell = "Column" ++ show_nat i)
        /\ (trim (Dom.text cell) <> [] -> baseName i cell = trim (Dom.text cell))
        /\ trendsHeaders cells !! i = Some (baseName i cell)
        /\ Utils.tableHeaders cells !! i =
             Some (if bool_decide (baseName i cell ∈ take i (Utils.tableHeaders cells))
                   then baseName i cell ++ "_" ++ show_nat i
                   else baseName i cell)
        /\ conferenceHeaders cells !! i =
             Some (if bool_decide (baseName i cell ∈ take i (conferenceHeaders cells))
                   then baseName i cell ++ ".Rank"
                   else baseName i cell)
        /\ fanMatchHeaders cells !! i = Some (trim (Dom.text cell)))
  /\ (forall (row : list Dom.node) k,
        is_Some (fanMatchRow (fanMatchHeaders cells) row !! k) ->
        k <> "" /\ k ∈ fanMatchHeaders cells)
  /\ (NoDup (imap baseName cells) ->
      trendsHeaders cells = imap baseName cells
      /\ Utils.tableHeaders cells = imap baseName cells
      /\ conferenceHeaders cells = imap baseName cells).
Proof.
  rewrite trendsHeaders_derive, tableHeaders_derive, conferenceHeaders_derive.
  split; [|split; [|split]].
  - rewrite fanMatchHeaders_derive. repeat split; apply derive_length.
  - intros i cell Hc. rewrite fanMatchHeaders_map, list_lookup_fmap, Hc.
    rewrite !(derive_lookup _ cells i cell Hc).
    split; [|split]; [apply orColumn_spec..|]. repeat split.
  - intros row k. apply fanMatchRow_keys.
  - intros Hnd. repeat split; apply derive_distinct; try exact Hnd;
      intros i c hs Hin; unfold trendsName, tableName, conferenceName;
      rewrite ?bool_decide_eq_false_2 by exact Hin; reflexivity.
Qed.

Lemma header_derivation_witness :
  Utils.tableHeaders [Dom.Text "Team"; Dom.Text " "; Dom.Text "Team"] !! 2 = Some "Team_2"
  /\ conferenceHeaders [Dom.Text "Team"; Dom.Text " "; Dom.Text "Team"] !! 2 = Some "Team.Rank"
  /\ trendsHeaders [Dom.Text "Team"; Dom.Text " "; Dom.Text "Team"] !! 1 = Some "Column1"
  /\ fanMatchHeaders [Dom.Text "Team"; Dom.Text " "; Dom.Text "Team"] !! 1 = Some ""
  /\ trendsHeaders [Dom.Text "Season"; Dom.Text "Tempo"] = ["Season"; "Tempo"].
Proof.
  pose proof (header_derivation [Dom.Text "Team"; Dom.Text " "; Dom.Text "Team"]) as (_ & H & _).
  split; [|split; [|split; [|split]]].
  - destruct (H 2 (Dom.Text "Team") eq_refl) as (_ & _ & _ & -> & _). reflexivity.
  - destruct (H 2 (Dom.Text "Team") eq_refl) as (_ & _ & _ & _ & -> & _). reflexivity.
  - destruct (H 1 (Dom.Text " ") eq_refl) as (_ & _ & -> & _). reflexivity.
  - destruct (H 1 (Dom.Text " ") eq_refl) as (_ & _ & _ & _ & _ & ->). reflexivity.
  - apply (header_derivation [Dom.Text "Season"; Dom.Text "Tempo"]).
    apply (bool_decide_unpack _). vm_compute. exact I.
Defined.

(** The claim as stated fails at two sites: [parseFanMatch] gives an empty
    header no placeholder, and [parseTrends] leaves repeated header texts
    as they are; the suffixes of the other sites do not make the names
    distinct either. *)
Lemma header_derivation_counterexample :
  fanMatchHeaders [Dom.Text ""] = [""]
  /\ fanMatchHeaders [Dom.Text "W-L"; Dom.Text "W-L"] = ["W-L"; "W-L"]
  /\ trendsHeaders [Dom.Text "W-L"; Dom.Text "W-L"] = ["W-L"; "W-L"]
  /\ ~ NoDup (trendsHeaders [Dom.Text "W-L"; Dom.Text "W-L"])
  /\ ~ NoDup (conferenceHeaders [Dom.Text "W-L"; Dom.Text "W-L"; Dom.Text "W-L"])
  /\ ~ NoDup (Utils.tableHeaders [Dom.Text "W-L"; Dom.Text "W-L_2"; Dom.Text "W-L"]).
Proof.
  split; [reflexivity|]. split; [reflexivity|]. split; [reflexivity|].
  split; [|split]; vm_compute; intros H.
  - apply NoDup_cons in H as [H _]. apply H. left.
  - apply NoDup_cons in H as [_ H]. apply NoDup_cons in H as [H _]. apply H. left.
  - apply NoDup_cons in H as [_ H]. apply NoDup_cons in H as [H _]. apply H. left.
Qed.

(** ** The endpoint tables *)

(** Decidable facts about concrete pages are settled by evaluation. *)
Ltac by_compute := apply (bool_decide_unpack _); vm_compute; exact I.

Section Tables.

Lemma extractRows_assign (table : list Dom.node) (columns : list str) :
  extractRows table columns
  = filter (fun r : TableRow => r <> ∅)
      ((fun row => assign columns (cellTexts row)) <$> bodyRows table).
Proof. unfold extractRows. rewrite row_loop. reflexivity. Qed.

Lemma extractRows_elem (table : list Dom.node) (columns : list str) r :
  r ∈ extractRows table columns ->
  exists texts, texts <> [] /\ r = assign columns texts.
Proof.
  rewrite extractRows_assign. intros H.
  apply list_elem_of_filter in H as [Hne H].
  apply list_elem_of_fmap in H as (row & -> & _).
  exists (cellTexts row). split; [|reflexivity].
  intros E. apply Hne. rewrite E. apply assign_nil.
Qed.

Lemma extractRows_keys (table : list Dom.node) (columns : list str) r :
  r ∈ extractRows table columns -> keys_within columns r.
Proof.
  intros H. apply extractRows_elem in H as (texts & _ & ->).
  intros k Hk. apply assign_is_Some in Hk as [Hk _].
  apply (subseteq_take (length texts)). exact Hk.
Qed.

(** A row always has the first column. *)
Lemma extractRows_first (table : list Dom.node) c0 (columns : list str) r :
  c0 <> "__proto__" ->
  r ∈ extractRows table (c0 :: columns) -> is_Some (r !! c0).
Proof.
  intros Hc0 H. apply extractRows_elem in H as (texts & Hne & ->).
  apply assign_is_Some. split; [|exact Hc0].
  destruct texts; [congruence|]. simpl. left.
Qed.

Lemma getTable_Ok (doc : Dom.node) (i : Z) table :
  getTable doc i = Ok table ->
  table = Dom.eq (Dom.find ["table"] [doc]) i
  /\ (i < Z.of_nat (length (Dom.find ["table"] [doc])))%Z.
Proof.
  unfold getTable.
  destruct (length (Dom.find ["table"] [doc]) =? 0); [discriminate|].
  destruct (i >=? _)%Z eqn:E; [discriminate|].
  intros [= <-]. split; [reflexivity|]. lia.
Qed.

Lemma clean_empty : clean "".
Proof. split; reflexivity. Qed.

(** What [stripSeed] returns has no digit and no white space around it. *)
Lemma stripSeed_clean (team : option str) : clean (stripSeed team).
Proof.
  destruct team as [t|]; [|apply clean_empty].
  rewrite stripSeed_filter. split.
  - destruct (trim_infix (List.filter not_digit t)) as (a & b & Heq).
    apply (forallb_infix _ a _ b). rewrite <- Heq. apply forallb_filter.
  - apply trim_idempotent.
Qed.

Lemma teamRows_elem (rows : list TableRow) r :
  r ∈ teamRows rows <->
  exists r0 : TableRow,
    r0 ∈ rows /\ r0 !! "Team" <> Some "Team" /\ r0 !! "Team" <> Some ""
    /\ r = <["Team" := stripSeed (r0 !! "Team")]> r0.
Proof.
  unfold teamRows. rewrite list_elem_of_fmap. split.
  - intros (r0 & -> & H). apply list_elem_of_filter in H as [[H1 H2] H].
    exists r0. auto.
  - intros (r0 & H & H1 & H2 & ->). exists r0. split; [reflexivity|].
    apply list_elem_of_filter. auto.
Qed.

(** The rows of a team table, for any column list that starts with the
    team column. *)
Lemma teamRows_extract (table : list Dom.node) (columns : list str) r :
  r ∈ teamRows (extractRows table ("Team" :: columns)) ->
  exists (r0 : TableRow) (cell : str),
    r0 ∈ extractRows table ("Team" :: columns)
    /\ r0 !! "Team" = Some cell /\ cell <> "Team" /\ cell <> ""
    /\ r = <["Team" := trim (List.filter not_digit cell)]> r0.
Proof.
  intros H. apply teamRows_elem in H as (r0 & Hr0 & H1 & H2 & ->).
  destruct (extractRows_first table "Team" columns r0 ltac:(discriminate) Hr0)
    as [cell Hcell].
  exists r0, cell. rewrite Hcell in *. rewrite stripSeed_filter.
  repeat split; auto; congruence.
Qed.

End Tables.

(** The team tables (efficiency, four factors, team statistics, point
    distribution, height).  Every row returned comes from a row of the first
    table of the page, read with a column list that starts with the team
    column: that row has a team cell, which is neither the header text
    [Team] nor empty, and the row returned differs from it only in the team,
    which is the cell without its digits and without the white space around
    what is left.  So a team of the result never has a digit nor white
    space at either end, and no other column is touched. *)
Theorem team_tables_clean (doc : Dom.node) (season : option Z) (defense : bool)
    (rows : list TableRow) :
  parseEfficiency doc season = Ok rows \/ parseFourFactors doc = Ok rows
  \/ parseTeamStats doc defense = Ok rows \/ parsePointDist doc = Ok rows
  \/ parseHeight doc season = Ok rows ->
  forall r, r ∈ rows ->
    exists (columns : list str) (r0 : TableRow) (cell : str),
      r0 ∈ extractRows (Dom.eq (Dom.find ["table"] [doc]) 0) ("Team" :: columns)
      /\ r0 !! "Team" = Some cell /\ cell <> "Team" /\ cell <> ""
      /\ r = <["Team" := trim (List.filter not_digit cell)]> r0
      /\ (exists team, r !! "Team" = Some team /\ clean team)
      /\ (forall k, k <> "Team" -> r !! k = r0 !! k).
Proof.
  intros H r Hr.
  assert (Hcols : exists columns,
            r ∈ teamRows (extractRows (Dom.eq (Dom.find ["table"] [doc]) 0)
                            ("Team" :: columns))).
  { unfold parseEfficiency, parseFourFactors, parseTeamStats, parsePointDist,
      parseHeight in H.
    destruct (getTable doc 0) as [table|e] eqn:Et;
      [|destruct H as [H|[H|[H|[H|H]]]]; discriminate].
    apply getTable_Ok in Et as [-> _].
    destruct H as [H|[H|[H|[H|H]]]]; injection H as <-.
    - unfold efficiencyColumns in Hr. destruct (before season 2010); eauto.
    - unfold fourFactorsColumns in Hr. eauto.
    - unfold teamStatsColumns in Hr. eauto.
    - unfold pointDistColumns in Hr. eauto.
    - unfold heightColumns in Hr. destruct (before season 2008); eauto. }
  destruct Hcols as (columns & Hc).
  apply teamRows_extract in Hc as (r0 & cell & Hr0 & Hcell & H1 & H2 & ->).
  exists columns, r0, cell. repeat split; auto.
  - exists (trim (List.filter not_digit cell)). split; [apply lookup_insert_eq|].
    rewrite <- stripSeed_filter. apply (stripSeed_clean (Some cell)).
  - intros k Hk. apply lookup_insert_ne. congruence.
Qed.

Lemma team_tables_clean_witness :
  exists team : str,
    (<["Conference" := "ACC"]> (<["Team" := "Duke"]> ∅) : TableRow) !! "Team" = Some team
    /\ clean team.
Proof.
  destruct (team_tables_clean
              (Dom.Elem 0 "body" [Dom.Elem 1 "table"
                 [Dom.Elem 2 "tr" [Dom.Elem 3 "th" [Dom.Text "Team"]];
                  Dom.Elem 4 "tr" [Dom.Elem 5 "td" [Dom.Text "Team"];
                                   Dom.Elem 6 "td" [Dom.Text "Conference"]];
                  Dom.Elem 7 "tr" [Dom.Elem 8 "td" [Dom.Text " Duke 1"];
                                   Dom.Elem 9 "td" [Dom.Text "ACC"]]]])
              None false
              [<["Conference" := "ACC"]> (<["Team" := "Duke"]> ∅)]
              ltac:(right; left; by_compute)
              (<["Conference" := "ACC"]> (<["Team" := "Duke"]> ∅))
              ltac:(apply list_elem_of_here))
    as (_ & _ & _ & _ & _ & _ & _ & _ & H & _).
  exact H.
Defined.

Section Ratings.

Lemma seedRe_run pos s :
  run seedRe pos s no_captures
  = match take_while is_digit s with
    | [] => None
    | ds => Some (pos + length ds,
                  close_group 1 (pos + length ds) (open_group 1 pos no_captures))
    end.
Proof.
  unfold seedRe, plus. cbn [run].
  rewrite <- (take_drop_while is_digit s) at 1.
  destruct (take_while is_digit s) as [|d ds] eqn:E.
  - cbn [app]. apply rep_none; [lia|].
    pose proof (drop_while_stops is_digit s) as H.
    destruct (drop_while is_digit s); [exact I|exact H].
  - apply rep_greedy_run.
    + rewrite <- E. apply forallb_take_while.
    + pose proof (drop_while_stops is_digit s) as H.
      destruct (drop_while is_digit s); [exact I|exact H].
    + simpl. lia.
    + reflexivity.
Qed.

Lemma take_while_not_digit_head (s : str) i :
  i < length (take_while not_digit s) ->
  take_while is_digit (drop i (take_while not_digit s) ++ drop_while not_digit s) = [].
Proof.
  intros Hi.
  destruct (drop i (take_while not_digit s)) as [|a r] eqn:E.
  - apply (f_equal length) in E. rewrite length_drop in E. simpl in E. lia.
  - simpl.
    assert (Ha : not_digit a = true).
    { pose proof (forallb_take_while not_digit s) as H.
      rewrite forallb_forall in H. apply H.
      rewrite <- (take_drop i (take_while not_digit s)), E.
      apply in_or_app. right. left. reflexivity. }
    unfold not_digit in Ha. apply negb_true_iff in Ha. rewrite Ha. reflexivity.
Qed.

(** The seed is the first maximal run of digits. *)
Lemma extractSeed_run (team : str) :
  extractSeed (Some team)
  = match take_while is_digit (drop_while not_digit team) with
    | [] => None
    | ds => Some ds
    end.
Proof.
  unfold extractSeed. destruct team as [|a0 team0]; [reflexivity|].
  cbn [truthy negb]. set (t := a0 :: team0).
  unfold exec. rewrite <- (take_drop_while not_digit t) at 1.
  rewrite search_skip.
  - set (pre := take_while not_digit t). set (rest := drop_while not_digit t).
    destruct (take_while is_digit rest) as [|d ds] eqn:E.
    + assert (Hr : rest = []).
      { pose proof (drop_while_stops not_digit t) as H. fold rest in H.
        destruct rest as [|a r]; [reflexivity|].
        simpl in E. unfold not_digit in H. apply negb_false_iff in H.
        rewrite H in E. discriminate. }
      rewrite Hr. cbn [search]. rewrite seedRe_run. reflexivity.
    + assert (Hrun : run seedRe (0 + length pre) rest no_captures
                     = Some (0 + length pre + length (d :: ds),
                             close_group 1 (0 + length pre + length (d :: ds))
                               (open_group 1 (0 + length pre) no_captures)))
        by (rewrite seedRe_run, E; reflexivity).
      rewrite (search_here _ _ _ _ _ Hrun).
      cbn [mbind option_bind]. unfold group. cbn [caps subject].
      rewrite close_open. cbn [groups]. rewrite lookup_insert_eq.
      cbn [fmap option_fmap option_map fst snd]. f_equal.
      apply (substring_mid _ pre (d :: ds) (drop_while is_digit rest)).
      * fold t. rewrite <- (take_drop_while not_digit t) at 1. fold pre rest.
        rewrite <- E, take_drop_while. reflexivity.
      * simpl. lia.
      * reflexivity.
  - intros i Hi. rewrite seedRe_run, take_while_not_digit_head by exact Hi.
    reflexivity.
Qed.

Lemma seed_of_cell (cell : option str) :
  default "" (extractSeed cell)
  = take_while is_digit (drop_while not_digit (default "" cell)).
Proof.
  destruct cell as [t|]; [|reflexivity].
  change (default "" (Some t)) with t. rewrite extractSeed_run.
  destruct (take_while is_digit (drop_while not_digit t)); reflexivity.
Qed.

Lemma team_of_cell (cell : option str) :
  stripSeed cell = trim (List.filter not_digit (default "" cell)).
Proof. destruct cell as [t|]; [apply stripSeed_filter|reflexivity]. Qed.

End Ratings.

(** The ratings table.  Every row returned comes from a row of the first
    table read with the 21 rating columns, whose rank cell is neither the
    header text [Rk] nor empty; its team is the team cell without digits
    and surrounding white space, its seed is the first maximal run of digits
    of the team cell (empty when the cell has no digit or is missing), and
    every other column is the one of the row read. *)
Theorem ratings_rows (doc : Dom.node) (rows : list TableRow) :
  parsePomeroyRatings doc = Ok rows ->
  forall r, r ∈ rows ->
    exists (r0 : TableRow) (rk : str),
      r0 ∈ extractRows (Dom.eq (Dom.find ["table"] [doc]) 0) pomeroyColumns
      /\ r0 !! "Rk" = Some rk /\ rk <> "Rk" /\ rk <> ""
      /\ r !! "Rk" = Some rk
      /\ r !! "Team" = Some (trim (List.filter not_digit (default "" (r0 !! "Team"))))
      /\ r !! "Seed"
         = Some (take_while is_digit (drop_while not_digit (default "" (r0 !! "Team"))))
      /\ (exists team, r !! "Team" = Some team /\ clean team)
      /\ (exists seed, r !! "Seed" = Some seed /\ (seed = "" \/ digits seed = true))
      /\ (forall k, k <> "Team" -> k <> "Seed" -> r !! k = r0 !! k).
Proof.
  unfold parsePomeroyRatings. intros H r Hr.
  destruct (getTable doc 0) as [table|e] eqn:Et; [|discriminate].
  apply getTable_Ok in Et as [-> _]. injection H as <-.
  apply list_elem_of_fmap in Hr as (r0 & -> & Hr0).
  apply list_elem_of_filter in Hr0 as [[H1 H2] Hr0].
  destruct (extractRows_first _ "Rk" _ r0 ltac:(discriminate) Hr0) as [rk Hrk].
  exists r0, rk. unfold pomeroyRow.
  rewrite seed_of_cell, team_of_cell.
  rewrite Hrk in H1, H2.
  split; [exact Hr0|]. split; [exact Hrk|].
  split; [congruence|]. split; [congruence|].
  split; [rewrite !lookup_insert_ne by discriminate; exact Hrk|].
  split; [rewrite lookup_insert_ne by discriminate; apply lookup_insert_eq|].
  split; [apply lookup_insert_eq|].
  split; [|split].
  - eexists. split; [rewrite lookup_insert_ne by discriminate; apply lookup_insert_eq|].
    rewrite <- team_of_cell. apply stripSeed_clean.
  - eexists. split; [apply lookup_insert_eq|].
    destruct (take_while is_digit _) as [|d ds] eqn:E; [left; reflexivity|right].
    apply digits_spec. split; [discriminate|].
    rewrite <- E. apply forallb_take_while.
  - intros k Hk1 Hk2. rewrite !lookup_insert_ne by congruence. reflexivity.
Qed.

Lemma ratings_rows_witness :
  exists seed : str,
    (<["Seed" := "1"]> (<["Team" := "Duke"]> (<["Rk" := "1"]> ∅)) : TableRow) !! "Seed"
    = Some seed
    /\ (seed = "" \/ digits seed = true).
Proof.
  assert (H : parsePomeroyRatings
                (Dom.Elem 0 "body" [Dom.Elem 1 "table"
                   [Dom.Elem 2 "tbody"
                      [Dom.Elem 3 "tr" [Dom.Elem 4 "td" [Dom.Text "Rk"];
                                        Dom.Elem 5 "td" [Dom.Text "Team"]];
                       Dom.Elem 6 "tr" [Dom.Elem 7 "td" [Dom.Text "1"];
                                        Dom.Elem 8 "td" [Dom.Text "Duke 1"]]]]])
              = Ok [<["Seed" := "1"]> (<["Team" := "Duke"]> (<["Rk" := "1"]> ∅))])
    by by_compute.
  destruct (ratings_rows _ _ H _ ltac:(apply list_elem_of_here))
    as (_ & _ & _ & _ & _ & _ & _ & _ & _ & _ & Hs & _).
  exact Hs.
Defined.

(** ** Cells with a part in parentheses: arenas and game locations *)

Section MatcherMore.

(** A lazy quantifier stops at the first length the continuation accepts. *)
Lemma rep_lazy_first {R} c (k : nat -> str -> option R) t :
  forall lo pos s' r,
    forallb (cmatch c) t = true -> lo <= length t ->
    (forall j, lo <= j -> j < length t -> k (pos + j) (drop j t ++ s') = None) ->
    k (pos + length t) s' = Some r ->
    rep c false k lo None pos (t ++ s') = Some r.
Proof.
  induction t as [|a t IH]; intros lo pos s' r Hall Hlo Hnone Hk.
  - simpl in *. rewrite Nat.add_0_r in Hk.
    assert (lo = 0) as -> by lia.
    destruct s' as [|b s']; simpl; rewrite Hk; reflexivity.
  - simpl in Hall. apply andb_true_iff in Hall as [Ha Hall].
    cbn [app rep]. rewrite Ha. cbn [may_repeat andb fmap option_fmap option_map].
    assert (Hfirst : match lo with 0 => k pos (a :: t ++ s') | S _ => None end = None).
    { destruct lo; [|reflexivity].
      specialize (Hnone 0 ltac:(lia) ltac:(simpl; lia)).
      rewrite Nat.add_0_r in Hnone. exact Hnone. }
    rewrite Hfirst. apply IH.
    + exact Hall.
    + simpl in Hlo. lia.
    + intros j Hj1 Hj2. specialize (Hnone (S j) ltac:(lia) ltac:(simpl; lia)).
      replace (S pos + j) with (pos + S j) by lia. exact Hnone.
    + replace (S pos + length t) with (pos + length (a :: t)) by (simpl; lia).
      exact Hk.
Qed.

(** A greedy quantifier gives back its last character when the
    continuation needs it. *)
Lemma rep_greedy_last {R} c (k : nat -> str -> option R) t z :
  forall lo pos r,
    forallb (cmatch c) t = true -> lo <= length t ->
    k (pos + length t + 1) [] = None ->
    k (pos + length t) [z] = Some r ->
    rep c true k lo None pos (t ++ [z]) = Some r.
Proof.
  induction t as [|a t IH]; intros lo pos r Hall Hlo Hnone Hk.
  - simpl in *. rewrite Nat.add_0_r in Hk, Hnone.
    assert (lo = 0) as -> by lia. cbn [pred].
    replace (pos + 1) with (S pos) in Hnone by lia.
    destruct (cmatch c z); cbn [andb]; [rewrite Hnone|]; exact Hk.
  - simpl in Hall. apply andb_true_iff in Hall as [Ha Hall].
    cbn [app rep]. rewrite Ha. cbn [may_repeat andb fmap option_fmap option_map].
    rewrite (IH (pred lo) (S pos) r); [reflexivity|exact Hall|simpl in Hlo; lia| |].
    + replace (S pos + length t + 1) with (pos + length (a :: t) + 1) by (simpl; lia).
      exact Hnone.
    + replace (S pos + length t) with (pos + length (a :: t)) by (simpl; lia).
      exact Hk.
Qed.

(** A pattern anchored at the start matches at offset 0 or not at all. *)
Lemma search_Bos_later p s : forall pos, search (Bos :: p) (S pos) s = None.
Proof.
  induction s as [|a s IH]; intros pos; cbn [search run Nat.eqb]; [reflexivity|].
  apply IH.
Qed.

Lemma search_Bos p s :
  search (Bos :: p) 0 s
  = match run p 0 s no_captures with
    | Some (e, st) => Some (0, e, st)
    | None => None
    end.
Proof.
  destruct s as [|a s]; cbn [search run Nat.eqb];
    destruct (run p 0 _ no_captures) as [[e st]|]; try reflexivity.
  apply search_Bos_later.
Qed.

(** The first and the last occurrence of a character are unique. *)
Lemma app_first_unique {A} (c : A) (a b t u : list A) :
  a ++ c :: t = b ++ c :: u -> c ∉ a -> c ∉ b -> a = b /\ t = u.
Proof.
  revert b. induction a as [|x a IH]; intros [|y b] E Ha Hb; simpl in E.
  - injection E as ->. auto.
  - injection E as <- _. exfalso. apply Hb. left.
  - injection E as -> _. exfalso. apply Ha. left.
  - injection E as -> E. apply not_elem_of_cons in Ha as [_ Ha].
    apply not_elem_of_cons in Hb as [_ Hb].
    destruct (IH b E Ha Hb) as [-> ->]. auto.
Qed.

Lemma app_last_unique {A} (c : A) (a b t u : list A) :
  a ++ c :: t = b ++ c :: u -> c ∉ t -> c ∉ u -> a = b /\ t = u.
Proof.
  intros E Ht Hu. apply (f_equal (@rev A)) in E.
  rewrite !rev_app_distr in E. simpl in E. rewrite <- !app_assoc in E. simpl in E.
  apply app_first_unique in E as [E1 E2].
  - apply (f_equal (@rev A)) in E1, E2. rewrite !rev_involutive in E1, E2. auto.
  - intros Hin. apply Ht, list_elem_of_In, in_rev, list_elem_of_In. exact Hin.
  - intros Hin. apply Hu, list_elem_of_In, in_rev, list_elem_of_In. exact Hin.
Qed.

Lemma forallb_not_elem (f : ascii -> bool) (s : str) c :
  forallb f s = true -> f c = false -> c ∉ s.
Proof.
  intros Hall Hc Hin. rewrite forallb_forall in Hall.
  apply list_elem_of_In in Hin. rewrite (Hall c Hin) in Hc. discriminate.
Qed.

Lemma includes_char (c : ascii) (s : str) : includes [c] s = false <-> c ∉ s.
Proof.
  induction s as [|a s IH]; simpl.
  - rewrite elem_of_nil. tauto.
  - rewrite not_elem_of_cons, <- IH. rewrite andb_true_r.
    destruct (Ascii.eqb c a) eqn:E; simpl.
    + apply Ascii.eqb_eq in E. split; [discriminate|]. intros [H _]. congruence.
    + apply Ascii.eqb_neq in E. tauto.
Qed.

End MatcherMore.

Section Parens.

(** The part of both patterns after the lazy group. *)
Variable inner : cclass.

Lemma paren_tail_shape pos s st r :
  run [Close 1; star Space; One (Lit "("); Open 2; plus inner; Close 2;
       One (Lit ")"); Eos] pos s st = Some r ->
  exists ws g,
    s = ws ++ "(" ++ g ++ ")" /\ forallb is_space ws = true
    /\ forallb (cmatch inner) g = true /\ g <> []
    /\ r = (pos + length s,
            close_group 2 (pos + length ws + 1 + length g)
              (open_group 2 (pos + length ws + 1) (close_group 1 pos st))).
Proof.
  intros H. run_inv H. exists t, t0.
  split; [reflexivity|]. split; [exact Hall|]. split; [exact Hall0|].
  split; [destruct t0; [simpl in Hlo0; lia|discriminate]|].
  rewrite H. f_equal; [rewrite !length_app; simpl; rewrite ?length_app; simpl; lia|].
  f_equal; [lia|]. f_equal. lia.
Qed.

(** The tail does not match from inside a name that ends with a character
    other than white space, when the parenthesis that follows is the last
    one of the cell. *)
Lemma paren_tail_fails body z ws g j pos st :
  is_space z = false -> forallb is_space ws = true ->
  (inner = Digit /\ "("%char ∉ g) \/ "("%char ∉ body ++ [z] ->
  j <= length body ->
  run [Close 1; star Space; One (Lit "("); Open 2; plus inner; Close 2;
       One (Lit ")"); Eos] pos (drop j (body ++ [z]) ++ ws ++ "(" ++ g ++ ")") st = None.
Proof.
  intros Hz Hws Hcase Hj.
  destruct (run _ pos _ st) as [r|] eqn:H; [exfalso|reflexivity].
  apply paren_tail_shape in H as (ws' & g' & Heq & Hws' & Hg' & _ & _).
  rewrite drop_app_le in Heq by exact Hj.
  set (y := drop j body) in Heq.
  assert (Hsp : forall x : str, forallb is_space x = true -> "("%char ∉ x).
  { intros x Hx. apply (forallb_not_elem _ _ _ Hx). reflexivity. }
  assert (E : (y ++ [z]) ++ ws = ws').
  { destruct Hcase as [[-> Hg]|Hbody].
    - assert (E : ((y ++ [z]) ++ ws) ++ "("%char :: (g ++ ")")
                  = ws' ++ "("%char :: (g' ++ ")")).
      { rewrite <- !app_assoc. rewrite <- !app_assoc in Heq. exact Heq. }
      apply app_last_unique in E as [E _]; [exact E| |].
      + rewrite elem_of_app, list_elem_of_singleton. intros [?|?]; [tauto|discriminate].
      + rewrite elem_of_app, list_elem_of_singleton. intros [Hin|?]; [|discriminate].
        revert Hin. apply (forallb_not_elem _ _ _ Hg'). reflexivity.
    - assert (E : ((y ++ [z]) ++ ws) ++ "("%char :: (g ++ ")")
                  = ws' ++ "("%char :: (g' ++ ")")).
      { rewrite <- !app_assoc. rewrite <- !app_assoc in Heq. exact Heq. }
      apply app_first_unique in E as [E _]; [exact E| |apply Hsp; exact Hws'].
      rewrite elem_of_app. intros [Hin|Hin]; [|revert Hin; apply Hsp; exact Hws].
      apply Hbody. rewrite <- (take_drop j body), <- app_assoc.
      apply elem_of_app. right. exact Hin. }
  rewrite <- E, !forallb_app in Hws'.
  apply andb_true_iff in Hws' as [Hws' _]. apply andb_true_iff in Hws' as [_ Hws'].
  simpl in Hws'. rewrite Hz in Hws'. discriminate.
Qed.

End Parens.

Section Arenas.

Lemma digit_is_any c : is_digit c = true -> cmatch AnyChar c = true.
Proof.
  unfold is_digit, cmatch, is_line_terminator. intros H.
  apply andb_true_iff in H as [H1 H2].
  apply Nat.leb_le in H1. apply negb_true_iff, orb_false_iff.
  split; apply Nat.eqb_neq; lia.
Qed.

(** The pattern of an arena cell on a name followed by a capacity. *)
Lemma arenaRe_match (body : str) z (ws d : str) :
  forallb (cmatch AnyChar) (body ++ [z]) = true -> is_space z = false ->
  forallb is_space ws = true -> digits d = true ->
  exists m,
    exec arenaRe ((body ++ [z]) ++ ws ++ "(" ++ d ++ ")") = Some m
    /\ group m 1 = Some (body ++ [z])
    /\ group m 2 = Some d.
Proof.
  intros Hany Hz Hws Hd. apply digits_spec in Hd as [Hne Hd].
  set (name := body ++ [z]). set (s := name ++ ws ++ "(" ++ d ++ ")").
  assert (Hpar : "("%char ∉ d) by (apply (forallb_not_elem _ _ _ Hd); reflexivity).
  assert (Hrun : run [Open 1; lazy_plus AnyChar; Close 1; star Space; One (Lit "(");
                      Open 2; plus Digit; Close 2; One (Lit ")"); Eos] 0 s no_captures
                 = Some (length s,
                         close_group 2 (length name + length ws + 1 + length d)
                           (open_group 2 (length name + length ws + 1)
                              (close_group 1 (length name)
                                 (open_group 1 0 no_captures))))).
  { unfold lazy_plus. cbn [run]. unfold s.
    apply rep_lazy_first.
    - exact Hany.
    - unfold name. rewrite length_app. simpl. lia.
    - intros j Hj1 Hj2. unfold name in *. rewrite length_app in Hj2. simpl in Hj2.
      apply (paren_tail_fails Digit); auto; lia.
    - unfold star at 1. cbn [run].
      erewrite (rep_greedy_run Space _ ws 0 _ ("(" ++ d ++ ")"));
        [reflexivity|exact Hws|reflexivity|lia|].
      cbn [app run cmatch]. rewrite Ascii.eqb_refl. unfold plus. cbn [run].
      erewrite (rep_greedy_run Digit _ d 1 _ ")");
        [reflexivity|exact Hd|reflexivity|destruct d; [congruence|simpl; lia]|].
      cbn [run cmatch]. rewrite Ascii.eqb_refl.
      f_equal. f_equal; [rewrite !length_app; simpl; rewrite length_app; simpl; lia|].
      f_equal; [lia|]. f_equal. lia. }
  unfold exec, arenaRe. rewrite search_Bos, Hrun, !close_open.
  eexists. split; [reflexivity|]. split.
  - group_eq (@nil ascii) name.
  - unfold s. group_eq (name ++ ws ++ "(") d.
Qed.

Lemma lazy_group_shape (p : list item) s m :
  exec (Bos :: Open 1 :: lazy_plus AnyChar :: p) s = Some m ->
  exists name rest r,
    s = name ++ rest /\ name <> [] /\ forallb (cmatch AnyChar) name = true
    /\ run p (length name) rest (open_group 1 0 no_captures) = Some r
    /\ m = Match s 0 r.1 r.2.
Proof.
  unfold exec. rewrite search_Bos.
  destruct (run _ 0 s no_captures) as [[e st]|] eqn:H; [|discriminate].
  intros [= <-]. unfold lazy_plus in H. cbn [run] in H.
  apply rep_inv in H as (name & rest & -> & Hall & Hlo & _ & H).
  exists name, rest, (e, st). repeat split; auto.
  destruct name; [simpl in Hlo; lia|discriminate].
Qed.

(** What the pattern of an arena cell matches. *)
Lemma arenaRe_shape s m :
  exec arenaRe s = Some m ->
  exists name ws d,
    s = name ++ ws ++ "(" ++ d ++ ")" /\ name <> []
    /\ forallb is_space ws = true /\ digits d = true
    /\ group m 1 = Some name /\ group m 2 = Some d.
Proof.
  intros H. apply lazy_group_shape in H as (name & rest & r & -> & Hne & _ & H & ->).
  apply paren_tail_shape in H as (ws & d & -> & Hws & Hd & Hdne & ->).
  exists name, ws, d. repeat split; auto.
  - apply digits_spec. auto.
  - cbn [fst snd]. rewrite (close_open 2).
    unfold close_group. cbn [starts open_group]. rewrite lookup_insert_eq.
    group_eq (@nil ascii) name.
  - cbn [fst snd]. rewrite (close_open 2).
    group_eq (name ++ ws ++ "(") d.
Qed.

Lemma paren_tail_last (inner : cclass) pos s st r :
  run [Close 1; star Space; One (Lit "("); Open 2; plus inner; Close 2;
       One (Lit ")"); Eos] pos s st = Some r ->
  last s = Some ")"%char.
Proof.
  intros H. apply paren_tail_shape in H as (ws & g & -> & _).
  rewrite !app_assoc. apply last_snoc.
Qed.

Lemma last_app_r {A} (a b : list A) x : last b = Some x -> last (a ++ b) = Some x.
Proof.
  intros H. destruct b as [|y b _] using rev_ind; [discriminate|].
  rewrite last_snoc in H. rewrite app_assoc, last_snoc. exact H.
Qed.

(** Neither pattern matches a cell that does not end with a closing
    parenthesis. *)
Lemma paren_no_match (inner : cclass) s :
  last s <> Some ")"%char ->
  exec [Bos; Open 1; lazy_plus AnyChar; Close 1; star Space; One (Lit "(");
        Open 2; plus inner; Close 2; One (Lit ")"); Eos] s = None.
Proof.
  intros Hlast.
  destruct (exec _ s) as [m|] eqn:H; [exfalso|reflexivity].
  apply lazy_group_shape in H as (name & rest & r & -> & _ & _ & H & _).
  apply paren_tail_last in H. apply Hlast. apply last_app_r. exact H.
Qed.

(** The pattern of a location cell on a place followed by an arena. *)
Lemma locRe_match (body : str) z (ws a : str) :
  forallb (cmatch AnyChar) (body ++ [z]) = true -> is_space z = false ->
  "("%char ∉ body ++ [z] ->
  forallb is_space ws = true -> forallb (cmatch AnyChar) a = true -> a <> [] ->
  exists m,
    exec locRe ((body ++ [z]) ++ ws ++ "(" ++ a ++ ")") = Some m
    /\ group m 1 = Some (body ++ [z])
    /\ group m 2 = Some a.
Proof.
  intros Hany Hz Hpar Hws Ha Hne.
  set (name := body ++ [z]). set (s := name ++ ws ++ "(" ++ a ++ ")").
  assert (Hrun : run [Open 1; lazy_plus AnyChar; Close 1; star Space; One (Lit "(");
                      Open 2; plus AnyChar; Close 2; One (Lit ")"); Eos] 0 s no_captures
                 = Some (length s,
                         close_group 2 (length name + length ws + 1 + length a)
                           (open_group 2 (length name + length ws + 1)
                              (close_group 1 (length name)
                                 (open_group 1 0 no_captures))))).
  { unfold lazy_plus. cbn [run]. unfold s.
    apply rep_lazy_first.
    - exact Hany.
    - unfold name. rewrite length_app. simpl. lia.
    - intros j Hj1 Hj2. unfold name in *. rewrite length_app in Hj2. simpl in Hj2.
      apply (paren_tail_fails AnyChar); auto; lia.
    - unfold star at 1. cbn [run].
      erewrite (rep_greedy_run Space _ ws 0 _ ("(" ++ a ++ ")"));
        [reflexivity|exact Hws|reflexivity|lia|].
      cbn [app run cmatch]. rewrite Ascii.eqb_refl. unfold plus. cbn [run].
      erewrite (rep_greedy_last AnyChar _ a ")" 1);
        [reflexivity|exact Ha|destruct a; [congruence|simpl; lia]|reflexivity|].
      cbn [run cmatch]. rewrite Ascii.eqb_refl.
      f_equal. f_equal; [rewrite !length_app; simpl; rewrite length_app; simpl; lia|].
      f_equal; [lia|]. f_equal. lia. }
  unfold exec, locRe. rewrite search_Bos, Hrun, !close_open.
  eexists. split; [reflexivity|]. split.
  - group_eq (@nil ascii) name.
  - unfold s. group_eq (name ++ ws ++ "(") a.
Qed.

(** Removing a closing parenthesis at the end. *)
Lemma search_closeParen s :
  forall pos,
    search closeParenRe pos s
    = if bool_decide (last s = Some ")"%char)
      then Some (pos + length s - 1, pos + length s, no_captures)
      else None.
Proof.
  induction s as [|a s IH]; intros pos; [reflexivity|].
  cbn [search]. unfold closeParenRe at 1. cbn [run cmatch].
  destruct s as [|b s].
  - destruct (Ascii.eqb ")" a) eqn:E.
    + apply Ascii.eqb_eq in E. subst a. cbn. repeat f_equal; lia.
    + apply Ascii.eqb_neq in E. rewrite bool_decide_eq_false_2; [reflexivity|].
      simpl. congruence.
  - assert (Hnone : (if Ascii.eqb ")" a
                     then match b :: s with
                          | [] => run [] (S pos) [] no_captures
                          | _ :: _ => None
                          end
                     else None) = (None : option (nat * captures)))
      by (destruct (Ascii.eqb ")" a); reflexivity).
    cbn [run] in Hnone |- *. rewrite Hnone, IH.
    change (last (a :: b :: s)) with (last (b :: s)).
    destruct (bool_decide _); [|reflexivity].
    simpl. f_equal. f_equal. f_equal; lia.
Qed.

Lemma replace_closeParen s :
  replace closeParenRe "" s
  = if bool_decide (last s = Some ")"%char) then removelast s else s.
Proof.
  unfold replace. rewrite search_closeParen.
  destruct (bool_decide _) eqn:E; [|reflexivity].
  apply bool_decide_eq_true in E.
  destruct s as [|c s _] using rev_ind; [discriminate|].
  rewrite removelast_last, length_app. simpl.
  replace (length s + 1 - 1) with (length s) by lia.
  replace (length s + 1) with (length (s ++ [c])) by (rewrite length_app; reflexivity).
  rewrite take_app_length, drop_all. apply app_nil_r.
Qed.

Lemma nameOr_match (m : match_result) (g : str) fallback :
  group m 1 = Some g -> g <> [] -> nameOr (Some m) fallback = trim g.
Proof.
  intros Hg Hne. unfold nameOr. cbn [mbind option_bind]. rewrite Hg.
  destruct g; [congruence|reflexivity].
Qed.

Lemma refRow_keys (row : TableRow) :
  has_keys ["Rank"; "Name"; "Rating"; "Games"; "Last Game"; "Game Score"] (refRow row).
Proof.
  intros k. unfold refRow.
  repeat rewrite lookup_insert_is_Some'. rewrite !elem_of_cons, elem_of_nil.
  pose proof (lookup_empty_is_Some (M := gmap str) (A := str) k) as Hempty.
  split; intros Hk; repeat (destruct Hk as [Hk|Hk]; [subst; auto 12|]);
    contradiction.
Qed.

Lemma arenaRow_keys (row : TableRow) :
  has_keys ["Rank"; "Team"; "Conference"; "Arena"; "Arena.Capacity";
            "Alternate"; "Alternate.Capacity"] (arenaRow row).
Proof.
  intros k. unfold arenaRow. cbv zeta.
  repeat rewrite lookup_insert_is_Some'. rewrite !elem_of_cons, elem_of_nil.
  pose proof (lookup_empty_is_Some (M := gmap str) (A := str) k) as Hempty.
  split; intros Hk; repeat (destruct Hk as [Hk|Hk]; [subst; auto 12|]);
    contradiction.
Qed.

Lemma gameAttribRow_keys (row : TableRow) :
  has_keys ["Rank"; "Date"; "Game"; "Location"; "Arena"; "Conf.Matchup"; "Value"]
    (gameAttribRow row).
Proof.
  intros k. unfold gameAttribRow. cbv zeta.
  repeat rewrite lookup_insert_is_Some'. rewrite !elem_of_cons, elem_of_nil.
  pose proof (lookup_empty_is_Some (M := gmap str) (A := str) k) as Hempty.
  split; intros Hk; repeat (destruct Hk as [Hk|Hk]; [subst; auto 12|]);
    contradiction.
Qed.

End Arenas.

Section ParenRows.

Lemma arenaRow_lookup (row : TableRow) (field : str) :
  field = "Arena" \/ field = "Alternate" ->
  let cell := default "" (row !! field) in
  arenaRow row !! field = Some (nameOr (exec arenaRe cell) cell)
  /\ arenaRow row !! (field ++ ".Capacity")
     = Some (default "" (exec arenaRe cell ≫= fun m => group m 2)).
Proof.
  intros [-> | ->]; unfold arenaRow; cbv zeta; cbn [app]; split;
    rewrite ?lookup_insert_ne by discriminate; apply lookup_insert_eq.
Qed.

Lemma gameAttribRow_lookup (row : TableRow) :
  let cell := default "" (row !! "Location") in
  gameAttribRow row !! "Location" = Some (nameOr (exec locRe cell) cell)
  /\ gameAttribRow row !! "Arena"
     = Some (match exec locRe cell ≫= fun m => group m 2 with
             | Some g => if truthy g then replace closeParenRe "" g else ""
             | None => ""
             end).
Proof.
  unfold gameAttribRow; cbv zeta; split;
    rewrite ?lookup_insert_ne by discriminate; apply lookup_insert_eq.
Qed.

End ParenRows.

(** The arena cells.  A cell ["<name> (<digits>)"], whose name has no line
    break and does not end with white space, is split into the name, without
    the white space around it, and the capacity.  A cell that does not end
    with a closing parenthesis, an empty or a missing one included, is kept
    as the name with an empty capacity.  In every case the capacity is empty
    or a string of digits, and a row has exactly the seven keys of an arena
    record. *)
Theorem arena_capacity (row : TableRow) (field : str) :
  field = "Arena" \/ field = "Alternate" ->
  let cell := default "" (row !! field) in
  (forall (body : str) z (ws d : str),
     cell = (body ++ [z]) ++ ws ++ "(" ++ d ++ ")" ->
     forallb (fun c => negb (is_line_terminator c)) (body ++ [z]) = true ->
     is_space z = false -> forallb is_space ws = true -> digits d = true ->
     arenaRow row !! field = Some (trim (body ++ [z]))
     /\ arenaRow row !! (field ++ ".Capacity") = Some d)
  /\ (last cell <> Some ")"%char ->
      arenaRow row !! field = Some cell
      /\ arenaRow row !! (field ++ ".Capacity") = Some "")
  /\ (exists capacity,
        arenaRow row !! (field ++ ".Capacity") = Some capacity
        /\ (capacity = "" \/ digits capacity = true))
  /\ has_keys ["Rank"; "Team"; "Conference"; "Arena"; "Arena.Capacity";
               "Alternate"; "Alternate.Capacity"] (arenaRow row).
Proof.
  intros Hf cell. destruct (arenaRow_lookup row field Hf) as [Hname Hcap].
  fold cell in Hname, Hcap. rewrite Hname, Hcap.
  split; [|split; [|split; [|apply arenaRow_keys]]].
  - intros body z ws d Hcell Hany Hz Hws Hd.
    destruct (arenaRe_match body z ws d Hany Hz Hws Hd) as (m & Hm & H1 & H2).
    rewrite Hcell, Hm. cbn [mbind option_bind]. rewrite H2.
    rewrite (nameOr_match m (body ++ [z])); [auto|exact H1|].
    destruct body; discriminate.
  - intros Hlast. unfold arenaRe. rewrite (paren_no_match Digit) by exact Hlast.
    auto.
  - eexists. split; [reflexivity|].
    destruct (exec arenaRe cell) as [m|] eqn:Hm; [|left; reflexivity].
    apply arenaRe_shape in Hm as (name & ws & d & _ & _ & _ & Hd & _ & H2).
    cbn [mbind option_bind]. rewrite H2. right. exact Hd.
Qed.

Lemma arena_capacity_witness :
  arenaRow (<["Arena" := "Cameron Indoor Stadium (9314)"]> ∅) !! "Arena"
  = Some "Cameron Indoor Stadium"
  /\ arenaRow (<["Arena" := "Cameron Indoor Stadium (9314)"]> ∅) !! "Arena.Capacity"
     = Some "9314"
  /\ arenaRow (<["Arena" := "Cameron Indoor Stadium (9314)"]> ∅) !! "Alternate.Capacity"
     = Some "".
Proof.
  destruct (arena_capacity (<["Arena" := "Cameron Indoor Stadium (9314)"]> ∅) "Arena"
              (or_introl eq_refl)) as (H & _).
  destruct (H "Cameron Indoor Stadiu" "m"%char " " "9314"
              ltac:(vm_compute; reflexivity) eq_refl eq_refl eq_refl eq_refl)
    as [H1 H2].
  destruct (arena_capacity (<["Arena" := "Cameron Indoor Stadium (9314)"]> ∅) "Alternate"
              (or_intror eq_refl)) as (_ & H3 & _).
  destruct (H3 ltac:(vm_compute; discriminate)) as [_ H4].
  split; [exact H1|split; [exact H2|exact H4]].
Defined.

(** The location cell of a game.  A cell ["<place> (<arena>)"], whose place
    has no opening parenthesis and no line break and does not end with white
    space and whose arena is not empty and has no line break, is split into
    the place, without the white space around it, and the arena; an arena
    that itself ends with a closing parenthesis loses it.  A cell that does
    not end with a closing parenthesis is kept as the location with an empty
    arena.  A row has exactly the seven keys of a game record: the box score
    column is dropped and the arena is added. *)
Theorem game_location (row : TableRow) :
  let cell := default "" (row !! "Location") in
  (forall (body : str) z (ws a : str),
     cell = (body ++ [z]) ++ ws ++ "(" ++ a ++ ")" ->
     forallb (fun c => negb (is_line_terminator c)) (body ++ [z]) = true ->
     is_space z = false -> "("%char ∉ body ++ [z] ->
     forallb is_space ws = true ->
     forallb (fun c => negb (is_line_terminator c)) a = true -> a <> [] ->
     gameAttribRow row !! "Location" = Some (trim (body ++ [z]))
     /\ gameAttribRow row !! "Arena"
        = Some (if bool_decide (last a = Some ")"%char) then removelast a else a))
  /\ (last cell <> Some ")"%char ->
      gameAttribRow row !! "Location" = Some cell
      /\ gameAttribRow row !! "Arena" = Some "")
  /\ has_keys ["Rank"; "Date"; "Game"; "Location"; "Arena"; "Conf.Matchup"; "Value"]
       (gameAttribRow row)
  /\ gameAttribRow row !! "Box" = None.
Proof.
  intros cell. destruct (gameAttribRow_lookup row) as [Hloc Har].
  fold cell in Hloc, Har. rewrite Hloc, Har.
  split; [|split; [|split; [apply gameAttribRow_keys|]]].
  - intros body z ws a Hcell Hany Hz Hpar Hws Ha Hne.
    destruct (locRe_match body z ws a Hany Hz Hpar Hws Ha Hne) as (m & Hm & H1 & H2).
    rewrite Hcell, Hm. cbn [mbind option_bind]. rewrite H2.
    rewrite (nameOr_match m (body ++ [z])); [|exact H1|destruct body; discriminate].
    split; [reflexivity|]. rewrite replace_closeParen.
    destruct a; [congruence|reflexivity].
  - intros Hlast. unfold locRe. rewrite (paren_no_match AnyChar) by exact Hlast.
    auto.
  - destruct (gameAttribRow row !! "Box") eqn:E; [|reflexivity].
    assert (Hk : is_Some (gameAttribRow row !! "Box")) by eauto.
    apply gameAttribRow_keys in Hk. exfalso. revert Hk.
    rewrite !elem_of_cons, elem_of_nil. intros Hk.
    repeat (destruct Hk as [Hk|Hk]; [discriminate|]). exact Hk.
Qed.

Lemma game_location_witness :
  gameAttribRow (<["Location" := "Durham (Cameron Indoor)"]> ∅) !! "Location"
  = Some "Durham"
  /\ gameAttribRow (<["Location" := "Durham (Cameron Indoor)"]> ∅) !! "Arena"
     = Some "Cameron Indoor".
Proof.
  destruct (game_location (<["Location" := "Durham (Cameron Indoor)"]> ∅)) as (H & _).
  apply (H "Durha" "m"%char " " "Cameron Indoor"
           ltac:(vm_compute; reflexivity) eq_refl eq_refl).
  - apply (bool_decide_unpack _). vm_compute. exact I.
  - reflexivity.
  - reflexivity.
  - discriminate.
Defined.

(** ** Listings: referees, arenas, games, home courts, programs *)

Section Listings.

Lemma filtered_first (table : list Dom.node) (c0 : str) (columns : list str)
    (P : TableRow -> Prop) `{!forall r, Decision (P r)} (r0 : TableRow) :
  c0 <> "__proto__" ->
  r0 ∈ filter P (extractRows table (c0 :: columns)) ->
  P r0 /\ (exists v, r0 !! c0 = Some v) /\ keys_within (c0 :: columns) r0.
Proof.
  intros Hc0 Hin. apply list_elem_of_filter in Hin as [HP Hin].
  split; [exact HP|]. split.
  - apply (extractRows_first _ _ _ _ Hc0 Hin).
  - apply (extractRows_keys _ _ _ Hin).
Qed.

Lemma default_ne (v : option str) (x : str) :
  x <> "" -> v <> Some x -> default "" v <> x.
Proof. destruct v; simpl; congruence. Qed.

End Listings.

(** The listings.  Header rows repeated in the body and rows without a rank
    (without a team, for the home courts) never reach the result.  A referee,
    an arena and a game have exactly the keys of their record, whatever the
    number of cells of the row, so the box score column never shows; the rows
    of the home courts and of the programs keep the cells they have, under
    names of the column list. *)
Theorem listing_rows (doc : Dom.node) (rows : list TableRow) (r : TableRow) :
  r ∈ rows ->
  (parseRefs doc = Ok rows ->
     has_keys ["Rank"; "Name"; "Rating"; "Games"; "Last Game"; "Game Score"] r
     /\ (exists rank, r !! "Rank" = Some rank /\ rank <> "")
     /\ r !! "Rating" <> Some "Rating")
  /\ (parseArenas doc = Ok rows ->
      has_keys ["Rank"; "Team"; "Conference"; "Arena"; "Arena.Capacity";
                "Alternate"; "Alternate.Capacity"] r
      /\ (exists rank, r !! "Rank" = Some rank /\ rank <> "")
      /\ r !! "Team" <> Some "Team")
  /\ (parseGameAttribs doc = Ok rows ->
      has_keys ["Rank"; "Date"; "Game"; "Location"; "Arena"; "Conf.Matchup"; "Value"] r
      /\ (exists rank, r !! "Rank" = Some rank /\ rank <> "" /\ rank <> "Rank"))
  /\ (parseHca doc = Ok rows ->
      keys_within hcaColumns r
      /\ (exists team, r !! "Team" = Some team /\ team <> "" /\ team <> "Team"))
  /\ (parseProgramRatings doc = Ok rows ->
      keys_within programRatingsColumns r
      /\ (exists rank, r !! "Rank" = Some rank /\ rank <> "")
      /\ r !! "Team" <> Some "Team").
Proof.
  intros Hr.
  unfold parseRefs, parseArenas, parseGameAttribs, parseHca, parseProgramRatings.
  destruct (getTable doc 0) as [table|e]; [|repeat split; discriminate].
  cbv zeta. split; [|split; [|split; [|split]]]; intros [= <-].
  - apply list_elem_of_fmap in Hr as (r0 & -> & Hr0).
    apply filtered_first in Hr0 as ([H1 H2] & [rank Hrank] & _); [|discriminate].
    assert (HR : refRow r0 !! "Rank" = Some (default "" (r0 !! "Rank")))
      by (unfold refRow; rewrite !lookup_insert_ne by discriminate;
          apply lookup_insert_eq).
    assert (HT : refRow r0 !! "Rating" = Some (default "" (r0 !! "Rating")))
      by (unfold refRow; rewrite !lookup_insert_ne by discriminate;
          apply lookup_insert_eq).
    rewrite HR, HT, Hrank. split; [apply refRow_keys|].
    split; [exists rank; split; [reflexivity|congruence]|].
    intros [= E]. revert E. apply default_ne; [discriminate|exact H1].
  - apply list_elem_of_fmap in Hr as (r0 & -> & Hr0).
    apply filtered_first in Hr0 as ([H1 H2] & [rank Hrank] & _); [|discriminate].
    assert (HR : arenaRow r0 !! "Rank" = Some (default "" (r0 !! "Rank")))
      by (unfold arenaRow; cbv zeta; rewrite !lookup_insert_ne by discriminate;
          apply lookup_insert_eq).
    assert (HT : arenaRow r0 !! "Team" = Some (default "" (r0 !! "Team")))
      by (unfold arenaRow; cbv zeta; rewrite !lookup_insert_ne by discriminate;
          apply lookup_insert_eq).
    rewrite HR, HT, Hrank. split; [apply arenaRow_keys|].
    split; [exists rank; split; [reflexivity|congruence]|].
    intros [= E]. revert E. apply default_ne; [discriminate|exact H1].
  - apply list_elem_of_fmap in Hr as (r0 & -> & Hr0).
    apply filtered_first in Hr0 as ([H1 H2] & [rank Hrank] & _); [|discriminate].
    assert (HR : gameAttribRow r0 !! "Rank" = Some (default "" (r0 !! "Rank")))
      by (unfold gameAttribRow; cbv zeta; rewrite !lookup_insert_ne by discriminate;
          apply lookup_insert_eq).
    rewrite HR, Hrank. split; [apply gameAttribRow_keys|].
    exists rank. repeat split; congruence.
  - apply filtered_first in Hr as ([H1 H2] & [team Hteam] & Hk); [|discriminate].
    split; [exact Hk|]. exists team. repeat split; congruence.
  - apply filtered_first in Hr as ([H1 H2] & [rank Hrank] & Hk); [|discriminate].
    split; [exact Hk|]. split; [|exact H1]. exists rank. split; congruence.
Qed.

Lemma listing_rows_witness :
  exists rank : str,
    refRow (<["Box" := "box"]> (<["Rank" := "1"]> ∅)) !! "Rank" = Some rank /\ rank <> "".
Proof.
  assert (H : parseRefs
                (Dom.Elem 0 "body" [Dom.Elem 1 "table"
                   [Dom.Elem 2 "tr" [Dom.Elem 3 "th" [Dom.Text "Rank"]];
                    Dom.Elem 4 "tr" [Dom.Elem 5 "td" [Dom.Text "1"];
                                     Dom.Elem 6 "td" []; Dom.Elem 7 "td" [];
                                     Dom.Elem 8 "td" []; Dom.Elem 9 "td" [];
                                     Dom.Elem 10 "td" [];
                                     Dom.Elem 11 "td" [Dom.Text "box"]]]])
              = Ok [refRow (<["Box" := "box"]> (<["Rank" := "1"]> ∅))])
    by by_compute.
  match type of H with
  | parseRefs ?d = Ok [?r] =>
      destruct (listing_rows d [r] r ltac:(apply list_elem_of_here)) as (Href & _)
  end.
  destruct (Href H) as (_ & Hrank & _). exact Hrank.
Defined.

(** ** The predicted loser *)

Section PredictedLoser.

Lemma completed_plain
    (rank1 : str) (name1 : list str) (score1 : str)
    (rank2 : str) (name2 : list str) (score2 : str) :
  token rank1 = true -> Forall (fun t => token t = true) name1 -> name1 <> [] ->
  digits score1 = true ->
  token rank2 = true -> Forall (fun t => token t = true) name2 -> name2 <> [] ->
  digits score2 = true ->
  includes ", " (side rank1 name1 score1) = false ->
  includes ", " (side rank2 name2 score2) = false ->
  let r := parseGameResult
             (Some (side rank1 name1 score1 ++ ", " ++ side rank2 name2 score2)) in
  isCompleted r = true
  /\ Winner r = Some (join " " name1) /\ Loser r = Some (join " " name2).
Proof.
  intros Hr1 Hn1 Hne1 Hs1 Hr2 Hn2 Hne2 Hs2 Hc1 Hc2 r. unfold r.
  rewrite (completed_game_core _ None rank1 name1 score1 rank2 name2 score2);
    try assumption; [auto| |].
  - destruct (side_nonempty rank1 name1 score1 Hr1) as (a & rest & ->). reflexivity.
  - destruct (digits_last _ Hs2) as (s2' & z & Es2 & Hz).
    destruct (side_ends_with_score rank2 name2 score2 z s2' Es2) as [x ->].
    rewrite !app_assoc. apply overtime_absent. intros ->. discriminate.
Qed.

End PredictedLoser.

(** The predicted loser of a game.  Without a predicted winner there is no
    predicted loser.  With one, and both teams read from the game string,
    the predicted loser is the second team when the predicted winner is the
    first, and the first team otherwise, also when the predicted winner is
    neither of the two.  For a game that is not completed and lacks a team
    there is none; for a completed game whose first team could not be read
    there is none either, whatever the second team.  The predicted winner is
    returned as the loser only when both teams carry its name. *)
Theorem predicted_loser (gameStr : str) (predictedWinner : option str) :
  let parsed := parseGameResult (Some gameStr) in
  let loser := parsePredictedLoser gameStr predictedWinner in
  (truthy_opt predictedWinner = false -> loser = None)
  /\ (truthy_opt predictedWinner = true ->
      (forall w l : str,
         Winner parsed = Some w -> Loser parsed = Some l -> w <> "" -> l <> "" ->
         loser = Some (if bool_decide (predictedWinner = Some w) then l else w))
      /\ (isCompleted parsed = false ->
          truthy_opt (Winner parsed) = false \/ truthy_opt (Loser parsed) = false ->
          loser = None)
      /\ (isCompleted parsed = true -> Winner parsed = None -> loser = None)
      /\ (loser = predictedWinner ->
          Winner parsed = predictedWinner /\ Loser parsed = predictedWinner)).
Proof.
  intros parsed loser. unfold loser, parsePredictedLoser. fold parsed.
  split; [intros ->; reflexivity|]. intros Hpw. rewrite Hpw. cbn [negb].
  split; [|split; [|split]].
  - intros w l Hw Hl Hwne Hlne. rewrite Hw, Hl.
    assert (Ht : truthy_opt (Some w) && truthy_opt (Some l) = true)
      by (destruct w, l; try congruence; reflexivity).
    rewrite Ht.
    destruct (bool_decide (predictedWinner = Some w)) eqn:E.
    + apply bool_decide_eq_true in E. subst predictedWinner.
      rewrite bool_decide_eq_false_2 by tauto. destruct (isCompleted parsed); reflexivity.
    + apply bool_decide_eq_false in E.
      rewrite bool_decide_eq_true_2 by congruence. destruct (isCompleted parsed); reflexivity.
  - intros -> [H|H]; rewrite H; [reflexivity|rewrite andb_false_r; reflexivity].
  - intros -> ->. destruct predictedWinner; [|discriminate].
    rewrite bool_decide_eq_true_2 by discriminate. reflexivity.
  - intros H.
    destruct (isCompleted parsed);
      [|destruct (truthy_opt (Winner parsed) && truthy_opt (Loser parsed));
        [|destruct predictedWinner; discriminate]];
      destruct (bool_decide (Winner parsed <> predictedWinner)) eqn:E;
      try (apply bool_decide_eq_true in E; congruence);
      apply bool_decide_eq_false in E; apply dec_stable in E; split; congruence.
Qed.

Lemma predicted_loser_witness :
  parsePredictedLoser "233 Rice 77, 273 FIU 70" (Some "Rice") = Some "FIU"
  /\ parsePredictedLoser "233 Rice 77, 273 FIU 70" (Some "Duke") = Some "Rice".
Proof.
  split.
  - destruct (predicted_loser "233 Rice 77, 273 FIU 70" (Some "Rice")) as (_ & H).
    destruct (H eq_refl) as (H1 & _).
    apply (H1 "Rice" "FIU"); [vm_compute; reflexivity|vm_compute; reflexivity
                             |discriminate|discriminate].
  - destruct (predicted_loser "233 Rice 77, 273 FIU 70" (Some "Duke")) as (_ & H).
    destruct (H eq_refl) as (H1 & _).
    apply (H1 "Rice" "FIU"); [vm_compute; reflexivity|vm_compute; reflexivity
                             |discriminate|discriminate].
Defined.

(** The predicted loser of a completed game
    ["<rank> <name> <score>, <rank> <name> <score>"]: the loser of the game
    when the winner was predicted, and the winner of the game for any other
    prediction. *)
Theorem predicted_loser_completed
    (rank1 : str) (name1 : list str) (score1 : str)
    (rank2 : str) (name2 : list str) (score2 : str) (predictedWinner : str) :
  token rank1 = true -> Forall (fun t => token t = true) name1 -> name1 <> [] ->
  digits score1 = true ->
  token rank2 = true -> Forall (fun t => token t = true) name2 -> name2 <> [] ->
  digits score2 = true ->
  includes ", " (side rank1 name1 score1) = false ->
  includes ", " (side rank2 name2 score2) = false ->
  predictedWinner <> "" ->
  parsePredictedLoser (side rank1 name1 score1 ++ ", " ++ side rank2 name2 score2)
    (Some predictedWinner)
  = Some (if bool_decide (predictedWinner = join " " name1)
          then join " " name2 else join " " name1).
Proof.
  intros Hr1 Hn1 Hne1 Hs1 Hr2 Hn2 Hne2 Hs2 Hc1 Hc2 Hpw.
  destruct (completed_plain rank1 name1 score1 rank2 name2 score2)
    as (Hc & Hw & Hl); try assumption.
  unfold parsePredictedLoser. rewrite Hc, Hw, Hl.
  assert (Ht : truthy_opt (Some predictedWinner) = true)
    by (destruct predictedWinner; [congruence|reflexivity]).
  rewrite Ht. cbn [negb].
  destruct (bool_decide (predictedWinner = join " " name1)) eqn:E.
  - apply bool_decide_eq_true in E. subst predictedWinner.
    rewrite bool_decide_eq_false_2 by tauto. reflexivity.
  - apply bool_decide_eq_false in E.
    rewrite bool_decide_eq_true_2 by congruence. reflexivity.
Qed.

Lemma predicted_loser_completed_witness :
  parsePredictedLoser "1 Duke 80, 5 North Carolina 78" (Some "Duke")
  = Some "North Carolina".
Proof.
  apply (predicted_loser_completed "1" ["Duke"] "80" "5" ["North"; "Carolina"] "78" "Duke");
    first [reflexivity | discriminate | repeat constructor].
Defined.

(** ** The schedule *)

Section Schedule.

Lemma cell_loop_assign (columns : list str) (cells : list Dom.node) :
  Dom.each (fun j cell (rowData : TableRow) =>
              match columns !! j with
              | Some col => put col (trim (Dom.text cell)) rowData
              | None => rowData
              end) 0 cells ∅
  = assign columns ((fun cell => trim (Dom.text cell)) <$> cells).
Proof. rewrite cell_loop. reflexivity. Qed.

(** The row a game row of the schedule becomes. *)
Lemma scheduleRow_game (season : option Z) (columns : list str) (row : Dom.node)
    (rows : list TableRow) (cur : str) (P : TableRow -> Prop) :
  (forall texts (rd : TableRow),
     texts <> [] ->
     let rd0 := assign columns texts in
     rd0 !! "Date" <> Some "Date" -> rd0 !! "Date" <> rd0 !! "Result" ->
     rd = delete "B" (delete "A" (<["Tournament" := cur]> rd0)) ->
     P (if before season 2010 && negb (truthy_opt (rd !! "Team Rank"))
        then <["Team Rank" := ""]> rd else rd)) ->
  Forall P rows ->
  Forall P (scheduleRow season columns row (rows, cur)).1.
Proof.
  intros HP Hrows. unfold scheduleRow. cbv zeta.
  destruct (includes "Tournament" _ || includes "Postseason" _); [exact Hrows|].
  destruct (length (Dom.find ["td"] [row]) =? 0) eqn:Ecells; [exact Hrows|].
  rewrite cell_loop_assign.
  set (texts := (fun cell => trim (Dom.text cell)) <$> Dom.find ["td"] [row]).
  destruct (bool_decide (assign columns texts !! "Date" = Some "Date")) eqn:E1;
    [exact Hrows|].
  destruct (bool_decide (assign columns texts !! "Date"
                         = assign columns texts !! "Result")) eqn:E2;
    [exact Hrows|].
  cbn [orb].
  match goal with |- context [0 <? size ?m] => destruct (0 <? size m) end;
    [|exact Hrows].
  cbn [fst]. apply Forall_app. split; [exact Hrows|]. constructor; [|constructor].
  apply (HP texts).
  - intros E. apply Nat.eqb_neq in Ecells. apply Ecells.
    apply (f_equal length) in E. unfold texts in E. rewrite length_fmap in E.
    exact E.
  - apply bool_decide_eq_false in E1. exact E1.
  - apply bool_decide_eq_false in E2. exact E2.
  - reflexivity.
Qed.

Lemma schedule_date (season : option Z) (texts : list str) :
  texts <> [] -> is_Some (assign (scheduleColumns season) texts !! "Date").
Proof.
  intros Hne. apply assign_is_Some. split; [|discriminate].
  destruct texts; [congruence|].
  unfold scheduleColumns. destruct (before season 2010); simpl; left.
Qed.

Lemma schedule_no_team_rank (season : option Z) (texts : list str) :
  before season 2010 = true ->
  assign (scheduleColumns season) texts !! "Team Rank" = None.
Proof.
  intros Hb. apply eq_None_not_Some. intros H. apply assign_is_Some in H as [H _].
  apply (subseteq_take (length texts)) in H.
  unfold scheduleColumns in H. rewrite Hb in H. revert H.
  rewrite !elem_of_cons, elem_of_nil. intros H.
  repeat (destruct H as [H|H]; [discriminate|]). exact H.
Qed.

Lemma schedule_keys (season : option Z) (texts : list str) k :
  is_Some (assign (scheduleColumns season) texts !! k) ->
  k ∈ ["Date"; "Team Rank"; "Opponent Rank"; "Opponent Name"; "Result";
       "Possession Number"; "A"; "Location"; "Record"; "Conference"; "B"].
Proof.
  intros H. apply assign_is_Some in H as [H _].
  apply (subseteq_take (length texts)) in H.
  revert H. unfold scheduleColumns. destruct (before season 2010);
    rewrite !elem_of_cons, !elem_of_nil; intros H;
    repeat (destruct H as [H|H]; [subst; auto 15|]); contradiction.
Qed.

End Schedule.

(** The schedule is read from the second table of the page, and reading it
    fails exactly when the page has fewer than two tables.  Every game of
    the result has a date, which is not the header text [Date] and differs
    from its result, and has a tournament; it never has the two unnamed
    columns [A] and [B], nor any key outside the schedule record; for a
    season before 2010 (other than 0) its team rank is there and empty. *)
Theorem schedule_rows (doc : Dom.node) (season : option Z) :
  let found := length (Dom.find ["table"] [doc]) in
  match parseSchedule doc season with
  | Throw message =>
      found < 2 /\ message = "Schedule table not found (need at least 2 tables)"
  | Ok rows =>
      2 <= found
      /\ forall r, r ∈ rows ->
           (exists date, r !! "Date" = Some date /\ date <> "Date"
                         /\ r !! "Result" <> Some date)
           /\ (exists tournament, r !! "Tournament" = Some tournament)
           /\ r !! "A" = None /\ r !! "B" = None
           /\ (before season 2010 = true -> r !! "Team Rank" = Some "")
           /\ keys_within ["Date"; "Team Rank"; "Opponent Rank"; "Opponent Name";
                           "Result"; "Possession Number"; "Location"; "Record";
                           "Conference"; "Tournament"] r
  end.
Proof.
  intros found. unfold parseSchedule. fold found.
  destruct (found <? 2) eqn:Ef.
  - apply Nat.ltb_lt in Ef. auto.
  - apply Nat.ltb_ge in Ef. split; [exact Ef|].
    apply Forall_forall.
    apply (each_inv (fun st : list TableRow * str => Forall _ st.1)); [|constructor].
    intros _ row [rows cur] Hrows. cbn [fst] in Hrows.
    apply scheduleRow_game; [|exact Hrows].
    intros texts rd Hne rd0 Hd1 Hd2 Hrd.
    destruct (schedule_date season texts Hne) as [date Hdate]. fold rd0 in Hdate.
    assert (Hlook : forall k, k <> "A" -> k <> "B" -> k <> "Tournament" ->
                              rd !! k = rd0 !! k).
    { intros k H1 H2 H3. rewrite Hrd.
      rewrite !lookup_delete_ne, lookup_insert_ne by congruence. reflexivity. }
    assert (Ht : rd !! "Tournament" = Some cur).
    { rewrite Hrd. rewrite !lookup_delete_ne by discriminate. apply lookup_insert_eq. }
    assert (HA : rd !! "A" = None).
    { rewrite Hrd. rewrite lookup_delete_ne by discriminate. apply lookup_delete_eq. }
    assert (HB : rd !! "B" = None) by (rewrite Hrd; apply lookup_delete_eq).
    assert (Hkeys : forall k, is_Some (rd !! k) ->
              k ∈ ["Date"; "Team Rank"; "Opponent Rank"; "Opponent Name";
                   "Result"; "Possession Number"; "Location"; "Record";
                   "Conference"; "Tournament"]).
    { intros k Hk.
      destruct (decide (k = "Tournament")) as [->|H3]; [set_solver|].
      destruct (decide (k = "A")) as [->|H1];
        [rewrite HA in Hk; destruct Hk; discriminate|].
      destruct (decide (k = "B")) as [->|H2];
        [rewrite HB in Hk; destruct Hk; discriminate|].
      rewrite Hlook in Hk by assumption. apply schedule_keys in Hk.
      revert Hk. rewrite !elem_of_cons, !elem_of_nil. intros Hk.
      repeat (destruct Hk as [Hk|Hk]; [subst; auto 15; congruence|]). contradiction. }
    assert (Hfinal : forall r : TableRow,
              (r = rd /\ (before season 2010 = true -> rd !! "Team Rank" = Some ""))
              \/ (r = <["Team Rank" := ""]> rd) ->
              (exists date, r !! "Date" = Some date /\ date <> "Date"
                            /\ r !! "Result" <> Some date)
              /\ (exists tournament, r !! "Tournament" = Some tournament)
              /\ r !! "A" = None /\ r !! "B" = None
              /\ (before season 2010 = true -> r !! "Team Rank" = Some "")
              /\ keys_within ["Date"; "Team Rank"; "Opponent Rank"; "Opponent Name";
                              "Result"; "Possession Number"; "Location"; "Record";
                              "Conference"; "Tournament"] r).
    { intros r [[-> Hb]| ->].
      - rewrite !Hlook, Hdate, Ht, HA, HB by discriminate.
        split; [exists date; repeat split; congruence|].
        split; [eauto|]. repeat split; auto.
      - rewrite !lookup_insert_ne, !Hlook, Hdate, Ht, HA, HB by discriminate.
        split; [exists date; repeat split; congruence|].
        split; [eauto|]. split; [reflexivity|]. split; [reflexivity|].
        split; [intros _; apply lookup_insert_eq|].
        intros k Hk. apply lookup_insert_is_Some' in Hk as [<-|Hk]; [set_solver|].
        apply Hkeys, Hk. }
    destruct (before season 2010) eqn:Eb; cbn [andb].
    + assert (Hnone : rd !! "Team Rank" = None).
      { rewrite Hlook by discriminate. apply schedule_no_team_rank, Eb. }
      rewrite Hnone. cbn [truthy_opt negb]. apply Hfinal. right. reflexivity.
    + apply Hfinal. left. split; [reflexivity|discriminate].
Qed.

Lemma schedule_rows_witness :
  parseSchedule (Dom.Elem 0 "body" [Dom.Elem 1 "table" []]) (Some 2025%Z)
  = Throw "Schedule table not found (need at least 2 tables)".
Proof.
  pose proof (schedule_rows (Dom.Elem 0 "body" [Dom.Elem 1 "table" []]) (Some 2025%Z))
    as H.
  cbv zeta in H.
  destruct (parseSchedule _ _) as [rows|message].
  - destruct H as [H _]. simpl in H. lia.
  - destruct H as [_ ->]. reflexivity.
Defined.

Section Tournaments.

Lemma search_opt_skip p q pre :
  forall pos s,
    (forall i, i < length pre ->
               run (p ++ q) (pos + i) (drop i pre ++ s) no_captures = None
               /\ run q (pos + i) (drop i pre ++ s) no_captures = None) ->
    search_opt p q pos (pre ++ s) = search_opt p q (pos + length pre) s.
Proof.
  induction pre as [|a pre IH]; intros pos s H.
  - simpl. rewrite Nat.add_0_r. reflexivity.
  - destruct (H 0 ltac:(simpl; lia)) as [H1 H2].
    rewrite Nat.add_0_r in H1, H2. simpl in H1, H2.
    cbn [app search_opt]. rewrite H1, H2. rewrite IH.
    + f_equal. simpl. lia.
    + intros i Hi. specialize (H (S i) ltac:(simpl; lia)).
      replace (S pos + i) with (pos + S i) by lia. exact H.
Qed.

Lemma search_opt_here_q p q pos s e st :
  run (p ++ q) pos s no_captures = None ->
  run q pos s no_captures = Some (e, st) ->
  search_opt p q pos s = Some (pos, e, st).
Proof. intros H1 H2. destruct s; cbn [search_opt]; rewrite H1, H2; reflexivity. Qed.

Lemma search_opt_here_p p q pos s e st :
  run (p ++ q) pos s no_captures = Some (e, st) ->
  search_opt p q pos s = Some (pos, e, st).
Proof. intros H1. destruct s; cbn [search_opt]; rewrite H1; reflexivity. Qed.

(** Where a word can start in a text that continues with white space. *)
Lemma prefix_split (y : str) c (z w t : str) :
  y ++ c :: z = w ++ t -> (exists y', y = w ++ y') \/ c ∈ w.
Proof.
  revert y. induction w as [|a w IH]; intros y E; [left; exists y; reflexivity|].
  destruct y as [|b y]; simpl in E.
  - injection E as -> _. right. left.
  - injection E as -> E. destruct (IH y E) as [[y' ->]|Hin].
    + left. exists y'. reflexivity.
    + right. right. exact Hin.
Qed.

Lemma tournamentPart_shape pos s r :
  run tournamentPart pos s no_captures = Some r ->
  exists c t, s = c :: "Tournament" ++ t /\ is_space c = true.
Proof.
  unfold tournamentPart, lits. cbn [fmap list_fmap app]. intros H. run_inv H.
  eexists _, _. split; [reflexivity|assumption].
Qed.

Lemma conferencePart_shape pos s r :
  run (conferencePart ++ tournamentPart) pos s no_captures = Some r ->
  exists c1 c2 t,
    s = c1 :: "Conference" ++ c2 :: "Tournament" ++ t
    /\ is_space c1 = true /\ is_space c2 = true.
Proof.
  unfold conferencePart, tournamentPart, lits. cbn [fmap list_fmap app].
  intros H. run_inv H.
  eexists _, _, _. split; [reflexivity|]. split; assumption.
Qed.

Lemma lazy_to_end pos (rest : str) st :
  forallb (cmatch AnyChar) rest = true ->
  run [Rep false 0 None AnyChar; Eos] pos rest st = Some (pos + length rest, st).
Proof.
  intros Hany. cbn [run]. rewrite <- (app_nil_r rest) at 1.
  apply rep_lazy_first; [exact Hany|lia| |reflexivity].
  intros j _ Hj. rewrite app_nil_r.
  destruct (drop j rest) eqn:E; [|reflexivity].
  apply (f_equal length) in E. rewrite length_drop in E. simpl in E. lia.
Qed.

Lemma run_lits (w : str) p :
  forall pos s st, run (lits w ++ p) pos (w ++ s) st = run p (pos + length w) s st.
Proof.
  induction w as [|a w IH]; intros pos s st.
  - simpl. rewrite Nat.add_0_r. reflexivity.
  - cbn [lits fmap list_fmap app run cmatch]. rewrite Ascii.eqb_refl.
    change ((fun c => One (Lit c)) <$> w) with (lits w). rewrite IH.
    f_equal. simpl. lia.
Qed.

Lemma run_space p pos c (s : str) st :
  is_space c = true -> run (One Space :: p) pos (c :: s) st = run p (S pos) s st.
Proof. intros Hc. cbn [run cmatch]. rewrite Hc. reflexivity. Qed.

Lemma tournamentPart_here pos c (rest : str) :
  is_space c = true -> forallb (cmatch AnyChar) rest = true ->
  run tournamentPart pos (c :: "Tournament" ++ rest) no_captures
  = Some (pos + length (c :: "Tournament" ++ rest), no_captures).
Proof.
  intros Hc Hany. unfold tournamentPart.
  rewrite run_space, run_lits, lazy_to_end by assumption.
  f_equal. f_equal. simpl. lia.
Qed.

Lemma conferencePart_here pos c1 c2 (rest : str) :
  is_space c1 = true -> is_space c2 = true ->
  forallb (cmatch AnyChar) rest = true ->
  run (conferencePart ++ tournamentPart) pos
    (c1 :: "Conference" ++ c2 :: "Tournament" ++ rest) no_captures
  = Some (pos + length (c1 :: "Conference" ++ c2 :: "Tournament" ++ rest),
          no_captures).
Proof.
  intros Hc1 Hc2 Hany. unfold conferencePart, tournamentPart.
  rewrite <- app_comm_cons.
  rewrite run_space, run_lits, run_space, run_lits, lazy_to_end by assumption.
  f_equal. f_equal. simpl. lia.
Qed.

Lemma space_not_in (c : ascii) (w : str) :
  is_space c = true -> forallb (fun a => negb (is_space a)) w = true -> c ∉ w.
Proof.
  intros Hc Hw Hin. rewrite forallb_forall in Hw.
  apply list_elem_of_In in Hin. specialize (Hw c Hin).
  rewrite Hc in Hw. discriminate.
Qed.

(** No match starts before the white space in front of the word. *)
Lemma tournament_not_before (pre : str) c (z : str) i pos :
  is_space c = true -> includes "Tournament" pre = false ->
  i < length pre ->
  run tournamentPart (pos + i) (drop i pre ++ c :: z) no_captures = None
  /\ (forall r,
        run (conferencePart ++ tournamentPart) (pos + i)
          (drop i pre ++ c :: z) no_captures = Some r ->
        exists c' t, drop i pre = c' :: "Conference" /\ is_space c' = true
                     /\ z = "Tournament" ++ t).
Proof.
  intros Hc Hpre Hi.
  assert (Hword : forall y t, (exists a, pre = a ++ y) ->
                    y ++ c :: z = "Tournament" ++ t -> False).
  { intros y t [a Ha] E. apply prefix_split in E as [[y' ->]|Hin].
    - assert (Hinc : includes "Tournament" pre = true)
        by (apply includes_spec; exists a, y'; exact Ha).
      congruence.
    - revert Hin. apply space_not_in; [exact Hc|reflexivity]. }
  destruct (drop i pre) as [|c' y] eqn:Ey.
  { apply (f_equal length) in Ey. rewrite length_drop in Ey. simpl in Ey. lia. }
  assert (Hy : exists a, pre = a ++ y).
  { exists (take i pre ++ [c']). rewrite <- app_assoc. cbn [app].
    rewrite <- Ey. symmetry. apply take_drop. }
  split.
  - destruct (run tournamentPart _ _ _) as [r|] eqn:H; [exfalso|reflexivity].
    apply tournamentPart_shape in H as (c0 & t & E & _).
    cbn [app] in E. injection E as _ E. exact (Hword y t Hy E).
  - intros r H. apply conferencePart_shape in H as (c1 & c2 & t & E & Hc1 & Hc2).
    cbn [app] in E. injection E as <- E.
    change (y ++ c :: z = "Conference" ++ c2 :: "Tournament" ++ t) in E.
    pose proof E as E'. apply prefix_split in E' as [[y' ->]|Hin].
    + rewrite <- app_assoc in E. apply app_inv_head in E.
      destruct y' as [|b y'].
      * cbn [app] in E. injection E as _ E.
        exists c', t. rewrite app_nil_r. auto.
      * exfalso. cbn [app] in E. injection E as _ E.
        destruct Hy as [a Ha].
        apply (Hword y' t); [|exact E].
        exists (a ++ "Conference" ++ [b]). rewrite Ha, <- !app_assoc. reflexivity.
    + exfalso. revert Hin. apply space_not_in; [exact Hc|reflexivity].
Qed.

Lemma trim_cons_space c (s : str) : is_space c = true -> trim (c :: s) = trim s.
Proof. intros Hc. unfold trim. cbn [drop_while]. rewrite Hc. reflexivity. Qed.

Lemma tournamentLabel_none (text : str) :
  includes "Tournament" text = false -> tournamentLabel text = text.
Proof.
  intros H. unfold tournamentLabel.
  rewrite <- (app_nil_r text) at 1. rewrite search_opt_skip; [reflexivity|].
  intros i Hi. rewrite app_nil_r.
  assert (Hd : includes "Tournament" (drop i text) = false).
  { apply (includes_infix _ (take i text) _ []).
    rewrite app_nil_r, take_drop. exact H. }
  split.
  - destruct (run (conferencePart ++ tournamentPart) _ _ _) as [r|] eqn:E;
      [exfalso|reflexivity].
    apply conferencePart_shape in E as (c1 & c2 & t & E & _).
    assert (Hin : includes "Tournament" (drop i text) = true)
      by (apply includes_spec; exists (c1 :: "Conference" ++ [c2]), t;
          rewrite E; reflexivity).
    congruence.
  - destruct (run tournamentPart _ _ _) as [r|] eqn:E; [exfalso|reflexivity].
    apply tournamentPart_shape in E as (c & t & E & _).
    assert (Hin : includes "Tournament" (drop i text) = true)
      by (apply includes_spec; exists [c], t; rewrite E; reflexivity).
    congruence.
Qed.

Lemma tournamentLabel_plain (pre : str) c (rest : str) :
  is_space c = true -> includes "Tournament" pre = false ->
  (forall a c', pre = a ++ c' :: "Conference" -> is_space c' = false) ->
  forallb (cmatch AnyChar) rest = true ->
  tournamentLabel (pre ++ c :: "Tournament" ++ rest) = trim ("Tournament" ++ rest).
Proof.
  intros Hc Hpre Hconf Hany. unfold tournamentLabel.
  rewrite search_opt_skip.
  - assert (Hnot : run (conferencePart ++ tournamentPart) (0 + length pre)
                     (c :: "Tournament" ++ rest) no_captures = None).
    { destruct (run _ _ _ _) as [r|] eqn:E; [exfalso|reflexivity].
      apply conferencePart_shape in E as (c1 & c2 & t & E & _). discriminate. }
    rewrite (search_opt_here_q _ _ _ _ _ _ Hnot
               (tournamentPart_here _ c rest Hc Hany)).
    rewrite <- (trim_cons_space c ("Tournament" ++ rest)) by exact Hc. f_equal.
    apply (substring_mid _ pre (c :: "Tournament" ++ rest) []).
    + rewrite app_nil_r. reflexivity.
    + reflexivity.
    + lia.
  - intros i Hi.
    destruct (tournament_not_before pre c ("Tournament" ++ rest) i 0 Hc Hpre Hi)
      as [H1 H2].
    split; [|exact H1].
    destruct (run (conferencePart ++ tournamentPart) _ _ _) as [r|] eqn:E;
      [exfalso|reflexivity].
    destruct (H2 r eq_refl) as (c' & t & Ed & Hc' & _).
    rewrite (Hconf (take i pre) c') in Hc'; [discriminate|].
    rewrite <- Ed. symmetry. apply take_drop.
Qed.

Lemma tournamentLabel_conference (pre : str) c1 c2 (rest : str) :
  is_space c1 = true -> is_space c2 = true -> includes "Tournament" pre = false ->
  forallb (cmatch AnyChar) rest = true ->
  tournamentLabel (pre ++ c1 :: "Conference" ++ c2 :: "Tournament" ++ rest)
  = trim ("Conference" ++ c2 :: "Tournament" ++ rest).
Proof.
  intros Hc1 Hc2 Hpre Hany. unfold tournamentLabel.
  rewrite search_opt_skip.
  - rewrite (search_opt_here_p _ _ _ _ _ _
               (conferencePart_here _ c1 c2 rest Hc1 Hc2 Hany)).
    rewrite <- (trim_cons_space c1 ("Conference" ++ c2 :: "Tournament" ++ rest))
      by exact Hc1.
    f_equal.
    apply (substring_mid _ pre (c1 :: "Conference" ++ c2 :: "Tournament" ++ rest) []).
    + rewrite app_nil_r. reflexivity.
    + reflexivity.
    + lia.
  - intros i Hi.
    destruct (tournament_not_before pre c1
                ("Conference" ++ c2 :: "Tournament" ++ rest) i 0 Hc1 Hpre Hi)
      as [H1 H2].
    split; [|exact H1].
    destruct (run (conferencePart ++ tournamentPart) _ _ _) as [r|] eqn:E;
      [exfalso|reflexivity].
    destruct (H2 r eq_refl) as (c' & t & _ & _ & Ez). discriminate.
Qed.

End Tournaments.

Section Segments.

Variable season : option Z.
Variable columns : list str.

Lemma each_index {A B} (g : A -> B -> B) l :
  forall i j acc,
    Dom.each (fun _ x a => g x a) i l acc = Dom.each (fun _ x a => g x a) j l acc.
Proof.
  induction l as [|x l IH]; intros i j acc; simpl; [reflexivity|]. apply IH.
Qed.

(** A row adds to the rows collected so far, whatever they are. *)
Lemma scheduleRow_acc (row : Dom.node) (rows : list TableRow) (cur : str) :
  scheduleRow season columns row (rows, cur)
  = (rows ++ (scheduleRow season columns row ([], cur)).1,
     (scheduleRow season columns row ([], cur)).2).
Proof.
  unfold scheduleRow. cbv zeta.
  repeat match goal with
         | |- context [if ?b then _ else _] =>
             lazymatch b with
             | context [if _ then _ else _] => fail
             | _ => destruct b
             end
         end; cbn [fst snd]; rewrite ?app_nil_r; reflexivity.
Qed.

Lemma schedule_acc (l : list Dom.node) :
  forall (rows : list TableRow) (cur : str),
    Dom.each (fun _i row state => scheduleRow season columns row state) 0 l (rows, cur)
    = (rows ++ (Dom.each (fun _i row state => scheduleRow season columns row state)
                  0 l ([], cur)).1,
       (Dom.each (fun _i row state => scheduleRow season columns row state)
          0 l ([], cur)).2).
Proof.
  induction l as [|row l IH]; intros rows cur.
  - simpl. rewrite app_nil_r. reflexivity.
  - cbn [Dom.each].
    rewrite !(each_index (scheduleRow season columns) l 1 0).
    rewrite scheduleRow_acc.
    destruct (scheduleRow season columns row ([], cur)) as [new cur'] eqn:E.
    cbn [fst snd]. rewrite IH. rewrite (IH new cur'). cbn [fst snd].
    rewrite app_assoc. reflexivity.
Qed.

(** A row that does not announce a tournament keeps the current one and
    adds at most one game, which belongs to it. *)
Lemma scheduleRow_plain (row : Dom.node) (cur : str) :
  includes "Tournament" (trim (Dom.text row))
  || includes "Postseason" (trim (Dom.text row)) = false ->
  (scheduleRow season columns row ([], cur)).2 = cur
  /\ Forall (fun r : TableRow => r !! "Tournament" = Some cur)
       (scheduleRow season columns row ([], cur)).1.
Proof.
  intros Hann. split.
  - unfold scheduleRow. cbv zeta. rewrite Hann.
    repeat match goal with
           | |- context [if ?b then _ else _] =>
               lazymatch b with
               | context [if _ then _ else _] => fail
               | _ => destruct b
               end
           end; reflexivity.
  - apply scheduleRow_game; [|constructor].
    intros texts rd Hne rd0 _ _ ->.
    assert (Ht : delete "B" (delete "A" (<["Tournament" := cur]> rd0)) !! "Tournament"
                 = Some cur).
    { rewrite !lookup_delete_ne by discriminate. apply lookup_insert_eq. }
    destruct (before season 2010 && _); [|exact Ht].
    rewrite lookup_insert_ne by discriminate. exact Ht.
Qed.

Lemma schedule_plain (l : list Dom.node) (cur : str) :
  forallb (fun row => negb (includes "Tournament" (trim (Dom.text row))
                            || includes "Postseason" (trim (Dom.text row)))) l = true ->
  (Dom.each (fun _i row state => scheduleRow season columns row state)
     0 l ([], cur)).2 = cur
  /\ Forall (fun r : TableRow => r !! "Tournament" = Some cur)
       (Dom.each (fun _i row state => scheduleRow season columns row state)
          0 l ([], cur)).1.
Proof.
  induction l as [|row l IH]; intros Hall; [split; [reflexivity|constructor]|].
  simpl in Hall. apply andb_true_iff in Hall as [Hrow Hall].
  apply negb_true_iff in Hrow.
  destruct (scheduleRow_plain row cur Hrow) as [H2 H1].
  destruct (IH Hall) as [IH2 IH1].
  cbn [Dom.each]. rewrite (each_index (scheduleRow season columns) l 1 0).
  destruct (scheduleRow season columns row ([], cur)) as [new cur'] eqn:E.
  cbn [fst snd] in H1, H2. subst cur'.
  rewrite schedule_acc. cbn [fst snd]. split; [exact IH2|].
  apply Forall_app. split; assumption.
Qed.

Lemma scheduleRow_header (row : Dom.node) (rows : list TableRow) (cur : str) :
  includes "Tournament" (trim (Dom.text row))
  || includes "Postseason" (trim (Dom.text row)) = true ->
  scheduleRow season columns row (rows, cur)
  = (rows, tournamentLabel (trim (Dom.text row))).
Proof. intros H. unfold scheduleRow. cbv zeta. rewrite H. reflexivity. Qed.

End Segments.

(** Tournament tracking in the schedule.  A row whose text contains
    [Tournament] or [Postseason] is a header: it yields no game and sets the
    tournament of the games that follow, up to the next header.  So for body
    rows made of rows without a header, one header and again rows without a
    header, the games are those of the first stretch under the tournament
    that was current, followed by those of the second stretch under the
    tournament the header announces. *)
Theorem schedule_tournaments (season : option Z) (columns : list str)
    (first second : list Dom.node) (header : Dom.node) (current : str) :
  let announces row :=
    includes "Tournament" (trim (Dom.text row))
    || includes "Postseason" (trim (Dom.text row)) in
  let games rows tournament :=
    (Dom.each (fun _i row state => scheduleRow season columns row state)
       0 rows ([], tournament)).1 in
  let announced := tournamentLabel (trim (Dom.text header)) in
  forallb (fun row => negb (announces row)) first = true ->
  announces header = true ->
  forallb (fun row => negb (announces row)) second = true ->
  games (first ++ header :: second) current
  = games first current ++ games second announced
  /\ (forall r, r ∈ games first current -> r !! "Tournament" = Some current)
  /\ (forall r, r ∈ games second announced -> r !! "Tournament" = Some announced).
Proof.
  intros announces games announced H1 Hh H2.
  destruct (schedule_plain season columns first current H1) as [Hc1 Hr1].
  destruct (schedule_plain season columns second announced H2) as [Hc2 Hr2].
  split; [|split].
  - unfold games. rewrite each_app. cbn [Dom.each].
    rewrite (each_index (scheduleRow season columns) second _ 0).
    destruct (Dom.each _ 0 first ([], current)) as [rows1 cur1] eqn:E1.
    cbn [fst snd] in Hc1 |- *. subst cur1.
    rewrite scheduleRow_header by exact Hh.
    rewrite schedule_acc. reflexivity.
  - apply Forall_forall. exact Hr1.
  - apply Forall_forall. exact Hr2.
Qed.

Lemma schedule_tournaments_witness :
  (Dom.each (fun _i row state => scheduleRow (Some 2025%Z) ["Date"; "Result"] row state) 0
     [Dom.Elem 1 "tr" [Dom.Elem 2 "td" [Dom.Text "Nov 6"]; Dom.Elem 3 "td" [Dom.Text "W"]];
      Dom.Elem 4 "tr" [Dom.Elem 5 "td" [Dom.Text "ACC Tournament"]];
      Dom.Elem 6 "tr" [Dom.Elem 7 "td" [Dom.Text "Mar 12"]; Dom.Elem 8 "td" [Dom.Text "L"]]]
     ([], "")).1
  = [<["Tournament" := ""]> (<["Result" := "W"]> (<["Date" := "Nov 6"]> ∅));
     <["Tournament" := "Tournament"]> (<["Result" := "L"]> (<["Date" := "Mar 12"]> ∅))].
Proof.
  destruct (schedule_tournaments (Some 2025%Z) ["Date"; "Result"]
              [Dom.Elem 1 "tr" [Dom.Elem 2 "td" [Dom.Text "Nov 6"];
                                Dom.Elem 3 "td" [Dom.Text "W"]]]
              [Dom.Elem 6 "tr" [Dom.Elem 7 "td" [Dom.Text "Mar 12"];
                                Dom.Elem 8 "td" [Dom.Text "L"]]]
              (Dom.Elem 4 "tr" [Dom.Elem 5 "td" [Dom.Text "ACC Tournament"]]) ""
              eq_refl eq_refl eq_refl) as (H & _).
  cbn [app] in H. rewrite H. by_compute.
Defined.

(** The tournament a header announces.  A text without [Tournament] (so
    [Postseason]) is the tournament as it is.  For a text made of a part
    without [Tournament], a white space character, [Tournament] and a rest
    without line terminator, the tournament is the trimmed text from that
    [Tournament] on when the first part does not end with white space and
    [Conference]; for a first part followed by white space, [Conference],
    white space, [Tournament] and such a rest, it is the trimmed text from
    [Conference] on: ["ACC Tournament"] announces ["Tournament"] and
    ["Big Ten Conference Tournament"] announces ["Conference Tournament"]. *)
Theorem tournament_label (name : str) (c : ascii) (rest : str) :
  is_space c = true -> includes "Tournament" name = false ->
  forallb (fun a => negb (is_line_terminator a)) rest = true ->
  tournamentLabel name = name
  /\ ((forall a c', name = a ++ c' :: "Conference" -> is_space c' = false) ->
      tournamentLabel (name ++ c :: "Tournament" ++ rest) = trim ("Tournament" ++ rest))
  /\ (forall c2, is_space c2 = true ->
        tournamentLabel (name ++ c :: "Conference" ++ c2 :: "Tournament" ++ rest)
        = trim ("Conference" ++ c2 :: "Tournament" ++ rest)).
Proof.
  intros Hc Hname Hrest. split; [|split].
  - apply tournamentLabel_none, Hname.
  - intros Hconf. apply tournamentLabel_plain; assumption.
  - intros c2 Hc2. apply tournamentLabel_conference; assumption.
Qed.

Lemma tournament_label_witness :
  tournamentLabel "Postseason" = "Postseason"
  /\ tournamentLabel "ACC Tournament" = "Tournament"
  /\ tournamentLabel "Big Ten Conference Tournament" = "Conference Tournament".
Proof.
  split; [|split].
  - apply (tournament_label "Postseason" " " ""); reflexivity.
  - destruct (tournament_label "ACC" " " "" eq_refl eq_refl eq_refl) as (_ & H & _).
    apply H. intros a c' E.
    destruct a as [|? [|? [|? [|? a]]]]; try discriminate; destruct a; discriminate.
  - destruct (tournament_label "Big Ten" " " "" eq_refl eq_refl eq_refl) as (_ & _ & H).
    apply (H " "%char eq_refl).
Defined.

(** ** Team names *)

Section Collect.

Context {A : Type} (name : A -> str) (keep : str -> bool).

(** The loop that collects names: a name that is kept is appended unless
    it is there already. *)
Lemma collect_snoc (l : list A) (x : A) :
  Dom.each (fun _i el (teams : list str) =>
              if keep (name el) && negb (bool_decide (name el ∈ teams))
              then teams ++ [name el] else teams) 0 (l ++ [x]) []
  = let teams :=
      Dom.each (fun _i el (teams : list str) =>
                  if keep (name el) && negb (bool_decide (name el ∈ teams))
                  then teams ++ [name el] else teams) 0 l [] in
    if keep (name x) && negb (bool_decide (name x ∈ teams))
    then teams ++ [name x] else teams.
Proof. rewrite each_snoc. reflexivity. Qed.

Lemma collect_spec (l : list A) :
  let teams :=
    Dom.each (fun _i el (teams : list str) =>
                if keep (name el) && negb (bool_decide (name el ∈ teams))
                then teams ++ [name el] else teams) 0 l [] in
  NoDup teams
  /\ (forall t, t ∈ teams <-> t ∈ name <$> l /\ keep t = true)
  /\ sublist teams (name <$> l).
Proof.
  induction l as [|x l IH] using rev_ind.
  - cbn. split; [constructor|]. split; [|constructor].
    intros t. rewrite elem_of_nil. tauto.
  - cbv zeta. rewrite collect_snoc. cbv zeta in IH |- *.
    set (teams := Dom.each _ 0 l []) in *.
    destruct IH as (Hnd & Hin & Hsub). rewrite fmap_app. cbn [fmap list_fmap].
    destruct (keep (name x)) eqn:Ek; cbn [andb];
      [destruct (bool_decide (name x ∈ teams)) eqn:Ed; cbn [negb]|].
    + apply bool_decide_eq_true in Ed. split; [exact Hnd|]. split.
      * intros t. rewrite elem_of_app, list_elem_of_singleton, Hin.
        split; [tauto|]. intros [[H| ->] Hk]; [tauto|]. apply Hin, Ed.
      * apply sublist_inserts_r, Hsub.
    + apply bool_decide_eq_false in Ed. split; [|split].
      * apply NoDup_app. split; [exact Hnd|]. split; [|apply NoDup_singleton].
        intros t Ht Ht'. apply list_elem_of_singleton in Ht'. subst t. tauto.
      * intros t. rewrite !elem_of_app, !list_elem_of_singleton, Hin.
        split; [intros [[H Hk]| ->]; auto|tauto].
      * apply sublist_app; [exact Hsub|reflexivity].
    + split; [exact Hnd|]. split.
      * intros t. rewrite elem_of_app, list_elem_of_singleton, Hin.
        split; [tauto|]. intros [[H| ->] Hk]; [tauto|congruence].
      * apply sublist_inserts_r, Hsub.
Qed.

End Collect.

Section ValidTeams.

Variable select : str -> Dom.node -> list Dom.node.

Lemma parseValidTeams_collect (doc : Dom.node) :
  parseValidTeams select doc
  = Dom.each (fun _i el (teams : list str) =>
                if (fun t => truthy t && negb (bool_decide (t = "Team")))
                     (stripSeed (Some (trim (Dom.text el))))
                   && negb (bool_decide (stripSeed (Some (trim (Dom.text el))) ∈ teams))
                then teams ++ [stripSeed (Some (trim (Dom.text el)))] else teams)
      0 (select teamLinks doc) [].
Proof. reflexivity. Qed.

Lemma extractTeamNames_collect (doc : Dom.node) :
  Utils.extractTeamNames select doc
  = Dom.each (fun _i el (teams : list str) =>
                if truthy (trim (Dom.text el))
                   && negb (bool_decide (trim (Dom.text el) ∈ teams))
                then teams ++ [trim (Dom.text el)] else teams)
      0 (select teamLinks doc) [].
Proof. reflexivity. Qed.

End ValidTeams.

(** The valid teams of a page: the names of the links to the team pages,
    each without digits and surrounding white space, in the order of their
    first occurrence, without the empty name, without [Team] and without
    repetition. *)
Theorem valid_teams (select : str -> Dom.node -> list Dom.node) (doc : Dom.node) :
  let names :=
    (fun el => stripSeed (Some (trim (Dom.text el)))) <$> select teamLinks doc in
  let teams := parseValidTeams select doc in
  NoDup teams
  /\ (forall t, t ∈ teams <-> t ∈ names /\ t <> "" /\ t <> "Team")
  /\ sublist teams names
  /\ (forall t, t ∈ teams -> clean t).
Proof.
  intros names teams. unfold teams. rewrite parseValidTeams_collect.
  destruct (collect_spec (fun el => stripSeed (Some (trim (Dom.text el))))
              (fun t => truthy t && negb (bool_decide (t = "Team")))
              (select teamLinks doc)) as (Hnd & Hin & Hsub).
  cbv zeta in Hnd, Hin, Hsub. fold names in Hin, Hsub.
  split; [exact Hnd|]. split; [|split; [exact Hsub|]].
  - intros t. rewrite Hin, andb_true_iff, negb_true_iff, bool_decide_eq_false.
    destruct t; simpl; intuition congruence.
  - intros t Ht. apply Hin in Ht as [Ht _]. unfold names in Ht.
    apply list_elem_of_fmap in Ht as (el & -> & _). apply stripSeed_clean.
Qed.

Lemma valid_teams_witness :
  "Duke" ∈ parseValidTeams (fun _ doc => Dom.find ["a"] [doc])
             (Dom.Elem 0 "body" [Dom.Elem 1 "a" [Dom.Text "Team"];
                                 Dom.Elem 2 "a" [Dom.Text "Duke 1"];
                                 Dom.Elem 3 "a" [Dom.Text " Duke "]]).
Proof.
  pose proof (valid_teams (fun _ doc => Dom.find ["a"] [doc])
                (Dom.Elem 0 "body" [Dom.Elem 1 "a" [Dom.Text "Team"];
                                    Dom.Elem 2 "a" [Dom.Text "Duke 1"];
                                    Dom.Elem 3 "a" [Dom.Text " Duke "]])) as H.
  cbv zeta in H. destruct H as (_ & H & _).
  apply H. split; [by_compute|]. split; discriminate.
Defined.

(** The team names of a page, as the utilities extract them, and how they
    relate to the valid teams: they are the trimmed texts of the same links,
    in the order of their first occurrence, without the empty text and
    without repetition; and when no link text has a digit the valid teams
    are these names without [Team]. *)
Theorem team_names (select : str -> Dom.node -> list Dom.node) (doc : Dom.node) :
  let texts := (fun el => trim (Dom.text el)) <$> select teamLinks doc in
  let names := Utils.extractTeamNames select doc in
  NoDup names
  /\ (forall t, t ∈ names <-> t ∈ texts /\ t <> "")
  /\ sublist names texts
  /\ (Forall (fun t => forallb not_digit t = true) texts ->
      parseValidTeams select doc
      = filter (fun t : str => t <> "Team") names).
Proof.
  intros texts names. unfold names. rewrite extractTeamNames_collect.
  destruct (collect_spec (fun el => trim (Dom.text el)) truthy (select teamLinks doc))
    as (Hnd & Hin & Hsub).
  cbv zeta in Hnd, Hin, Hsub. fold texts in Hin, Hsub.
  split; [exact Hnd|]. split; [|split; [exact Hsub|]].
  - intros t. rewrite Hin. destruct t; simpl; intuition congruence.
  - clear Hnd Hin Hsub. unfold parseValidTeams, texts.
    induction (select teamLinks doc) as [|x l IH] using rev_ind; intros Hall;
      [reflexivity|].
    rewrite fmap_app in Hall. apply Forall_app in Hall as [Hall Hx].
    inversion Hx as [|? ? Hd _]; subst. specialize (IH Hall).
    rewrite !each_snoc. cbv beta zeta. rewrite IH.
    assert (Hs : stripSeed (Some (trim (Dom.text x))) = trim (Dom.text x)).
    { rewrite stripSeed_filter, filter_all by exact Hd. apply trim_idempotent. }
    rewrite Hs. set (t := trim (Dom.text x)).
    set (names0 := Dom.each _ 0 l []).
    destruct (truthy t) eqn:Et; cbn [andb]; [|reflexivity].
    destruct (bool_decide (t = "Team")) eqn:E; cbn [negb andb].
    + apply bool_decide_eq_true in E.
      destruct (bool_decide (t ∈ names0)); cbn [negb]; [reflexivity|].
      rewrite filter_app. cbn. rewrite decide_False by tauto.
      rewrite app_nil_r. reflexivity.
    + apply bool_decide_eq_false in E.
      assert (Hiff : t ∈ filter (fun t : str => t <> "Team") names0 <-> t ∈ names0)
        by (rewrite list_elem_of_filter; tauto).
      destruct (bool_decide (t ∈ names0)) eqn:Ed.
      * apply bool_decide_eq_true in Ed.
        rewrite bool_decide_eq_true_2 by (apply Hiff, Ed). reflexivity.
      * apply bool_decide_eq_false in Ed.
        rewrite bool_decide_eq_false_2 by (rewrite Hiff; exact Ed).
        cbn [negb]. rewrite filter_app. cbn. rewrite decide_True by exact E.
        reflexivity.
Qed.

Lemma team_names_witness :
  parseValidTeams (fun _ doc => Dom.find ["a"] [doc])
    (Dom.Elem 0 "body" [Dom.Elem 1 "a" [Dom.Text "Duke"];
                        Dom.Elem 2 "a" [Dom.Text "Team"];
                        Dom.Elem 3 "a" [Dom.Text " Duke "]])
  = filter (fun t : str => t <> "Team")
      (Utils.extractTeamNames (fun _ doc => Dom.find ["a"] [doc])
         (Dom.Elem 0 "body" [Dom.Elem 1 "a" [Dom.Text "Duke"];
                             Dom.Elem 2 "a" [Dom.Text "Team"];
                             Dom.Elem 3 "a" [Dom.Text " Duke "]])).
Proof.
  destruct (team_names (fun _ doc => Dom.find ["a"] [doc])
              (Dom.Elem 0 "body" [Dom.Elem 1 "a" [Dom.Text "Duke"];
                                  Dom.Elem 2 "a" [Dom.Text "Team"];
                                  Dom.Elem 3 "a" [Dom.Text " Duke "]]))
    as (_ & _ & _ & H).
  apply H. repeat constructor.
Defined.

(** ** Conference pages *)

Section SplitHead.

(** The first part of a split: the text before the first separator. *)
Lemma split_go_head (sep : str) (s : str) :
  forall cur,
  exists p rest q,
    split_go sep 0 cur s = (cur ++ p) :: rest
    /\ s = p ++ q /\ (q = [] \/ starts_with sep q = true)
    /\ (forall i, i < length p -> starts_with sep (drop i s) = false).
Proof.
  induction s as [|a s IH]; intros cur.
  - exists [], [], []. rewrite app_nil_r. repeat split; auto.
    intros i Hi. simpl in Hi. lia.
  - cbn [split_go]. destruct (starts_with sep (a :: s)) eqn:E.
    + exists [], (split_go sep (length sep - 1) [] s), (a :: s).
      rewrite app_nil_r. repeat split; auto. intros i Hi. simpl in Hi. lia.
    + destruct (IH (cur ++ [a])) as (p & rest & q & Hs & -> & Hq & Hp).
      exists (a :: p), rest, q. rewrite Hs, <- app_assoc.
      repeat split; auto.
      intros [|i] Hi; [exact E|]. simpl in Hi. apply Hp. lia.
Qed.

Lemma split_head (sep : str) (s : str) :
  sep <> [] ->
  exists p rest q,
    split sep s = p :: rest /\ s = p ++ q
    /\ (q = [] \/ starts_with sep q = true)
    /\ includes sep p = false.
Proof.
  intros Hsep. destruct (split_go_head sep s []) as (p & rest & q & Hs & Heq & Hq & Hp).
  exists p, rest, q. repeat split; auto.
  destruct (includes sep p) eqn:E; [exfalso|reflexivity].
  apply includes_spec in E as (a & b & Ep).
  assert (Hi : length a < length p).
  { rewrite Ep, !length_app. destruct sep; [congruence|simpl; lia]. }
  specialize (Hp _ Hi). rewrite Heq, Ep, <- !app_assoc, drop_app_length in Hp.
  assert (Ht : starts_with sep (sep ++ b ++ q) = true)
    by (apply starts_with_spec; eexists; reflexivity).
  congruence.
Qed.

(** A trimmed text does not start with white space. *)
Lemma trimmed_head (s : str) a t :
  trim s = a :: t -> is_space a = false.
Proof.
  unfold trim. intros E.
  pose proof (drop_while_stops is_space s) as H1.
  destruct (drop_while_suffix is_space (rev (drop_while is_space s))) as [pre Hpre].
  set (y := drop_while is_space s) in *.
  assert (Ey : y = rev (drop_while is_space (rev y)) ++ rev pre)
    by (rewrite <- rev_app_distr, <- Hpre, rev_involutive; reflexivity).
  rewrite E in Ey. rewrite Ey in H1. exact H1.
Qed.

Lemma split_trimmed (sep : str) c (s : str) :
  is_space c = true -> s <> [] -> trim s = s ->
  exists p, default "" (split (c :: sep) s !! 0) = p /\ p <> []
            /\ includes (c :: sep) p = false
            /\ exists q, s = p ++ q.
Proof.
  intros Hc Hne Ht.
  destruct (split_head (c :: sep) s ltac:(discriminate))
    as (p & rest & q & Hs & Heq & Hq & Hp).
  exists p. rewrite Hs. cbn. repeat split; auto; [|eauto].
  intros ->. cbn [app] in Heq. subst q.
  destruct Hq as [->|Hq]; [congruence|].
  destruct s as [|a s]; [congruence|].
  cbn [starts_with] in Hq. apply andb_true_iff in Hq as [Hq _].
  apply Ascii.eqb_eq in Hq. subst a.
  rewrite (trimmed_head _ _ _ Ht) in Hc. discriminate.
Qed.

End SplitHead.

Section Conference.

Lemma statsTable_rows (table : list Dom.node) :
  Forall (fun r : TableRow =>
            exists stat value rank : str,
              r = <["Rank" := rank]> (<["Value" := value]> (<["Stat" := stat]> ∅))
              /\ stat <> "" /\ trim stat = stat)
    (parseConferenceStatsTable table).
Proof.
  unfold parseConferenceStatsTable.
  apply (each_inv (Forall _)); [|constructor].
  intros _ row rows Hrows. cbv zeta.
  destruct (length (Dom.find ["td"] [row]) <? 3); [exact Hrows|].
  destruct (truthy (cellText (Dom.find ["td"] [row]) 0)) eqn:Et; [|exact Hrows].
  apply Forall_app. split; [exact Hrows|]. constructor; [|constructor].
  eexists _, _, _. split; [reflexivity|]. split.
  - intros E. rewrite E in Et. discriminate.
  - unfold cellText. apply trim_idempotent.
Qed.

Lemma aggregateRow_keys (row : TableRow) :
  has_keys ["Stat"; "Value"; "Rank"] (aggregateRow row).
Proof.
  intros k. unfold aggregateRow.
  repeat rewrite lookup_insert_is_Some'. rewrite !elem_of_cons, elem_of_nil.
  pose proof (lookup_empty_is_Some (M := gmap str) (A := str) k) as Hempty.
  split; intros Hk; repeat (destruct Hk as [Hk|Hk]; [subst; auto 12|]);
    contradiction.
Qed.

Lemma eq_from_end (sel : list Dom.node) (k : nat) n :
  k <= length sel -> sel !! (length sel - k) = Some n ->
  Dom.eq sel (Z.of_nat (length sel) - Z.of_nat k) = [n].
Proof.
  intros Hk Hn. unfold Dom.eq.
  assert (E : (Z.of_nat (length sel) - Z.of_nat k <? 0)%Z = false)
    by (apply Z.ltb_ge; lia).
  rewrite E, E.
  replace (Z.to_nat (Z.of_nat (length sel) - Z.of_nat k)) with (length sel - k) by lia.
  rewrite Hn. reflexivity.
Qed.

End Conference.

(** The aggregate statistics of a conference page.  A row has exactly the
    keys [Stat], [Value] and [Rank]; its statistic is not empty and is the
    text of the first cell up to, and without, the first [" ("].  The rows
    come from the third and the second table from the end, in this order;
    nothing fails on a page with fewer tables: without a table the result is
    empty, with one table it is read as the second from the end, and with
    two tables the last one is read before the first. *)
Theorem conference_aggregate (doc : Dom.node) :
  let tables := Dom.find ["table"] [doc] in
  let rows := parseConferenceAggregateStats doc true in
  (forall r, r ∈ rows ->
     has_keys ["Stat"; "Value"; "Rank"] r
     /\ exists stat, r !! "Stat" = Some stat /\ stat <> ""
                     /\ includes " (" stat = false)
  /\ (tables = [] -> rows = [])
  /\ (forall t, tables = [t] -> rows = aggregateRow <$> parseConferenceStatsTable [t])
  /\ (forall t1 t2, tables = [t1; t2] ->
        rows = aggregateRow <$> (parseConferenceStatsTable [t2]
                                 ++ parseConferenceStatsTable [t1]))
  /\ (forall a b,
        3 <= length tables ->
        tables !! (length tables - 3) = Some a ->
        tables !! (length tables - 2) = Some b ->
        rows = aggregateRow <$> (parseConferenceStatsTable [a]
                                 ++ parseConferenceStatsTable [b])).
Proof.
  intros tables rows. unfold rows, parseConferenceAggregateStats. fold tables.
  cbv zeta. split; [|split; [|split; [|split]]].
  - intros r Hr. apply list_elem_of_fmap in Hr as (r0 & -> & Hr0).
    split; [apply aggregateRow_keys|].
    assert (H0 : exists stat value rank : str,
              r0 = <["Rank" := rank]> (<["Value" := value]> (<["Stat" := stat]> ∅))
              /\ stat <> "" /\ trim stat = stat).
    { apply elem_of_app in Hr0 as [Hr0|Hr0];
        [pose proof (statsTable_rows (Dom.eq tables (Z.of_nat (length tables) - 3))) as H
        |pose proof (statsTable_rows (Dom.eq tables (Z.of_nat (length tables) - 2))) as H];
        rewrite Forall_forall in H; apply H, Hr0. }
    destruct H0 as (stat & value & rank & -> & Hne & Ht).
    unfold aggregateRow. rewrite !lookup_insert_ne by discriminate.
    rewrite lookup_insert_eq.
    rewrite !lookup_insert_ne by discriminate. rewrite lookup_insert_eq.
    destruct (split_trimmed "(" " " stat eq_refl Hne Ht) as (p & Hp & Hpne & Hinc & _).
    exists p. split; [|auto].
    destruct stat; [congruence|]. cbn [truthy]. rewrite Hp. reflexivity.
  - intros ->. reflexivity.
  - intros t ->. reflexivity.
  - intros t1 t2 ->. reflexivity.
  - intros a b Hlen Ha Hb.
    change 3%Z with (Z.of_nat 3). change 2%Z with (Z.of_nat 2).
    rewrite (eq_from_end tables 3 a) by (assumption || lia).
    rewrite (eq_from_end tables 2 b) by (assumption || lia).
    reflexivity.
Qed.

Lemma conference_aggregate_witness :
  parseConferenceAggregateStats
    (Dom.Elem 0 "body"
       [Dom.Elem 1 "table"
          [Dom.Elem 2 "tr" []; Dom.Elem 3 "tr" [Dom.Elem 4 "td" [Dom.Text "eFG%"];
                                                Dom.Elem 5 "td" [Dom.Text "52.3"];
                                                Dom.Elem 6 "td" [Dom.Text "10"]]];
        Dom.Elem 7 "table"
          [Dom.Elem 8 "tr" []; Dom.Elem 9 "tr" [Dom.Elem 10 "td" [Dom.Text "Tempo (Adjusted)"];
                                                Dom.Elem 11 "td" [Dom.Text "68.5"];
                                                Dom.Elem 12 "td" [Dom.Text "5"]]]]) true
  = [<["Rank" := "5"]> (<["Value" := "68.5"]> (<["Stat" := "Tempo"]> ∅));
     <["Rank" := "10"]> (<["Value" := "52.3"]> (<["Stat" := "eFG%"]> ∅))].
Proof.
  match goal with
  | |- parseConferenceAggregateStats ?d true = _ =>
      destruct (conference_aggregate d) as (_ & _ & _ & H & _)
  end.
  erewrite H by (vm_compute; reflexivity). by_compute.
Defined.

(** ** Tables read with the headers of the page *)

Section GenericTables.

Lemma size_empty_row : size (∅ : TableRow) = 0.
Proof. apply map_size_empty. Qed.

(** The row loop of the utilities, which has no test on the number of
    cells but a test on the position, is the row loop of [extractRows]. *)
Lemma tableElement_rows (headers : list str) (rows : list Dom.node) :
  Dom.each (fun _i row (rows : list TableRow) =>
    let rowData : TableRow :=
      Dom.each (fun j cell (rowData : TableRow) =>
        if j <? length headers then
          match headers !! j with
          | Some header => put header (trim (Dom.text cell)) rowData
          | None => rowData
          end
        else rowData) 0 (Dom.find ["td"] [row]) ∅ in
    if 0 <? size rowData then rows ++ [rowData] else rows) 0 rows []
  = Dom.each (fun _i row (rows : list TableRow) =>
      let cells := Dom.find ["td"] [row] in
      if length cells =? 0 then rows
      else
        let rowData : TableRow := ∅ in
        let rowData :=
          Dom.each (fun j cell (rowData : TableRow) =>
            match headers !! j with
            | Some col => put col (trim (Dom.text cell)) rowData
            | None => rowData
            end) 0 cells rowData in
        if 0 <? size rowData then rows ++ [rowData] else rows) 0 rows [].
Proof.
  apply each_ext. intros _ row acc. cbv zeta.
  rewrite (each_ext _ (fun j cell (rowData : TableRow) =>
                         match headers !! j with
                         | Some col => put col (trim (Dom.text cell)) rowData
                         | None => rowData
                         end)).
  - destruct (Dom.find ["td"] [row]) as [|c cells]; [|reflexivity].
    cbn [Dom.each length Nat.eqb]. rewrite size_empty_row. reflexivity.
  - intros j cell rd. destruct (j <? length headers) eqn:E; [reflexivity|].
    apply Nat.ltb_ge in E. rewrite lookup_ge_None_2 by exact E. reflexivity.
Qed.

Lemma seedRow_spec (row : TableRow) :
  (exists cell, row !! "Team" = Some cell /\ cell <> ""
                /\ seedRow row
                   = <["Team" := trim (List.filter not_digit cell)]>
                       (<["Seed" := take_while is_digit (drop_while not_digit cell)]> row))
  \/ (truthy_opt (row !! "Team") = false /\ seedRow row = row).
Proof.
  unfold seedRow. destruct (row !! "Team") as [cell|] eqn:E; [|right; auto].
  destruct cell as [|a cell]; [right; auto|left].
  exists (a :: cell). split; [reflexivity|]. split; [discriminate|].
  cbn [truthy_opt truthy]. cbv zeta.
  rewrite lookup_insert_ne by discriminate. rewrite E.
  rewrite (seed_of_cell (Some (a :: cell))), (team_of_cell (Some (a :: cell))).
  reflexivity.
Qed.

Lemma seedRow_empty : seedRow ∅ = ∅.
Proof. reflexivity. Qed.

Lemma seedRow_nonempty (row : TableRow) : row <> ∅ -> seedRow row <> ∅.
Proof.
  intros Hne. destruct (seedRow_spec row) as [(cell & _ & _ & ->)|[_ ->]];
    [|exact Hne].
  intros E. apply (f_equal (fun r : TableRow => r !! "Team")) in E.
  rewrite lookup_insert_eq, lookup_empty in E. discriminate.
Qed.

(** The row loop of [parseConferenceStandings]. *)
Lemma standings_loop (headers : list str) (rows : list Dom.node) :
  forall i (acc : list TableRow),
    Dom.each (fun _i row (rows : list TableRow) =>
       let cells := Dom.find ["td"] [row] in
       if length cells =? 0 then rows
       else
         let rowData : TableRow :=
           Dom.each (fun j cell (rowData : TableRow) =>
             match headers !! j with
             | Some header => put header (trim (Dom.text cell)) rowData
             | None => rowData
             end) 0 cells ∅ in
         let rowData := seedRow rowData in
         if 0 <? size rowData then rows ++ [rowData] else rows) i rows acc
    = acc ++ filter (fun r : TableRow => r <> ∅)
               ((fun row => seedRow (assign headers (cellTexts row))) <$> rows).
Proof.
  induction rows as [|row rows IH]; intros i acc; simpl.
  - rewrite app_nil_r. reflexivity.
  - rewrite IH. clear IH. cbv zeta. rewrite cell_loop_assign.
    fold (cellTexts row).
    destruct (Nat.eqb_spec (length (Dom.find ["td"] [row])) 0) as [E|E].
    + assert (Hempty : assign headers (cellTexts row) = ∅).
      { unfold cellTexts. apply length_zero_iff_nil in E. rewrite E.
        apply assign_nil. }
      rewrite Hempty, seedRow_empty. rewrite filter_cons_False by tauto.
      reflexivity.
    + destruct (Nat.ltb_spec 0 (size (seedRow (assign headers (cellTexts row)))))
        as [Hs|Hs].
      * rewrite filter_cons_True, <- app_assoc; [reflexivity|].
        intros Heq. rewrite Heq, map_size_empty in Hs. lia.
      * rewrite filter_cons_False; [reflexivity|].
        intros Hne. apply Hne. apply map_size_empty_iff. lia.
Qed.

End GenericTables.

(** Tables whose column names are read from the page.  The generic table
    reader of the utilities and the reader of the conference tables both
    return what the row extractor returns for the headers they derive, so
    rows without a cell are skipped and cells beyond the headers are
    dropped.  The offense and the defense of a conference are the second
    and the third table read this way, the statistics of all conferences the
    first one, and for a page without a table these are empty instead of
    failing. *)
Theorem header_tables (doc : Dom.node) (table : list Dom.node) :
  let head := Dom.find ["th"; "td"] (Dom.find ["tr"] (Dom.find ["thead"] table)) in
  Utils.parseTableElement table
  = extractRows table
      (Utils.tableHeaders (Dom.find ["th"; "td"] (Utils.headerRow table)))
  /\ parseConferenceTable table = extractRows table (conferenceHeaders head)
  /\ (table = Dom.eq (Dom.find ["table"] [doc]) 0 ->
      parseConferenceAggregateStats doc false = extractRows table (conferenceHeaders head))
  /\ (Dom.find ["table"] [doc] = [] -> parseConferenceAggregateStats doc false = [])
  /\ (forall i, (i = 1 \/ i = 2)%Z -> getTable doc i = Ok table ->
        (if (i =? 1)%Z then parseConferenceOffense doc else parseConferenceDefense doc)
        = Ok (extractRows table (conferenceHeaders head))).
Proof.
  intros head. split; [|split; [|split; [|split]]].
  - unfold Utils.parseTableElement, extractRows, bodyRows. cbv zeta.
    apply tableElement_rows.
  - reflexivity.
  - intros ->. reflexivity.
  - intros E. unfold parseConferenceAggregateStats. rewrite E. reflexivity.
  - intros i [-> | ->] Ht; cbn [Z.eqb Pos.eqb];
      unfold parseConferenceOffense, parseConferenceDefense; rewrite Ht; reflexivity.
Qed.

Lemma header_tables_witness :
  parseConferenceAggregateStats (Dom.Elem 0 "body" []) false = [].
Proof.
  pose proof (header_tables (Dom.Elem 0 "body" []) []) as H.
  cbv zeta in H. destruct H as (_ & _ & _ & H & _).
  apply H. reflexivity.
Defined.

(** The standings of a conference.  The rows returned are, in order, the
    body rows of the first table read with the headers derived from its
    header cells, after the seed step, without the rows left empty.  So
    every row returned comes from a body row with at least one cell: when
    the team cell read is not empty the team becomes the cell without
    digits and surrounding white space and the seed the first run of
    digits of the cell, and otherwise the row is left as it was read,
    without a seed of its own.  In every case a team of the result has no
    digit and no white space around it. *)
Theorem standings_rows (doc : Dom.node) (rows : list TableRow) :
  parseConferenceStandings doc = Ok rows ->
  let table := Dom.eq (Dom.find ["table"] [doc]) 0 in
  let headers :=
    conferenceHeaders
      (Dom.find ["th"; "td"] (Dom.find ["tr"] (Dom.find ["thead"] table))) in
  rows = filter (fun r : TableRow => r <> ∅)
           ((fun row => seedRow (assign headers (cellTexts row))) <$> bodyRows table)
  /\ forall r, r ∈ rows ->
       exists row,
         row ∈ bodyRows table /\ cellTexts row <> []
         /\ ((exists cell,
                assign headers (cellTexts row) !! "Team" = Some cell /\ cell <> ""
                /\ r = <["Team" := trim (List.filter not_digit cell)]>
                         (<["Seed" := take_while is_digit (drop_while not_digit cell)]>
                            (assign headers (cellTexts row))))
             \/ (truthy_opt (assign headers (cellTexts row) !! "Team") = false
                 /\ r = assign headers (cellTexts row)))
         /\ (forall team, r !! "Team" = Some team -> clean team).
Proof.
  unfold parseConferenceStandings. intros H.
  destruct (getTable doc 0) as [table|e] eqn:Et; [|discriminate].
  apply getTable_Ok in Et as [-> _].
  injection H as <-. cbv zeta.
  set (table := Dom.eq (Dom.find ["table"] [doc]) 0).
  set (headers := conferenceHeaders
                    (Dom.find ["th"; "td"] (Dom.find ["tr"] (Dom.find ["thead"] table)))).
  pose proof (standings_loop headers (bodyRows table) 0 []) as E.
  cbv zeta in E. cbn [app] in E. rewrite E. clear E.
  split; [reflexivity|].
  intros r Hr. apply list_elem_of_filter in Hr as [Hne Hr].
  apply list_elem_of_fmap in Hr as (row & -> & Hrow).
  exists row. split; [exact Hrow|]. split.
  { intros E. apply Hne. rewrite E, assign_nil. reflexivity. }
  destruct (seedRow_spec (assign headers (cellTexts row)))
    as [(cell & Hc & Hcne & ->)|[Hf ->]].
  - split; [left; exists cell; auto|].
    intros team. rewrite lookup_insert_eq. intros [= <-].
    rewrite <- stripSeed_filter. apply stripSeed_clean.
  - split; [right; auto|].
    intros team Ht. rewrite Ht in Hf. destruct team; [apply clean_empty|discriminate].
Qed.

Lemma standings_rows_witness :
  parseConferenceStandings
    (Dom.Elem 0 "body" [Dom.Elem 1 "table"
       [Dom.Elem 2 "thead"
          [Dom.Elem 3 "tr" [Dom.Elem 4 "th" [Dom.Text "Team"]]];
        Dom.Elem 5 "tbody"
          [Dom.Elem 6 "tr" [Dom.Elem 7 "td" [Dom.Text "Duke 1"]];
           Dom.Elem 8 "tr" []]]])
  = Ok [<["Team" := "Duke"]> (<["Seed" := "1"]> (<["Team" := "Duke 1"]> ∅))]
  /\ [<["Team" := "Duke"]> (<["Seed" := "1"]> (<["Team" := "Duke 1"]> ∅) : TableRow)]
     = filter (fun r : TableRow => r <> ∅)
         ((fun row => seedRow (assign ["Team"] (cellTexts row)))
            <$> [Dom.Elem 6 "tr" [Dom.Elem 7 "td" [Dom.Text "Duke 1"]];
                 Dom.Elem 8 "tr" []]).
Proof.
  assert (H : parseConferenceStandings
                (Dom.Elem 0 "body" [Dom.Elem 1 "table"
                   [Dom.Elem 2 "thead"
                      [Dom.Elem 3 "tr" [Dom.Elem 4 "th" [Dom.Text "Team"]]];
                    Dom.Elem 5 "tbody"
                      [Dom.Elem 6 "tr" [Dom.Elem 7 "td" [Dom.Text "Duke 1"]];
                       Dom.Elem 8 "tr" []]]])
              = Ok [<["Team" := "Duke"]> (<["Seed" := "1"]> (<["Team" := "Duke 1"]> ∅))])
    by by_compute.
  split; [exact H|].
  exact (proj1 (standings_rows _ _ H)).
Defined.

(** ** Player statistics *)

Section Players.

Lemma replace_chars_remove (cl : ascii -> bool) (s : str) :
  replace_chars cl "" s = List.filter (fun a => negb (cl a)) s.
Proof.
  unfold replace_chars. induction s as [|a s IH]; [reflexivity|].
  cbn [flat_map List.filter]. rewrite IH. destruct (cl a); reflexivity.
Qed.

Lemma ortgRow_lookup (row : TableRow) :
  ortgRow row !! "ORtg" = Some (default "" (split " " (default "" (row !! "ORtg")) !! 0))
  /\ ortgRow row !! "Poss%"
     = Some (match split " " (default "" (row !! "ORtg")) !! 1 with
             | Some p => if truthy p then replace_chars is_paren "" p else ""
             | None => ""
             end)
  /\ (forall k, k <> "ORtg" -> k <> "Poss%" -> ortgRow row !! k = row !! k).
Proof.
  unfold ortgRow. cbv zeta. split; [|split].
  - rewrite lookup_insert_ne by discriminate. apply lookup_insert_eq.
  - apply lookup_insert_eq.
  - intros k H1 H2. rewrite !lookup_insert_ne by congruence. reflexivity.
Qed.

(** The rating has no space and the share of possessions no parenthesis. *)
Lemma ortgRow_shape (row : TableRow) :
  exists rating share : str,
    ortgRow row !! "ORtg" = Some rating /\ ortgRow row !! "Poss%" = Some share
    /\ (" "%char ∉ rating) /\ ("("%char ∉ share) /\ (")"%char ∉ share)
    /\ exists rest, default "" (row !! "ORtg") = rating ++ rest.
Proof.
  destruct (ortgRow_lookup row) as (H1 & H2 & _).
  destruct (split_head " " (default "" (row !! "ORtg")) ltac:(discriminate))
    as (p & rest & q & Hs & Heq & _ & Hp).
  eexists _, _. split; [exact H1|]. split; [exact H2|].
  rewrite Hs. cbn [lookup list_lookup default from_option id].
  split; [apply includes_char; exact Hp|].
  assert (Hpar : forall c, is_paren c = true ->
            c ∉ match rest !! 0 with
                | Some p0 => if truthy p0 then replace_chars is_paren "" p0 else ""
                | None => ""
                end).
  { intros c Hc. destruct (rest !! 0) as [p0|]; [|apply not_elem_of_nil].
    destruct (truthy p0); [|apply not_elem_of_nil].
    rewrite replace_chars_remove. intros Hin.
    apply list_elem_of_In, filter_In in Hin as [_ Hin].
    rewrite Hc in Hin. discriminate. }
  split; [apply Hpar; reflexivity|]. split; [apply Hpar; reflexivity|].
  exists q. exact Heq.
Qed.

Lemma playerColumns_ortg : playerColumns "ORtg" = ortgColumns.
Proof. reflexivity. Qed.

Lemma rank_first (metric : str) :
  exists columns, playerColumns metric = "Rank" :: columns.
Proof.
  unfold playerColumns. cbv zeta.
  destruct (bool_decide _); eexists; reflexivity.
Qed.

(** A row read with the rating columns has a rank exactly when it has a
    cell. *)
Lemma rated_rank (texts : list str) :
  assign ortgColumns texts <> ∅ <-> is_Some (assign ortgColumns texts !! "Rank").
Proof.
  rewrite assign_is_Some, assign_empty_plain by by_compute. unfold ortgColumns.
  destruct texts as [|t texts]; simpl.
  - rewrite elem_of_nil. split; [intros H; exfalso; apply H; auto|tauto].
  - split; [intros _; split; [left|discriminate]|]. intros _ [H|H]; discriminate.
Qed.

Lemma rated_filter (raw : list TableRow) :
  Forall (fun rd => exists texts, rd = assign ortgColumns texts) raw ->
  filter (fun row : TableRow =>
            row !! "Rank" <> Some "Rank" /\ row !! "Rank" <> Some ""
            /\ row !! "Player" <> Some "")
    (filter (fun r : TableRow => r <> ∅) raw)
  = filter (fun row : TableRow => row !! "Player" <> Some "")
      (filter (fun rd : TableRow =>
                 truthy_opt (rd !! "Rank") = true /\ rd !! "Rank" <> Some "Rank") raw).
Proof.
  induction raw as [|rd raw IH]; intros Hall; [reflexivity|].
  inversion Hall as [|? ? [texts ->] Hall']; subst. specialize (IH Hall').
  pose proof (rated_rank texts) as Hrank.
  set (rd := assign ortgColumns texts) in *.
  rewrite (filter_cons (fun r : TableRow => r <> ∅)).
  rewrite (filter_cons (fun rd : TableRow =>
                          truthy_opt (rd !! "Rank") = true /\ rd !! "Rank" <> Some "Rank")).
  destruct (decide (rd <> ∅)) as [Hne|He].
  - apply Hrank in Hne as [rank Hr].
    rewrite filter_cons.
    destruct (decide (truthy_opt (rd !! "Rank") = true /\ rd !! "Rank" <> Some "Rank"))
      as [[Ht Hn]|Hno].
    + rewrite filter_cons.
      destruct (decide (rd !! "Player" <> Some "")) as [Hp|Hp].
      * rewrite decide_True; [rewrite IH; reflexivity|].
        repeat split; auto. rewrite Hr in Ht |- *. intros [= ->]. discriminate.
      * rewrite decide_False by tauto. exact IH.
    + rewrite decide_False; [exact IH|].
      intros (H1 & H2 & _). apply Hno. split; [|exact H1].
      rewrite Hr in H2 |- *. destruct rank; [congruence|reflexivity].
  - rewrite decide_False; [exact IH|].
    intros [Ht _]. apply He. apply Hrank.
    destruct (rd !! "Rank"); [eauto|discriminate].
Qed.

Lemma filter_ortgRow (rows : list TableRow) :
  filter (fun row : TableRow => row !! "Player" <> Some "") (ortgRow <$> rows)
  = ortgRow <$> filter (fun row : TableRow => row !! "Player" <> Some "") rows.
Proof.
  induction rows as [|r rows IH]; [reflexivity|].
  cbn [fmap list_fmap]. rewrite !filter_cons.
  destruct (ortgRow_lookup r) as (_ & _ & Hk).
  rewrite (Hk "Player") by discriminate.
  destruct (decide (r !! "Player" <> Some "")); cbn [fmap list_fmap];
    rewrite IH; reflexivity.
Qed.

(** The row loop of one table of [parseAllPlayerStatsTables]. *)
Lemma rated_loop (rows : list Dom.node) :
  forall acc : list TableRow,
    Dom.each (fun _j row (rows : list TableRow) =>
      let cells := Dom.find ["td"] [row] in
      if length cells =? 0 then rows
      else
        let rowData : TableRow :=
          Dom.each (fun k cell (rowData : TableRow) =>
            match ortgColumns !! k with
            | Some col => put col (trim (Dom.text cell)) rowData
            | None => rowData
            end) 0 cells ∅ in
        if truthy_opt (rowData !! "Rank")
           && negb (bool_decide (rowData !! "Rank" = Some "Rank"))
        then rows ++ [ortgRow rowData]
        else rows) 0 rows acc
    = acc ++ (ortgRow
              <$> filter (fun rd : TableRow =>
                            truthy_opt (rd !! "Rank") = true
                            /\ rd !! "Rank" <> Some "Rank")
                    ((fun row => assign ortgColumns (cellTexts row)) <$> rows)).
Proof.
  induction rows as [|row rows IH]; intros acc.
  - simpl. rewrite app_nil_r. reflexivity.
  - cbn [Dom.each fmap list_fmap]. rewrite filter_cons.
    rewrite (each_index _ rows 1 0). rewrite IH. cbv zeta.
    rewrite cell_loop_assign. fold (cellTexts row).
    set (rd := assign ortgColumns (cellTexts row)).
    destruct (length (Dom.find ["td"] [row]) =? 0) eqn:Ec.
    + assert (Hrd : rd = ∅).
      { unfold rd, cellTexts.
        apply Nat.eqb_eq in Ec. destruct (Dom.find ["td"] [row]); [|discriminate].
        apply assign_nil. }
      rewrite decide_False; [reflexivity|].
      rewrite Hrd, lookup_empty. intros [H _]. discriminate.
    + destruct (truthy_opt (rd !! "Rank")) eqn:Et; cbn [andb].
      * destruct (bool_decide (rd !! "Rank" = Some "Rank")) eqn:Eb; cbn [negb].
        -- apply bool_decide_eq_true in Eb.
           rewrite decide_False by tauto. reflexivity.
        -- apply bool_decide_eq_false in Eb.
           rewrite decide_True by tauto. cbn [fmap list_fmap].
           rewrite <- app_assoc. reflexivity.
      * rewrite decide_False; [reflexivity|]. intros [H _]. discriminate.
Qed.

(** The table loop of [parseAllPlayerStatsTables]. *)
Lemma rated_tables (tables : list Dom.node) :
  forall acc : list (list TableRow),
    Dom.each (fun _i tableEl (results : list (list TableRow)) =>
      let rows := ratedRows [tableEl] in
      if 0 <? length rows then results ++ [rows] else results) 0 tables acc
    = acc ++ filter (fun rows : list TableRow => rows <> [])
               ((fun t => ratedRows [t]) <$> tables).
Proof.
  induction tables as [|t tables IH]; intros acc.
  - simpl. rewrite app_nil_r. reflexivity.
  - cbn [Dom.each fmap list_fmap]. rewrite filter_cons.
    rewrite (each_index _ tables 1 0). rewrite IH. cbv zeta.
    destruct (ratedRows [t]) as [|r rows] eqn:E.
    + cbn [length Nat.ltb Nat.leb]. rewrite decide_False by tauto. reflexivity.
    + rewrite decide_True by discriminate.
      change (0 <? length (r :: rows)) with true. cbv iota.
      rewrite <- app_assoc. reflexivity.
Qed.

Lemma all_tables (doc : Dom.node) :
  parseAllPlayerStatsTables doc
  = filter (fun rows : list TableRow => rows <> [])
      ((fun t => ratedRows [t]) <$> Dom.find ["table"] [doc]).
Proof.
  unfold parseAllPlayerStatsTables. cbv zeta.
  rewrite <- (app_nil_l (filter _ _)). rewrite <- rated_tables.
  apply each_ext. intros i t acc. rewrite rated_loop. reflexivity.
Qed.

End Players.

Section RatedRows.

Lemma ratedRows_shape (table : list Dom.node) (row : TableRow) :
  row ∈ ratedRows table ->
  exists rank rating share : str,
    row !! "Rank" = Some rank /\ rank <> "" /\ rank <> "Rank"
    /\ row !! "ORtg" = Some rating /\ row !! "Poss%" = Some share
    /\ (" "%char ∉ rating) /\ ("("%char ∉ share) /\ (")"%char ∉ share).
Proof.
  unfold ratedRows. intros Hin.
  apply list_elem_of_fmap in Hin as (rd & -> & Hin).
  apply list_elem_of_filter in Hin as [[Ht Hn] _].
  destruct (ortgRow_shape rd) as (rating & share & H1 & H2 & H3 & H4 & H5 & _).
  destruct (ortgRow_lookup rd) as (_ & _ & Hk).
  destruct (rd !! "Rank") as [rank|] eqn:Er; [|discriminate].
  exists rank, rating, share.
  rewrite (Hk "Rank") by discriminate.
  split; [exact Er|]. split; [intros ->; discriminate|].
  split; [congruence|]. auto.
Qed.

Lemma first_table (doc : Dom.node) (table : list Dom.node) :
  getTable doc 0 = Ok table ->
  exists t ts, Dom.find ["table"] [doc] = t :: ts /\ table = [t].
Proof.
  intros H. apply getTable_Ok in H as [-> Hlt].
  destruct (Dom.find ["table"] [doc]) as [|t ts]; [simpl in Hlt; lia|].
  exists t, ts. split; reflexivity.
Qed.

Lemma rated_player_stats (doc : Dom.node) (rows : list TableRow) :
  parsePlayerStats doc "ORtg" = Ok rows ->
  exists t ts, Dom.find ["table"] [doc] = t :: ts
    /\ rows = filter (fun row : TableRow => row !! "Player" <> Some "") (ratedRows [t]).
Proof.
  unfold parsePlayerStats.
  destruct (getTable doc 0) as [table|e] eqn:Eg; [|discriminate].
  apply first_table in Eg as (t & ts & Ef & ->).
  cbv zeta. rewrite bool_decide_eq_true_2 by reflexivity.
  intros [= <-]. exists t, ts. split; [exact Ef|].
  rewrite playerColumns_ortg, extractRows_assign.
  rewrite rated_filter.
  - unfold ratedRows. symmetry. apply filter_ortgRow.
  - apply Forall_forall. intros rd Hin.
    apply list_elem_of_fmap in Hin as (row & -> & _). eauto.
Qed.

End RatedRows.

(** [parseAllPlayerStatsTables] returns, for every table of the page in
    order, the rows read with the seven rating columns that have a non-empty
    rank other than the header text "Rank", and leaves out the tables
    without such a row, so no entry of the result is empty.  Every row keeps
    its rank, its rating holds no space and its share of possessions no
    parenthesis. *)
Theorem player_tables (doc : Dom.node) :
  parseAllPlayerStatsTables doc
  = filter (fun rows : list TableRow => rows <> [])
      ((fun t => ratedRows [t]) <$> Dom.find ["table"] [doc])
  /\ (forall rows, rows ∈ parseAllPlayerStatsTables doc ->
        rows <> []
        /\ forall row, row ∈ rows ->
             exists rank rating share : str,
               row !! "Rank" = Some rank /\ rank <> "" /\ rank <> "Rank"
               /\ row !! "ORtg" = Some rating /\ row !! "Poss%" = Some share
               /\ (" "%char ∉ rating) /\ ("("%char ∉ share) /\ (")"%char ∉ share)).
Proof.
  split; [apply all_tables|].
  intros rows Hin. rewrite all_tables in Hin.
  apply list_elem_of_filter in Hin as [Hne Hin].
  split; [exact Hne|].
  apply list_elem_of_fmap in Hin as (t & -> & _).
  intros row Hrow. exact (ratedRows_shape _ _ Hrow).
Qed.

Lemma player_tables_witness :
  exists rating : str,
    ortgRow (assign ortgColumns ["1"; ""; "Duke"; "125.5 (28.5%)"]) !! "ORtg"
    = Some rating
    /\ " "%char ∉ rating.
Proof.
  destruct (player_tables
              (Dom.Elem 0 "body" [Dom.Elem 1 "table"
                 [Dom.Elem 2 "tr" [Dom.Elem 3 "th" [Dom.Text "Rank"]];
                  Dom.Elem 4 "tr" [Dom.Elem 5 "td" [Dom.Text "1"];
                                   Dom.Elem 6 "td" [];
                                   Dom.Elem 7 "td" [Dom.Text "Duke"];
                                   Dom.Elem 8 "td" [Dom.Text "125.5 (28.5%)"]]];
                 Dom.Elem 9 "table" []]))
    as [_ H].
  destruct (H [ortgRow (assign ortgColumns ["1"; ""; "Duke"; "125.5 (28.5%)"])]
              ltac:(by_compute)) as [_ Hrows].
  destruct (Hrows _ ltac:(apply list_elem_of_here))
    as (rank & rating & share & _ & _ & _ & H1 & _ & H2 & _).
  exists rating. auto.
Defined.

(** With the metric "ORtg", [parsePlayerStats] returns nothing or the
    first entry of [parseAllPlayerStatsTables] without the rows whose player
    name is empty; its rows have a rank other than "" and "Rank", a
    non-empty player name when they have one, a rating without a space and
    a share of possessions without parentheses. *)
Theorem player_ratings (doc : Dom.node) (rows : list TableRow) :
  parsePlayerStats doc "ORtg" = Ok rows ->
  (rows = []
   \/ exists first rest,
        parseAllPlayerStatsTables doc = first :: rest
        /\ rows = filter (fun row : TableRow => row !! "Player" <> Some "") first)
  /\ (forall row, row ∈ rows ->
        row !! "Player" <> Some ""
        /\ exists rank rating share : str,
             row !! "Rank" = Some rank /\ rank <> "" /\ rank <> "Rank"
             /\ row !! "ORtg" = Some rating /\ row !! "Poss%" = Some share
             /\ (" "%char ∉ rating) /\ ("("%char ∉ share) /\ (")"%char ∉ share)).
Proof.
  intros H. apply rated_player_stats in H as (t & ts & Ef & ->).
  split.
  - rewrite all_tables, Ef. cbn [fmap list_fmap]. rewrite filter_cons.
    destruct (decide (ratedRows [t] <> [])) as [Hne|He].
    + right. eexists _, _. split; reflexivity.
    + left. destruct (ratedRows [t]); [reflexivity|]. exfalso. apply He. discriminate.
  - intros row Hin. apply list_elem_of_filter in Hin as [Hp Hin].
    split; [exact Hp|]. exact (ratedRows_shape _ _ Hin).
Qed.

Lemma player_ratings_witness :
  exists rating share : str,
    ortgRow (assign ortgColumns ["1"; "Cooper Flagg"; "Duke"; "125.5 (28.5%)"])
      !! "ORtg" = Some rating
    /\ ortgRow (assign ortgColumns ["1"; "Cooper Flagg"; "Duke"; "125.5 (28.5%)"])
         !! "Poss%" = Some share
    /\ (" "%char ∉ rating) /\ ("("%char ∉ share).
Proof.
  assert (H : parsePlayerStats
                (Dom.Elem 0 "body" [Dom.Elem 1 "table"
                   [Dom.Elem 2 "tr" [Dom.Elem 3 "th" [Dom.Text "Rank"]];
                    Dom.Elem 4 "tr" [Dom.Elem 5 "td" [Dom.Text "1"];
                                     Dom.Elem 6 "td" [Dom.Text "Cooper Flagg"];
                                     Dom.Elem 7 "td" [Dom.Text "Duke"];
                                     Dom.Elem 8 "td" [Dom.Text "125.5 (28.5%)"]]]])
                "ORtg"
              = Ok [ortgRow (assign ortgColumns
                               ["1"; "Cooper Flagg"; "Duke"; "125.5 (28.5%)"])])
    by by_compute.
  destruct (player_ratings _ _ H) as [_ Hrows].
  destruct (Hrows _ ltac:(apply list_elem_of_here))
    as (_ & rank & rating & share & _ & _ & _ & H1 & H2 & H3 & H4 & _).
  exists rating, share. auto.
Defined.

(** ** Seasons and years *)

Section Seasons.

Lemma run_year (pos : nat) (s : str) :
  run Utils.yearRe pos s no_captures
  = if year_at s
    then Some (4 + pos, close_group 1 (4 + pos) (open_group 1 pos no_captures))
    else None.
Proof.
  unfold year_at, Utils.yearRe.
  destruct s as [|a [|b [|c [|d r]]]]; cbn -[is_digit close_group open_group];
    try reflexivity;
    repeat match goal with
           | |- context [is_digit ?x] => destruct (is_digit x); cbn -[is_digit close_group open_group]
           end; try reflexivity.
  all: destruct r as [|e r]; cbn -[is_digit close_group open_group]; try reflexivity.
  all: destruct (is_digit e); reflexivity.
Qed.

Lemma year_at_app (g post : str) :
  length g = 4 -> year_at (g ++ post) = forallb is_digit g.
Proof.
  intros Hg. unfold year_at.
  rewrite take_app_length' by lia. rewrite Hg. reflexivity.
Qed.

(** The value of four digits. *)
Lemma dec_year (g : str) :
  length g = 4 -> forallb is_digit g = true -> (0 <= dec g <= 9999)%Z.
Proof.
  intros Hg Hd.
  destruct g as [|a [|b [|c [|d [|? ?]]]]]; try discriminate.
  cbn [forallb] in Hd. rewrite !andb_true_iff in Hd.
  destruct Hd as (Ha & Hb & Hc & Hd & _).
  assert (Hv : forall x, is_digit x = true -> (0 <= digit_val x <= 9)%Z).
  { intros x Hx. unfold is_digit in Hx. apply andb_true_iff in Hx as [H1 H2].
    apply Nat.leb_le in H1, H2. unfold digit_val. lia. }
  apply Hv in Ha, Hb, Hc, Hd. unfold dec. cbn [fold_left]. lia.
Qed.

Lemma seasonIn_found (pre g post : str) :
  length g = 4 -> forallb is_digit g = true ->
  (forall i, i < length pre -> year_at (drop i (pre ++ g ++ post)) = false) ->
  Utils.seasonIn (pre ++ g ++ post) = Some (Num (dec g)).
Proof.
  intros Hg Hd Hfirst. unfold Utils.seasonIn, exec.
  rewrite search_skip.
  2:{ intros i Hi. rewrite run_year.
      specialize (Hfirst i Hi). rewrite drop_app_le in Hfirst by lia.
      rewrite Hfirst. reflexivity. }
  rewrite (search_here _ _ _ (4 + (0 + length pre))
             (close_group 1 (4 + (0 + length pre))
                (open_group 1 (0 + length pre) no_captures))).
  2:{ rewrite run_year, year_at_app, Hd by exact Hg. reflexivity. }
  rewrite close_open. cbn [mbind option_bind].
  assert (Hgrp : group (Match (pre ++ g ++ post) (0 + length pre) (4 + (0 + length pre))
                   (Captures (<[1 := 0 + length pre]> (starts no_captures))
                      (<[1 := (0 + length pre, 4 + (0 + length pre))]>
                         (groups no_captures)))) 1 = Some g).
  { group_eq pre g. }
  rewrite Hgrp. pose proof (dec_year g Hg Hd) as Hy.
  destruct g as [|a g]; [discriminate|]. cbn [truthy].
  rewrite parseInt_digits by (unfold digits; cbn [truthy andb]; exact Hd).
  rewrite to_double_safe by lia. reflexivity.
Qed.

Lemma seasonIn_none (s : str) :
  (forall i, year_at (drop i s) = false) -> Utils.seasonIn s = None.
Proof.
  intros Hno. unfold Utils.seasonIn, exec.
  destruct (search Utils.yearRe 0 s) as [[[b e] st]|] eqn:E; [|reflexivity].
  apply search_inv in E as (pre & s' & -> & -> & Hrun).
  rewrite run_year in Hrun. specialize (Hno (length pre)).
  rewrite drop_app_length in Hno. rewrite Hno in Hrun. discriminate.
Qed.

(** A text holds a first group of four digits or none. *)
Lemma year_first (s : str) :
  (exists pre g post,
      s = pre ++ g ++ post /\ length g = 4 /\ forallb is_digit g = true
      /\ forall i, i < length pre -> year_at (drop i s) = false)
  \/ (forall i, year_at (drop i s) = false).
Proof.
  induction s as [|a s IH].
  - right. intros i. rewrite drop_nil. reflexivity.
  - destruct (year_at (a :: s)) eqn:E.
    + left. exists [], (take 4 (a :: s)), (drop 4 (a :: s)).
      unfold year_at in E. apply andb_true_iff in E as [E1 E2].
      apply Nat.eqb_eq in E1. cbn [app]. rewrite take_drop.
      split; [reflexivity|]. split; [exact E1|]. split; [exact E2|].
      intros i Hi. simpl in Hi. lia.
    + destruct IH as [(pre & g & post & -> & Hg & Hd & Hfirst)|Hno].
      * left. exists (a :: pre), g, post. split; [reflexivity|].
        split; [exact Hg|]. split; [exact Hd|].
        intros [|i] Hi; [exact E|]. cbn [drop]. apply Hfirst. simpl in Hi. lia.
      * right. intros [|i]; [exact E|]. apply Hno.
Qed.

Lemma seasonIn_range (s : str) (n : number) :
  Utils.seasonIn s = Some n -> exists z, n = Num z /\ (0 <= z <= 9999)%Z.
Proof.
  destruct (year_first s) as [(pre & g & post & -> & Hg & Hd & Hfirst)|Hno].
  - rewrite seasonIn_found by assumption. intros [= <-].
    exists (dec g). split; [reflexivity|]. apply dec_year; assumption.
  - rewrite seasonIn_none by exact Hno. discriminate.
Qed.

End Seasons.

(** [extractSeason] reads the first four consecutive digits of the title
    as the season, whatever surrounds them; only when the title has no four
    consecutive digits does it read the first four consecutive digits of the
    content header; it returns null when neither has any.  A season it
    returns is a number between 0 and 9999. *)
Theorem season_of_page (select : str -> Dom.node -> list Dom.node) (doc : Dom.node) :
  let title := Utils.selectionText (Dom.find ["title"] [doc]) in
  let header := Utils.selectionText (select "#content-header h2" doc) in
  (forall pre g post,
      title = pre ++ g ++ post -> length g = 4 -> forallb is_digit g = true ->
      (forall i, i < length pre -> year_at (drop i title) = false) ->
      Utils.extractSeason select doc = Some (Num (dec g)))
  /\ ((forall i, year_at (drop i title) = false) ->
      (forall pre g post,
          header = pre ++ g ++ post -> length g = 4 -> forallb is_digit g = true ->
          (forall i, i < length pre -> year_at (drop i header) = false) ->
          Utils.extractSeason select doc = Some (Num (dec g)))
      /\ ((forall i, year_at (drop i header) = false) ->
          Utils.extractSeason select doc = None))
  /\ (forall n, Utils.extractSeason select doc = Some n ->
        exists z, n = Num z /\ (0 <= z <= 9999)%Z).
Proof.
  intros title header. unfold Utils.extractSeason. cbv zeta.
  fold title. fold header.
  split; [|split].
  - intros pre g post E Hg Hd Hfirst. rewrite E in Hfirst |- *.
    rewrite seasonIn_found by assumption. reflexivity.
  - intros Hno. rewrite (seasonIn_none title Hno). split.
    + intros pre g post E Hg Hd Hfirst. rewrite E in Hfirst |- *.
      rewrite seasonIn_found by assumption. reflexivity.
    + intros Hno'. rewrite (seasonIn_none header Hno'). reflexivity.
  - intros n.
    destruct (Utils.seasonIn title) as [y|] eqn:Et.
    + intros [= <-]. exact (seasonIn_range _ _ Et).
    + destruct (Utils.seasonIn header) as [y|] eqn:Eh; [|discriminate].
      intros [= <-]. exact (seasonIn_range _ _ Eh).
Qed.

Lemma season_of_page_witness :
  Utils.extractSeason (fun _ _ => [])
    (Dom.Elem 0 "html"
       [Dom.Elem 1 "title" [Dom.Text "Season 12025 Pomeroy College Basketball Ratings"]])
  = Some (Num 1202).
Proof.
  pose proof (season_of_page (fun _ _ => [])
                (Dom.Elem 0 "html"
                   [Dom.Elem 1 "title"
                      [Dom.Text "Season 12025 Pomeroy College Basketball Ratings"]]))
    as H.
  cbv zeta in H. destruct H as [H _].
  apply (H "Season " "1202" "5 Pomeroy College Basketball Ratings");
    [reflexivity|reflexivity|reflexivity|].
  intros i Hi. cbn [length] in Hi.
  do 7 (destruct i as [|i]; [reflexivity|]). lia.
Defined.

Section Years.

Local Open Scope Z_scope.

(** Below [2^53] the increment is exact. *)
Lemma incr_safe (year : Z) : - 2 ^ 53 <= year < 2 ^ 53 - 1 -> Utils.incr year = year + 1.
Proof. intros H. unfold Utils.incr. rewrite to_double_safe by lia. reflexivity. Qed.

(** At [2^53] the increment is absorbed. *)
Lemma incr_stuck : Utils.incr (2 ^ 53) = 2 ^ 53.
Proof. reflexivity. Qed.

Lemma yearLoop_spec (endYear : Z) (fuel : nat) :
  forall (year : Z) (years : list Z),
    - 2 ^ 53 <= year -> endYear < 2 ^ 53 - 1 ->
    Z.max 0 (endYear - year + 1) < Z.of_nat fuel ->
    Utils.yearLoop fuel endYear year years
    = Some (years ++ seqZ year (endYear - year + 1)).
Proof.
  induction fuel as [|fuel IH]; intros year years Hlo Hhi Hfuel; [lia|].
  cbn [Utils.yearLoop]. destruct (year <=? endYear) eqn:E.
  - apply Z.leb_le in E. rewrite incr_safe by lia. rewrite IH by lia.
    rewrite (seqZ_cons year) by lia. rewrite <- app_assoc. cbn [app].
    do 3 f_equal. f_equal; unfold Z.succ, Z.pred; lia.
  - apply Z.leb_gt in E. rewrite seqZ_nil by lia. rewrite app_nil_r. reflexivity.
Qed.

Lemma yearLoop_stuck (fuel : nat) :
  forall years : list Z, Utils.yearLoop fuel (2 ^ 53) (2 ^ 53) years = None.
Proof.
  induction fuel as [|fuel IH]; intros years; [reflexivity|].
  cbn [Utils.yearLoop]. rewrite Z.leb_refl, incr_stuck. apply IH.
Qed.

End Years.

(** For a start year from [-2^53] and an end year below [2^53 - 1], the
    loop of [generateYearRange] ends, within one more iteration than there
    are years, with the years from the start year to the end year, both
    included, in increasing order and each once; the result is empty when
    the end year is before the start year.  From [2^53] to [2^53] the loop
    never ends, whatever the number of iterations: the increment is
    absorbed. *)
Theorem year_range (startYear endYear : Z) :
  (- 2 ^ 53 <= startYear)%Z -> (endYear < 2 ^ 53 - 1)%Z ->
  (forall fuel : nat,
      (Z.max 0 (endYear - startYear + 1) < Z.of_nat fuel)%Z ->
      Utils.generateYearRange fuel startYear endYear
      = Some (seqZ startYear (endYear - startYear + 1)))
  /\ (forall fuel years,
        Utils.generateYearRange fuel startYear endYear = Some years ->
        (forall y, y ∈ years <-> (startYear <= y <= endYear)%Z)
        /\ NoDup years
        /\ ((endYear < startYear)%Z -> years = []))
  /\ (forall fuel, Utils.generateYearRange fuel (2 ^ 53) (2 ^ 53) = None).
Proof.
  intros Hlo Hhi.
  assert (Hrun : forall fuel : nat,
             (Z.max 0 (endYear - startYear + 1) < Z.of_nat fuel)%Z ->
             Utils.generateYearRange fuel startYear endYear
             = Some (seqZ startYear (endYear - startYear + 1))).
  { intros fuel Hfuel. unfold Utils.generateYearRange.
    rewrite yearLoop_spec by assumption. reflexivity. }
  split; [exact Hrun|]. split.
  - intros fuel years Hyears.
    assert (E : years = seqZ startYear (endYear - startYear + 1)).
    { destruct (Z_lt_le_dec (Z.max 0 (endYear - startYear + 1)) (Z.of_nat fuel))
        as [Hf|Hf].
      - rewrite Hrun in Hyears by exact Hf. congruence.
      - exfalso. revert Hyears. unfold Utils.generateYearRange.
        assert (Hgen : forall fuel year (acc : list Z),
                   (- 2 ^ 53 <= year)%Z ->
                   (Z.of_nat fuel <= Z.max 0 (endYear - year + 1))%Z ->
                   Utils.yearLoop fuel endYear year acc = None).
        { clear - Hhi. induction fuel as [|fuel IH]; intros year acc Hy Hf;
            [reflexivity|].
          cbn [Utils.yearLoop]. destruct (year <=? endYear)%Z eqn:E.
          - apply Z.leb_le in E. rewrite incr_safe by lia. apply IH; lia.
          - apply Z.leb_gt in E. lia. }
        rewrite Hgen by lia. discriminate. }
    subst years. split; [|split].
    + intros y. rewrite elem_of_seqZ. lia.
    + apply NoDup_seqZ.
    + intros Hlt. apply seqZ_nil. lia.
  - intros fuel. apply yearLoop_stuck.
Qed.

Lemma year_range_witness :
  Utils.generateYearRange 5 2020 2022 = Some [2020; 2021; 2022]%Z.
Proof.
  destruct (year_range 2020 2022) as (H & _); [lia|lia|].
  rewrite H by lia. reflexivity.
Defined.

(** ** Player of the year *)

Section SplitJoin.

Lemma split_go_cons (sep : str) (s : str) :
  forall skip cur, split_go sep skip cur s <> [].
Proof.
  induction s as [|a s IH]; intros skip cur; cbn [split_go]; [discriminate|].
  destruct skip; [|apply IH].
  destruct (starts_with sep (a :: s)); [discriminate|apply IH].
Qed.

(** Joining the parts of a split with the separator gives the text back. *)
Lemma join_split_go (sep : str) (n : nat) :
  sep <> [] ->
  forall s cur, length s <= n -> join sep (split_go sep 0 cur s) = cur ++ s.
Proof.
  intros Hsep. induction n as [|n IH]; intros s cur Hn.
  - destruct s; [|simpl in Hn; lia]. simpl. rewrite app_nil_r. reflexivity.
  - destruct s as [|a s]; [simpl; rewrite app_nil_r; reflexivity|].
    cbn [split_go]. destruct (starts_with sep (a :: s)) eqn:E.
    + apply starts_with_spec in E as [r Hr].
      destruct sep as [|c sep]; [congruence|].
      cbn [app] in Hr. injection Hr as -> ->.
      cbn [length]. rewrite Nat.sub_succ, Nat.sub_0_r, split_go_skip.
      rewrite join_cons by apply split_go_cons.
      rewrite IH; [reflexivity|].
      simpl in Hn. rewrite length_app in Hn. lia.
    + rewrite IH by (simpl in Hn; lia). rewrite <- app_assoc. reflexivity.
Qed.

Lemma join_split (sep s : str) : sep <> [] -> join sep (split sep s) = s.
Proof. intros Hsep. unfold split. apply (join_split_go sep (length s) Hsep); lia. Qed.

(** A text without a character of the separator does not hold the
    separator. *)
Lemma includes_absent (sep s : str) c :
  c ∈ sep -> c ∉ s -> includes sep s = false.
Proof.
  intros Hc Hs. apply not_true_is_false. intros H.
  apply includes_spec in H as (a & b & ->). apply Hs.
  rewrite !elem_of_app. auto.
Qed.

(** The separator does not start within a text that lacks one of its
    characters, also when the text is followed by the separator. *)
Lemma includes_before (sep a : str) (j : nat) c :
  sep !! j = Some c -> c ∉ a -> c ∉ take j sep ->
  includes sep (a ++ removelast sep) = false.
Proof.
  intros Hj Ha Hsep. apply not_true_is_false. intros H.
  apply includes_spec in H as (x & y & E).
  rewrite removelast_firstn_len in E.
  assert (Hlen : length x + 1 + length y = length a).
  { apply (f_equal length) in E. rewrite !length_app, length_firstn in E.
    apply lookup_lt_Some in Hj. lia. }
  assert (Hl : (x ++ sep ++ y) !! (length x + j) = Some c).
  { rewrite lookup_app_r by lia. replace (length x + j - length x) with j by lia.
    rewrite lookup_app_l by (eapply lookup_lt_Some; eauto). exact Hj. }
  rewrite <- E in Hl.
  destruct (decide (length x + j < length a)) as [Hlt|Hge].
  - rewrite lookup_app_l in Hl by exact Hlt.
    apply Ha. eapply list_elem_of_lookup_2; eauto.
  - rewrite lookup_app_r in Hl by lia.
    apply Hsep. apply list_elem_of_lookup_2 with (length x + j - length a).
    change (firstn ?n ?l) with (take n l) in Hl.
    apply lookup_take_Some in Hl as [Hl _].
    rewrite lookup_take_lt by lia. exact Hl.
Qed.

Lemma take_while_run (f : ascii -> bool) (t rest : str) :
  forallb f t = true ->
  match rest with [] => True | a :: _ => f a = false end ->
  take_while f (t ++ rest) = t.
Proof.
  intros Ht Hrest. induction t as [|a t IH]; cbn [app take_while].
  - destruct rest as [|b rest]; [reflexivity|]. simpl. rewrite Hrest. reflexivity.
  - cbn [forallb] in Ht. apply andb_true_iff in Ht as [Ha Ht].
    rewrite Ha, IH by exact Ht. reflexivity.
Qed.

End SplitJoin.

Section PlayerCell.

Lemma team_char_not_digit (c : ascii) : is_team_char c = true -> not_digit c = true.
Proof.
  destruct c as [[] [] [] [] [] [] [] []]; try reflexivity; discriminate.
Qed.

Lemma team_not_digit (t : str) :
  forallb is_team_char t = true -> forallb not_digit t = true.
Proof.
  rewrite !forallb_forall. intros H c Hc. apply team_char_not_digit, H, Hc.
Qed.

(** The team and the height of [Team Height]. *)
Lemma team_of_info (team h1 h2 : str) :
  forallb is_team_char team = true -> trim team = team ->
  digits h1 = true -> digits h2 = true ->
  match match_prefix is_team_char (team ++ " " ++ h1 ++ "-" ++ h2) with
  | Some g => if truthy g then trim g else team ++ " " ++ h1 ++ "-" ++ h2
  | None => team ++ " " ++ h1 ++ "-" ++ h2
  end = team.
Proof.
  intros Hteam Htrim H1 H2. apply digits_spec in H1 as [Hne1 Hd1].
  unfold match_prefix.
  replace (team ++ " " ++ h1 ++ "-" ++ h2) with ((team ++ " ") ++ h1 ++ "-" ++ h2)
    by (rewrite <- app_assoc; reflexivity).
  rewrite take_while_run.
  - destruct (team ++ " ") as [|a t] eqn:E.
    + destruct team; discriminate.
    + cbn [truthy]. rewrite <- E, trim_snoc_space. exact Htrim.
  - rewrite forallb_app, Hteam. reflexivity.
  - destruct h1 as [|d h1]; [congruence|]. cbn [app].
    cbn [forallb] in Hd1. apply andb_true_iff in Hd1 as [Hd _].
    destruct (is_team_char d) eqn:E; [|reflexivity].
    apply team_char_not_digit in E. unfold not_digit in E. rewrite Hd in E. discriminate.
Qed.

Lemma height_of_info (team h1 h2 : str) :
  forallb is_team_char team = true ->
  digits h1 = true -> digits h2 = true ->
  exec heightRe (team ++ " " ++ h1 ++ "-" ++ h2) ≫= (fun m => group m 1)
  = Some (h1 ++ "-" ++ h2).
Proof.
  intros Hteam H1 H2.
  apply digits_spec in H1 as [Hne1 Hd1]. apply digits_spec in H2 as [Hne2 Hd2].
  unfold exec.
  replace (team ++ " " ++ h1 ++ "-" ++ h2) with ((team ++ " ") ++ h1 ++ "-" ++ h2)
    by (rewrite <- app_assoc; reflexivity).
  set (pre := team ++ " ").
  assert (Hpre : forallb not_digit pre = true).
  { unfold pre. rewrite forallb_app, team_not_digit by exact Hteam. reflexivity. }
  rewrite search_skip.
  2:{ intros i Hi. unfold heightRe, plus. cbn [run].
      apply rep_none; [lia|]. apply (head_not_digit pre (h1 ++ "-" ++ h2) i Hpre Hi). }
  set (b := 0 + length pre).
  set (e := b + length h1 + 1 + length h2).
  rewrite (search_here _ _ _ e (close_group 1 e (open_group 1 b no_captures))).
  2:{ unfold heightRe, plus. cbn [run].
      apply rep_greedy_run; [exact Hd1|reflexivity| |].
      { destruct h1; [congruence|simpl; lia]. }
      cbn [app run cmatch]. rewrite Ascii.eqb_refl.
      rewrite <- (app_nil_r h2) at 1.
      apply rep_greedy_run; [exact Hd2|exact I| |].
      { destruct h2; [congruence|simpl; lia]. }
      cbn [run]. unfold e. do 3 f_equal; lia. }
  rewrite close_open. cbn [mbind option_bind].
  unfold group. cbn [caps subject groups]. rewrite lookup_insert_eq.
  cbn [fmap option_fmap option_map fst snd]. f_equal.
  apply (substring_mid _ pre (h1 ++ "-" ++ h2) []);
    [rewrite app_nil_r; reflexivity|subst b; lia
    |subst b e; rewrite !length_app; simpl; lia].
Qed.

Lemma not_elem_app3 (c : ascii) (a b d : str) :
  c ∉ a -> c ∉ b -> c ∉ d -> c ∉ a ++ b ++ d.
Proof. rewrite !elem_of_app. tauto. Qed.

End PlayerCell.

Ltac not_in_text :=
  let H := fresh in
  intros H; apply list_elem_of_In in H; simpl in H; intuition discriminate.

(** A player cell of the form [Name, Team Height · Weight, Year,
    Hometown] is taken apart into exactly these fields: the name may hold
    anything but a comma and a middle dot, the team letters, dots, spaces,
    ampersands and apostrophes, the height is two numbers around a hyphen,
    and the hometown keeps its own commas. *)
Theorem kpoy_player_fields
    (rank rating name team h1 h2 weight year hometown : str) :
  ","%char ∉ name -> "183"%char ∉ name ->
  forallb is_team_char team = true -> trim team = team ->
  digits h1 = true -> digits h2 = true ->
  ","%char ∉ weight -> "183"%char ∉ weight ->
  ","%char ∉ year -> "183"%char ∉ year ->
  "183"%char ∉ hometown ->
  kpoyPlayer rank
    (name ++ ", " ++ team ++ " " ++ h1 ++ "-" ++ h2 ++ middot
       ++ weight ++ ", " ++ year ++ ", " ++ hometown)
    rating
  = <["KPOY Rating" := rating]>
    (<["Hometown" := hometown]>
    (<["Year" := year]>
    (<["Weight" := weight]>
    (<["Height" := h1 ++ "-" ++ h2]>
    (<["Team" := team]>
    (<["Player" := name]>
    (<["Rank" := rank]> ∅))))))).
Proof.
  intros Hn1 Hn2 Hteam Htrim H1 H2 Hw1 Hw2 Hy1 Hy2 Hh.
  pose proof H1 as [_ Hd1]%digits_spec. pose proof H2 as [_ Hd2]%digits_spec.
  set (teamInfo := team ++ " " ++ h1 ++ "-" ++ h2).
  set (details := weight ++ ", " ++ year ++ ", " ++ hometown).
  assert (Hinfo : forall c, is_team_char c = false -> is_digit c = false ->
                    c <> " "%char -> c <> "-"%char -> c ∉ teamInfo).
  { intros c Hc1 Hc2 Hc3 Hc4. unfold teamInfo. rewrite !elem_of_app.
    intros [H|[H|[H|[H|H]]]].
    - revert H. apply (forallb_not_elem is_team_char); assumption.
    - apply list_elem_of_singleton in H. congruence.
    - revert H. apply (forallb_not_elem is_digit); assumption.
    - apply list_elem_of_singleton in H. congruence.
    - revert H. apply (forallb_not_elem is_digit); assumption. }
  assert (Hparts : split middot ((name ++ ", " ++ teamInfo) ++ middot ++ details)
                   = [name ++ ", " ++ teamInfo; details]).
  { apply split_two; [discriminate| |].
    - apply (includes_before middot _ 1 "183"); [reflexivity| |not_in_text].
      apply not_elem_app3; [exact Hn2|not_in_text|].
      apply Hinfo; [reflexivity|reflexivity|discriminate|discriminate].
    - apply (includes_absent middot _ "183"); [unfold middot; set_solver|].
      unfold details. apply not_elem_app3; [exact Hw2|not_in_text|].
      apply not_elem_app3; [exact Hy2|not_in_text|exact Hh]. }
  assert (HnameParts : split ", " (name ++ ", " ++ teamInfo) = [name; teamInfo]).
  { apply split_two; [discriminate| |].
    - apply (includes_before ", " _ 0 ","); [reflexivity|exact Hn1|not_in_text].
    - apply (includes_absent ", " _ ","); [set_solver|].
      apply Hinfo; [reflexivity|reflexivity|discriminate|discriminate]. }
  assert (Hdetails : split ", " details
                     = weight :: year :: split ", " hometown).
  { unfold split, details.
    rewrite split_go_first;
      [|discriminate
       |apply (includes_before ", " _ 0 ","); [reflexivity|exact Hw1|not_in_text]].
    rewrite split_go_first;
      [|discriminate
       |apply (includes_before ", " _ 0 ","); [reflexivity|exact Hy1|not_in_text]].
    reflexivity. }
  unfold kpoyPlayer.
  replace (name ++ ", " ++ team ++ " " ++ h1 ++ "-" ++ h2 ++ middot ++ details)
    with ((name ++ ", " ++ teamInfo) ++ middot ++ details)
    by (unfold teamInfo; rewrite <- !app_assoc; reflexivity).
  cbv zeta. rewrite Hparts.
  change (default "" ([name ++ ", " ++ teamInfo; details] !! 0))
    with (name ++ ", " ++ teamInfo).
  change (default "" ([name ++ ", " ++ teamInfo; details] !! 1)) with details.
  rewrite HnameParts, Hdetails.
  change (default "" ([name; teamInfo] !! 0)) with name.
  change (default "" ([name; teamInfo] !! 1)) with teamInfo.
  change (default "" ((weight :: year :: split ", " hometown) !! 0)) with weight.
  change (default "" ((weight :: year :: split ", " hometown) !! 1)) with year.
  change (drop 2 (weight :: year :: split ", " hometown)) with (split ", " hometown).
  rewrite join_split by discriminate.
  unfold teamInfo. rewrite team_of_info, height_of_info by assumption.
  reflexivity.
Qed.

Lemma kpoy_player_fields_witness :
  kpoyPlayer "1" ("John Smith, Duke 6-5" ++ middot ++ "195, Jr, Durham, NC") "98.5"
  = <["KPOY Rating" := "98.5"]>
    (<["Hometown" := "Durham, NC"]>
    (<["Year" := "Jr"]>
    (<["Weight" := "195"]>
    (<["Height" := "6-5"]>
    (<["Team" := "Duke"]>
    (<["Player" := "John Smith"]>
    (<["Rank" := "1"]> ∅))))))).
Proof.
  apply (kpoy_player_fields "1" "98.5" "John Smith" "Duke" "6" "5" "195" "Jr"
           "Durham, NC"); by_compute.
Defined.

Section Kpoy.

Lemma kpoyPlayer_keys (rank info rating : str) :
  kpoyPlayer rank info rating !! "Rank" = Some rank
  /\ kpoyPlayer rank info rating !! "KPOY Rating" = Some rating
  /\ (forall k, is_Some (kpoyPlayer rank info rating !! k)
                <-> k ∈ ["Rank"; "Player"; "Team"; "Height"; "Weight"; "Year";
                         "Hometown"; "KPOY Rating"]).
Proof.
  unfold kpoyPlayer. cbv zeta. split; [|split].
  - rewrite !lookup_insert_ne by discriminate. apply lookup_insert_eq.
  - apply lookup_insert_eq.
  - intros k. repeat rewrite lookup_insert_is_Some'.
    rewrite !elem_of_cons, elem_of_nil.
    pose proof (lookup_empty_is_Some (M := gmap str) (A := str) k) as Hempty.
    split; intros Hk; repeat (destruct Hk as [Hk|Hk]; [subst; auto 12|]);
      contradiction.
Qed.

Lemma parseKpoyTable_rows (table : list Dom.node) (row : TableRow) :
  row ∈ parseKpoyTable table ->
  exists rank info rating : str,
    row = kpoyPlayer rank info rating
    /\ rank <> "" /\ rank <> "Rank" /\ trim rank = rank /\ trim rating = rating.
Proof.
  revert row. apply Forall_forall. unfold parseKpoyTable.
  apply each_inv; [|constructor].
  intros i row acc Hacc. cbv zeta.
  destruct (length (Dom.find ["td"] [row]) <? 3); [exact Hacc|].
  destruct (bool_decide (cellText (Dom.find ["td"] [row]) 0 = "Rank")) eqn:E1;
    [exact Hacc|].
  destruct (bool_decide (cellText (Dom.find ["td"] [row]) 0 = "")) eqn:E2;
    [exact Hacc|].
  apply bool_decide_eq_false in E1, E2. cbn [orb].
  apply Forall_app. split; [exact Hacc|]. constructor; [|constructor].
  eexists _, _, _. split; [reflexivity|].
  split; [exact E2|]. split; [exact E1|].
  unfold cellText. split; apply trim_idempotent.
Qed.

Lemma since_spec (season : option Z) (year : Z) :
  (0 < year)%Z ->
  since season year = true <-> exists y, season = Some y /\ (year <= y)%Z.
Proof.
  intros Hy. unfold since. destruct season as [y|].
  - rewrite andb_true_iff, negb_true_iff, Z.eqb_neq, Z.geb_le. split.
    + intros [_ H]. eauto.
    + intros (y' & [= <-] & H). lia.
  - split; [discriminate|]. intros (y & H & _). discriminate.
Qed.

End Kpoy.

(** [parseKpoy] reads the player-of-the-year rows from the first table
    (none when the page has no table) and the most valuable players from
    the last table, but only for a season from 2013 on and a page with at
    least two tables; otherwise they are null.  Every row has the same eight
    keys, a trimmed rating and a trimmed rank that is neither empty nor the
    header text "Rank". *)
Theorem kpoy_tables (doc : Dom.node) (season : option Z) :
  let tables := Dom.find ["table"] [doc] in
  kpoy (parseKpoy doc season)
  = match tables with [] => [] | t :: _ => parseKpoyTable [t] end
  /\ (mvp (parseKpoy doc season) <> None
      <-> exists y, season = Some y /\ (2013 <= y)%Z /\ 2 <= length tables)
  /\ (forall rows, mvp (parseKpoy doc season) = Some rows ->
        exists ts t, tables = ts ++ [t] /\ ts <> [] /\ rows = parseKpoyTable [t])
  /\ (forall rows row,
        rows = kpoy (parseKpoy doc season) \/ mvp (parseKpoy doc season) = Some rows ->
        row ∈ rows ->
        (forall k, is_Some (row !! k)
                   <-> k ∈ ["Rank"; "Player"; "Team"; "Height"; "Weight"; "Year";
                            "Hometown"; "KPOY Rating"])
        /\ exists rank rating : str,
             row !! "Rank" = Some rank /\ row !! "KPOY Rating" = Some rating
             /\ rank <> "" /\ rank <> "Rank" /\ trim rank = rank
             /\ trim rating = rating).
Proof.
  intros tables.
  assert (Hkpoy : kpoy (parseKpoy doc season)
                  = match tables with [] => [] | t :: _ => parseKpoyTable [t] end).
  { unfold parseKpoy. cbv zeta. fold tables.
    destruct (since season 2013 && (1 <? length tables)); cbn [kpoy];
      destruct tables; reflexivity. }
  assert (Hmvp : mvp (parseKpoy doc season)
                 = if since season 2013 && (1 <? length tables)
                   then Some (parseKpoyTable
                                (Dom.eq tables (Z.of_nat (length tables) - 1)))
                   else None).
  { unfold parseKpoy. cbv zeta. fold tables.
    destruct (since season 2013 && (1 <? length tables)); reflexivity. }
  assert (Hlast : forall rows, mvp (parseKpoy doc season) = Some rows ->
            exists ts t, tables = ts ++ [t] /\ ts <> [] /\ rows = parseKpoyTable [t]).
  { intros rows. rewrite Hmvp.
    destruct (since season 2013 && (1 <? length tables)) eqn:E; [|discriminate].
    apply andb_true_iff in E as [_ E]. apply Nat.ltb_lt in E.
    intros [= <-].
    destruct (exists_last (l := tables)) as (ts & t & Ets);
      [intros Hnil; rewrite Hnil in E; simpl in E; lia|].
    exists ts, t. rewrite Ets in E |- *. split; [reflexivity|].
    split; [intros ->; simpl in E; lia|].
    change 1%Z with (Z.of_nat 1). rewrite (eq_from_end _ 1 t); [reflexivity| |].
    - rewrite length_app. simpl. lia.
    - rewrite length_app. cbn [length].
      replace (length ts + 1 - 1) with (length ts) by lia.
      apply list_lookup_middle. reflexivity. }
  split; [exact Hkpoy|]. split; [|split; [exact Hlast|]].
  - rewrite Hmvp. split.
    + destruct (since season 2013 && (1 <? length tables)) eqn:E; [|congruence].
      intros _. apply andb_true_iff in E as [E1 E2].
      apply since_spec in E1 as (y & -> & Hy); [|lia]. apply Nat.ltb_lt in E2.
      exists y. split; [reflexivity|]. split; [exact Hy|lia].
    + intros (y & -> & Hy & Hlen).
      assert (E1 : since (Some y) 2013 = true) by (apply since_spec; [lia|eauto]).
      assert (E2 : (1 <? length tables) = true) by (apply Nat.ltb_lt; lia).
      rewrite E1, E2. discriminate.
  - intros rows row Hrows Hrow.
    assert (Htable : exists table, row ∈ parseKpoyTable table).
    { destruct Hrows as [->|Hrows].
      - rewrite Hkpoy in Hrow. destruct tables as [|t ts].
        + apply elem_of_nil in Hrow. contradiction.
        + eauto.
      - apply Hlast in Hrows as (ts & t & _ & _ & ->). eauto. }
    destruct Htable as [table Hin].
    apply parseKpoyTable_rows in Hin
      as (rank & info & rating & -> & Hr1 & Hr2 & Hr3 & Hr4).
    destruct (kpoyPlayer_keys rank info rating) as (Hk1 & Hk2 & Hkeys).
    split; [exact Hkeys|]. exists rank, rating. auto 10.
Qed.

Lemma kpoy_tables_witness :
  mvp (parseKpoy
         (Dom.Elem 0 "body"
            [Dom.Elem 1 "table"
               [Dom.Elem 2 "tr" [Dom.Elem 3 "th" [Dom.Text "Rank"]];
                Dom.Elem 4 "tr" [Dom.Elem 5 "td" [Dom.Text "1"];
                                 Dom.Elem 6 "td" [Dom.Text "Cooper Flagg"];
                                 Dom.Elem 7 "td" [Dom.Text "98.5"]]];
             Dom.Elem 8 "table" []])
         (Some 2012%Z))
  = None.
Proof.
  pose proof (kpoy_tables
                (Dom.Elem 0 "body"
                   [Dom.Elem 1 "table"
                      [Dom.Elem 2 "tr" [Dom.Elem 3 "th" [Dom.Text "Rank"]];
                       Dom.Elem 4 "tr" [Dom.Elem 5 "td" [Dom.Text "1"];
                                        Dom.Elem 6 "td" [Dom.Text "Cooper Flagg"];
                                        Dom.Elem 7 "td" [Dom.Text "98.5"]]];
                    Dom.Elem 8 "table" []])
                (Some 2012%Z)) as H.
  cbv zeta in H. destruct H as (_ & [H _] & _).
  destruct (mvp _) as [rows|]; [|reflexivity].
  destruct (H ltac:(discriminate)) as (y & Hy & Hle & _).
  injection Hy as <-. lia.
Defined.

(** A player cell that holds neither the middle-dot separator nor a
    comma followed by a space is taken as the player's name as it is; the
    team, height, weight, year and hometown are empty strings. *)
Theorem kpoy_player_plain (rank info rating : str) :
  includes middot info = false -> includes ", " info = false ->
  kpoyPlayer rank info rating
  = <["KPOY Rating" := rating]>
    (<["Hometown" := ""]>
    (<["Year" := ""]>
    (<["Weight" := ""]>
    (<["Height" := ""]>
    (<["Team" := ""]>
    (<["Player" := info]>
    (<["Rank" := rank]> ∅))))))).
Proof.
  intros Hdot Hcomma. unfold kpoyPlayer. cbv zeta.
  rewrite (split_absent middot info Hdot).
  change (default "" ([info] !! 0)) with info.
  change (default "" ([info] !! 1)) with (@nil ascii).
  rewrite (split_absent ", " info Hcomma).
  reflexivity.
Qed.

Lemma kpoy_player_plain_witness :
  kpoyPlayer "1" "Cooper Flagg" "98.5" !! "Player" = Some "Cooper Flagg"
  /\ kpoyPlayer "1" "Cooper Flagg" "98.5" !! "Team" = Some "".
Proof.
  rewrite (kpoy_player_plain "1" "Cooper Flagg" "98.5") by reflexivity.
  split; reflexivity.
Defined.

(** ** The prediction string on the text of a prediction cell *)

Section PredictionMatch.

Lemma space_not_digit c : is_space c = true -> is_digit c = false.
Proof.
  intros H. destruct (is_digit c) eqn:E; [|reflexivity].
  apply digit_not_space in E. congruence.
Qed.

(** Both patterns need white space and then a digit right after the name. *)
Lemma pred_head_shape tail pos s st r :
  run (Close 1 :: plus Space :: Open 2 :: plus Digit :: tail) pos s st = Some r ->
  exists t0 c rest,
    s = t0 ++ c :: rest /\ forallb is_space t0 = true /\ is_digit c = true.
Proof.
  intros H. run_inv H.
  destruct t0 as [|c t0]; [simpl in Hlo0; lia|].
  simpl in Hall0. apply andb_true_iff in Hall0 as [Hc _].
  eexists t, c, _. split; [reflexivity|]. split; [exact Hall|exact Hc].
Qed.

(** A text without digit that ends with a character other than white space
    is not white space followed by a digit. *)
Lemma spaces_digit_clash (n : str) :
  forall (t0 s' rest : str) c,
    n <> [] -> forallb (fun a => negb (is_digit a)) n = true ->
    (forall z, last n = Some z -> is_space z = false) ->
    n ++ s' = t0 ++ c :: rest ->
    forallb is_space t0 = true -> is_digit c = true -> False.
Proof.
  induction n as [|a n IH]; intros t0 s' rest c Hne Hnd Hlast E Ht0 Hc; [congruence|].
  simpl in Hnd. apply andb_true_iff in Hnd as [Ha Hnd].
  destruct t0 as [|b t0]; simpl in E.
  - injection E as -> _. rewrite Hc in Ha. discriminate.
  - injection E as -> E. simpl in Ht0. apply andb_true_iff in Ht0 as [Hb Ht0].
    destruct n as [|a' n].
    + specialize (Hlast b eq_refl). congruence.
    + apply (IH t0 s' rest c); [discriminate|exact Hnd| |exact E|exact Ht0|exact Hc].
      intros z Hz. apply Hlast. exact Hz.
Qed.

(** Neither pattern goes on from inside the name. *)
Lemma pred_head_fails tail body z j s' pos st :
  forallb (fun a => negb (is_digit a)) (body ++ [z]) = true ->
  is_space z = false -> j <= length body ->
  run (Close 1 :: plus Space :: Open 2 :: plus Digit :: tail) pos
      (drop j (body ++ [z]) ++ s') st = None.
Proof.
  intros Hnd Hz Hj.
  destruct (run _ pos _ st) as [r|] eqn:H; [exfalso|reflexivity].
  apply pred_head_shape in H as (t0 & c & rest & E & Ht0 & Hc).
  rewrite drop_app_le in E by exact Hj.
  apply (spaces_digit_clash (drop j body ++ [z]) t0 s' rest c); auto.
  - destruct (drop j body); discriminate.
  - rewrite <- (take_drop j body), <- app_assoc, forallb_app in Hnd.
    apply andb_true_iff in Hnd as [_ Hnd]. exact Hnd.
  - intros z' Hl. rewrite last_snoc in Hl. congruence.
Qed.

Lemma head_of_digits (d s : str) :
  forallb (cmatch Digit) d = true -> d <> [] ->
  match d ++ s with [] => True | a :: _ => cmatch Space a = false end.
Proof.
  intros Hd Hne. destruct d as [|a d]; [congruence|].
  simpl in Hd. apply andb_true_iff in Hd as [Ha _].
  simpl. apply digit_not_space. exact Ha.
Qed.

Lemma head_of_spaces (ws s : str) c :
  forallb is_space ws = true -> is_digit c = false ->
  match ws ++ c :: s with [] => True | a :: _ => cmatch Digit a = false end.
Proof.
  intros Hws Hc. destruct ws as [|a ws]; [exact Hc|].
  simpl in Hws. apply andb_true_iff in Hws as [Ha _].
  simpl. apply space_not_digit. exact Ha.
Qed.

(** One step of a run, item by item, on a text of known form. *)
Lemma run_Open_eq n p pos s st :
  run (Open n :: p) pos s st = run p pos s (open_group n pos st).
Proof. reflexivity. Qed.

Lemma run_Close_eq n p pos s st :
  run (Close n :: p) pos s st = run p pos s (close_group n pos st).
Proof. reflexivity. Qed.

Lemma run_lit c p pos s st r :
  run p (S pos) s st = Some r -> run (One (Lit c) :: p) pos (c :: s) st = Some r.
Proof. intros H. cbn [run cmatch]. rewrite Ascii.eqb_refl. exact H. Qed.

Lemma run_plus_run c (t s' : str) p pos st r :
  forallb (cmatch c) t = true -> t <> [] ->
  match s' with [] => True | a :: _ => cmatch c a = false end ->
  run p (pos + length t) s' st = Some r ->
  run (plus c :: p) pos (t ++ s') st = Some r.
Proof.
  intros Ht Hne Hs H. unfold plus. cbn [run].
  apply rep_greedy_run; auto. destruct t; [congruence|simpl; lia].
Qed.

Lemma run_star_run c (t s' : str) p pos st r :
  forallb (cmatch c) t = true ->
  match s' with [] => True | a :: _ => cmatch c a = false end ->
  run p (pos + length t) s' st = Some r ->
  run (star c :: p) pos (t ++ s') st = Some r.
Proof.
  intros Ht Hs H. unfold star. cbn [run].
  apply rep_greedy_run; auto. lia.
Qed.

Lemma run_lazy_name p (body : str) z (s' : str) r :
  forallb (cmatch AnyChar) (body ++ [z]) = true ->
  (forall j, j <= length body ->
     run (Close 1 :: p) (0 + j) (drop j (body ++ [z]) ++ s')
         (open_group 1 0 no_captures) = None) ->
  run (Close 1 :: p) (0 + length (body ++ [z])) s' (open_group 1 0 no_captures) = Some r ->
  run (Open 1 :: lazy_plus AnyChar :: Close 1 :: p) 0 ((body ++ [z]) ++ s') no_captures
  = Some r.
Proof.
  intros Hany Hnone H. unfold lazy_plus. cbn [run].
  apply rep_lazy_first.
  - exact Hany.
  - rewrite length_app. simpl. lia.
  - intros j Hj1 Hj2. rewrite length_app in Hj2. simpl in Hj2.
    apply Hnone. lia.
  - exact H.
Qed.

Ltac pred_steps :=
  repeat first
    [ rewrite run_Open_eq
    | rewrite run_Close_eq
    | apply run_plus_run;
      [assumption|assumption
      |first [apply head_of_digits; assumption
             |apply head_of_spaces; [assumption|reflexivity]
             |reflexivity]
      |]
    | apply run_star_run;
      [assumption
      |first [apply head_of_digits; assumption
             |apply head_of_spaces; [assumption|reflexivity]
             |reflexivity]
      |]
    | progress cbn [app]
    | apply run_lit ].

(** The reduced pattern on a name, a score, a percentage and whatever
    follows. *)
Lemma simplePredRegex_match (body : str) z (ws d1 d2 ws2 p rest : str) :
  forallb (cmatch AnyChar) (body ++ [z]) = true ->
  forallb (fun a => negb (is_digit a)) (body ++ [z]) = true ->
  is_space z = false ->
  forallb is_space ws = true -> ws <> [] -> forallb is_space ws2 = true ->
  digits d1 = true -> digits d2 = true -> digits p = true ->
  exists m,
    exec simplePredRegex
      ((body ++ [z]) ++ ws ++ d1 ++ "-" ++ d2 ++ ws2 ++ "(" ++ p ++ "%)" ++ rest) = Some m
    /\ group m 1 = Some (body ++ [z])
    /\ group m 2 = Some (d1 ++ "-" ++ d2)
    /\ group m 3 = Some (p ++ "%").
Proof.
  intros Hany Hnd Hz Hws Hwsne Hws2 H1 H2 Hp.
  apply digits_spec in H1 as [Hne1 H1]. apply digits_spec in H2 as [Hne2 H2].
  apply digits_spec in Hp as [Hnep Hp].
  set (s := (body ++ [z]) ++ ws ++ d1 ++ "-" ++ d2 ++ ws2 ++ "(" ++ p ++ "%)" ++ rest).
  eassert (Hrun : run [Open 1; lazy_plus AnyChar; Close 1; plus Space;
                       Open 2; plus Digit; One (Lit "-"); plus Digit; Close 2;
                       star Space; One (Lit "("); Open 3; plus Digit; One (Lit "%");
                       Close 3; One (Lit ")")] 0 s no_captures = Some _).
  { unfold s. apply run_lazy_name.
    - exact Hany.
    - intros j Hj. apply pred_head_fails; assumption.
    - pred_steps. reflexivity. }
  set (name := body ++ [z]) in *.
  unfold exec, simplePredRegex. rewrite search_Bos, Hrun, !close_open.
  eexists. split; [reflexivity|]. split; [|split].
  - group_eq (@nil ascii) name.
  - unfold s. group_eq (name ++ ws) (d1 ++ "-" ++ d2).
  - unfold s. group_eq (name ++ ws ++ d1 ++ "-" ++ d2 ++ ws2 ++ "(") (p ++ "%").
Qed.

(** The full pattern on a name, a score, a percentage, a possession count
    in brackets and whatever follows. *)
Lemma predRegex_match (body : str) z (ws d1 d2 ws2 p ws3 q rest : str) :
  forallb (cmatch AnyChar) (body ++ [z]) = true ->
  forallb (fun a => negb (is_digit a)) (body ++ [z]) = true ->
  is_space z = false ->
  forallb is_space ws = true -> ws <> [] ->
  forallb is_space ws2 = true -> forallb is_space ws3 = true ->
  digits d1 = true -> digits d2 = true -> digits p = true -> digits q = true ->
  exists m,
    exec predRegex
      ((body ++ [z]) ++ ws ++ d1 ++ "-" ++ d2 ++ ws2 ++ "(" ++ p ++ "%)"
         ++ ws3 ++ "[" ++ q ++ "]" ++ rest) = Some m
    /\ group m 1 = Some (body ++ [z])
    /\ group m 2 = Some (d1 ++ "-" ++ d2)
    /\ group m 3 = Some (p ++ "%")
    /\ group m 4 = Some q.
Proof.
  intros Hany Hnd Hz Hws Hwsne Hws2 Hws3 H1 H2 Hp Hq.
  apply digits_spec in H1 as [Hne1 H1]. apply digits_spec in H2 as [Hne2 H2].
  apply digits_spec in Hp as [Hnep Hp]. apply digits_spec in Hq as [Hneq Hq].
  set (s := (body ++ [z]) ++ ws ++ d1 ++ "-" ++ d2 ++ ws2 ++ "(" ++ p ++ "%)"
              ++ ws3 ++ "[" ++ q ++ "]" ++ rest).
  eassert (Hrun : run [Open 1; lazy_plus AnyChar; Close 1; plus Space;
                       Open 2; plus Digit; One (Lit "-"); plus Digit; Close 2;
                       star Space; One (Lit "("); Open 3; plus Digit; One (Lit "%");
                       Close 3; One (Lit ")"); star Space; One (Lit "["); Open 4;
                       plus Digit; Close 4; One (Lit "]")] 0 s no_captures = Some _).
  { unfold s. apply run_lazy_name.
    - exact Hany.
    - intros j Hj. apply pred_head_fails; assumption.
    - pred_steps. reflexivity. }
  set (name := body ++ [z]) in *.
  unfold exec, predRegex. rewrite search_Bos, Hrun, !close_open.
  eexists. split; [reflexivity|]. split; [|split; [|split]].
  - group_eq (@nil ascii) name.
  - unfold s. group_eq (name ++ ws) (d1 ++ "-" ++ d2).
  - unfold s. group_eq (name ++ ws ++ d1 ++ "-" ++ d2 ++ ws2 ++ "(") (p ++ "%").
  - unfold s.
    group_eq (name ++ ws ++ d1 ++ "-" ++ d2 ++ ws2 ++ "(" ++ p ++ "%)"
                ++ ws3 ++ "[") q.
Qed.

(** A text the reduced pattern matches has an opening parenthesis. *)
Lemma simplePredRegex_paren s m : exec simplePredRegex s = Some m -> "("%char ∈ s.
Proof.
  unfold exec. intros H.
  destruct (search simplePredRegex 0 s) as [[[b e] st]|] eqn:E; [|discriminate].
  apply search_inv in E as (pre & s' & -> & -> & E).
  unfold simplePredRegex in E. run_inv E.
  repeat (rewrite elem_of_app || rewrite elem_of_cons). tauto.
Qed.

(** A text the full pattern matches has an opening parenthesis and an
    opening bracket. *)
Lemma predRegex_bracket s m :
  exec predRegex s = Some m -> "("%char ∈ s /\ "["%char ∈ s.
Proof.
  unfold exec. intros H.
  destruct (search predRegex 0 s) as [[[b e] st]|] eqn:E; [|discriminate].
  apply search_inv in E as (pre & s' & -> & -> & E).
  unfold predRegex in E. run_inv E.
  split; repeat (rewrite elem_of_app || rewrite elem_of_cons); tauto.
Qed.

Lemma predRegex_none s : "["%char ∉ s -> exec predRegex s = None.
Proof.
  intros Hs. destruct (exec predRegex s) as [m|] eqn:E; [|reflexivity].
  apply predRegex_bracket in E as [_ E]. contradiction.
Qed.

Lemma pred_none s :
  "("%char ∉ s -> exec predRegex s = None /\ exec simplePredRegex s = None.
Proof.
  intros Hs. split.
  - destruct (exec predRegex s) as [m|] eqn:E; [|reflexivity].
    apply predRegex_bracket in E as [E _]. contradiction.
  - destruct (exec simplePredRegex s) as [m|] eqn:E; [|reflexivity].
    apply simplePredRegex_paren in E. contradiction.
Qed.

(** Below 2{^53} the numbers of a score and their difference are exact. *)
Lemma margin_exact d1 d2 :
  (dec d1 < 2 ^ 53)%Z -> (dec d2 < 2 ^ 53)%Z ->
  sub (to_double (dec d1)) (to_double (dec d2)) = Num (dec d1 - dec d2).
Proof.
  intros H1 H2. pose proof (dec_nonneg d1). pose proof (dec_nonneg d2).
  rewrite !to_double_safe by lia. cbn [sub].
  apply to_double_safe. lia.
Qed.

End PredictionMatch.

(** C8.  The prediction of a row is read with the full pattern first: a name
    without digit, white space, score-score, (NN%), [possessions] gives the
    trimmed name, the score, the percentage, the number in the brackets and,
    as [PredictedMOV], the first number of the score minus the second.  When
    the text has no bracket the pattern without the possessions reads the
    same fields and [PredictedPossessions] is null.  When the text has no
    parenthesis both patterns fail and all five fields are null.  Whichever
    pattern matches, on any text, the score is two digit strings around a
    dash and the margin their difference, computed on the numbers JavaScript
    reads from them, which are the integers themselves below 2{^53}. *)
Theorem prediction_parsed (rowData : TableRow) :
  let pred := default "" (rowData !! "Prediction") in
  let r := parsePrediction rowData in
  (forall (body : str) z (ws d1 d2 ws2 p ws3 q rest : str),
     pred = (body ++ [z]) ++ ws ++ d1 ++ "-" ++ d2 ++ ws2 ++ "(" ++ p ++ "%)"
              ++ ws3 ++ "[" ++ q ++ "]" ++ rest ->
     forallb (cmatch AnyChar) (body ++ [z]) = true ->
     forallb (fun a => negb (is_digit a)) (body ++ [z]) = true ->
     is_space z = false ->
     forallb is_space ws = true -> ws <> [] ->
     forallb is_space ws2 = true -> forallb is_space ws3 = true ->
     digits d1 = true -> digits d2 = true -> digits p = true -> digits q = true ->
     r = {| PredictedWinner := Some (trim (body ++ [z]));
            PredictedScore := Some (d1 ++ "-" ++ d2);
            WinProbability := Some (p ++ "%");
            PredictedPossessions := Some (to_double (dec q));
            PredictedMOV := Some (sub (to_double (dec d1)) (to_double (dec d2))) |}
     /\ ((dec q < 2 ^ 53)%Z -> to_double (dec q) = Num (dec q))
     /\ ((dec d1 < 2 ^ 53)%Z -> (dec d2 < 2 ^ 53)%Z ->
         sub (to_double (dec d1)) (to_double (dec d2)) = Num (dec d1 - dec d2)))
  /\ (forall (body : str) z (ws d1 d2 ws2 p rest : str),
        pred = (body ++ [z]) ++ ws ++ d1 ++ "-" ++ d2 ++ ws2 ++ "(" ++ p ++ "%)" ++ rest ->
        "["%char ∉ pred ->
        forallb (cmatch AnyChar) (body ++ [z]) = true ->
        forallb (fun a => negb (is_digit a)) (body ++ [z]) = true ->
        is_space z = false ->
        forallb is_space ws = true -> ws <> [] -> forallb is_space ws2 = true ->
        digits d1 = true -> digits d2 = true -> digits p = true ->
        r = {| PredictedWinner := Some (trim (body ++ [z]));
               PredictedScore := Some (d1 ++ "-" ++ d2);
               WinProbability := Some (p ++ "%");
               PredictedPossessions := None;
               PredictedMOV := Some (sub (to_double (dec d1)) (to_double (dec d2))) |}
        /\ ((dec d1 < 2 ^ 53)%Z -> (dec d2 < 2 ^ 53)%Z ->
            sub (to_double (dec d1)) (to_double (dec d2)) = Num (dec d1 - dec d2)))
  /\ ("("%char ∉ pred ->
      r = {| PredictedWinner := None; PredictedScore := None;
             WinProbability := None; PredictedPossessions := None;
             PredictedMOV := None |})
  /\ (forall m, exec predRegex pred = Some m ->
      exists w d1 d2 p q,
        digits d1 = true /\ digits d2 = true /\ digits p = true /\ digits q = true
        /\ group m 1 = Some w /\ group m 2 = Some (d1 ++ "-" ++ d2)
        /\ group m 3 = Some (p ++ "%") /\ group m 4 = Some q
        /\ r = {| PredictedWinner := Some (trim w);
                  PredictedScore := Some (d1 ++ "-" ++ d2);
                  WinProbability := Some (p ++ "%");
                  PredictedPossessions := Some (to_double (dec q));
                  PredictedMOV := Some (sub (to_double (dec d1)) (to_double (dec d2))) |})
  /\ (exec predRegex pred = None ->
      forall m, exec simplePredRegex pred = Some m ->
      exists w d1 d2 p,
        digits d1 = true /\ digits d2 = true /\ digits p = true
        /\ group m 1 = Some w /\ group m 2 = Some (d1 ++ "-" ++ d2)
        /\ group m 3 = Some (p ++ "%")
        /\ r = {| PredictedWinner := Some (trim w);
                  PredictedScore := Some (d1 ++ "-" ++ d2);
                  WinProbability := Some (p ++ "%");
                  PredictedPossessions := None;
                  PredictedMOV := Some (sub (to_double (dec d1)) (to_double (dec d2))) |})
  /\ (exec predRegex pred = None -> exec simplePredRegex pred = None ->
      r = {| PredictedWinner := None; PredictedScore := None;
             WinProbability := None; PredictedPossessions := None;
             PredictedMOV := None |})
  /\ (pred = "Duke 82-75 (75%) [68]" ->
      r = {| PredictedWinner := Some "Duke"; PredictedScore := Some "82-75";
             WinProbability := Some "75%";
             PredictedPossessions := Some (Num 68);
             PredictedMOV := Some (Num 7) |}).
Proof.
  cbv zeta. unfold parsePrediction.
  set (pred := default "" (rowData !! "Prediction")).
  assert (Hq : forall q, digits q = true -> truthy q = true).
  { intros q Hq. apply digits_spec in Hq as [Hq _]. destruct q; [congruence|reflexivity]. }
  split; [|split; [|split; [|split; [|split; [|split]]]]].
  - intros body z ws d1 d2 ws2 p ws3 q rest E Hany Hnd Hz Hws Hwsne Hws2 Hws3 H1 H2 Hp Hq'.
    destruct (predRegex_match body z ws d1 d2 ws2 p ws3 q rest)
      as (m & Hm & G1 & G2 & G3 & G4); try assumption.
    rewrite E, Hm, G1, G2, G3, G4.
    rewrite scoreMOV_digits, !Number_digits, parseFloat_digits, Hq by assumption.
    split; [reflexivity|]. split.
    + intros Hb. pose proof (dec_nonneg q). apply to_double_safe. lia.
    + apply margin_exact.
  - intros body z ws d1 d2 ws2 p rest E Hb Hany Hnd Hz Hws Hwsne Hws2 H1 H2 Hp.
    destruct (simplePredRegex_match body z ws d1 d2 ws2 p rest)
      as (m & Hm & G1 & G2 & G3); try assumption.
    rewrite (predRegex_none pred Hb). rewrite E, Hm, G1, G2, G3.
    rewrite scoreMOV_digits, !Number_digits by assumption.
    split; [reflexivity|]. apply margin_exact.
  - intros Hp. destruct (pred_none pred Hp) as [-> ->]. reflexivity.
  - intros m Hm. rewrite Hm.
    destruct (predRegex_shape _ _ Hm) as
      (w & d1 & d2 & p & q & H1 & H2 & Hp & Hq' & G1 & G2 & G3 & G4).
    exists w, d1, d2, p, q. rewrite G1, G2, G3, G4.
    rewrite scoreMOV_digits, !Number_digits, parseFloat_digits, Hq by assumption.
    repeat (split; [assumption || reflexivity|]). reflexivity.
  - intros Hn m Hm. rewrite Hn, Hm.
    destruct (simplePredRegex_shape _ _ Hm) as
      (w & d1 & d2 & p & H1 & H2 & Hp & G1 & G2 & G3).
    exists w, d1, d2, p. rewrite G1, G2, G3.
    rewrite scoreMOV_digits, !Number_digits by assumption.
    repeat (split; [assumption || reflexivity|]). reflexivity.
  - intros Hn Hs. rewrite Hn, Hs. reflexivity.
  - intros ->. vm_compute. reflexivity.
Qed.

Lemma prediction_parsed_witness :
  parsePrediction (<["Prediction" := "Duke 82-75 (75%) [68]"]> ∅) =
    {| PredictedWinner := Some "Duke"; PredictedScore := Some "82-75";
       WinProbability := Some "75%";
       PredictedPossessions := Some (Num 68);
       PredictedMOV := Some (Num 7) |}
  /\ parsePrediction (<["Prediction" := "Iowa St.  80-75(65%)"]> ∅) =
    {| PredictedWinner := Some "Iowa St."; PredictedScore := Some "80-75";
       WinProbability := Some "65%";
       PredictedPossessions := None;
       PredictedMOV := Some (Num 5) |}
  /\ parsePrediction (<["Prediction" := "TBD"]> ∅) =
    {| PredictedWinner := None; PredictedScore := None;
       WinProbability := None; PredictedPossessions := None;
       PredictedMOV := None |}
  /\ parsePrediction ∅ =
    {| PredictedWinner := None; PredictedScore := None;
       WinProbability := None; PredictedPossessions := None;
       PredictedMOV := None |}.
Proof.
  split; [|split; [|split]].
  - destruct (prediction_parsed (<["Prediction" := "Duke 82-75 (75%) [68]"]> ∅))
      as (H & _).
    cbv zeta in H.
    pose proof (H "Duk" "e"%char " " "82" "75" " " "75" " " "68" ""
                  eq_refl eq_refl eq_refl eq_refl eq_refl ltac:(discriminate)
                  eq_refl eq_refl eq_refl eq_refl eq_refl eq_refl) as [E _].
    exact E.
  - destruct (prediction_parsed (<["Prediction" := "Iowa St.  80-75(65%)"]> ∅))
      as (_ & H & _).
    cbv zeta in H.
    pose proof (H "Iowa St" "."%char "  " "80" "75" "" "65" ""
                  eq_refl ltac:(by_compute) eq_refl eq_refl eq_refl eq_refl
                  ltac:(discriminate) eq_refl eq_refl eq_refl eq_refl) as [E _].
    exact E.
  - destruct (prediction_parsed (<["Prediction" := "TBD"]> ∅)) as (_ & _ & H & _).
    apply H. by_compute.
  - destruct (prediction_parsed ∅) as (_ & _ & H & _).
    apply H. by_compute.
Defined.
